(* ===== verification/_CoqProject ===== *)
-Q . S2P
Prelude.v
OrderedMap.v
Sort.v
Core.v
Checked.v
Codec.v
Counted.v
Hash.v
Bounded.v
Ids.v
Domain.v
Policy.v
Fixtures.v
Foundations.v
Ledger.v
LedgerSpec.v
Classifier.v
Hitting.v
Localizer.v
LocalizerSpec.v
Validator.v
Fence.v
Authority.v
Record.v
Journal.v
JournalSpec.v
Snapshot.v
Durable.v
Store.v
StoreSpec.v
Recovery.v
Net.v
Sockets.v
SimSockets.v
Frame.v
Session.v
Messages.v
Wire.v
Engine.v
EngineSpec.v
Coordinator.v
Server.v
ServerSpec.v
Service.v
System.v
SystemSpec.v
Deployment.v
Replies.v
Lifecycle.v
LifecycleSpec.v
Handles.v
Shutdown.v
Client.v
Dial.v
Loopback.v
Remote.v
Console.v
Cli.v
Examples.v
