(* ===== verification/Prelude.v ===== *)
(** * Blackhole Guard: verification development

    Blackhole Guard decides, from delivery evidence, whether traffic of a subject is being
    lost without a trace (a black hole), localizes the loss to path elements, and hands out
    fencing intents whose every change is a durable record first. This library is a shallow
    embedding of its C++20 sources under [src/]: values are records and inductive types,
    operations are executable functions on explicit state, and the theorems hold for the
    whole program from the byte codec to the running server. This file is the prelude:
    notations, tactics, hint databases, and the generic lemmas the components share.

    ** The program and its parts

    Evidence is admitted into a bounded ledger ([evidence]); the classifier ([diagnosis])
    reads what a scope retains and decides; the localizer ([localize]) explains failed
    segments by a minimum hitting set; the registry of fences ([authority]) carries the
    lifecycle of each intent; the store ([persist]) makes every change durable in a journal
    and a snapshot; the engine ([service/engine]) owns ledger, registry and store behind one
    mutex; the server ([service/server]) frames, authenticates by session, dispatches and
    answers; the client ([service/client]) is the other end of the connection.

    ** Files and what they model

    Foundations
    - [OrderedMap], [Sort]: [std::map] as an ordered list with the interface [Ord] /
      [OrdLaws]; [std::sort], [std::unique] and ordered set insertion.
    - [Core], [Checked], [Bounded]: [core/outcome.hpp], [core/checked.hpp],
      [core/bitops.hpp], [core/bounded.hpp] and the pure part of [core/path.cpp].
    - [Codec], [Counted]: [core/canonical.hpp] and [core/canonical.cpp]; a decoder is a
      computation in the monad [Decoder], and [CodecLaws] is the interface that every pair
      of [encode] / [decode] discharges: what is written is read back, only canonical bytes
      are accepted, a refusal is sticky.
    - [Hash], [Ids]: [core/hash], [core/nonce.cpp] (the seeded source), [core/ids],
      [core/time].
    - [Domain], [Policy]: [domain/*.hpp], [domain/evidence.cpp], [domain/policy.cpp].
    - [Fixtures]: concrete inputs; [Foundations]: the guarantees of this group.

    Deciding
    - [Ledger], [LedgerSpec]: [evidence/ledger]; [Ledger.admit] is
      [EvidenceLedger::admit] on every branch.
    - [Classifier]: [diagnosis/classifier]; the decision table of the code ([rule]), the one
      of its documentation ([documented_rule]), and [classify] proved to follow the first,
      which is the second but for one case.
    - [Hitting], [Localizer], [LocalizerSpec], [Validator]: [localize/localizer]; the oracle
      and the enumerator, the reduction around them, the abstract contract (a minimum
      localization) and its proof, and the independent validator.
    - [Fence], [Authority]: [authority/authority]; the registry as a map with counters and
      [FenceOp] its public calls, [clear] included; restoration, and the decision record.

    Durability
    - [Record], [Journal], [JournalSpec], [Snapshot]: [persist/record], [persist/journal],
      [persist/snapshot] over a model of the three files a store owns, in which any call may
      fail part of the way.
    - [Durable], [Store], [StoreSpec], [Recovery]: [persist/store]; commits in the monad
      [StoreM], the journal as the abstract state, opening after a crash.

    Service
    - [Net], [Sockets], [SimSockets]: [service/net.cpp]; the loops that send and receive over
      the interface [SocketApi] / [SocketLaws], the calls that make, wait on, shut down and
      close handles over [SocketOs] / [SocketOsLaws], and a simulated socket runtime that
      obeys them.
    - [Frame], [Session], [Messages], [Wire]: [protocol/frame], [protocol/session],
      [protocol/messages]; [Wire] joins a message to the frame that carries it.
    - [Engine], [EngineSpec], [Coordinator]: [service/engine]; [EngineOp] is one entry point,
      [run_engine] a run, over an arbitrary clock and disk.
    - [Server], [ServerSpec], [Service]: [service/server], the dispatch of one frame and the
      loop of one connection.
    - [System], [SystemSpec], [Deployment]: the connections' threads interleaved, as the
      steps they take on the shared data.
    - [Replies]: the size of what the server has ready to send.
    - [Lifecycle], [LifecycleSpec], [Handles], [Shutdown]: [Server::start], [Server::stop],
      the accept thread, the slots and the threads of the connections, over [System] and
      [Sockets]; every handle has one holder, and stopping comes to an end.
    - [Client], [Dial], [Loopback], [Remote]: [service/client], the handle it keeps, and
      client and server joined by a stream socket, the interface [ServerSocket].
    - [Console], [Cli], [Examples]: [tools/bhg_cli.cpp] and [examples/], programs over all of
      these: [ProgM] is a program that owns an engine and prints.

    A definition carries the name of the function it models; where C++ overloads a name the
    type is appended ([encode_Decision]). A comment in front of it gives its lines.

    ** How C++ is modelled

    - Integers are [Z] in the range of their type; counters wrap where the type does
      ([incr], [u64_add]) and checked operations return an option. Signed time arithmetic is
      within [int64_t] by hypothesis where C++ would be undefined, and the hypothesis is
      named in the theorem.
    - Bytes are [list byte]; masks are [Z] with [Z.testbit]; text is a list of bytes.
    - An [Outcome] that is not [Ok] is a value, never an exception; a reference argument that
      is filled on success is part of the result.
    - A mutex that an entry point holds from start to end makes it one atomic step. The one
      entry point that lets go of its lock, [Engine::localize], is two steps, and every
      theorem about interleavings allows other steps in between. The session table and the
      counters of the server are behind mutexes of their own, so a dispatch is three steps, and the end
      of a connection two.
    - A call of [send] or [recv] may not return: the operations of the operating system give
      [None] then, and so does the function that makes the call.
    - A thread of the server is a program counter and the handle it owns; a step of it is the
      code up to the next blocking call, lock or shared flag, one call of [send] or [recv] a
      step, and a thread that waits (for a connection, to send or receive, for a thread to
      end) has no step. The rest of the process may open and close handles of its own in between.
    - The clock is a function from the number of the reading to a time, arbitrary in the
      theorems; nonces come from an arbitrary stream; a disk is three files with an arbitrary
      list of faults that the calls of the C library consume.

    ** What the theorems show

    - Decisions are right: a black hole is reported exactly when its conditions hold
      ([Classifier.blackhole_iff], [classify_follows_rule], [corroborated_iff]), the order of
      evidence does not matter ([classify_order_independent]), and a localization is the
      lexicographically first minimum one ([LocalizerSpec.localize_minimum],
      [localize_decides], [Validator.verify_localization_sound]).
    - Authority is earned: an intent leaves only with a durable decision, every fence in
      memory has its record, a fence is lifted only on positive evidence, and what cannot be
      recorded is not granted ([Coordinator], [Authority], [Fence]).
    - State survives: the journal refines the state (up to the count of fences where an intent
      was committed twice, [StoreSpec.recount]), a crash at any byte loses no commit
      that was synced, opening recovers, a checkpoint folds, a replacement is atomic
      ([StoreSpec], [Recovery], [JournalSpec], [Snapshot]).
    - Everything is bounded and accounted for: ledger, registry, session table, buffers and
      connections respect their limits, and the counters balance in every reachable state
      ([LedgerSpec], [Fence], [Session], [Deployment], [Coordinator]).
    - The wire is exact: codecs round trip, frames are reassembled however they are cut,
      each frame is answered once, requests act once, in order and only under their own
      session, and a remote call is the local one over any stream that delivers ([Wire],
      [Frame], [Service], [Deployment], [Remote]).
    - The server starts and stops cleanly: every thread is in a slot or about to be joined,
      every handle is open and has one holder, none is leaked or closed for somebody else,
      [stop] returns behind a wake-up connection, releasing the threads that are blocked on
      their peers, and a stopped server holds nothing ([Handles], [Shutdown]).
    - Programs end cleanly: whatever a directory, a disk or a client does, a command ends with
      a documented exit code, closed accounts and nothing held ([Cli], [Examples]).
    - Where the code does less than it says, a theorem shows the run; it stands at the end of
      the component's files.

    ** Bounds and fuel

    Recursion is structural except for these, each with a fuel that is proved enough.
    - The oracle and the enumerator of [Hitting] recurse on the number of elements still to
      choose, the program's own argument; the loops over sizes and the greedy loop of
      [Localizer] run 65 times at most, for a mask has 64 bits. The node budget is the
      program's own, and [LocalizerSpec.localize_decides] gives one with which a decision is
      certain.
    - The reference solver runs through all sizes and, for each, through at most [2 ^ n]
      combinations of [n] candidates.
    - [Journal.scan_journal] takes the length of the file plus one: each record takes at
      least its header ([JournalSpec]).
    - [Frame.drain] and [Server.serve_frames] take the pending bytes plus one: each frame
      taken off removes at least its header.
    - [Client.exchange_fuel] is the largest frame plus two: each receive that returns and does
      not end the exchange adds at least one byte to a buffer that refuses more than that
      ([Remote.exchange_returns]).
    - [Net.send_loop] takes the length of what is sent: each round sends at least one byte.
    - [Localizer.lower_bound] takes the length of the range, which it halves.
    - The threads of [Lifecycle] have no fuel; [Shutdown.steps_left] bounds what each has left
      once the server is stopping, and [Shutdown.stop_returns] gives the bound in numbers.

    ** Not modelled

    - The socket calls of the operating system: [SocketOs] names them and [SocketOsLaws] says
      what they promise of handles, listeners, waiting connections and handles that were shut
      down, which block no longer. The limit of the size of an [fd_set] and the signal of a
      send to a closed peer are not modelled.
    - [NetRuntime] (a flag of [SocketOs]), the entropy source of [core/nonce.cpp], [SystemClock] and the directory
      and permission calls of [core/path.cpp] and [persist/store.cpp]: external. What they
      return is an argument or an arbitrary stream.
    - The bytes of the snapshot and journal below [fwrite], [fflush] and [fsync]: the file
      model of [Journal] states what the store assumes of them.
    - The layout of printed text ([Cli] and [Examples] keep what a format string is given),
      copy and move plumbing, and the tests, which only call the library. *)
From Stdlib Require Export ZArith Lia.
From Stdlib Require Export Strings.Byte.
From stdpp Require Export prelude.

#[global] Unset Program Cases.
Local Open Scope Z_scope.

(** ** Notations of the development *)

Declare Scope bhg_scope.
Delimit Scope bhg_scope with bhg.

(** C++ [operator==] and [operator!=] on the value types of the program. *)
Notation "a == b" := (bool_decide (a = b)) (at level 70, no associativity) : bhg_scope.
Notation "a != b" := (negb (bool_decide (a = b))) (at level 70, no associativity) : bhg_scope.
Open Scope bhg_scope.

(** ** Automation shared by the files *)

Create HintDb bhg.
Create Rewrite HintDb bhg.
Create Rewrite HintDb zlen.

(** Turn boolean tests of the code into propositions. *)
Ltac bool_prop :=
  repeat match goal with
  | H : (_ && _)%bool = true |- _ => apply andb_true_iff in H; destruct H
  | H : (_ || _)%bool = false |- _ => apply orb_false_iff in H; destruct H
  | H : (_ || _)%bool = true |- _ => apply orb_true_iff in H
  | H : (_ && _)%bool = false |- _ => apply andb_false_iff in H
  | H : negb _ = true |- _ => apply negb_true_iff in H
  | H : negb _ = false |- _ => apply negb_false_iff in H
  | H : (_ <? _) = true |- _ => apply Z.ltb_lt in H
  | H : (_ <? _) = false |- _ => apply Z.ltb_ge in H
  | H : (_ <=? _) = true |- _ => apply Z.leb_le in H
  | H : (_ <=? _) = false |- _ => apply Z.leb_gt in H
  | H : (_ =? _) = true |- _ => apply Z.eqb_eq in H
  | H : (_ =? _) = false |- _ => apply Z.eqb_neq in H
  | H : bool_decide _ = true |- _ => apply bool_decide_eq_true in H
  | H : bool_decide _ = false |- _ => apply bool_decide_eq_false in H
  end.

(** Case analysis on the innermost test of the goal. *)
Ltac split_if :=
  match goal with
  | |- context [if ?b then _ else _] =>
      lazymatch b with
      | context [if _ then _ else _] => fail
      | _ => destruct b eqn:?
      end
  end.

Ltac split_if_in H :=
  match type of H with
  | context [if ?b then _ else _] =>
      lazymatch b with
      | context [if _ then _ else _] => fail
      | _ => destruct b eqn:?
      end
  end.

(** Evaluate the equality tests between closed enumerators. *)
Ltac eval_beq t k :=
  match t with
  | context [@bool_decide (?a = ?b) ?d] =>
      let v := eval vm_compute in (@bool_decide (a = b) d) in
      lazymatch v with true => idtac | false => idtac end;
      k (@bool_decide (a = b) d) v
  end.
Ltac enum_eval :=
  repeat match goal with
  | |- ?g => eval_beq g ltac:(fun x v => change x with v)
  | H : ?g |- _ => eval_beq g ltac:(fun x v => change x with v in H)
  end; cbn [andb orb negb] in *.

(** ** Decidable equality through an injection (used for the large enums) *)

Lemma eq_dec_by_inj {A B} `{EqDecision B} (f : A -> B) (Hf : forall x y, f x = f y -> x = y)
  : EqDecision A.
Proof.
  intros x y. destruct (decide (f x = f y)) as [E | E].
  - left. by apply Hf.
  - right. intros ->. by apply E.
Defined.

Lemma beq_sym {A} `{EqDecision A} (a b : A) : (a == b) = (b == a).
Proof. apply bool_decide_ext. split; congruence. Qed.

Lemma beq_refl {A} `{EqDecision A} (a : A) : (a == a) = true.
Proof. by apply bool_decide_eq_true. Qed.

Lemma beq_ne {A} `{EqDecision A} (a b : A) : a <> b -> (a == b) = false.
Proof. apply bool_decide_eq_false. Qed.

(** ** Sizes as [size_t] values *)

Definition zlen {A} (l : list A) : Z := Z.of_nat (length l).

Lemma zlen_nonneg {A} (l : list A) : 0 <= zlen l.
Proof. unfold zlen. lia. Qed.

Lemma zlen_nil {A} : zlen (@nil A) = 0.
Proof. reflexivity. Qed.

Lemma zlen_cons {A} (x : A) l : zlen (x :: l) = 1 + zlen l.
Proof. unfold zlen. simpl. lia. Qed.

Lemma zlen_app {A} (l k : list A) : zlen (l ++ k) = zlen l + zlen k.
Proof. unfold zlen. rewrite length_app. lia. Qed.

#[export] Hint Rewrite @zlen_nil @zlen_cons @zlen_app : zlen.
#[export] Hint Resolve zlen_nonneg : bhg.

(** ** Machine integers: values are [Z], their width is a range *)

Definition in_u (w : Z) (v : Z) : Prop := 0 <= v < 2 ^ w.
Definition in_i64 (v : Z) : Prop := - 2 ^ 63 <= v < 2 ^ 63.
Abbreviation in_u8 := (in_u 8).
Abbreviation in_u16 := (in_u 16).
Abbreviation in_u32 := (in_u 32).
Abbreviation in_u64 := (in_u 64).

(** Unsigned wrap-around at width [w]. *)
Definition wrap (w v : Z) : Z := v mod 2 ^ w.

(** [static_cast] between [int64_t] and [uint64_t]. *)
Definition u64_of_i64 (v : Z) : Z := v mod 2 ^ 64.
Definition i64_of_u64 (v : Z) : Z := if v <? 2 ^ 63 then v else v - 2 ^ 64.

Lemma in_u_wrap w v : 0 <= w -> in_u w (wrap w v).
Proof. intros Hw. apply Z.mod_pos_bound. by apply Z.pow_pos_nonneg. Qed.

Lemma wrap_small w v : in_u w v -> wrap w v = v.
Proof. intros Hv. by apply Z.mod_small. Qed.

Lemma u64_of_i64_range v : in_u64 (u64_of_i64 v).
Proof. apply Z.mod_pos_bound. lia. Qed.

Lemma i64_of_u64_of_i64 v : in_i64 v -> i64_of_u64 (u64_of_i64 v) = v.
Proof.
  unfold in_i64, i64_of_u64, u64_of_i64. intros Hv.
  destruct (Z.ltb_spec (v mod 2 ^ 64) (2 ^ 63)) as [H | H].
  - destruct (decide (0 <= v)).
    + rewrite Z.mod_small; lia.
    + exfalso. rewrite <- (Z.mod_add v 1) in H by lia. rewrite Z.mod_small in H; lia.
  - destruct (decide (0 <= v)).
    + exfalso. rewrite Z.mod_small in H; lia.
    + rewrite <- (Z.mod_add v 1) by lia. rewrite Z.mod_small; lia.
Qed.

Lemma i64_of_u64_range v : in_u64 v -> in_i64 (i64_of_u64 v).
Proof. unfold in_u, in_i64, i64_of_u64. destruct (Z.ltb_spec v (2 ^ 63)); lia. Qed.

Lemma u64_of_i64_of_u64 v : in_u64 v -> u64_of_i64 (i64_of_u64 v) = v.
Proof.
  unfold in_u, i64_of_u64, u64_of_i64. intros Hv.
  destruct (Z.ltb_spec v (2 ^ 63)).
  - rewrite Z.mod_small; lia.
  - rewrite <- (Z.mod_add _ 1) by lia. rewrite Z.mod_small; lia.
Qed.

#[export] Hint Resolve u64_of_i64_range i64_of_u64_range : bhg.

(** ** Bytes ([std::byte]) *)

Definition byte_of_Z (v : Z) : byte :=
  match Byte.of_N (Z.to_N (v mod 256)) with Some b => b | None => x00 end.
Definition Z_of_byte (b : byte) : Z := Z.of_N (Byte.to_N b).

Lemma Z_of_byte_range b : 0 <= Z_of_byte b < 256.
Proof. unfold Z_of_byte. pose proof (Byte.to_N_bounded b). lia. Qed.

Lemma Z_of_byte_of_Z v : Z_of_byte (byte_of_Z v) = v mod 256.
Proof.
  unfold Z_of_byte, byte_of_Z.
  assert (0 <= v mod 256 < 256) by (apply Z.mod_pos_bound; lia).
  destruct (Byte.of_N (Z.to_N (v mod 256))) as [b |] eqn:E.
  - apply Byte.to_of_N in E. rewrite E. lia.
  - apply Byte.of_N_None_iff in E. lia.
Qed.

Lemma byte_of_Z_of_byte b : byte_of_Z (Z_of_byte b) = b.
Proof.
  unfold byte_of_Z. pose proof (Z_of_byte_range b).
  rewrite Z.mod_small by lia. unfold Z_of_byte. rewrite N2Z.id.
  by rewrite Byte.of_to_N.
Qed.

Lemma Z_of_byte_inj a b : Z_of_byte a = Z_of_byte b -> a = b.
Proof. intros H. by rewrite <- (byte_of_Z_of_byte a), H, byte_of_Z_of_byte. Qed.

#[export] Instance byte_eq_dec : EqDecision byte.
Proof. apply (eq_dec_by_inj Z_of_byte). exact Z_of_byte_inj. Defined.

#[export] Hint Rewrite Z_of_byte_of_Z byte_of_Z_of_byte : bhg.

(** ** Little-endian images of integers *)

(** The [n] low bytes of [v], least significant first. *)
Fixpoint le_bytes (n : nat) (v : Z) : list byte :=
  match n with
  | O => []
  | S n => byte_of_Z v :: le_bytes n (Z.shiftr v 8)
  end.

(** The value of a little-endian byte sequence. *)
Fixpoint le_value (bs : list byte) : Z :=
  match bs with
  | [] => 0
  | b :: bs => Z_of_byte b + 256 * le_value bs
  end.

Lemma length_le_bytes n v : length (le_bytes n v) = n.
Proof. revert v. induction n; intros; simpl; auto. Qed.

Lemma zlen_le_bytes n v : zlen (le_bytes n v) = Z.of_nat n.
Proof. unfold zlen. by rewrite length_le_bytes. Qed.

Lemma le_value_bytes n v : le_value (le_bytes n v) = v mod 256 ^ Z.of_nat n.
Proof.
  revert v. induction n as [| n IH]; intros v.
  - simpl. by rewrite Z.mod_1_r.
  - cbn [le_bytes le_value]. rewrite IH, Z_of_byte_of_Z, Z.shiftr_div_pow2 by lia.
    change (2 ^ 8) with 256.
    rewrite Nat2Z.inj_succ, Z.pow_succ_r, Z.rem_mul_r by lia. lia.
Qed.

Lemma le_value_bytes_small n v :
  0 <= v < 256 ^ Z.of_nat n -> le_value (le_bytes n v) = v.
Proof. intros. rewrite le_value_bytes. by apply Z.mod_small. Qed.

Lemma le_value_range bs : 0 <= le_value bs < 256 ^ zlen bs.
Proof.
  induction bs as [| b bs IH]; [done |].
  rewrite zlen_cons, Z.pow_add_r by (pose proof (zlen_nonneg bs); lia).
  cbn [le_value]. pose proof (Z_of_byte_range b).
  change (256 ^ 1) with 256. nia.
Qed.

Lemma le_bytes_value bs : le_bytes (length bs) (le_value bs) = bs.
Proof.
  induction bs as [| b bs IH]; [done |]. cbn [length le_bytes le_value].
  pose proof (Z_of_byte_range b). f_equal.
  - apply Z_of_byte_inj. rewrite Z_of_byte_of_Z.
    rewrite Z.mul_comm, Z.mod_add by lia. by apply Z.mod_small.
  - rewrite Z.shiftr_div_pow2 by lia. change (2 ^ 8) with 256.
    rewrite Z.mul_comm, Z.div_add, Z.div_small by lia. by rewrite Z.add_0_l.
Qed.
