(* ===== verification/OrderedMap.v ===== *)
(** * Three-way comparison and ordered maps

    The program keys its tables with [std::map] and orders keys with [operator<=>].
    This file holds the interface [Ord] / [OrdLaws] (a three-way comparison that agrees
    with equality), lexicographic composition, and [std::map] as a list of pairs in
    ascending key order: lookup, insert-or-assign, erase, and their laws. *)
From S2P Require Import Prelude.
Local Open Scope Z_scope.

(** ** [operator<=>] *)

Class Ord (K : Type) := cmp : K -> K -> comparison.

Class OrdLaws (K : Type) `{Ord K} := {
  cmp_eq : forall a b : K, cmp a b = Eq -> a = b;
  cmp_refl : forall a : K, cmp a a = Eq;
  cmp_antisym : forall a b : K, cmp b a = CompOpp (cmp a b);
  cmp_trans : forall a b c : K, cmp a b = Lt -> cmp b c = Lt -> cmp a c = Lt;
}.

#[export] Instance Ord_Z : Ord Z := Z.compare.
#[export] Instance OrdLaws_Z : OrdLaws Z.
Proof.
  split; unfold cmp, Ord_Z.
  - apply Z.compare_eq.
  - apply Z.compare_refl.
  - intros. apply Z.compare_antisym.
  - intros a b c. rewrite !Z.compare_lt_iff. lia.
Qed.

(** [if (a.x != b.x) return a.x <=> b.x; ...] *)
Definition cmp_then (c1 c2 : comparison) : comparison :=
  match c1 with Eq => c2 | _ => c1 end.

(** Lexicographic order on lists of integers, the common image of the key orders. *)
Fixpoint lex (a b : list Z) : comparison :=
  match a, b with
  | [], [] => Eq
  | [], _ :: _ => Lt
  | _ :: _, [] => Gt
  | x :: a, y :: b => cmp_then (x ?= y) (lex a b)
  end.

#[export] Instance Ord_list : Ord (list Z) := lex.
#[export] Instance OrdLaws_list : OrdLaws (list Z).
Proof.
  split; unfold cmp, Ord_list.
  - induction a as [| x a IH]; intros [| y b]; simpl; try done.
    destruct (Z.compare_spec x y); simpl; try done. intros H'. f_equal; auto.
  - induction a as [| x a IH]; simpl; [done |]. by rewrite Z.compare_refl.
  - induction a as [| x a IH]; intros [| y b]; simpl; try done.
    rewrite (Z.compare_antisym x y). destruct (x ?= y); simpl; auto.
  - induction a as [| x a IH]; intros [| y b] [| z c]; simpl; try done.
    destruct (Z.compare_spec x y), (Z.compare_spec y z), (Z.compare_spec x z);
      simpl; try done; try lia; eauto.
Qed.

(** A key order given by an injective image into lists of integers is lawful. *)
Lemma OrdLaws_by_key {K} `{Ord K} (key : K -> list Z) :
  (forall a b, cmp a b = lex (key a) (key b)) ->
  (forall a b, key a = key b -> a = b) -> OrdLaws K.
Proof.
  intros Hc Hi. split.
  - intros a b. rewrite Hc. intros E. apply Hi. by apply (cmp_eq (K := list Z)).
  - intros a. rewrite Hc. apply (cmp_refl (K := list Z)).
  - intros a b. rewrite !Hc. apply (cmp_antisym (K := list Z)).
  - intros a b c. rewrite !Hc. apply (cmp_trans (K := list Z)).
Qed.

(** ** [std::map] *)

Section OrderedMap.
Context {K V : Type} `{OrdLaws K}.
  Implicit Types (k : K) (v : V) (m : list (K * V)).

Lemma cmp_gt k k' : cmp k k' = Gt <-> cmp k' k = Lt.
  Proof. rewrite (cmp_antisym k k'). destruct (cmp k k'); simpl; split; congruence. Qed.

Lemma cmp_lt_irrefl k : cmp k k <> Lt.
  Proof. by rewrite cmp_refl. Qed.

Lemma cmp_ne k k' : k <> k' -> cmp k k' <> Eq.
  Proof. intros Hne E. by apply cmp_eq in E. Qed.

  (** [m.find(k)] *)
Fixpoint map_find k m : option V :=
    match m with
    | [] => None
    | (k', v) :: m => match cmp k k' with Eq => Some v | _ => map_find k m end
    end.

  (** [m[k] = v] (insert or assign). *)
Fixpoint map_insert k v m : list (K * V) :=
    match m with
    | [] => [(k, v)]
    | (k', v') :: m' =>
        match cmp k k' with
        | Lt => (k, v) :: m
        | Eq => (k, v) :: m'
        | Gt => (k', v') :: map_insert k v m'
        end
    end.

  (** [m.erase(k)] *)
Fixpoint map_erase k m : list (K * V) :=
    match m with
    | [] => []
    | (k', v') :: m' =>
        match cmp k k' with Eq => m' | _ => (k', v') :: map_erase k m' end
    end.

  (** Ascending keys. *)
Fixpoint keys_above k m : Prop :=
    match m with [] => True | (k', _) :: m => cmp k k' = Lt /\ keys_above k' m end.
Definition map_wf m : Prop :=
    match m with [] => True | (k, _) :: m => keys_above k m end.

Lemma keys_above_weaken k k' m : cmp k k' = Lt -> keys_above k' m -> keys_above k m.
  Proof. destruct m as [| [k'' v] m]; simpl; [done |]. intros ? [? ?]. eauto using cmp_trans. Qed.

Lemma keys_above_find k k' m : keys_above k m -> cmp k k' <> Lt -> map_find k' m = None.
  Proof.
    revert k. induction m as [| [k2 v] m IH]; simpl; [done |].
    intros k [Hlt Hm] Hk'.
    destruct (cmp k' k2) eqn:E.
    - apply cmp_eq in E as ->. done.
    - apply (IH k2); [done |]. rewrite (cmp_antisym k' k2), E. done.
    - apply (IH k); [by eapply keys_above_weaken | done].
  Qed.

Lemma map_find_insert_eq k v m : map_find k (map_insert k v m) = Some v.
  Proof.
    induction m as [| [k' v'] m IH]; simpl; [by rewrite cmp_refl |].
    destruct (cmp k k') eqn:E; simpl; rewrite ?cmp_refl, ?E; auto.
  Qed.

Lemma map_find_insert_ne k k' v m : k <> k' -> map_find k' (map_insert k v m) = map_find k' m.
  Proof.
    intros Hne. induction m as [| [k2 v2] m IH]; simpl.
    - destruct (cmp k' k) eqn:E; auto. apply cmp_eq in E. congruence.
    - destruct (cmp k k2) eqn:E; simpl.
      + apply cmp_eq in E as ->. destruct (cmp k' k2) eqn:E'; auto.
        apply cmp_eq in E'. congruence.
      + destruct (cmp k' k) eqn:E'; auto. apply cmp_eq in E'. congruence.
      + destruct (cmp k' k2) eqn:E'; auto.
  Qed.

Lemma keys_above_insert k0 k v m :
    cmp k0 k = Lt -> keys_above k0 m -> keys_above k0 (map_insert k v m).
  Proof.
    revert k0. induction m as [| [k' v'] m IH]; simpl; [done |].
    intros k0 Hk [Hlt Hm]. destruct (cmp k k') eqn:E; simpl.
    - apply cmp_eq in E as ->. done.
    - done.
    - split; [done |]. apply IH; [| done]. by apply cmp_gt.
  Qed.

Lemma map_wf_insert k v m : map_wf m -> map_wf (map_insert k v m).
  Proof.
    destruct m as [| [k' v'] m]; simpl; [done |]. intros Hm.
    destruct (cmp k k') eqn:E; simpl.
    - by apply cmp_eq in E as ->.
    - done.
    - apply keys_above_insert; [by apply cmp_gt | done].
  Qed.

Lemma keys_above_wf k m : keys_above k m -> map_wf m.
  Proof. destruct m as [| [k' v'] m]; simpl; tauto. Qed.

Lemma map_wf_tail p m : map_wf (p :: m) -> map_wf m.
  Proof. destruct p. simpl. apply keys_above_wf. Qed.

Lemma map_insert_length_new k v m :
    map_find k m = None -> length (map_insert k v m) = S (length m).
  Proof.
    induction m as [| [k' v'] m IH]; simpl; [done |].
    destruct (cmp k k'); simpl; [done | done |]. intros. f_equal. auto.
  Qed.

Lemma map_insert_length_old k v v0 m :
    map_wf m -> map_find k m = Some v0 -> length (map_insert k v m) = length m.
  Proof.
    induction m as [| [k' v'] m IH]; [done |]. intros Hwf. cbn [map_find map_insert].
    destruct (cmp k k') eqn:E; intros Hf; simpl; [done | | ].
    - exfalso. rewrite (keys_above_find k') in Hf; [done | exact Hwf |].
      rewrite (cmp_antisym k k'), E. done.
    - f_equal. eauto using map_wf_tail.
  Qed.

Lemma map_find_In k v m : map_find k m = Some v -> In (k, v) m.
  Proof.
    induction m as [| [k' v'] m IH]; simpl; [done |].
    destruct (cmp k k') eqn:E; auto. apply cmp_eq in E as ->. intros [= ->]. by left.
  Qed.

Lemma map_In_find k v m : map_wf m -> In (k, v) m -> map_find k m = Some v.
  Proof.
    induction m as [| [k' v'] m IH]; [done |]. intros Hwf [Heq | Hin]; cbn [map_find].
    - inversion Heq; subst. by rewrite cmp_refl.
    - destruct (cmp k k') eqn:E; eauto using map_wf_tail.
      apply cmp_eq in E as ->. exfalso.
      assert (map_find k' m = Some v) as Hs by eauto using map_wf_tail.
      rewrite (keys_above_find k') in Hs; [done | exact Hwf | apply cmp_lt_irrefl].
  Qed.

Lemma map_In_insert k v m p : In p (map_insert k v m) -> p = (k, v) \/ In p m.
  Proof.
    induction m as [| [k' v'] m IH]; simpl; [intuition congruence |].
    destruct (cmp k k'); simpl; intuition congruence.
  Qed.

Lemma map_erase_find_eq k m : map_wf m -> map_find k (map_erase k m) = None.
  Proof.
    induction m as [| [k' v'] m IH]; [done |]. intros Hwf. cbn [map_erase].
    destruct (cmp k k') eqn:E.
    - apply cmp_eq in E as ->. apply (keys_above_find k'); [done | apply cmp_lt_irrefl].
    - simpl. rewrite E. eauto using map_wf_tail.
    - simpl. rewrite E. eauto using map_wf_tail.
  Qed.

Lemma map_erase_find_ne k k' m : k <> k' -> map_find k' (map_erase k m) = map_find k' m.
  Proof.
    intros Hne. induction m as [| [k2 v] m IH]; simpl; [done |].
    destruct (cmp k k2) eqn:E; simpl.
    - apply cmp_eq in E as ->. destruct (cmp k' k2) eqn:E'; auto.
      apply cmp_eq in E'. congruence.
    - by rewrite IH.
    - by rewrite IH.
  Qed.

Lemma keys_above_erase k0 k m : keys_above k0 m -> keys_above k0 (map_erase k m).
  Proof.
    revert k0. induction m as [| [k' v'] m IH]; simpl; [done |].
    intros k0 [Hlt Hm]. destruct (cmp k k'); simpl; eauto using keys_above_weaken.
  Qed.

Lemma map_wf_erase k m : map_wf m -> map_wf (map_erase k m).
  Proof.
    destruct m as [| [k' v'] m]; simpl; [done |]. intros Hm.
    destruct (cmp k k'); simpl; eauto using keys_above_wf, keys_above_erase.
  Qed.

Lemma map_erase_length k m :
    length (map_erase k m) = (length m - (if map_find k m is Some _ then 1 else 0))%nat.
  Proof.
    induction m as [| [k' v'] m IH]; simpl; [done |].
    destruct (cmp k k') eqn:E; simpl; [lia | |]; rewrite IH;
      destruct (map_find k m) eqn:F; try lia;
      assert (length m <> 0%nat) by (by destruct m); lia.
  Qed.

  (** Updating the values in place keeps the keys. *)
Definition map_values (f : V -> V) m : list (K * V) := map (fun '(k, v) => (k, f v)) m.

Lemma keys_above_values f k m : keys_above k m -> keys_above k (map_values f m).
  Proof. revert k. induction m as [| [k' v] m IH]; simpl; [done |]. intros k [? ?]; auto. Qed.

Lemma map_wf_values f m : map_wf m -> map_wf (map_values f m).
  Proof. destruct m as [| [k v] m]; simpl; auto using keys_above_values. Qed.

Lemma map_find_values f k m : map_find k (map_values f m) = f <$> map_find k m.
  Proof. induction m as [| [k' v] m IH]; simpl; [done |]. by destruct (cmp k k'). Qed.

  (** Number of entries whose value satisfies a test. *)
Definition map_count (p : V -> bool) m : Z := zlen (filter (fun kv => p kv.2 = true) m).

Lemma map_count_nil p : map_count p [] = 0.
  Proof. done. Qed.

Lemma map_count_cons p k v m : map_count p ((k, v) :: m) = Z.b2z (p v) + map_count p m.
  Proof.
    unfold map_count. rewrite filter_cons. case_decide as Hd; simpl in Hd.
    - rewrite zlen_cons, Hd. done.
    - by destruct (p v).
  Qed.

Lemma map_count_bounds p m : 0 <= map_count p m <= zlen m.
  Proof.
    induction m as [| [k v] m IH]; [done |].
    rewrite map_count_cons, zlen_cons. destruct (p v); simpl; lia.
  Qed.

Lemma map_count_insert_new p k v m :
    map_find k m = None -> map_count p (map_insert k v m) = Z.b2z (p v) + map_count p m.
  Proof.
    induction m as [| [k' v'] m IH]; cbn [map_find map_insert]; [by rewrite map_count_cons |].
    destruct (cmp k k'); intros Hf; rewrite ?map_count_cons; [done | done |].
    rewrite IH by done. lia.
  Qed.

Lemma map_count_insert_old p k v v0 m :
    map_wf m -> map_find k m = Some v0 ->
    map_count p (map_insert k v m) = map_count p m - Z.b2z (p v0) + Z.b2z (p v).
  Proof.
    induction m as [| [k' v'] m IH]; [done |]. intros Hwf. cbn [map_find map_insert].
    destruct (cmp k k') eqn:E; intros Hf; rewrite ?map_count_cons.
    - injection Hf as ->. lia.
    - exfalso. rewrite (keys_above_find k') in Hf; [done | exact Hwf |].
      rewrite (cmp_antisym k k'), E. done.
    - rewrite IH by eauto using map_wf_tail. lia.
  Qed.

(** Sum of a measure over the values. *)
Definition map_sum (f : V -> Z) m : Z := foldr (fun kv acc => f kv.2 + acc) 0 m.

Lemma map_sum_insert_new f k v m :
    map_find k m = None -> map_sum f (map_insert k v m) = f v + map_sum f m.
Proof.
  induction m as [| [k' v'] m IH]; cbn [map_find map_insert]; [done |].
  destruct (cmp k k'); intros Hf; [done | done |].
  cbn [map_sum foldr] in *. unfold map_sum in IH. cbn [snd]. rewrite IH by done. lia.
Qed.

Lemma map_sum_insert_old f k v v0 m :
    map_wf m -> map_find k m = Some v0 ->
    map_sum f (map_insert k v m) = map_sum f m - f v0 + f v.
Proof.
  induction m as [| [k' v'] m IH]; [done |]. intros Hwf. cbn [map_find map_insert].
  destruct (cmp k k') eqn:E; intros Hf; cbn [map_sum foldr snd].
  - injection Hf as ->. lia.
  - exfalso. rewrite (keys_above_find k') in Hf; [done | exact Hwf |].
    rewrite (cmp_antisym k k'), E. done.
  - unfold map_sum in IH. rewrite IH by eauto using map_wf_tail. lia.
Qed.

Lemma map_insert_size k v m :
  map_wf m -> zlen (map_insert k v m) = zlen m + (if map_find k m is Some _ then 0 else 1).
Proof.
  intros Hwf. unfold zlen. destruct (map_find k m) eqn:E.
  - erewrite map_insert_length_old by done. lia.
  - rewrite map_insert_length_new by done. lia.
Qed.

Lemma map_find_insert k k' v m :
  map_find k' (map_insert k v m) = if cmp k' k is Eq then Some v else map_find k' m.
Proof.
  destruct (cmp k' k) eqn:E.
  - apply cmp_eq in E as ->. apply map_find_insert_eq.
  - apply map_find_insert_ne. intros ->. by rewrite cmp_refl in E.
  - apply map_find_insert_ne. intros ->. by rewrite cmp_refl in E.
Qed.

(** A property of every entry survives an insertion. *)
Definition map_all (P : K -> V -> Prop) m : Prop := forall k v, map_find k m = Some v -> P k v.

Lemma map_all_insert P k v m : map_all P m -> P k v -> map_all P (map_insert k v m).
Proof.
  intros Hm Hv k' v'. rewrite map_find_insert. destruct (cmp k' k) eqn:E; eauto.
  apply cmp_eq in E as ->. by intros [= <-].
Qed.
End OrderedMap.

Arguments map_find {K V _} _ _ : simpl nomatch.
Arguments map_insert {K V _} _ _ _ : simpl nomatch.
Arguments map_erase {K V _} _ _ : simpl nomatch.

Create Rewrite HintDb omap.
#[export] Hint Rewrite @map_find_insert_eq @map_find_values @map_count_cons : omap.
#[export] Hint Resolve map_wf_insert map_wf_erase map_wf_values map_wf_tail : bhg.
