(* ===== verification/Sort.v ===== *)
(** * [std::sort], [std::unique] and set insertion

    The program sorts vectors with [std::sort] under comparators that compare a tuple of
    fields. A comparator is described here by a key into lists of integers; the model of
    [std::sort] is a (stable) insertion sort, and the lemmas give what [std::sort]
    promises: the result is a sorted permutation, and it is the only one when no two
    elements tie. *)
From Stdlib Require Import Sorting.Permutation Sorting.Sorted.
From S2P Require Import Prelude OrderedMap.
Local Open Scope Z_scope.

Section Sort.
Context {A : Type} (lt : A -> A -> bool).

Fixpoint insert_by (x : A) (l : list A) : list A :=
  match l with
  | [] => [x]
  | y :: l' => if lt x y then x :: l else y :: insert_by x l'
  end.

Definition sort_by (l : list A) : list A := foldl (fun acc x => insert_by x acc) [] l.

(** No element is out of order with its successor. *)
Abbreviation in_order := (fun a b => lt b a = false).

(** A strict weak order, as [std::sort] requires of its comparator. *)
Class StrictWeak : Prop := {
  lt_irrefl : forall a, lt a a = false;
  lt_asym : forall a b, lt a b = true -> lt b a = false;
  ge_trans : forall a b c, lt b a = false -> lt c b = false -> lt c a = false;
}.

Lemma insert_by_perm x l : Permutation (insert_by x l) (x :: l).
Proof.
  induction l as [| y l IH]; simpl; [done |]. destruct (lt x y); [done |].
  rewrite IH. apply Permutation_swap.
Qed.

Lemma sort_by_perm l : Permutation (sort_by l) l.
Proof.
  unfold sort_by. assert (forall acc, Permutation (foldl (fun acc x => insert_by x acc) acc l) (acc ++ l)) as H.
  { induction l as [| x l IH]; intros acc; simpl; [by rewrite app_nil_r |].
    rewrite IH, insert_by_perm. simpl. apply Permutation_middle. }
  apply H.
Qed.

Lemma sort_by_In x l : In x (sort_by l) <-> In x l.
Proof. split; apply Permutation_in; [| symmetry]; apply sort_by_perm. Qed.

Lemma sort_by_length l : length (sort_by l) = length l.
Proof. apply Permutation_length, sort_by_perm. Qed.

Context `{!StrictWeak}.

Lemma insert_by_sorted x l : StronglySorted in_order l -> StronglySorted in_order (insert_by x l).
Proof.
  induction 1 as [| y l Hl IH Hy]; simpl; [repeat constructor |].
  destruct (lt x y) eqn:E.
  - constructor; [by constructor |]. apply lt_asym in E. constructor; [done |].
    eapply Forall_impl; [exact Hy |]. intros z Hz. by apply ge_trans with y.
  - constructor; [done |]. apply List.Forall_forall. intros z Hz.
    apply (Permutation_in z (insert_by_perm x l)) in Hz as [<- | Hz]; [done |].
    rewrite List.Forall_forall in Hy. by apply Hy.
Qed.

Lemma sort_by_sorted l : StronglySorted in_order (sort_by l).
Proof.
  unfold sort_by. assert (forall acc, StronglySorted in_order acc ->
    StronglySorted in_order (foldl (fun acc x => insert_by x acc) acc l)) as Hgo.
  { induction l as [| x l IH]; intros acc Hacc; simpl; [done |]. by apply IH, insert_by_sorted. }
  apply Hgo. constructor.
Qed.

(** Without ties, a sorted permutation is unique: the result of [std::sort] is determined. *)
Lemma sorted_perm_unique l k :
  (forall a b, In a l -> In b l -> lt a b = false -> lt b a = false -> a = b) ->
  StronglySorted in_order l -> StronglySorted in_order k -> Permutation l k -> l = k.
Proof.
  revert k. induction l as [| x l IH]; intros k Htie Hl Hk Hp.
  - by apply Permutation_nil in Hp.
  - destruct k as [| y k]; [by apply Permutation_length in Hp |].
    inversion_clear Hl as [| ? ? Hl' Hx]. inversion_clear Hk as [| ? ? Hk' Hy].
    rewrite List.Forall_forall in Hx, Hy.
    assert (x = y) as ->.
    { assert (In y (x :: l)) as Hyin by (eapply Permutation_in; [symmetry; exact Hp | by left]).
      assert (In x (y :: k)) as Hxin by (eapply Permutation_in; [exact Hp | by left]).
      destruct Hyin as [| Hyin]; [done |]. destruct Hxin as [| Hxin]; [done |].
      apply Htie; [by left | by right | by apply Hy | by apply Hx]. }
    f_equal. apply Permutation_cons_inv in Hp. apply IH; auto.
    intros a b Ha Hb. apply Htie; by right.
Qed.

Lemma sort_by_canonical l k :
  (forall a b, In a l -> In b l -> lt a b = false -> lt b a = false -> a = b) ->
  Permutation l k -> sort_by l = sort_by k.
Proof.
  intros Htie Hp. apply sorted_perm_unique; [| apply sort_by_sorted .. |].
  - intros a b Ha Hb. apply Htie; by apply sort_by_In.
  - by rewrite !sort_by_perm.
Qed.
End Sort.
Arguments StrictWeak {A} lt.
Arguments lt_irrefl {A lt _} a.
Arguments lt_asym {A lt _} a b _.
Arguments ge_trans {A lt _} a b c _ _.

(** ** Comparators given by a key *)

Definition key_lt {A} (key : A -> list Z) (a b : A) : bool :=
  match lex (key a) (key b) with Lt => true | _ => false end.

#[export] Instance key_lt_weak {A} (key : A -> list Z) : StrictWeak (key_lt key).
Proof.
  pose proof (cmp_refl (K := list Z)) as Hr. pose proof (cmp_antisym (K := list Z)) as Ha.
  pose proof (cmp_trans (K := list Z)) as Ht. pose proof (cmp_eq (K := list Z)) as He.
  unfold cmp, Ord_list in *.
  split; unfold key_lt; intros.
  - by rewrite Hr.
  - destruct (lex (key a) (key b)) eqn:E; try done. by rewrite Ha, E.
  - destruct (lex (key c) (key a)) eqn:E; try done. exfalso.
    destruct (lex (key b) (key a)) eqn:E1; try done;
      destruct (lex (key c) (key b)) eqn:E2; try done.
    + apply He in E1. apply He in E2. rewrite E2, E1, Hr in E. done.
    + apply He in E1. rewrite E1 in E2. congruence.
    + apply He in E2. rewrite E2 in E. congruence.
    + assert (lex (key a) (key b) = Lt) by (by rewrite Ha, E1).
      assert (lex (key b) (key c) = Lt) by (by rewrite Ha, E2).
      assert (lex (key a) (key c) = Lt) as E' by eauto. rewrite Ha, E' in E. done.
Qed.

Lemma key_lt_tie {A} (key : A -> list Z) a b :
  key_lt key a b = false -> key_lt key b a = false -> key a = key b.
Proof.
  unfold key_lt. intros H1 H2. apply (cmp_eq (K := list Z)). unfold cmp, Ord_list.
  pose proof (cmp_antisym (key a) (key b)) as Ha. unfold cmp, Ord_list in Ha.
  destruct (lex (key a) (key b)); [done | done |]. by rewrite Ha in H2.
Qed.

Lemma sort_by_key_canonical {A} (key : A -> list Z) l k :
  (forall a b, In a l -> In b l -> key a = key b -> a = b) ->
  Permutation l k -> sort_by (key_lt key) l = sort_by (key_lt key) k.
Proof.
  intros Hinj. apply sort_by_canonical; [apply key_lt_weak |].
  intros a b Ha Hb H1 H2. by apply Hinj, key_lt_tie.
Qed.

(** ** [std::set] as the ascending list of its elements *)

Section Set_.
Context {K : Type} `{OrdLaws K}.
Implicit Types (k : K) (s : list K).

(** [s.insert(k)] *)
Fixpoint set_insert k s : list K :=
  match s with
  | [] => [k]
  | k' :: s' => match cmp k k' with Lt => k :: s | Eq => s | Gt => k' :: set_insert k s' end
  end.

Definition set_of (l : list K) : list K := foldl (fun s k => set_insert k s) [] l.

Abbreviation ascending := (StronglySorted (fun a b : K => cmp a b = Lt)).

Lemma set_insert_In x k s : In x (set_insert k s) <-> x = k \/ In x s.
Proof.
  induction s as [| k' s IH]; simpl; [intuition congruence |].
  destruct (cmp k k') eqn:E; simpl.
  - apply cmp_eq in E as ->. intuition congruence.
  - intuition congruence.
  - rewrite IH. intuition congruence.
Qed.

Lemma set_insert_ascending k s : ascending s -> ascending (set_insert k s).
Proof.
  induction 1 as [| k' s Hs IH Hk]; simpl; [repeat constructor |].
  destruct (cmp k k') eqn:E.
  - by constructor.
  - constructor; [by constructor |]. constructor; [done |].
    eapply Forall_impl; [exact Hk |]. intros z Hz. by apply cmp_trans with k'.
  - constructor; [done |]. apply List.Forall_forall. intros z Hz.
    apply set_insert_In in Hz as [-> | Hz]; [by apply cmp_gt |].
    rewrite List.Forall_forall in Hk. by apply Hk.
Qed.

Lemma set_of_snoc l k : set_of (l ++ [k]) = set_insert k (set_of l).
Proof. unfold set_of. by rewrite foldl_app. Qed.

Lemma set_of_In x l : In x (set_of l) <-> In x l.
Proof.
  induction l as [| k l IH] using rev_ind; [done |].
  rewrite set_of_snoc, set_insert_In, in_app_iff, IH. simpl. intuition congruence.
Qed.

Lemma set_of_ascending l : ascending (set_of l).
Proof.
  induction l as [| k l IH] using rev_ind; [constructor |].
  rewrite set_of_snoc. by apply set_insert_ascending.
Qed.

Lemma ascending_ext s t : ascending s -> ascending t -> (forall x, In x s <-> In x t) -> s = t.
Proof.
  intros Hs. revert t. induction Hs as [| a s Hs IH Ha]; intros t Ht Hx.
  - destruct t as [| b t]; [done |]. exfalso. apply (Hx b). by left.
  - destruct Ht as [| b t Ht Hb]; [exfalso; apply (Hx a); by left |].
    rewrite List.Forall_forall in Ha, Hb.
    assert (a = b) as ->.
    { destruct (proj1 (Hx a) (or_introl eq_refl)) as [| Hat]; [done |].
      destruct (proj2 (Hx b) (or_introl eq_refl)) as [| Hbs]; [done |].
      exfalso. apply (cmp_lt_irrefl a). apply cmp_trans with b; auto. }
    f_equal. apply IH; [done |]. intros x. specialize (Hx x). simpl in Hx.
    split; intros Hin.
    + destruct (proj1 Hx (or_intror Hin)) as [<- |]; [| done].
      exfalso. apply (cmp_lt_irrefl b). auto.
    + destruct (proj2 Hx (or_intror Hin)) as [<- |]; [| done].
      exfalso. apply (cmp_lt_irrefl b). auto.
Qed.

Lemma set_of_perm (l k : list K) : Permutation l k -> set_of l = set_of k.
Proof.
  intros Hp. apply ascending_ext; [apply set_of_ascending .. |].
  intros x. rewrite !set_of_In. split; apply Permutation_in; [done | by symmetry].
Qed.

Lemma ascending_NoDup s : ascending s -> NoDup s.
Proof.
  induction 1 as [| a s Hs IH Ha]; [constructor |]. constructor; [| done].
  intros Hin. apply list_elem_of_In in Hin. rewrite List.Forall_forall in Ha.
  by apply (cmp_lt_irrefl a), Ha.
Qed.
End Set_.
