(* ===== verification/Core.v ===== *)
(** * Core value types: outcomes, checked arithmetic, bit operations, bounded containers

    Models [include/blackhole/core/outcome.hpp], [checked.hpp], [bitops.hpp],
    [bounded.hpp] and the path predicates of [src/core/path.cpp]. The counters of the
    program are [uint64_t] and wrap; [incr], [decr] and [u64_add] keep that width. *)
From Stdlib Require Import Strings.String.
From S2P Require Import Prelude OrderedMap.
Local Open Scope string_scope.
Local Open Scope Z_scope.

(** ** Enumerations and their wire values *)

(** A C++ enum class with its underlying values. [of_raw] is [static_cast] and is only
    used behind the [is_valid_raw] test, as in the code. *)
Class RawEnum (E : Type) := {
  to_raw : E -> Z;
  of_raw : Z -> E;
  is_valid_raw : Z -> bool;
}.

Class RawEnumLaws (E : Type) `{RawEnum E} := {
  of_to_raw : forall e : E, of_raw (to_raw e) = e;
  valid_to_raw : forall e : E, is_valid_raw (to_raw e) = true;
  to_of_raw : forall z, is_valid_raw z = true -> to_raw (of_raw z) = z;
  to_raw_range : forall e : E, 0 <= to_raw e < 256;
}.

Lemma to_raw_inj {E} `{RawEnumLaws E} (a b : E) : to_raw a = to_raw b -> a = b.
Proof. intros E'. by rewrite <- (of_to_raw a), E', of_to_raw. Qed.

(** ** [outcome.hpp] *)

(** include/blackhole/core/outcome.hpp:11-41 Outcome *)
Inductive Outcome :=
| Ok
| NoEvidence | Unknown | Stale | Conflict | Indeterminate | SearchLimitReached
| Invalid | Unsupported | Malformed | Oversized | Duplicate | Replayed | Regressed
| NotFound | Exhausted | Rejected
| Corrupt | Interrupted | Fenced | Revoked | Expired | Unavailable.

Definition outcome_raw (o : Outcome) : Z :=
  match o with
  | Ok => 0 | NoEvidence => 1 | Unknown => 2 | Stale => 3 | Conflict => 4
  | Indeterminate => 5 | SearchLimitReached => 6 | Invalid => 7 | Unsupported => 8
  | Malformed => 9 | Oversized => 10 | Duplicate => 11 | Replayed => 12
  | Regressed => 13 | NotFound => 14 | Exhausted => 15 | Rejected => 16
  | Corrupt => 17 | Interrupted => 18 | Fenced => 19 | Revoked => 20 | Expired => 21
  | Unavailable => 22
  end.

Definition outcomes : list Outcome :=
  [Ok; NoEvidence; Unknown; Stale; Conflict; Indeterminate; SearchLimitReached; Invalid;
   Unsupported; Malformed; Oversized; Duplicate; Replayed; Regressed; NotFound; Exhausted;
   Rejected; Corrupt; Interrupted; Fenced; Revoked; Expired; Unavailable].

(** include/blackhole/core/outcome.hpp:105-107 is_valid_outcome *)
Definition is_valid_outcome (raw : Z) : bool := raw <=? outcome_raw Unavailable.

(** The enumerator of a raw value among a list of enumerators ([static_cast]). *)
Definition pick {E} (raw : E -> Z) (all : list E) (d : E) (z : Z) : E :=
  match List.find (fun e => raw e =? z) all with Some e => e | None => d end.

Lemma pick_raw {E} (raw : E -> Z) all d z :
  existsb (fun e => raw e =? z) all = true -> raw (pick raw all d z) = z.
Proof.
  unfold pick. induction all as [| e all IH]; simpl; [done |].
  destruct (raw e =? z) eqn:Ez; simpl; [by apply Z.eqb_eq in Ez | auto].
Qed.

Lemma implb_true_elim a b : implb a b = true -> a = true -> b = true.
Proof. by intros H ->. Qed.

(** A test that holds at [lo, lo + 1, ..., lo + n] holds on the whole range. *)
Lemma raw_range (lo : Z) (n : nat) (f : Z -> bool) (z : Z) :
  forallb f (map (fun i => lo + Z.of_nat i) (seq 0 (S n))) = true ->
  lo <= z <= lo + Z.of_nat n -> f z = true.
Proof.
  rewrite forallb_forall. intros Hf Hz. apply Hf, in_map_iff.
  exists (Z.to_nat (z - lo)). split; [lia |]. apply in_seq. lia.
Qed.

Create HintDb enum.
#[export] Hint Unfold is_valid_outcome outcome_raw : enum.

(** Solve the laws of an enumeration whose valid values lie in [lo, lo + n]. *)
Ltac solve_enum lo n :=
  split;
  [ by intros []
  | by intros []
  | let z := fresh "z" in let Hz := fresh in
    intros z Hz; apply Z.eqb_eq;
    refine (implb_true_elim _ _ (raw_range lo n (fun z => implb (is_valid_raw z) (to_raw (of_raw z) =? z)) z _ _) Hz);
    [ vm_compute; reflexivity
    | cbn in Hz; autounfold with enum in Hz; cbn in Hz; bool_prop; cbn; lia ]
  | intros []; cbn; lia ].

#[export] Instance RawEnum_Outcome : RawEnum Outcome := {
  to_raw := outcome_raw;
  of_raw := pick outcome_raw outcomes Ok;
  is_valid_raw := fun z => (0 <=? z) && is_valid_outcome z;
}.

#[export] Instance RawEnumLaws_Outcome : RawEnumLaws Outcome.
Proof.
  solve_enum 0 22%nat.
Qed.

#[export] Instance Outcome_eq_dec : EqDecision Outcome :=
  eq_dec_by_inj outcome_raw (to_raw_inj (E := Outcome)).

(** include/blackhole/core/outcome.hpp:43-70 to_string(Outcome) *)
Definition outcome_to_string (o : Outcome) : string :=
  match o with
  | Ok => "Ok" | NoEvidence => "NoEvidence" | Unknown => "Unknown" | Stale => "Stale"
  | Conflict => "Conflict" | Indeterminate => "Indeterminate"
  | SearchLimitReached => "SearchLimitReached" | Invalid => "Invalid"
  | Unsupported => "Unsupported" | Malformed => "Malformed" | Oversized => "Oversized"
  | Duplicate => "Duplicate" | Replayed => "Replayed" | Regressed => "Regressed"
  | NotFound => "NotFound" | Exhausted => "Exhausted" | Rejected => "Rejected"
  | Corrupt => "Corrupt" | Interrupted => "Interrupted" | Fenced => "Fenced"
  | Revoked => "Revoked" | Expired => "Expired" | Unavailable => "Unavailable"
  end.

(** include/blackhole/core/outcome.hpp:73 is_affirmative *)
Definition is_affirmative (o : Outcome) : bool := o == Ok.

(** include/blackhole/core/outcome.hpp:77-89 is_indeterminate *)
Definition is_indeterminate (o : Outcome) : bool :=
  match o with
  | NoEvidence | Unknown | Stale | Conflict | Indeterminate | SearchLimitReached => true
  | _ => false
  end.

(** include/blackhole/core/outcome.hpp:92-103 is_untrusted *)
Definition is_untrusted (o : Outcome) : bool :=
  match o with
  | Invalid | Malformed | Oversized | Corrupt | Unsupported => true
  | _ => false
  end.

Lemma is_affirmative_Ok o : is_affirmative o = true <-> o = Ok.
Proof. apply bool_decide_eq_true. Qed.

Lemma is_affirmative_false o : is_affirmative o = false <-> o <> Ok.
Proof. apply bool_decide_eq_false. Qed.

(** ** [uint64_t] counters *)

Definition u64_add (a b : Z) : Z := wrap 64 (a + b).
Definition incr (v : Z) : Z := u64_add v 1.
Definition decr (v : Z) : Z := wrap 64 (v - 1).

(** Normalise nested wrap-arounds and close by linear arithmetic. *)
Ltac wrap_eq :=
  unfold incr, decr, u64_add, wrap in *;
  repeat match goal with H : ?x = _ mod 2 ^ 64 |- _ => is_var x; subst x end;
  repeat first
    [ rewrite Zplus_mod_idemp_l | rewrite Zplus_mod_idemp_r
    | rewrite Zminus_mod_idemp_l | rewrite Zminus_mod_idemp_r ];
  first [ f_equal; lia | change (2 ^ 64) with 18446744073709551616 in *; Z.div_mod_to_equations; lia ].

Lemma incr_range v : in_u64 (incr v).
Proof. by apply in_u_wrap. Qed.

Lemma u64_add_range a b : in_u64 (u64_add a b).
Proof. by apply in_u_wrap. Qed.

#[export] Hint Resolve incr_range u64_add_range : bhg.
