(* ===== verification/Checked.v ===== *)
(** * Checked arithmetic and bit operations

    Models [include/blackhole/core/checked.hpp] and [bitops.hpp]. Each checked operation
    is proved equal to its mathematical reading: the exact result when it is
    representable in the type, nothing otherwise. *)
From S2P Require Import Prelude Core.
Local Open Scope Z_scope.

(** An integral type [T]: [std::numeric_limits<T>::min()], [max()] and signedness. *)
Record IntType := MkIntType { it_signed : bool; it_bits : Z; }.

Definition it_min (t : IntType) : Z := if it_signed t then - 2 ^ (it_bits t - 1) else 0.
Definition it_max (t : IntType) : Z :=
  if it_signed t then 2 ^ (it_bits t - 1) - 1 else 2 ^ it_bits t - 1.
Definition in_type (t : IntType) (v : Z) : Prop := it_min t <= v <= it_max t.

(** [static_cast<T>(v)]: reduction modulo [2^bits] into the range of [T]. *)
Definition it_cast (t : IntType) (v : Z) : Z := (v - it_min t) mod 2 ^ it_bits t + it_min t.

Definition uint8_t := MkIntType false 8.
Definition uint16_t := MkIntType false 16.
Definition uint32_t := MkIntType false 32.
Definition uint64_t := MkIntType false 64.
Definition size_t := uint64_t.
Definition int64_t := MkIntType true 64.

(** include/blackhole/core/checked.hpp:13-24 checked_add *)
Definition checked_add (t : IntType) (a b : Z) : option Z :=
  if negb (it_signed t) then
    if it_cast t (it_max t - b) <? a then None else Some (it_cast t (a + b))
  else
    if (0 <? b) && (it_cast t (it_max t - b) <? a) then None
    else if (b <? 0) && (a <? it_cast t (it_min t - b)) then None
    else Some (it_cast t (a + b)).

(** include/blackhole/core/checked.hpp:26-37 checked_sub *)
Definition checked_sub (t : IntType) (a b : Z) : option Z :=
  if negb (it_signed t) then
    if a <? b then None else Some (it_cast t (a - b))
  else
    if (b <? 0) && (it_cast t (it_max t + b) <? a) then None
    else if (0 <? b) && (a <? it_cast t (it_min t + b)) then None
    else Some (it_cast t (a - b)).

(** include/blackhole/core/checked.hpp:39-64 checked_mul *)
Definition checked_mul (t : IntType) (a b : Z) : option Z :=
  if (a =? 0) || (b =? 0) then Some 0
  else if negb (it_signed t) then
    if it_cast t (Z.quot (it_max t) b) <? a then None else Some (it_cast t (a * b))
  else
    let lo := it_min t in
    let hi := it_max t in
    if 0 <? a then
      if 0 <? b then
        if Z.quot hi b <? a then None else Some (it_cast t (a * b))
      else
        if b <? Z.quot lo a then None else Some (it_cast t (a * b))
    else
      if 0 <? b then
        if a <? Z.quot lo b then None else Some (it_cast t (a * b))
      else
        if negb (a =? 0) && (b <? Z.quot hi a) then None else Some (it_cast t (a * b)).

(** include/blackhole/core/checked.hpp:66-87 checked_cast *)
Definition checked_cast (to from : IntType) (v : Z) : option Z :=
  if Bool.eqb (it_signed from) (it_signed to) && (it_bits from <=? it_bits to) then
    Some (it_cast to v)
  else if it_signed from && negb (it_signed to) then
    if v <? 0 then None
    else
      let ufrom := MkIntType false (it_bits from) in
      if it_cast ufrom (it_max to) <? it_cast ufrom v then None else Some (it_cast to v)
  else if negb (it_signed from) && it_signed to then
    if it_cast from (it_max to) <? v then None else Some (it_cast to v)
  else
    if it_cast from (it_max to) <? v then None
    else if v <? it_cast from (it_min to) then None
    else Some (it_cast to v).

(** include/blackhole/core/checked.hpp:90-94 saturating_add *)
Definition saturating_add (t : IntType) (a b : Z) : Z :=
  match checked_add t a b with Some r => r | None => it_max t end.

(** Reference reading of a checked result. *)
Definition exact (t : IntType) (r : Z) : option Z :=
  if (it_min t <=? r) && (r <=? it_max t) then Some r else None.

Section Checked.
Context (t : IntType) (Hbits : 0 < it_bits t).

Lemma it_width : it_max t - it_min t + 1 = 2 ^ it_bits t.
  Proof.
    unfold it_max, it_min. destruct (it_signed t); [| lia].
    replace (it_bits t) with (Z.succ (it_bits t - 1)) at 3 by lia.
    rewrite Z.pow_succ_r by lia. lia.
  Qed.

Lemma it_cast_small v : in_type t v -> it_cast t v = v.
  Proof.
    unfold in_type, it_cast. intros Hv. pose proof it_width.
    rewrite Z.mod_small by lia. lia.
  Qed.

Lemma it_min_neg : it_min t <= 0 <= it_max t.
  Proof.
    unfold it_min, it_max.
    pose proof (Z.pow_pos_nonneg 2 (it_bits t - 1)). pose proof (Z.pow_pos_nonneg 2 (it_bits t)).
    destruct (it_signed t); lia.
  Qed.

Lemma exact_in r : in_type t r -> exact t r = Some r.
  Proof.
    unfold in_type, exact. intros [H1 H2].
    apply Z.leb_le in H1, H2. by rewrite H1, H2.
  Qed.

Lemma exact_out r : ~ in_type t r -> exact t r = None.
  Proof.
    unfold in_type, exact. intros Hr.
    destruct (it_min t <=? r) eqn:E1, (r <=? it_max t) eqn:E2; simpl; try done.
    bool_prop. lia.
  Qed.

  (** Close one branch of a checked operation: the result fits, or it does not. *)
Ltac settle :=
    unfold in_type in *;
    first
      [ rewrite exact_out by (unfold in_type; lia); reflexivity
      | rewrite ?it_cast_small, exact_in by (unfold in_type; lia); reflexivity ].

Ltac cases_ltb :=
    repeat match goal with
    | |- context [?a <? ?b] => destruct (Z.ltb_spec a b); simpl
    end.

Lemma checked_add_exact a b :
    in_type t a -> in_type t b -> checked_add t a b = exact t (a + b).
  Proof.
    intros Ha Hb. unfold checked_add. pose proof it_min_neg. unfold in_type in *.
    destruct (it_signed t) eqn:Es; simpl.
    - destruct (Z.ltb_spec 0 b), (Z.ltb_spec b 0); simpl; try lia;
        rewrite ?it_cast_small by (unfold in_type; lia); cases_ltb; settle.
    - assert (it_min t = 0) by (unfold it_min; by rewrite Es).
      rewrite it_cast_small by (unfold in_type; lia). cases_ltb; settle.
  Qed.

Lemma checked_sub_exact a b :
    in_type t a -> in_type t b -> checked_sub t a b = exact t (a - b).
  Proof.
    intros Ha Hb. unfold checked_sub. pose proof it_min_neg. unfold in_type in *.
    destruct (it_signed t) eqn:Es; simpl.
    - destruct (Z.ltb_spec 0 b), (Z.ltb_spec b 0); simpl; try lia;
        rewrite ?it_cast_small by (unfold in_type; lia); cases_ltb; settle.
    - assert (it_min t = 0) by (unfold it_min; by rewrite Es).
      cases_ltb; settle.
  Qed.

  (** The truncating division bounds that the multiplication test relies on. *)
Lemma quot_pos_pos h b : 0 < b -> 0 <= h -> forall a, h ÷ b < a <-> h < a * b.
  Proof.
    intros Hb Hh a. rewrite Z.quot_div_nonneg by lia.
    pose proof (Z.div_mod h b). pose proof (Z.mod_pos_bound h b). nia.
  Qed.

Lemma quot_neg_pos l b : 0 < b -> l <= 0 -> forall a, a < l ÷ b <-> a * b < l.
  Proof.
    intros Hb Hl a. replace l with (- (- l)) by lia. rewrite Z.quot_opp_l by lia.
    pose proof (quot_pos_pos (- l) b Hb ltac:(lia) (- a)). nia.
  Qed.

Lemma quot_pos_neg h b : b < 0 -> 0 <= h -> forall a, a < h ÷ b <-> h < a * b.
  Proof.
    intros Hb Hh a. replace b with (- (- b)) by lia. rewrite Z.quot_opp_r by lia.
    pose proof (quot_pos_pos h (- b) ltac:(lia) Hh (- a)). nia.
  Qed.

Lemma checked_mul_exact a b :
    in_type t a -> in_type t b -> checked_mul t a b = exact t (a * b).
  Proof.
    intros Ha Hb. unfold checked_mul. pose proof it_min_neg as Hn. unfold in_type in *.
    destruct (Z.eqb_spec a 0) as [-> | Ha0]; [simpl; rewrite exact_in; [done | done] |].
    destruct (Z.eqb_spec b 0) as [-> | Hb0];
      [simpl; rewrite Z.mul_0_r, exact_in; [done | done] |].
    simpl. destruct (it_signed t) eqn:Es; simpl.
    - destruct (Z.ltb_spec 0 a), (Z.ltb_spec 0 b); simpl.
      + pose proof (quot_pos_pos (it_max t) b ltac:(lia) ltac:(lia) a).
        assert (0 < a * b) by nia. cases_ltb; settle.
      + pose proof (quot_neg_pos (it_min t) a ltac:(lia) ltac:(lia) b).
        assert (a * b < 0) by nia. cases_ltb; settle.
      + pose proof (quot_neg_pos (it_min t) b ltac:(lia) ltac:(lia) a).
        assert (a * b < 0) by nia. cases_ltb; settle.
      + pose proof (quot_pos_neg (it_max t) a ltac:(lia) ltac:(lia) b).
        assert (0 < a * b) by nia. cases_ltb; settle.
    - assert (it_min t = 0) by (unfold it_min; by rewrite Es).
      pose proof (quot_pos_pos (it_max t) b ltac:(lia) ltac:(lia)) as Hq.
      rewrite it_cast_small.
      + pose proof (Hq a). assert (0 < a * b) by nia. cases_ltb; settle.
      + unfold in_type. rewrite Z.quot_div_nonneg by lia.
        split; [rewrite H; by apply Z.div_pos; lia |]. apply Z.div_le_upper_bound; nia.
  Qed.
End Checked.

(** A checked conversion yields the value exactly when the target type can hold it. *)
Lemma checked_cast_exact (to from : IntType) v :
  0 < it_bits to -> 0 < it_bits from -> it_signed to = false -> it_signed from = false ->
  in_type from v -> checked_cast to from v = exact to v.
Proof.
  intros Ht Hf Et Ef Hv. unfold checked_cast. rewrite Et, Ef. simpl.
  pose proof (it_min_neg to Ht). pose proof (it_min_neg from Hf).
  assert (it_min to = 0) by (unfold it_min; by rewrite Et).
  assert (it_min from = 0) by (unfold it_min; by rewrite Ef).
  unfold in_type in *.
  destruct (Z.leb_spec (it_bits from) (it_bits to)) as [Hle | Hlt].
  - assert (it_max from <= it_max to).
    { unfold it_max. rewrite Et, Ef. pose proof (Z.pow_le_mono_r 2 _ _ ltac:(lia) Hle). lia. }
    rewrite it_cast_small, exact_in by (unfold in_type; lia). done.
  - assert (it_max to <= it_max from).
    { unfold it_max. rewrite Et, Ef.
      pose proof (Z.pow_le_mono_r 2 (it_bits to) (it_bits from) ltac:(lia) ltac:(lia)). lia. }
    rewrite !(it_cast_small from) by (unfold in_type; lia).
    destruct (Z.ltb_spec (it_max to) v).
    + by rewrite exact_out by (unfold in_type; lia).
    + destruct (Z.ltb_spec v (it_min to)); [lia |].
      by rewrite it_cast_small, exact_in by (unfold in_type; lia).
Qed.

(** The form the codec uses: lengths are added and narrowed at unsigned width. *)
Lemma checked_add_size a b :
  in_u64 a -> in_u64 b ->
  checked_add size_t a b = if a + b <? 2 ^ 64 then Some (a + b) else None.
Proof.
  unfold in_u. intros Ha Hb.
  rewrite checked_add_exact; [| done | unfold in_type; cbn; lia | unfold in_type; cbn; lia].
  unfold exact. cbn -[Z.pow Z.add].
  destruct (Z.leb_spec 0 (a + b)), (Z.leb_spec (a + b) (2 ^ 64 - 1)), (Z.ltb_spec (a + b) (2 ^ 64));
    simpl; try done; lia.
Qed.

Lemma checked_add_i64 a b :
  in_i64 a -> in_i64 b ->
  checked_add int64_t a b =
  if (- 2 ^ 63 <=? a + b) && (a + b <=? 2 ^ 63 - 1) then Some (a + b) else None.
Proof.
  unfold in_i64. intros Ha Hb.
  rewrite checked_add_exact; [done | done | unfold in_type; cbn; lia | unfold in_type; cbn; lia].
Qed.

(** ** Bit operations on [uint64_t] *)

(** include/blackhole/core/bitops.hpp:13-19 popcount64 *)
Definition popcount64 (v : Z) : Z :=
  zlen (filter (fun i => Z.testbit v (Z.of_nat i) = true) (seq 0 64)).

(** include/blackhole/core/bitops.hpp:22-31 lowest_set_bit64 *)
Definition lowest_set_bit64 (v : Z) : Z :=
  if v =? 0 then 64
  else match List.find (fun i => Z.testbit v (Z.of_nat i)) (seq 0 64) with
       | Some i => Z.of_nat i
       | None => 64
       end.

(** A non-zero [uint64_t] has a lowest set bit: it is below 64, it is set, and every
    lower bit is clear. *)
Lemma lowest_set_bit64_spec v :
  in_u64 v -> v <> 0 ->
  let i := lowest_set_bit64 v in
  0 <= i < 64 /\ Z.testbit v i = true /\ forall j, 0 <= j < i -> Z.testbit v j = false.
Proof.
  intros Hv Hnz. unfold lowest_set_bit64.
  destruct (Z.eqb_spec v 0) as [| _]; [done |].
  destruct (List.find _ (seq 0 64)) as [i |] eqn:Hf.
  - assert (forall n s, List.find (fun i => Z.testbit v (Z.of_nat i)) (seq s n) = Some i ->
      (s <= i < s + n)%nat /\ Z.testbit v (Z.of_nat i) = true /\
      forall j, (s <= j < i)%nat -> Z.testbit v (Z.of_nat j) = false) as Hgen.
    { clear Hf. induction n as [| n IH]; intros s; simpl; [done |].
      destruct (Z.testbit v (Z.of_nat s)) eqn:E.
      - intros [= <-]. split; [lia |]. split; [done | lia].
      - intros (H1 & H2 & H3)%IH. split; [lia |]. split; [done |].
        intros j Hj. destruct (decide (j = s)) as [-> | ]; [done | apply H3; lia]. }
    apply Hgen in Hf as (H1 & H2 & H3). split; [lia |]. split; [done |].
    intros j Hj. rewrite <- (Z2Nat.id j) by lia. apply H3. lia.
  - exfalso. apply Hnz, Z.bits_inj'. intros n Hn. rewrite Z.bits_0.
    destruct (decide (n < 64)).
    + eapply List.find_none with (x := Z.to_nat n) in Hf.
      * by rewrite Z2Nat.id in Hf by lia.
      * apply in_seq. lia.
    + unfold in_u in Hv. destruct (decide (v = 0)) as [-> | ]; [apply Z.bits_0 |].
      apply Z.bits_above_log2; [lia |]. apply Z.lt_le_trans with 64; [| lia].
      apply Z.log2_lt_pow2; lia.
Qed.
