(* ===== verification/Codec.v ===== *)
(** * Canonical byte codec

    Models [include/blackhole/core/canonical.hpp] and [src/core/canonical.cpp]: the
    bounded [Writer] with its latched failure flag, the sticky-failure [Reader], and the
    primitive encoders and decoders. A decoder is a computation in the monad
    [Decoder]: it moves the reader and yields a value or the refusing [Outcome].

    The second half is the algebra the message files use: what it means for an encoder
    to emit a byte image ([Emits]), for a decoder to read it back ([Reads]), to accept
    only canonical images ([Canonical]) and to be total and sticky ([Sticky]), closed
    under sequencing; and the interface [CodecLaws] the overloaded [encode] / [decode]
    pairs of the program promise to one another. *)
From S2P Require Import Prelude Core Checked.
Local Open Scope Z_scope.

(** ** Writer *)

(** include/blackhole/core/canonical.hpp:31-71 Writer *)
Record Writer := MkWriter { buf_ : list byte; max_ : Z; ok_ : bool }.

Definition new_Writer (max_bytes : Z) : Writer := MkWriter [] max_bytes true.
Definition writer_fail (w : Writer) : Writer := MkWriter (buf_ w) (max_ w) false.

Definition kDefaultMaxDocumentBytes : Z := 2 ^ 20.

(** src/core/canonical.cpp:5-12 Writer::put_byte *)
Definition put_byte (b : byte) (w : Writer) : Writer :=
  if negb (ok_ w) then w
  else if max_ w <=? zlen (buf_ w) then writer_fail w
  else MkWriter (buf_ w ++ [b]) (max_ w) (ok_ w).

(** src/core/canonical.cpp:14-22 Writer::put *)
Definition put (b : list byte) (w : Writer) : Writer :=
  if negb (ok_ w) then w
  else
    match checked_add size_t (zlen (buf_ w)) (zlen b) with
    | None => writer_fail w
    | Some total =>
        if max_ w <? total then writer_fail w
        else MkWriter (buf_ w ++ b) (max_ w) (ok_ w)
    end.

(** Byte [i] of an integer, [(v >> (8 * i)) & 0xFF]. *)
Definition byte_at (v : Z) (i : Z) : byte := byte_of_Z (Z.land (Z.shiftr v (8 * i)) 0xFF).

(** src/core/canonical.cpp:24 Writer::u8 *)
Definition w_u8 (v : Z) : Writer -> Writer := put_byte (byte_of_Z v).

(** src/core/canonical.cpp:26-29 Writer::u16 *)
Definition w_u16 (v : Z) (w : Writer) : Writer := put_byte (byte_at v 1) (put_byte (byte_at v 0) w).

(** [for (int i = 0; i < n; ++i) put_byte((v >> (8 * i)) & 0xFF)] *)
Definition put_le (n : nat) (v : Z) (w : Writer) : Writer :=
  foldl (fun w i => put_byte (byte_at v (Z.of_nat i)) w) w (seq 0 n).

(** src/core/canonical.cpp:31-35 Writer::u32 *)
Definition w_u32 : Z -> Writer -> Writer := put_le 4.

(** src/core/canonical.cpp:37-41 Writer::u64 *)
Definition w_u64 : Z -> Writer -> Writer := put_le 8.

(** src/core/canonical.cpp:43 Writer::i64 *)
Definition w_i64 (v : Z) : Writer -> Writer := w_u64 (u64_of_i64 v).

(** src/core/canonical.cpp:45 Writer::boolean *)
Definition w_boolean (v : bool) : Writer -> Writer := w_u8 (if v then 1 else 0).

(** src/core/canonical.cpp:47-55 Writer::bytes *)
Definition w_bytes (b : list byte) (w : Writer) : Writer :=
  match checked_cast uint32_t size_t (zlen b) with
  | None => writer_fail w
  | Some n => put b (w_u32 n w)
  end.

(** src/core/canonical.cpp:57-63 Writer::blob *)
Definition w_blob (b : list byte) (max_len : Z) (w : Writer) : Writer :=
  if max_len <? zlen b then writer_fail w else w_bytes b w.

(** src/core/canonical.cpp:65-71 Writer::string *)
Definition w_string (s : list byte) (max_len : Z) (w : Writer) : Writer :=
  if max_len <? zlen s then writer_fail w else w_bytes s w.

(** src/core/canonical.cpp:73 Writer::raw *)
Definition w_raw : list byte -> Writer -> Writer := put.

(** Encoders run in sequence on one writer. *)
Definition seqw (es : list (Writer -> Writer)) (w : Writer) : Writer := foldl (fun w e => e w) w es.

(** ** Reader *)

(** include/blackhole/core/canonical.hpp:76-112 Reader *)
Record Reader := MkReader { d_ : list byte; p_ : nat; err_ : Outcome }.

Definition new_Reader (data : list byte) : Reader := MkReader data 0 Ok.

(** include/blackhole/core/canonical.hpp:82-84 Reader::remaining *)
Definition remaining (r : Reader) : Z :=
  if Nat.ltb (p_ r) (length (d_ r)) then Z.of_nat (length (d_ r) - p_ r) else 0.

(** What a decoder returns: the decoded value (the call returned [Ok]) or a refusal. *)
Inductive result (A : Type) := Done (a : A) | Refuse (o : Outcome).
Arguments Done {A} _.
Arguments Refuse {A} _.

Definition Decoder (A : Type) : Type := Reader -> result A * Reader.

#[export] Instance Decoder_ret : MRet Decoder := fun A a r => (Done a, r).

(** [Outcome o = ...; if (!is_affirmative(o)) return o; ...] *)
#[export] Instance Decoder_bind : MBind Decoder := fun A B k d r =>
  match d r with
  | (Done a, r') => k a r'
  | (Refuse o, r') => (Refuse o, r')
  end.

(** A refusal that does not touch the reader ([return Outcome::Invalid]). *)
Definition refuse {A} (o : Outcome) : Decoder A := fun r => (Refuse o, r).

(** [if (!b) return o;] *)
Definition ensure (b : bool) (o : Outcome) : Decoder unit := if b then mret tt else refuse o.

(** include/blackhole/core/canonical.hpp:104-107 Reader::fail *)
Definition reader_fail {A} (o : Outcome) : Decoder A := fun r =>
  let err := if err_ r == Ok then o else err_ r in
  (Refuse err, MkReader (d_ r) (p_ r) err).

(** src/core/canonical.cpp:75-79 Reader::need *)
Definition need (n : Z) : Decoder unit := fun r =>
  if err_ r != Ok then (Refuse (err_ r), r)
  else if remaining r <? n then reader_fail Malformed r
  else (Done tt, r).

Definition advance (n : nat) (r : Reader) : Reader := MkReader (d_ r) (p_ r + n) (err_ r).

(** [d_[p_ + i]] as an integer; in range wherever [need] succeeded. *)
Definition byte_pos (r : Reader) (i : nat) : Z := Z_of_byte (nth (p_ r + i) (d_ r) x00).

(** Read at the cursor, then advance it by [n]. *)
Definition step {A} (f : Reader -> A) (n : nat) : Decoder A := fun r => (Done (f r), advance n r).

(** src/core/canonical.cpp:81-87 Reader::u8 *)
Definition r_u8 : Decoder Z :=
  need 1 ;; step (fun r => byte_pos r 0) 1.

(** src/core/canonical.cpp:89-97 Reader::u16 *)
Definition r_u16 : Decoder Z :=
  need 2 ;; step (fun r => Z.lor (byte_pos r 0) (Z.shiftl (byte_pos r 1) 8)) 2.

(** [acc |= d_[p_ + i] << (8 * i)] for [i] in [0..n). *)
Definition acc_le (n : nat) (r : Reader) : Z :=
  foldl (fun acc i => Z.lor acc (Z.shiftl (byte_pos r i) (8 * Z.of_nat i))) 0 (seq 0 n).

(** src/core/canonical.cpp:99-110 Reader::u32 *)
Definition r_u32 : Decoder Z :=
  need 4 ;; step (acc_le 4) 4.

(** src/core/canonical.cpp:112-123 Reader::u64 *)
Definition r_u64 : Decoder Z :=
  need 8 ;; step (acc_le 8) 8.

(** src/core/canonical.cpp:125-131 Reader::i64 *)
Definition r_i64 : Decoder Z := raw ← r_u64; mret (i64_of_u64 raw).

(** src/core/canonical.cpp:133-140 Reader::boolean *)
Definition r_boolean : Decoder bool :=
  raw ← r_u8; if 1 <? raw then reader_fail Invalid else mret (raw =? 1).

(** src/core/canonical.cpp:150-156 Reader::raw *)
Definition r_raw (n : Z) : Decoder (list byte) :=
  need n ;; step (fun r => take (Z.to_nat n) (drop (p_ r) (d_ r))) (Z.to_nat n).

(** src/core/canonical.cpp:142-148 Reader::blob *)
Definition r_blob (n : Z) : Decoder (list byte) :=
  len ← r_u32; if len =? n then r_raw len else reader_fail Malformed.

(** src/core/canonical.cpp:158-163 Reader::skip *)
Definition r_skip (n : Z) : Decoder unit :=
  need n ;; step (fun _ => tt) (Z.to_nat n).

(** src/core/canonical.cpp:165-176 Reader::string *)
Definition r_string (max_len : Z) : Decoder (list byte) :=
  len ← r_u32; if max_len <? len then reader_fail Oversized else r_raw len.

(** src/core/canonical.cpp:178-182 Reader::finish *)
Definition r_finish : Decoder unit := fun r =>
  if err_ r != Ok then (Refuse (err_ r), r)
  else if Nat.eqb (p_ r) (length (d_ r)) then (Done tt, r)
  else reader_fail Malformed r.

(** [r.remaining()] in a guard. *)
Definition remaining_at_least (n : Z) (o : Outcome) : Decoder unit := fun r =>
  if remaining r <? n then (Refuse o, r) else (Done tt, r).

(** [for (i = 0; i < n; ++i) { decode(r, x); v.push_back(x); }] *)
Fixpoint repeat_dec {A} (n : nat) (d : Decoder A) : Decoder (list A) :=
  match n with
  | O => mret []
  | S n => x ← d; xs ← repeat_dec n d; mret (x :: xs)
  end.

(** A complete message: decode, then require that every byte was consumed. *)
Definition decode_all {A} (d : Decoder A) (bs : list byte) : result A :=
  fst ((v ← d; r_finish ;; mret v) (new_Reader bs)).

(** ** Images of the primitives *)

Lemma byte_at_shift v i : 0 <= i -> byte_at v i = byte_of_Z (Z.shiftr v (8 * i)).
Proof.
  intros Hi. unfold byte_at, byte_of_Z.
  change 0xFF with (Z.ones 8). rewrite Z.land_ones by lia. change (2 ^ 8) with 256.
  by rewrite Zmod_mod.
Qed.

Lemma le_bytes_seq n v k :
  0 <= k -> map (fun i => byte_at v (k + Z.of_nat i)) (seq 0 n) = le_bytes n (Z.shiftr v (8 * k)).
Proof.
  revert k. induction n as [| n IH]; intros k Hk; [done |].
  cbn [seq map le_bytes]. rewrite byte_at_shift by lia. f_equal; [do 2 f_equal; lia |].
  rewrite Z.shiftr_shiftr by lia. replace (8 * k + 8) with (8 * (k + 1)) by lia.
  rewrite <- IH by lia. rewrite <- seq_shift, map_map. apply map_ext.
  intros i. f_equal. lia.
Qed.

Lemma acc_le_value n r :
  acc_le n r = le_value (map (fun i => byte_of_Z (byte_pos r i)) (seq 0 n)).
Proof.
  assert (forall l k acc, 0 <= acc < 2 ^ (8 * Z.of_nat k) ->
    foldl (fun acc i => Z.lor acc (Z.shiftl (byte_pos r i) (8 * Z.of_nat i))) acc (seq k l) =
    acc + 2 ^ (8 * Z.of_nat k) * le_value (map (fun i => byte_of_Z (byte_pos r i)) (seq k l))) as H.
  { induction l as [| l IH]; intros k acc Hacc; [simpl; lia |].
    cbn [seq foldl map le_value]. rewrite Z_of_byte_of_Z.
    assert (0 <= byte_pos r k < 256) as Hb by apply Z_of_byte_range.
    rewrite (Z.mod_small (byte_pos r k)) by lia. set (b := byte_pos r k) in *.
    replace (8 * Z.of_nat (S k)) with (8 + 8 * Z.of_nat k) in * by lia.
    assert (Z.lor acc (Z.shiftl b (8 * Z.of_nat k)) = acc + 2 ^ (8 * Z.of_nat k) * b) as Hl.
    { rewrite Z.shiftl_mul_pow2 by lia.
      pose proof (Z.add_lor_land acc (b * 2 ^ (8 * Z.of_nat k))).
      assert (Z.land acc (b * 2 ^ (8 * Z.of_nat k)) = 0); [| lia].
      apply Z.bits_inj'. intros n' Hn. rewrite Z.land_spec, Z.bits_0.
      destruct (decide (n' < 8 * Z.of_nat k)).
      - rewrite Z.mul_pow2_bits_low by lia. apply andb_false_r.
      - rewrite <- (Z.mod_small acc (2 ^ (8 * Z.of_nat k))) by lia.
        rewrite Z.mod_pow2_bits_high by lia. done. }
    rewrite Hl, IH.
    - replace (8 * Z.of_nat (S k)) with (8 + 8 * Z.of_nat k) by lia.
      rewrite Z.pow_add_r by lia. change (2 ^ 8) with 256. lia.
    - replace (8 * Z.of_nat (S k)) with (8 + 8 * Z.of_nat k) by lia.
      rewrite Z.pow_add_r by lia. change (2 ^ 8) with 256. nia. }
  unfold acc_le. rewrite H by (simpl; lia). simpl. lia.
Qed.

(** The unread bytes. *)
Definition rest (r : Reader) : list byte := drop (p_ r) (d_ r).

Lemma remaining_rest r : remaining r = zlen (rest r).
Proof.
  unfold remaining, rest, zlen. rewrite length_drop.
  destruct (Nat.ltb_spec (p_ r) (length (d_ r))); lia.
Qed.

Lemma rest_advance n r : rest (advance n r) = drop n (rest r).
Proof. unfold rest, advance. simpl. by rewrite drop_drop. Qed.

Lemma advance_advance n m r : advance n (advance m r) = advance (m + n) r.
Proof. unfold advance. simpl. f_equal. lia. Qed.

Lemma advance_0 r : advance 0 r = r.
Proof. unfold advance. destruct r. simpl. f_equal. lia. Qed.

Lemma rest_new bs : rest (new_Reader bs) = bs.
Proof. done. Qed.

Lemma nth_rest r i : nth (p_ r + i) (d_ r) x00 = nth i (rest r) x00.
Proof. unfold rest. symmetry. apply nth_skipn. Qed.

Lemma bytes_taken n r :
  Z.of_nat n <= remaining r ->
  map (fun i => byte_of_Z (byte_pos r i)) (seq 0 n) = take n (rest r).
Proof.
  rewrite remaining_rest. unfold zlen. intros Hn.
  apply nth_ext with (d := x00) (d' := x00).
  - rewrite length_map, length_seq, length_take. lia.
  - intros i Hi. rewrite length_map, length_seq in Hi.
    rewrite (nth_indep _ x00 (byte_of_Z (byte_pos r 0))) by (rewrite length_map, length_seq; lia).
    rewrite (map_nth (fun i => byte_of_Z (byte_pos r i)) (seq 0 n) 0%nat i), seq_nth by lia. simpl.
    unfold byte_pos. rewrite byte_of_Z_of_byte, nth_rest.
    rewrite nth_firstn. by destruct (Nat.ltb_spec i n); [| lia].
Qed.

(** ** What an encoder emits *)

(** Writers never exceed their bound. *)
Definition writer_wf (w : Writer) : Prop := zlen (buf_ w) <= max_ w < 2 ^ 64.

(** [Emits e bs]: on a healthy writer with room, [e] appends exactly [bs]; without room
    it latches the failure; a failed writer is left alone. *)
Definition Emits (e : Writer -> Writer) (bs : list byte) : Prop :=
  forall w, writer_wf w ->
    (max_ (e w) = max_ w /\ writer_wf (e w)) /\
    (ok_ w = false -> e w = w) /\
    (ok_ w = true -> zlen (buf_ w) + zlen bs <= max_ w ->
       e w = MkWriter (buf_ w ++ bs) (max_ w) true) /\
    (ok_ w = true -> max_ w < zlen (buf_ w) + zlen bs -> ok_ (e w) = false).

Create HintDb codec.

Lemma emits_nil : Emits (fun w => w) [].
Proof.
  intros w Hw. split; [done |]. split; [done |]. split.
  - intros Hok _. destruct w; simpl in *. by rewrite app_nil_r, Hok.
  - rewrite zlen_nil. destruct Hw. lia.
Qed.

Lemma emits_comp e1 e2 b1 b2 :
  Emits e1 b1 -> Emits e2 b2 -> Emits (fun w => e2 (e1 w)) (b1 ++ b2).
Proof.
  intros H1 H2 w Hw. specialize (H1 w Hw) as ((M1 & W1) & F1 & G1 & O1).
  specialize (H2 _ W1) as ((M2 & W2) & F2 & G2 & O2).
  pose proof (zlen_nonneg b1). pose proof (zlen_nonneg b2).
  rewrite zlen_app. split; [by rewrite M2 |]. split; [| split].
  - intros Hok. rewrite (F1 Hok) in *. auto.
  - intros Hok Hlen. rewrite G1 in * by (done || lia). simpl in *.
    rewrite zlen_app in G2. rewrite G2 by (done || lia). by rewrite app_assoc.
  - intros Hok Hlen. destruct (decide (zlen (buf_ w) + zlen b1 <= max_ w)).
    + rewrite G1 in * by (done || lia). simpl in *. rewrite zlen_app in O2.
      apply O2; (done || lia).
    + assert (ok_ (e1 w) = false) as Hf by (apply O1; (done || lia)).
      by rewrite (F2 Hf).
Qed.

Lemma emits_seqw es bs : Forall2 Emits es bs -> Emits (seqw es) (concat bs).
Proof.
  unfold seqw. induction 1 as [| e b es bs He _ IH]; simpl; [apply emits_nil |].
  exact (emits_comp e (fun w => foldl (fun w e => e w) w es) b (concat bs) He IH).
Qed.

Lemma emits_put_byte b : Emits (put_byte b) [b].
Proof.
  intros w [Hl Hm]. unfold put_byte, writer_wf. rewrite zlen_cons, zlen_nil.
  destruct (ok_ w) eqn:Eok; simpl; [| done].
  destruct (Z.leb_spec (max_ w) (zlen (buf_ w))); simpl;
    rewrite ?zlen_app, ?zlen_cons, ?zlen_nil; repeat split; auto; lia.
Qed.

Lemma put_eq b w :
  max_ w < 2 ^ 64 -> zlen (buf_ w) <= max_ w -> zlen b < 2 ^ 64 ->
  put b w = if negb (ok_ w) then w
            else if max_ w <? zlen (buf_ w) + zlen b then writer_fail w
            else MkWriter (buf_ w ++ b) (max_ w) (ok_ w).
Proof.
  intros Hw Hb Hl. unfold put. destruct (ok_ w); simpl; [| done].
  pose proof (zlen_nonneg (buf_ w)). pose proof (zlen_nonneg b).
  rewrite checked_add_size by (unfold in_u; lia).
  destruct (Z.ltb_spec (zlen (buf_ w) + zlen b) (2 ^ 64)); [done |].
  destruct (Z.ltb_spec (max_ w) (zlen (buf_ w) + zlen b)); [done | lia].
Qed.

Lemma emits_put b : zlen b < 2 ^ 64 -> Emits (put b) b.
Proof.
  intros Hb w [Hl Hm]. rewrite put_eq by lia.
  pose proof (zlen_nonneg b). unfold writer_wf.
  destruct (ok_ w) eqn:Eok; simpl; [| done].
  destruct (Z.ltb_spec (max_ w) (zlen (buf_ w) + zlen b)); simpl;
    rewrite ?zlen_app; repeat split; auto; lia.
Qed.

Lemma emits_put_le n v : Emits (put_le n v) (le_bytes n v).
Proof.
  assert (forall k, Emits (fun w => foldl (fun w i => put_byte (byte_at v (Z.of_nat i)) w) w (seq k n))
                          (map (fun i => byte_at v (Z.of_nat i)) (seq k n))) as H.
  { induction n as [| n IH]; intros k; [apply emits_nil |]. simpl.
    exact (emits_comp _ (fun w => foldl _ w (seq (S k) n)) [_] _ (emits_put_byte _) (IH (S k))). }
  specialize (H 0%nat).
  rewrite <- (map_ext (fun i => byte_at v (0 + Z.of_nat i))) in H by (intros; done).
  rewrite le_bytes_seq, Z.mul_0_r, Z.shiftr_0_r in H by lia. exact H.
Qed.

Lemma emits_u8 v : Emits (w_u8 v) (le_bytes 1 v).
Proof. apply emits_put_byte. Qed.

Lemma emits_u16 v : Emits (w_u16 v) (le_bytes 2 v).
Proof. exact (emits_put_le 2 v). Qed.

Lemma emits_u32 v : Emits (w_u32 v) (le_bytes 4 v).
Proof. apply emits_put_le. Qed.

Lemma emits_u64 v : Emits (w_u64 v) (le_bytes 8 v).
Proof. apply emits_put_le. Qed.

Lemma emits_i64 v : Emits (w_i64 v) (le_bytes 8 (u64_of_i64 v)).
Proof. apply emits_u64. Qed.

Lemma emits_boolean v : Emits (w_boolean v) (le_bytes 1 (Z.b2z v)).
Proof. destruct v; apply emits_u8. Qed.

(** A length-prefixed byte string. *)
Definition prefixed (b : list byte) : list byte := le_bytes 4 (zlen b) ++ b.

Lemma emits_bytes b : zlen b < 2 ^ 32 -> Emits (w_bytes b) (prefixed b).
Proof.
  intros Hb. pose proof (zlen_nonneg b).
  pose proof (emits_comp (w_u32 (zlen b)) (put b) _ _ (emits_u32 _) (emits_put b ltac:(lia))) as H'.
  intros w Hw. specialize (H' w Hw). revert H'. unfold w_bytes.
  rewrite checked_cast_exact; [| done | done | done | done | unfold in_type; cbn; lia].
  rewrite exact_in; [done |]. unfold in_type. cbn -[Z.pow]. change (it_max uint32_t) with (2 ^ 32 - 1). lia.
Qed.

Lemma emits_string s n : zlen s <= n -> n < 2 ^ 32 -> Emits (w_string s n) (prefixed s).
Proof.
  intros Hs Hn w Hw. unfold w_string.
  destruct (Z.ltb_spec n (zlen s)); [lia |]. apply emits_bytes; [lia | done].
Qed.

Lemma emits_list {A} (e : A -> Writer -> Writer) (b : A -> list byte) xs :
  Forall (fun x => Emits (e x) (b x)) xs -> Emits (seqw (map e xs)) (concat (map b xs)).
Proof. intros H. apply emits_seqw. induction H; simpl; constructor; auto. Qed.

#[export] Hint Resolve emits_nil emits_u8 emits_u16 emits_u32 emits_u64 emits_i64
  emits_boolean emits_string emits_list : codec.

(** ** What a decoder reads *)

(** [Reads d bs a]: wherever the unread input starts with [bs], [d] consumes exactly
    [bs] and yields [a]. *)
Definition Reads {A} (d : Decoder A) (bs : list byte) (a : A) : Prop :=
  forall r tail, err_ r = Ok -> rest r = bs ++ tail ->
    d r = (Done a, advance (length bs) r).

(** [Accepts d P]: whenever [d] yields a value, the bytes it consumed satisfy [P]. *)
Definition Accepts {A} (d : Decoder A) (P : A -> list byte -> Prop) : Prop :=
  forall r a r', d r = (Done a, r') ->
    exists bs tail, P a bs /\ rest r = bs ++ tail /\ r' = advance (length bs) r.

(** Once the reader has failed, [d] reports that failure and moves nothing. *)
Definition Sticky {A} (d : Decoder A) : Prop :=
  forall r, err_ r <> Ok -> d r = (Refuse (err_ r), r).

(** A refusal is never [Ok]; the cursor stays inside the data. *)
Definition Total {A} (d : Decoder A) : Prop :=
  forall r, let '(res, r') := d r in
    (match res with Refuse o => o <> Ok | Done _ => True end) /\
    d_ r' = d_ r /\ (p_ r <= p_ r')%nat /\
    ((p_ r <= length (d_ r))%nat -> (p_ r' <= length (d_ r'))%nat).

Lemma reads_ret {A} (a : A) : Reads (mret a) [] a.
Proof. intros r tail _ _. simpl. by rewrite advance_0. Qed.

Lemma reads_bind {A B} (d : Decoder A) (k : A -> Decoder B) b1 b2 a b :
  Reads d b1 a -> Reads (k a) b2 b -> Reads (d ≫= k) (b1 ++ b2) b.
Proof.
  intros H1 H2 r tail Hok Hr. unfold mbind, Decoder_bind.
  rewrite <- app_assoc in Hr. rewrite (H1 r _ Hok Hr).
  assert (rest (advance (length b1) r) = b2 ++ tail) as Hr'.
  { by rewrite rest_advance, Hr, drop_app_length. }
  rewrite (H2 (advance (length b1) r) tail Hok Hr').
  by rewrite advance_advance, length_app.
Qed.

Lemma reads_ensure {A} (c : bool) o (d : Decoder A) bs a :
  c = true -> Reads d bs a -> Reads (ensure c o ;; d) bs a.
Proof. intros -> H r tail Hok Hr. simpl. by apply (H r tail). Qed.

Lemma reads_remaining {A} n o (d : Decoder A) bs a :
  n <= zlen bs -> Reads d bs a -> Reads (remaining_at_least n o ;; d) bs a.
Proof.
  intros Hn H r tail Hok Hr. unfold mbind, Decoder_bind, remaining_at_least.
  rewrite remaining_rest, Hr, zlen_app. pose proof (zlen_nonneg tail).
  destruct (Z.ltb_spec (zlen bs + zlen tail) n); [lia |]. by apply (H r tail).
Qed.

Lemma reads_need n (f : Reader -> Z) bs a :
  Z.of_nat n = zlen bs -> (forall r tail, rest r = bs ++ tail -> f r = a) ->
  Reads (need (Z.of_nat n) ;; step f n) bs a.
Proof.
  intros Hn Hf r tail Hok Hr. unfold mbind, Decoder_bind, need, step. rewrite Hok. simpl.
  rewrite remaining_rest, Hr, zlen_app. pose proof (zlen_nonneg tail).
  destruct (Z.ltb_spec (zlen bs + zlen tail) (Z.of_nat n)); [lia |].
  rewrite (Hf r tail Hr). do 2 f_equal. unfold zlen in Hn. lia.
Qed.

Lemma acc_le_rest n r :
  Z.of_nat n <= remaining r -> acc_le n r = le_value (take n (rest r)).
Proof. intros Hn. by rewrite acc_le_value, bytes_taken. Qed.

Lemma reads_le n v (f : Reader -> Z) :
  (forall r, Z.of_nat n <= remaining r -> f r = acc_le n r) ->
  0 <= v < 256 ^ Z.of_nat n ->
  Reads (need (Z.of_nat n) ;; step f n) (le_bytes n v) v.
Proof.
  intros Hf Hv. apply reads_need; [by rewrite zlen_le_bytes |].
  intros r tail Hr.
  assert (Z.of_nat n <= remaining r) as Hrem.
  { rewrite remaining_rest, Hr, zlen_app, zlen_le_bytes. pose proof (zlen_nonneg tail). lia. }
  rewrite Hf, acc_le_rest, Hr by done.
  rewrite take_app_length' by (by rewrite length_le_bytes). by apply le_value_bytes_small.
Qed.

Lemma acc_le_1 r : acc_le 1 r = byte_pos r 0.
Proof. unfold acc_le. simpl. by rewrite Z.shiftl_0_r. Qed.

Lemma acc_le_2 r : acc_le 2 r = Z.lor (byte_pos r 0) (Z.shiftl (byte_pos r 1) 8).
Proof. unfold acc_le. cbn [seq foldl]. by rewrite Z.lor_0_l, Z.shiftl_0_r. Qed.

Lemma reads_u8 v : in_u8 v -> Reads r_u8 (le_bytes 1 v) v.
Proof. intros Hv. apply (reads_le 1); [| exact Hv]. intros. by rewrite acc_le_1. Qed.

Lemma reads_u16 v : in_u16 v -> Reads r_u16 (le_bytes 2 v) v.
Proof. intros Hv. apply (reads_le 2); [| exact Hv]. intros. by rewrite acc_le_2. Qed.

Lemma reads_u32 v : in_u32 v -> Reads r_u32 (le_bytes 4 v) v.
Proof. intros Hv. apply (reads_le 4); [done | exact Hv]. Qed.

Lemma reads_u64 v : in_u64 v -> Reads r_u64 (le_bytes 8 v) v.
Proof. intros Hv. apply (reads_le 8); [done | exact Hv]. Qed.

Lemma reads_bind_nil {A B} (d : Decoder A) (k : A -> Decoder B) b1 a b :
  Reads d b1 a -> Reads (k a) [] b -> Reads (d ≫= k) b1 b.
Proof. intros H1 H2. rewrite <- (app_nil_r b1). by apply (reads_bind d k b1 [] a b). Qed.

Lemma reads_i64 v : in_i64 v -> Reads r_i64 (le_bytes 8 (u64_of_i64 v)) v.
Proof.
  intros Hv. unfold r_i64. eapply reads_bind_nil; [apply reads_u64; auto with bhg |].
  rewrite i64_of_u64_of_i64 by done. apply reads_ret.
Qed.

Lemma reads_boolean v : Reads r_boolean (le_bytes 1 (Z.b2z v)) v.
Proof.
  unfold r_boolean. eapply reads_bind_nil.
  - apply reads_u8. unfold in_u. destruct v; simpl; lia.
  - destruct v; apply reads_ret.
Qed.

Lemma reads_raw n bs : n = zlen bs -> Reads (r_raw n) bs bs.
Proof.
  intros -> r tail Hok Hr. unfold r_raw, mbind, Decoder_bind, need, step. rewrite Hok. simpl.
  rewrite remaining_rest, Hr, zlen_app. pose proof (zlen_nonneg tail).
  destruct (Z.ltb_spec (zlen bs + zlen tail) (zlen bs)); [lia |].
  fold (rest r). rewrite Hr. unfold zlen. by rewrite Nat2Z.id, take_app_length.
Qed.

Lemma reads_string s n : zlen s <= n -> n < 2 ^ 32 -> Reads (r_string n) (prefixed s) s.
Proof.
  intros Hs Hn. pose proof (zlen_nonneg s). unfold r_string, prefixed.
  eapply reads_bind; [apply reads_u32; unfold in_u; lia |].
  destruct (Z.ltb_spec n (zlen s)); [lia |]. by apply reads_raw.
Qed.

Lemma reads_repeat {A} (d : Decoder A) (b : A -> list byte) xs :
  Forall (fun x => Reads d (b x) x) xs ->
  Reads (repeat_dec (length xs) d) (concat (map b xs)) xs.
Proof.
  induction 1 as [| x xs Hx _ IH]; simpl; [apply reads_ret |].
  eapply reads_bind; [exact Hx |]. eapply reads_bind_nil; [exact IH | apply reads_ret].
Qed.

(** *** Accepted images *)

Lemma accepts_weaken {A} (d : Decoder A) (P Q : A -> list byte -> Prop) :
  Accepts d P -> (forall a bs, P a bs -> Q a bs) -> Accepts d Q.
Proof. intros H HPQ r a r' (bs & tail & HP & Hr)%H. exists bs, tail. auto. Qed.

Lemma accepts_ret {A} (a : A) (P : A -> list byte -> Prop) : P a [] -> Accepts (mret a) P.
Proof. intros HP r a' r' [= <- <-]. exists [], (rest r). by rewrite advance_0. Qed.

Lemma accepts_refuse {A} o (P : A -> list byte -> Prop) : Accepts (refuse o) P.
Proof. by intros r a' r'. Qed.

Lemma accepts_fail {A} o (P : A -> list byte -> Prop) : Accepts (reader_fail o) P.
Proof. by intros r a' r'. Qed.

Lemma accepts_bind {A B} (d : Decoder A) (k : A -> Decoder B) P Q :
  Accepts d P -> (forall a b1, P a b1 -> Accepts (k a) (fun b b2 => Q b (b1 ++ b2))) ->
  Accepts (d ≫= k) Q.
Proof.
  intros H1 H2 r b r'. unfold mbind, Decoder_bind.
  destruct (d r) as [[a | o] r1] eqn:E; [| done]. intros Hk.
  apply H1 in E as (b1 & t1 & HP & Hr & ->).
  apply (H2 a b1 HP) in Hk as (b2 & t2 & HQ & Hr2 & ->).
  rewrite rest_advance, Hr, drop_app_length in Hr2. subst t1.
  exists (b1 ++ b2), t2. split; [done |].
  rewrite Hr, app_assoc, advance_advance, length_app. done.
Qed.

Lemma accepts_ensure {A} (c : bool) o (d : Decoder A) P :
  (c = true -> Accepts d P) -> Accepts (ensure c o ;; d) P.
Proof. unfold ensure. destruct c; intros H r a r'; [by apply H | done]. Qed.

Lemma accepts_remaining {A} n o (d : Decoder A) P :
  Accepts d P -> Accepts (remaining_at_least n o ;; d) P.
Proof.
  intros H r a r'. unfold mbind, Decoder_bind, remaining_at_least.
  destruct (remaining r <? n); [done | apply H].
Qed.

Lemma need_done n r x r' : need n r = (Done x, r') -> r' = r /\ n <= remaining r.
Proof.
  unfold need. destruct (err_ r != Ok); [done |].
  destruct (Z.ltb_spec (remaining r) n); [done |]. by intros [= _ <-].
Qed.

Lemma accepts_le n (f : Reader -> Z) :
  (forall r, Z.of_nat n <= remaining r -> f r = acc_le n r) ->
  Accepts (need (Z.of_nat n) ;; step f n)
    (fun v bs => 0 <= v < 256 ^ Z.of_nat n /\ bs = le_bytes n v).
Proof.
  intros Hf r v r'. unfold mbind at 1, Decoder_bind.
  destruct (need (Z.of_nat n) r) as [[[] | o] r1] eqn:E; [| done].
  apply need_done in E as [-> Hrem]. unfold step. intros [= <- <-].
  rewrite Hf, acc_le_rest by done.
  assert (length (take n (rest r)) = n) as Hlen.
  { rewrite length_take. rewrite remaining_rest in Hrem. unfold zlen in Hrem. lia. }
  pose proof (le_value_range (take n (rest r))) as Hrange.
  pose proof (le_bytes_value (take n (rest r))) as Hbytes.
  unfold zlen in Hrange. rewrite Hlen in *.
  exists (take n (rest r)), (drop n (rest r)). rewrite take_drop, Hlen. auto.
Qed.

Lemma accepts_u8 : Accepts r_u8 (fun v bs => in_u8 v /\ bs = le_bytes 1 v).
Proof. apply (accepts_le 1). intros. by rewrite acc_le_1. Qed.

Lemma accepts_u16 : Accepts r_u16 (fun v bs => in_u16 v /\ bs = le_bytes 2 v).
Proof. apply (accepts_le 2). intros. by rewrite acc_le_2. Qed.

Lemma accepts_u32 : Accepts r_u32 (fun v bs => in_u32 v /\ bs = le_bytes 4 v).
Proof. by apply (accepts_le 4). Qed.

Lemma accepts_u64 : Accepts r_u64 (fun v bs => in_u64 v /\ bs = le_bytes 8 v).
Proof. by apply (accepts_le 8). Qed.

Lemma accepts_i64 : Accepts r_i64 (fun v bs => in_i64 v /\ bs = le_bytes 8 (u64_of_i64 v)).
Proof.
  eapply accepts_bind; [apply accepts_u64 |]. intros v b1 [Hv ->].
  apply accepts_ret. cbn beta. rewrite app_nil_r, u64_of_i64_of_u64 by done. auto with bhg.
Qed.

Lemma accepts_boolean : Accepts r_boolean (fun v bs => bs = le_bytes 1 (Z.b2z v)).
Proof.
  eapply accepts_bind; [apply accepts_u8 |]. intros v b1 [Hv ->].
  destruct (Z.ltb_spec 1 v); [apply accepts_fail |]. apply accepts_ret. cbn beta. rewrite app_nil_r.
  unfold in_u in Hv. assert (v = 0 \/ v = 1) as [-> | ->] by lia; done.
Qed.

Lemma accepts_raw n : 0 <= n -> Accepts (r_raw n) (fun v bs => bs = v /\ zlen v = n).
Proof.
  intros Hn r v r'. unfold r_raw, mbind at 1, Decoder_bind.
  destruct (need n r) as [[[] | o] r1] eqn:E; [| done].
  apply need_done in E as [-> Hrem]. unfold step. intros [= <- <-].
  rewrite remaining_rest in Hrem. unfold zlen in *. fold (rest r).
  exists (take (Z.to_nat n) (rest r)), (drop (Z.to_nat n) (rest r)).
  rewrite take_drop, length_take. repeat split; try lia. f_equal; lia.
Qed.

Lemma accepts_string n :
  n < 2 ^ 32 -> Accepts (r_string n) (fun v bs => zlen v <= n /\ bs = prefixed v).
Proof.
  intros Hn. eapply accepts_bind; [apply accepts_u32 |]. intros len b1 [Hv ->].
  destruct (Z.ltb_spec n len); [apply accepts_fail |].
  eapply accepts_weaken; [apply accepts_raw; unfold in_u in *; lia |].
  intros v bs [-> <-]. done.
Qed.

Lemma accepts_repeat {A} n (d : Decoder A) (P : A -> Prop) (b : A -> list byte) :
  Accepts d (fun x bs => P x /\ bs = b x) ->
  Accepts (repeat_dec n d)
    (fun xs bs => length xs = n /\ Forall P xs /\ bs = concat (map b xs)).
Proof.
  intros Hd. induction n as [| n IH]; simpl; [by apply accepts_ret |].
  eapply accepts_bind; [exact Hd |]. intros x b1 [Hx ->].
  eapply accepts_bind; [exact IH |]. intros xs b2 (Hlen & Hxs & ->).
  apply accepts_ret. simpl. rewrite app_nil_r. auto.
Qed.

(** *** Stickiness and totality *)

Lemma need_sticky n : Sticky (need n).
Proof. intros r Hr. unfold need. by rewrite bool_decide_eq_false_2. Qed.

Lemma sticky_bind {A B} (d : Decoder A) (k : A -> Decoder B) : Sticky d -> Sticky (d ≫= k).
Proof. intros H r Hr. unfold mbind, Decoder_bind. by rewrite (H r Hr). Qed.

Lemma total_ret {A} (a : A) : Total (mret a).
Proof. intros r. simpl. auto. Qed.

Lemma total_refuse {A} o : o <> Ok -> Total (@refuse A o).
Proof. intros Ho r. simpl. auto. Qed.

Lemma total_fail {A} o : o <> Ok -> Total (@reader_fail A o).
Proof.
  intros Ho r. unfold reader_fail. simpl.
  destruct (decide (err_ r = Ok)); [by rewrite bool_decide_eq_true_2 | by rewrite bool_decide_eq_false_2].
Qed.

Lemma total_ensure c o : o <> Ok -> Total (ensure c o).
Proof. intros Ho. destruct c; [apply total_ret | by apply total_refuse]. Qed.

Lemma total_remaining n o : o <> Ok -> Total (remaining_at_least n o).
Proof. intros Ho r. unfold remaining_at_least. destruct (remaining r <? n); simpl; auto. Qed.

Lemma total_bind {A B} (d : Decoder A) (k : A -> Decoder B) :
  Total d -> (forall a, Total (k a)) -> Total (d ≫= k).
Proof.
  intros H1 H2 r. specialize (H1 r). unfold mbind, Decoder_bind.
  destruct (d r) as [[a | o] r1]; [| done].
  specialize (H2 a r1). destruct (k a r1) as [res r2].
  destruct H1 as (_ & E1 & P1 & L1), H2 as (R2 & E2 & P2 & L2).
  repeat split; [done | congruence | lia | auto].
Qed.

Lemma total_need {A} n m (f : Reader -> A) : Z.of_nat m = n -> Total (need n ;; step f m).
Proof.
  intros Hn r. unfold mbind, Decoder_bind.
  destruct (need n r) as [[[] | o] r1] eqn:E.
  - apply need_done in E as [-> Hrem]. simpl. repeat split; [lia |].
    intros Hp. rewrite remaining_rest in Hrem. unfold zlen, rest in Hrem.
    rewrite length_drop in Hrem. lia.
  - unfold need in E. destruct (err_ r != Ok) eqn:Ee; bool_prop; [by injection E as <- <- |].
    destruct (remaining r <? n); [| done]. revert E.
    pose proof (@total_fail unit Malformed ltac:(done) r) as Ht.
    destruct (reader_fail Malformed r) as [res r2]. intros [= -> ->]. exact Ht.
Qed.

Lemma total_step_bind {A B} n m (f : Reader -> A) (k : A -> Decoder B) :
  Z.of_nat m = n -> (forall a, Total (k a)) -> Total ((need n ;; step f m) ≫= k).
Proof. intros Hn Hk. apply total_bind; [by apply total_need | done]. Qed.

Lemma total_u8 : Total r_u8. Proof. by apply total_need. Qed.
Lemma total_u16 : Total r_u16. Proof. by apply total_need. Qed.
Lemma total_u32 : Total r_u32. Proof. by apply total_need. Qed.
Lemma total_u64 : Total r_u64. Proof. by apply total_need. Qed.
Lemma total_i64 : Total r_i64.
Proof. apply total_bind; [apply total_u64 | intros; apply total_ret]. Qed.
Lemma total_boolean : Total r_boolean.
Proof.
  apply total_bind; [apply total_u8 |]. intros a.
  destruct (1 <? a); [by apply total_fail | apply total_ret].
Qed.

Lemma total_string n : Total (r_string n).
Proof.
  intros r. unfold r_string.
  assert (Total (len ← r_u32; if 0 <=? len then if n <? len then reader_fail Oversized else r_raw len
                              else mret ([] : list byte))) as H.
  { apply total_bind; [apply total_u32 |]. intros len.
    destruct (Z.leb_spec 0 len); [| apply total_ret].
    destruct (n <? len); [by apply total_fail |]. apply total_need. lia. }
  specialize (H r). unfold mbind, Decoder_bind in *.
  destruct (r_u32 r) as [[len | o] r1] eqn:E; [| exact H].
  apply accepts_u32 in E as (_ & _ & [Hl _] & _).
  destruct (Z.leb_spec 0 len); [exact H | unfold in_u in Hl; lia].
Qed.

Lemma total_repeat {A} n (d : Decoder A) : Total d -> Total (repeat_dec n d).
Proof.
  intros Hd. induction n as [| n IH]; simpl; [apply total_ret |].
  apply total_bind; [done |]. intros. apply total_bind; [done |]. intros. apply total_ret.
Qed.

Lemma sticky_u8 : Sticky r_u8. Proof. apply sticky_bind, need_sticky. Qed.
Lemma sticky_u16 : Sticky r_u16. Proof. apply sticky_bind, need_sticky. Qed.
Lemma sticky_u32 : Sticky r_u32. Proof. apply sticky_bind, need_sticky. Qed.
Lemma sticky_u64 : Sticky r_u64. Proof. apply sticky_bind, need_sticky. Qed.
Lemma sticky_i64 : Sticky r_i64. Proof. apply sticky_bind, sticky_u64. Qed.
Lemma sticky_boolean : Sticky r_boolean. Proof. apply sticky_bind, sticky_u8. Qed.
Lemma sticky_string n : Sticky (r_string n). Proof. apply sticky_bind, sticky_u32. Qed.

#[export] Hint Resolve sticky_bind sticky_u8 sticky_u16 sticky_u32 sticky_u64 sticky_i64
  sticky_boolean sticky_string total_ret total_u8 total_u16 total_u32 total_u64 total_i64
  total_boolean total_string total_repeat : codec.
#[export] Hint Resolve reads_u8 reads_u16 reads_u32 reads_u64 reads_i64 reads_boolean
  reads_string reads_repeat : codec.
#[export] Hint Resolve total_ret total_refuse total_fail total_ensure total_remaining
  : codec.

Lemma need_total_bytes n : Total (r_raw (Z.of_nat n)).
Proof. unfold r_raw. rewrite Nat2Z.id. by apply total_need. Qed.

(** ** Enumerations on the wire *)

Section Enum.
Context {E : Type} `{RawEnumLaws E}.

  (** include/blackhole/core/canonical.hpp:134-137 encode_enum *)
Definition w_enum16 (e : E) : Writer -> Writer := w_u16 (to_raw e).

Definition w_enum8 (e : E) : Writer -> Writer := w_u8 (to_raw e).

  (** include/blackhole/core/canonical.hpp:139-150 decode_enum *)
Definition r_enum16 : Decoder E :=
    raw ← r_u16; ensure (is_valid_raw (E := E) raw) Invalid ;; mret (of_raw raw).

Definition r_enum8 : Decoder E :=
    raw ← r_u8; ensure (is_valid_raw (E := E) raw) Invalid ;; mret (of_raw raw).

Lemma emits_enum16 e : Emits (w_enum16 e) (le_bytes 2 (to_raw e)).
  Proof. apply emits_u16. Qed.

Lemma emits_enum8 e : Emits (w_enum8 e) (le_bytes 1 (to_raw e)).
  Proof. apply emits_u8. Qed.

Lemma reads_enum16 e : Reads r_enum16 (le_bytes 2 (to_raw e)) e.
  Proof.
    eapply reads_bind_nil; [apply reads_u16; pose proof (to_raw_range e); unfold in_u; lia |].
    apply reads_ensure; [apply valid_to_raw |]. rewrite of_to_raw. apply reads_ret.
  Qed.

Lemma reads_enum8 e : Reads r_enum8 (le_bytes 1 (to_raw e)) e.
  Proof.
    eapply reads_bind_nil; [apply reads_u8; pose proof (to_raw_range e); unfold in_u; lia |].
    apply reads_ensure; [apply valid_to_raw |]. rewrite of_to_raw. apply reads_ret.
  Qed.

Lemma accepts_enum16 : Accepts r_enum16 (fun e bs => bs = le_bytes 2 (to_raw e)).
  Proof.
    eapply accepts_bind; [apply accepts_u16 |]. intros v b1 [Hv ->].
    apply accepts_ensure. intros Hval. apply accepts_ret. cbn beta.
    by rewrite to_of_raw, app_nil_r.
  Qed.

Lemma accepts_enum8 : Accepts r_enum8 (fun e bs => bs = le_bytes 1 (to_raw e)).
  Proof.
    eapply accepts_bind; [apply accepts_u8 |]. intros v b1 [Hv ->].
    apply accepts_ensure. intros Hval. apply accepts_ret. cbn beta.
    by rewrite to_of_raw, app_nil_r.
  Qed.

Lemma sticky_enum16 : Sticky r_enum16. Proof. apply sticky_bind, sticky_u16. Qed.
Lemma sticky_enum8 : Sticky r_enum8. Proof. apply sticky_bind, sticky_u8. Qed.
Lemma total_enum16 : Total r_enum16.
  Proof. apply total_bind; [apply total_u16 | intros]. apply total_bind; [by apply total_ensure | intros; apply total_ret]. Qed.
Lemma total_enum8 : Total r_enum8.
  Proof. apply total_bind; [apply total_u8 | intros]. apply total_bind; [by apply total_ensure | intros; apply total_ret]. Qed.
End Enum.

#[export] Hint Resolve emits_enum16 emits_enum8 reads_enum16 reads_enum8 sticky_enum16
  sticky_enum8 total_enum16 total_enum8 : codec.

(** ** The interface of the overloaded [encode] / [decode] pairs *)

(** [image a] is the canonical byte image of [a]; [valid a] says that its fields fit
    their widths and that [decode]'s own checks hold. *)
Class Codec (A : Type) := {
  encode : A -> Writer -> Writer;
  decode : Decoder A;
  image : A -> list byte;
  valid : A -> Prop;
}.
#[global] Hint Mode Codec ! : typeclass_instances.

Class CodecLaws (A : Type) `{Codec A} := {
  encode_emits : forall a : A, valid a -> Emits (encode a) (image a);
  decode_reads : forall a : A, valid a -> Reads decode (image a) a;
  decode_sticky : Sticky (A := A) decode;
  decode_total : Total (A := A) decode;
}.

(** A decoder that accepts only canonical images of valid values. *)
Class CanonicalCodec (A : Type) `{Codec A} :=
  decode_accepts : Accepts (A := A) decode (fun a bs => valid a /\ bs = image a).

#[export] Hint Resolve encode_emits decode_reads decode_sticky decode_total : codec.

(** Serialise into a writer bounded by [max], as the callers do. *)
Definition encode_bounded {A} `{Codec A} (max : Z) (a : A) : option (list byte) :=
  let w := encode a (new_Writer max) in if ok_ w then Some (buf_ w) else None.

Lemma encode_bounded_spec {A} `{CodecLaws A} max (a : A) :
  valid a -> 0 <= max < 2 ^ 64 ->
  encode_bounded max a = if zlen (image a) <=? max then Some (image a) else None.
Proof.
  intros Ha Hm. unfold encode_bounded.
  destruct (encode_emits a Ha (new_Writer max)) as (_ & _ & G & O); [done |].
  simpl in G, O. rewrite zlen_nil in G, O.
  destruct (Z.leb_spec (zlen (image a)) max).
  - by rewrite G by (done || lia).
  - by rewrite O by (done || lia).
Qed.

Lemma finish_end r : err_ r = Ok -> rest r = [] -> (p_ r <= length (d_ r))%nat ->
  r_finish r = (Done tt, r).
Proof.
  intros Hok Hr Hp. unfold r_finish. rewrite Hok. simpl.
  assert (length (rest r) = 0%nat) as Hl by by rewrite Hr.
  unfold rest in Hl. rewrite length_drop in Hl.
  by replace (Nat.eqb (p_ r) (length (d_ r))) with true by (symmetry; apply Nat.eqb_eq; lia).
Qed.

Lemma finish_done r r' : r_finish r = (Done tt, r') -> rest r = [].
Proof.
  unfold r_finish. destruct (err_ r != Ok); [done |].
  destruct (Nat.eqb_spec (p_ r) (length (d_ r))) as [E |].
  - intros _. unfold rest. rewrite E. apply drop_all.
  - unfold reader_fail. done.
Qed.

Lemma decode_all_reads {A} (d : Decoder A) bs a : Reads d bs a -> decode_all d bs = Done a.
Proof.
  intros Hd. unfold decode_all, mbind, Decoder_bind.
  rewrite (Hd (new_Reader bs) []) by (done || by rewrite rest_new, app_nil_r).
  rewrite finish_end; [done | done | |].
  - rewrite rest_advance, rest_new. apply drop_all.
  - simpl. lia.
Qed.

Lemma decode_all_accepts {A} (d : Decoder A) P bs a :
  Accepts d P -> decode_all d bs = Done a -> P a bs.
Proof.
  intros Hd. unfold decode_all, mbind, Decoder_bind.
  destruct (d (new_Reader bs)) as [[x | o] r1] eqn:E; [| done].
  apply Hd in E as (b & t & HP & Hr & ->).
  destruct (r_finish (advance (length b) (new_Reader bs))) as [[[] | o] r2] eqn:F; [| done].
  intros [= ->]. apply finish_done in F. rewrite rest_advance, rest_new in F.
  rewrite rest_new in Hr. subst bs. rewrite drop_app_length in F. subst t. by rewrite app_nil_r.
Qed.

(** *** Consequences of the interface *)

Section Interface.
Context {A : Type} `{CodecLaws A}.

Lemma decode_all_image (a : A) : valid a -> decode_all decode (image a) = Done a.
  Proof. intros Ha. by apply decode_all_reads, decode_reads. Qed.

Lemma roundtrip_bounded max (a : A) bs :
    valid a -> 0 <= max < 2 ^ 64 ->
    encode_bounded max a = Some bs -> decode_all decode bs = Done a.
  Proof.
    intros Ha Hm. rewrite encode_bounded_spec by done.
    destruct (zlen (image a) <=? max); [intros [= <-] | done]. by apply decode_all_image.
  Qed.

Lemma image_inj (a b : A) : valid a -> valid b -> image a = image b -> a = b.
  Proof.
    intros Ha Hb E. pose proof (decode_all_image a Ha) as H1.
    rewrite E, decode_all_image in H1 by done. congruence.
  Qed.

  (** No image is a proper prefix of another one, or of itself extended. *)
Lemma image_prefix_free (a b : A) tail :
    valid a -> valid b -> image a ++ tail = image b -> tail = [] /\ a = b.
  Proof.
    intros Ha Hb E.
    pose proof (decode_reads a Ha (new_Reader (image b)) tail eq_refl) as H1.
    pose proof (decode_reads b Hb (new_Reader (image b)) [] eq_refl) as H2.
    rewrite H1 in H2 by (by rewrite rest_new). rewrite rest_new, app_nil_r in H2.
    specialize (H2 eq_refl). injection H2 as -> _. split; [| done].
    apply (f_equal length) in E. rewrite length_app in E. destruct tail; simpl in *; [done | lia].
  Qed.

Lemma decode_all_canonical `{!CanonicalCodec A} bs (a : A) :
    decode_all decode bs = Done a <-> valid a /\ bs = image a.
  Proof.
    split; [intros Hd; exact (decode_all_accepts _ _ _ _ decode_accepts Hd) |].
    intros [Ha ->]. by apply decode_all_image.
  Qed.

  (** A truncated image is refused, and so is an image with trailing bytes. *)
Lemma decode_all_truncated `{!CanonicalCodec A} (a : A) bs tail :
    valid a -> image a = bs ++ tail -> tail <> [] ->
    exists o, decode_all (decode (A := A)) bs = Refuse o.
  Proof.
    intros Ha E Ht. destruct (decode_all decode bs) as [b | o] eqn:D; [| eauto].
    apply decode_all_canonical in D as [Hb ->].
    symmetry in E. apply image_prefix_free in E; tauto.
  Qed.

Lemma decode_all_trailing `{!CanonicalCodec A} (a : A) tail :
    valid a -> tail <> [] -> exists o, decode_all (decode (A := A)) (image a ++ tail) = Refuse o.
  Proof.
    intros Ha Ht. destruct (decode_all decode (image a ++ tail)) as [b | o] eqn:D; [| eauto].
    apply decode_all_canonical in D as [Hb E].
    apply image_prefix_free in E; tauto.
  Qed.
End Interface.

(** *** Tactics for the codecs of records *)

(** Lemmas of the codecs that are not one of the primitives below. *)
Create HintDb codec_ext.

Ltac field_side := first [ assumption | done ].
Ltac emits_atom :=
  lazymatch goal with
  | |- Emits (w_u8 _) _ => apply emits_u8
  | |- Emits (w_u16 _) _ => apply emits_u16
  | |- Emits (w_u32 _) _ => apply emits_u32
  | |- Emits (w_u64 _) _ => apply emits_u64
  | |- Emits (w_i64 _) _ => apply emits_i64
  | |- Emits (w_boolean _) _ => apply emits_boolean
  | |- Emits (w_enum16 _) _ => apply emits_enum16
  | |- Emits (w_enum8 _) _ => apply emits_enum8
  | |- Emits (w_string _ _) _ => apply emits_string
  | |- Emits (encode _) _ => apply encode_emits
  | _ => solve [ eauto 3 with codec_ext ]
  end; field_side.
Ltac emits_record :=
  apply emits_seqw;
  repeat (apply Forall2_cons_2; [ solve [ emits_atom ] |]); apply Forall2_nil_2.

Ltac reads_atom :=
  lazymatch goal with
  | |- Reads r_u8 _ _ => apply reads_u8
  | |- Reads r_u16 _ _ => apply reads_u16
  | |- Reads r_u32 _ _ => apply reads_u32
  | |- Reads r_u64 _ _ => apply reads_u64
  | |- Reads r_i64 _ _ => apply reads_i64
  | |- Reads r_boolean _ _ => apply reads_boolean
  | |- Reads r_enum16 _ _ => apply reads_enum16
  | |- Reads r_enum8 _ _ => apply reads_enum8
  | |- Reads (r_string _) _ _ => apply reads_string
  | |- Reads decode _ _ => apply decode_reads
  | _ => solve [ eauto 3 with codec_ext ]
  end; field_side.
Ltac reads_field x :=
  first [ progress cbv zeta
        | apply reads_ensure; [ first [ assumption | destruct x; assumption ] |]
        | eapply reads_bind; [ reads_atom |] ].
Ltac reads_record x :=
  cbn [concat]; repeat reads_field x; destruct x; apply reads_ret.

Ltac accepts_atom :=
  lazymatch goal with
  | |- Accepts r_u8 _ => apply accepts_u8
  | |- Accepts r_u16 _ => apply accepts_u16
  | |- Accepts r_u32 _ => apply accepts_u32
  | |- Accepts r_u64 _ => apply accepts_u64
  | |- Accepts r_i64 _ => apply accepts_i64
  | |- Accepts r_boolean _ => apply accepts_boolean
  | |- Accepts r_enum16 _ => apply accepts_enum16
  | |- Accepts r_enum8 _ => apply accepts_enum8
  | |- Accepts (r_string _) _ => apply accepts_string; done
  | |- Accepts decode _ => apply decode_accepts
  | _ => solve [ eauto 3 with codec_ext ]
  end.
Ltac accepts_field :=
  first [ progress cbv zeta | apply accepts_ensure; intros ?
        | eapply accepts_bind; [ accepts_atom |];
          let b := fresh "b" in
          intros ? b ?; cbn beta in *;
          repeat match goal with H : _ /\ _ |- _ => destruct H end; subst b ].
Ltac accepts_record :=
  repeat accepts_field; apply accepts_ret; cbn [concat]; cbn beta.

Ltac sticky_atom :=
  lazymatch goal with
  | |- Sticky r_u8 => apply sticky_u8
  | |- Sticky r_u16 => apply sticky_u16
  | |- Sticky r_u32 => apply sticky_u32
  | |- Sticky r_u64 => apply sticky_u64
  | |- Sticky r_i64 => apply sticky_i64
  | |- Sticky r_boolean => apply sticky_boolean
  | |- Sticky r_enum16 => apply sticky_enum16
  | |- Sticky r_enum8 => apply sticky_enum8
  | |- Sticky (r_string _) => apply sticky_string
  | |- Sticky decode => apply decode_sticky
  | _ => solve [ eauto 3 with codec_ext ]
  end.
Ltac total_atom :=
  lazymatch goal with
  | |- Total r_u8 => apply total_u8
  | |- Total r_u16 => apply total_u16
  | |- Total r_u32 => apply total_u32
  | |- Total r_u64 => apply total_u64
  | |- Total r_i64 => apply total_i64
  | |- Total r_boolean => apply total_boolean
  | |- Total r_enum16 => apply total_enum16
  | |- Total r_enum8 => apply total_enum8
  | |- Total (r_string _) => apply total_string
  | |- Total (ensure _ _) => apply total_ensure; done
  | |- Total decode => apply decode_total
  | _ => solve [ eauto 3 with codec_ext ]
  end.
Ltac total_record :=
  repeat (apply total_bind; [ total_atom | intros; cbv zeta ]);
  first [ apply total_ret | total_atom ].

(** The laws of a record codec, given its encoder, decoder, image and validity. *)
Ltac codec_laws enc dec img val :=
  split;
  [ let x := fresh "x" in let Hx := fresh in
    intros x Hx; change (Emits (enc x) (img x)); change (val x) in Hx;
    unfold val in Hx; destruct_and? Hx; unfold enc, img; emits_record
  | let x := fresh "x" in let Hx := fresh in
    intros x Hx; change (Reads dec (img x) x); change (val x) in Hx;
    unfold val in Hx; destruct_and? Hx; unfold dec, img; reads_record x
  | change (Sticky dec); unfold dec; apply sticky_bind; sticky_atom
  | change (Total dec); unfold dec; total_record ].

Ltac codec_canonical dec img val :=
  change (Accepts dec (fun a bs => val a /\ bs = img a)); unfold dec, img, val;
  accepts_record; split;
  [ repeat match goal with |- _ /\ _ => split end; first [ assumption | exact I ] | reflexivity ].
