(* ===== verification/Counted.v ===== *)
(** * Counted lists and flagged options in messages

    The two composite shapes of the wire and record formats: a [uint32_t] count followed by
    that many items, with a bound on the count and a check of the remaining bytes before
    anything is read; and a boolean flag followed by the field when it is set. *)
From S2P Require Import Prelude Core Checked Codec.
Local Open Scope Z_scope.

Section Counted.
Context {A : Type} (e : A -> Writer -> Writer) (d : Decoder A) (b : A -> list byte) (P : A -> Prop).

(** [w.u32(static_cast<uint32_t>(v.size())); for (const auto& x : v) encode(w, x);] *)
Definition w_counted (l : list A) : Writer -> Writer := seqw [w_u32 (wrap 32 (zlen l)); seqw (map e l)].

(** The count, refused above [max] and when fewer than [size] bytes per item remain. *)
Definition r_counted (max size : Z) : Decoder (list A) :=
  n ← r_u32;
  ensure (negb (max <? n)) Oversized ;;
  remaining_at_least (n * size) Malformed ;;
  repeat_dec (Z.to_nat n) d.

Definition counted (l : list A) : list byte := le_bytes 4 (zlen l) ++ concat (map b l).

(** Valid items, at most [max] of them. *)
Definition counted_ok (max : Z) (l : list A) : Prop := zlen l <= max /\ Forall P l.

Context (max size : Z) (Hmax : in_u32 max).

Lemma emits_counted l :
  (forall x, P x -> Emits (e x) (b x)) -> counted_ok max l -> Emits (w_counted l) (counted l).
Proof.
  intros He [Hl Hp]. pose proof (zlen_nonneg l). unfold in_u in *. unfold w_counted, counted.
  rewrite wrap_small by (unfold in_u; lia). rewrite <- (app_nil_r (concat _)).
  apply (emits_seqw _ [le_bytes 4 (zlen l); concat (map b l)]).
  repeat apply Forall2_cons_2; try apply Forall2_nil_2; [apply emits_u32 |].
  apply emits_list. eapply Forall_impl; [exact Hp |]. auto.
Qed.

Lemma zlen_concat_ge l :
  (forall x, P x -> size <= zlen (b x)) -> Forall P l -> zlen l * size <= zlen (concat (map b l)).
Proof.
  intros Hs. induction 1 as [| x l Hx Hl IH]; [done |]. cbn [map concat].
  rewrite zlen_cons, zlen_app. specialize (Hs x Hx). lia.
Qed.

Lemma reads_counted l :
  (forall x, P x -> Reads d (b x) x) -> (forall x, P x -> size <= zlen (b x)) ->
  counted_ok max l -> Reads (r_counted max size) (counted l) l.
Proof.
  intros Hd Hs [Hl Hp]. pose proof (zlen_nonneg l). unfold in_u in *. unfold r_counted, counted.
  eapply reads_bind; [apply reads_u32; unfold in_u; lia |].
  apply reads_ensure; [apply negb_true_iff, Z.ltb_ge; lia |].
  apply reads_remaining; [by apply zlen_concat_ge |].
  replace (Z.to_nat (zlen l)) with (length l) by (unfold zlen; lia).
  apply reads_repeat. eapply Forall_impl; [exact Hp |]. auto.
Qed.

Lemma accepts_counted :
  Accepts d (fun x bs => P x /\ bs = b x) ->
  Accepts (r_counted max size) (fun l bs => counted_ok max l /\ bs = counted l).
Proof.
  intros Hd. unfold r_counted.
  eapply accepts_bind; [apply accepts_u32 |]. intros n b1 [Hn ->].
  apply accepts_ensure. intros Hb. bool_prop. apply accepts_remaining.
  eapply accepts_weaken; [by apply accepts_repeat |]. intros l bs (Hlen & Hp & ->). cbn beta.
  assert (zlen l = n) as Hz by (unfold zlen, in_u in *; lia). unfold counted, counted_ok. by rewrite Hz.
Qed.

Lemma total_counted : Total d -> Total (r_counted max size).
Proof.
  intros Hd. unfold r_counted. apply total_bind; [apply total_u32 | intros].
  apply total_bind; [by apply total_ensure | intros].
  apply total_bind; [by apply total_remaining | intros]. by apply total_repeat.
Qed.
End Counted.

Lemma sticky_counted {A} (d : Decoder A) max size : Sticky (r_counted d max size).
Proof. apply sticky_bind, sticky_u32. Qed.

(** Lists of items that have a codec. *)
Section CountedCodec.
Context {A : Type} `{CodecLaws A} (max size : Z).

Lemma emits_counted_codec (l : list A) : in_u32 max -> counted_ok valid max l -> Emits (w_counted encode l) (counted image l).
Proof. intros Hm. apply (emits_counted _ _ valid max Hm). apply encode_emits. Qed.

Lemma reads_counted_codec (l : list A) :
  in_u32 max -> (forall x : A, valid x -> size <= zlen (image x)) ->
  counted_ok valid max l -> Reads (r_counted decode max size) (counted image l) l.
Proof. intros Hm. apply (reads_counted _ _ valid max size Hm). apply decode_reads. Qed.

Lemma accepts_counted_codec `{!CanonicalCodec A} :
  Accepts (r_counted (decode (A := A)) max size) (fun l bs => counted_ok valid max l /\ bs = counted image l).
Proof. apply accepts_counted, decode_accepts. Qed.

Lemma total_counted_codec : Total (r_counted (decode (A := A)) max size).
Proof. apply total_counted, decode_total. Qed.
End CountedCodec.

Section Flagged.
Context {A : Type} `{CodecLaws A} (dflt : A).

(** [w.boolean(has); if (has) encode(w, x);] *)
Definition w_flagged (has : bool) (x : A) : Writer -> Writer :=
  seqw [w_boolean has; if has then encode x else (fun w => w)].

(** [r.boolean(has); if (has) decode(r, x);] on a default-constructed [x]. *)
Definition r_flagged : Decoder (bool * A) :=
  has ← r_boolean;
  if (has : bool) then x ← decode; mret (true, x) else mret (false, dflt).

Definition flagged (has : bool) (x : A) : list byte :=
  le_bytes 1 (Z.b2z has) ++ (if has then image x else []).

(** The field is valid when present and the default otherwise. *)
Definition flagged_ok (has : bool) (x : A) : Prop := if has then valid x else x = dflt.

Lemma emits_flagged has x : flagged_ok has x -> Emits (w_flagged has x) (flagged has x).
Proof.
  intros Hx. unfold w_flagged, flagged. rewrite <- (app_nil_r (if has then _ else _)).
  apply (emits_seqw _ [le_bytes 1 (Z.b2z has); if has then image x else []]).
  repeat apply Forall2_cons_2; try apply Forall2_nil_2; [apply emits_boolean |].
  destruct has; [by apply encode_emits | apply emits_nil].
Qed.

Lemma reads_flagged has x : flagged_ok has x -> Reads r_flagged (flagged has x) (has, x).
Proof.
  intros Hx. unfold r_flagged, flagged. eapply reads_bind; [apply reads_boolean |].
  destruct has; simpl in Hx.
  - eapply reads_bind_nil; [by apply decode_reads | apply reads_ret].
  - subst x. apply reads_ret.
Qed.

Lemma accepts_flagged `{!CanonicalCodec A} :
  Accepts r_flagged (fun p bs => flagged_ok p.1 p.2 /\ bs = flagged p.1 p.2).
Proof.
  unfold r_flagged. eapply accepts_bind; [apply accepts_boolean |]. intros has b1 ->.
  destruct has.
  - eapply accepts_bind; [apply decode_accepts |]. intros x b2 [Hx ->]. apply accepts_ret.
    cbn [fst snd flagged_ok flagged]. by rewrite app_nil_r.
  - apply accepts_ret. by cbn [fst snd flagged_ok flagged].
Qed.

Lemma total_flagged : Total r_flagged.
Proof.
  apply total_bind; [apply total_boolean |]. intros []; [| apply total_ret].
  apply total_bind; [apply decode_total | intros; apply total_ret].
Qed.

Lemma sticky_flagged : Sticky r_flagged.
Proof. apply sticky_bind, sticky_boolean. Qed.
End Flagged.

#[export] Hint Resolve sticky_counted total_counted : codec_ext.
#[export] Hint Extern 1 (Emits (w_flagged _ _) _) => eapply emits_flagged; eassumption : codec_ext.
#[export] Hint Extern 1 (Reads (r_flagged _) _ _) => eapply reads_flagged; eassumption : codec_ext.
#[export] Hint Extern 1 (Accepts (r_flagged _) _) => apply accepts_flagged : codec_ext.
#[export] Hint Extern 1 (Sticky (r_flagged _)) => apply sticky_flagged : codec_ext.
#[export] Hint Extern 1 (Total (r_flagged _)) => apply total_flagged : codec_ext.

(** *** Items that are bare integers or enumerators *)

Lemma emits_u32_item x : in_u32 x -> Emits (w_u32 x) (le_bytes 4 x).
Proof. intros _. apply emits_u32. Qed.

Lemma emits_enum16_item `{RawEnumLaws E} (x : E) : True -> Emits (w_enum16 x) (le_bytes 2 (to_raw x)).
Proof. intros _. apply emits_enum16. Qed.

Lemma reads_enum16_item `{RawEnumLaws E} (x : E) : True -> Reads r_enum16 (le_bytes 2 (to_raw x)) x.
Proof. intros _. apply reads_enum16. Qed.

Lemma accepts_enum16_item `{RawEnumLaws E} :
  Accepts (r_enum16 (E := E)) (fun e bs => True /\ bs = le_bytes 2 (to_raw e)).
Proof. eapply accepts_weaken; [apply accepts_enum16 |]. by intros e bs ->. Qed.

Lemma le_bytes_size n x : Z.of_nat n <= zlen (le_bytes n x).
Proof. by rewrite zlen_le_bytes. Qed.
