(* ===== verification/Hash.v ===== *)
(** * Hashing, integrity checks and nonces

    Models [include/blackhole/core/hash.hpp], [src/core/hash.cpp] and the deterministic
    nonce source of [src/core/nonce.cpp]: CRC-32C with its table, FNV-1a 64, [mix64] and
    [SeededNonceSource]. The theorems say what the rest of the program relies on: CRC-32C
    detects every corruption confined to four consecutive bytes, FNV-1a detects every
    single-byte change, [mix64] is injective in each argument, and the first [2^64]
    nonces of one source are pairwise distinct. *)
From S2P Require Import Prelude.
Local Open Scope Z_scope.

(** ** CRC-32C *)

Definition crc32c_bit (c : Z) : Z :=
  if Z.land c 1 =? 0 then Z.shiftr c 1 else Z.lxor 0x82F63B78 (Z.shiftr c 1).

(** include/blackhole/core/hash.hpp:13-28 detail::make_crc32c_table *)
Definition make_crc32c_table : list Z :=
  map (fun index => Nat.iter 8 crc32c_bit (Z.of_nat index)) (seq 0 256).

(** include/blackhole/core/hash.hpp:30 detail::kCrc32cTable *)
Definition kCrc32cTable : list Z := Eval vm_compute in make_crc32c_table.

(** One iteration of the loop of [crc32c]. *)
Definition crc32c_step (crc : Z) (b : byte) : Z :=
  let idx := Z.land (Z.lxor crc (Z_of_byte b)) 0xFF in
  Z.lxor (nth (Z.to_nat idx) kCrc32cTable 0) (Z.shiftr crc 8).

(** src/core/hash.cpp:5-13 crc32c *)
Definition crc32c_seeded (data : list byte) (seed : Z) : Z :=
  Z.lxor (foldl crc32c_step (Z.lxor seed 0xFFFFFFFF) data) 0xFFFFFFFF.

Definition crc32c (data : list byte) : Z := crc32c_seeded data 0.

(** ** FNV-1a and mixing *)

Definition kFnv1a64Offset : Z := 1469598103934665603.
Definition kFnv1a64Prime : Z := 1099511628211.

Definition fnv1a64_step (h : Z) (b : byte) : Z := wrap 64 (Z.lxor h (Z_of_byte b) * kFnv1a64Prime).

(** src/core/hash.cpp:21-28 fnv1a64 *)
Definition fnv1a64_seeded (data : list byte) (seed : Z) : Z := foldl fnv1a64_step seed data.

Definition fnv1a64 (data : list byte) : Z := fnv1a64_seeded data kFnv1a64Offset.

Definition xorshift (k : Z) (z : Z) : Z := Z.lxor z (Z.shiftr z k).
Definition mul64 (z m : Z) : Z := wrap 64 (z * m).

Definition kGamma : Z := 0x9E3779B97F4A7C15.
Definition kMixA : Z := 0xBF58476D1CE4E5B9.
Definition kMixB : Z := 0x94D049BB133111EB.

(** src/core/hash.cpp:35-43 mix64 *)
Definition mix64 (a b : Z) : Z :=
  let z := wrap 64 (a + kGamma) in
  let z := mul64 (xorshift 30 z) kMixA in
  let z := mul64 (xorshift 27 z) kMixB in
  let z := Z.lxor z b in
  let z := mul64 (xorshift 31 z) kMixA in
  let z := mul64 (xorshift 29 z) kMixB in
  xorshift 32 z.

(** ** Nonces *)

Definition nonce_out (z : Z) : Z :=
  let z := mul64 (xorshift 30 z) kMixA in
  let z := mul64 (xorshift 27 z) kMixB in
  xorshift 31 z.

(** src/core/nonce.cpp:39-45 SeededNonceSource::next *)
Definition SeededNonceSource_next (state_ : Z) : Z * Z :=
  let state_ := wrap 64 (state_ + kGamma) in (nonce_out state_, state_).

(** The [n] first nonces of a source. *)
Fixpoint nonces (n : nat) (state_ : Z) : list Z :=
  match n with
  | O => []
  | S n => let '(x, s) := SeededNonceSource_next state_ in x :: nonces n s
  end.

(** src/core/nonce.cpp:33-37 SystemNonceSource::next *)
Definition SystemNonceSource_next (s : Z * Z) : Z * (Z * Z) :=
  let '(counter_, seed_) := s in
  let counter_ := wrap 64 (counter_ + 1) in
  let seed_ := mix64 seed_ counter_ in
  (seed_, (counter_, seed_)).

(** ** Bit-level facts *)

Lemma in_u_high w v n : 0 <= w -> in_u w v -> w <= n -> Z.testbit v n = false.
Proof.
  intros Hw [H0 H1] Hn. destruct (decide (v = 0)) as [-> | Hv]; [apply Z.bits_0 |].
  apply Z.bits_above_log2; [lia |]. apply Z.lt_le_trans with w; [| lia].
  apply Z.log2_lt_pow2; lia.
Qed.

Lemma in_u_lxor w a b : 0 <= w -> in_u w a -> in_u w b -> in_u w (Z.lxor a b).
Proof.
  intros Hw Ha Hb. assert (0 <= Z.lxor a b) as Hnn.
  { apply Z.lxor_nonneg. destruct Ha, Hb. lia. }
  split; [done |]. destruct (decide (Z.lxor a b = 0)) as [-> | Hne]; [by apply Z.pow_pos_nonneg |].
  apply Z.log2_lt_pow2; [lia |].
  apply Z.nle_gt. intros Hle.
  pose proof (Z.bit_log2 (Z.lxor a b) ltac:(lia)) as Hbit.
  rewrite Z.lxor_spec, !(in_u_high w) in Hbit by done. done.
Qed.

Lemma in_u_shiftr w v k : 0 <= k -> in_u w v -> in_u w (Z.shiftr v k).
Proof.
  intros Hk [H0 H1]. rewrite Z.shiftr_div_pow2 by done.
  assert (0 < 2 ^ k) by (by apply Z.pow_pos_nonneg).
  split; [by apply Z.div_pos |]. apply Z.le_lt_trans with v; [| done].
  rewrite <- (Z.div_1_r v) at 2. apply Z.div_le_compat_l; lia.
Qed.

Lemma lxor_cancel_r a b c : Z.lxor a c = Z.lxor b c -> a = b.
Proof.
  intros H. rewrite <- (Z.lxor_0_r a), <- (Z.lxor_0_r b), <- (Z.lxor_nilpotent c),
    <- !Z.lxor_assoc. by rewrite H.
Qed.

Lemma lxor_cancel_l a b c : Z.lxor c a = Z.lxor c b -> a = b.
Proof. rewrite !(Z.lxor_comm c). apply lxor_cancel_r. Qed.

Lemma xorshift_inj k a b : 0 < k -> 0 <= a -> 0 <= b -> xorshift k a = xorshift k b -> a = b.
Proof.
  unfold xorshift. intros Hk Ha Hb E.
  assert (Z.lxor a b = Z.shiftr (Z.lxor a b) k) as Ed.
  { rewrite Z.shiftr_lxor. apply (lxor_cancel_r _ _ (Z.lxor b (Z.shiftr a k))).
    transitivity (Z.lxor a (Z.shiftr a k)).
    - rewrite <- Z.lxor_assoc, (Z.lxor_assoc a b b), Z.lxor_nilpotent, Z.lxor_0_r. done.
    - rewrite E. rewrite (Z.lxor_comm b (Z.shiftr a k)), <- Z.lxor_assoc.
      rewrite (Z.lxor_comm (Z.shiftr a k) (Z.shiftr b k)), (Z.lxor_assoc (Z.shiftr b k)),
        Z.lxor_nilpotent, Z.lxor_0_r. apply Z.lxor_comm. }
  assert (0 <= Z.lxor a b) as Hnn by (apply Z.lxor_nonneg; tauto).
  rewrite Z.shiftr_div_pow2 in Ed by lia.
  assert (2 <= 2 ^ k) by (change 2 with (2 ^ 1) at 1; apply Z.pow_le_mono_r; lia).
  apply Z.lxor_eq. destruct (decide (Z.lxor a b = 0)); [done |].
  pose proof (Z.div_lt (Z.lxor a b) (2 ^ k)). lia.
Qed.

Lemma mul64_inj m inv a b :
  (m * inv) mod 2 ^ 64 = 1 -> in_u64 a -> in_u64 b -> mul64 a m = mul64 b m -> a = b.
Proof.
  unfold mul64, wrap. intros Hinv Ha Hb E.
  rewrite <- (Z.mod_small a (2 ^ 64)), <- (Z.mod_small b (2 ^ 64)) by done.
  assert (forall x, x mod 2 ^ 64 = (((x * m) mod 2 ^ 64) * inv) mod 2 ^ 64) as Hx.
  { intros x. rewrite Zmult_mod_idemp_l, <- Z.mul_assoc, <- Zmult_mod_idemp_r, Hinv.
    by rewrite Z.mul_1_r. }
  by rewrite (Hx a), (Hx b), E.
Qed.

Lemma in_u_xorshift k v : 0 < k -> in_u64 v -> in_u64 (xorshift k v).
Proof. intros. apply in_u_lxor; [lia | done |]. apply in_u_shiftr; [lia | done]. Qed.

Lemma in_u_mul64 z m : in_u64 (mul64 z m).
Proof. by apply in_u_wrap. Qed.

#[export] Hint Resolve in_u_xorshift in_u_mul64 in_u_lxor in_u_wrap : bhg.

(** ** FNV-1a and mixing are injective where the program relies on it *)

Definition kFnv1a64PrimeInv : Z := 14886173955864302971.

Lemma byte_in_u64 b : in_u64 (Z_of_byte b).
Proof. pose proof (Z_of_byte_range b). unfold in_u. lia. Qed.
#[export] Hint Resolve byte_in_u64 : bhg.

Lemma fnv1a64_seeded_range data h : in_u64 h -> in_u64 (fnv1a64_seeded data h).
Proof.
  revert h. induction data as [| b data IH]; intros h Hh; [done |].
  apply IH. by apply in_u_wrap.
Qed.

Lemma fnv1a64_range data : in_u64 (fnv1a64 data).
Proof. apply fnv1a64_seeded_range. unfold in_u, kFnv1a64Offset. lia. Qed.
#[export] Hint Resolve fnv1a64_range : bhg.

Lemma fnv1a64_step_inj h h' b b' :
  in_u64 h -> in_u64 h' -> fnv1a64_step h b = fnv1a64_step h' b' ->
  Z.lxor h (Z_of_byte b) = Z.lxor h' (Z_of_byte b').
Proof.
  intros Hh Hh' E. apply (mul64_inj kFnv1a64Prime kFnv1a64PrimeInv); auto with bhg.
  - apply in_u_lxor; auto with bhg. lia.
  - apply in_u_lxor; auto with bhg. lia.
Qed.

Lemma fnv1a64_seeded_inj data h h' :
  in_u64 h -> in_u64 h' -> fnv1a64_seeded data h = fnv1a64_seeded data h' -> h = h'.
Proof.
  revert h h'. induction data as [| b data IH]; intros h h' Hh Hh' E; [done |].
  apply IH in E; [| by apply in_u_wrap ..].
  apply fnv1a64_step_inj in E; [| done ..]. by apply lxor_cancel_r in E.
Qed.

Lemma fnv1a64_single_byte pre b b' post :
  fnv1a64 (pre ++ b :: post) = fnv1a64 (pre ++ b' :: post) -> b = b'.
Proof.
  unfold fnv1a64, fnv1a64_seeded. rewrite !foldl_app. intros E.
  assert (in_u64 (fnv1a64_seeded pre kFnv1a64Offset)) as Hp.
  { apply fnv1a64_seeded_range. unfold in_u, kFnv1a64Offset. lia. }
  apply (fnv1a64_seeded_inj post) in E; [| by apply in_u_wrap ..].
  apply fnv1a64_step_inj in E; [| done ..].
  apply Z_of_byte_inj. by apply lxor_cancel_l in E.
Qed.

Definition kMixAInv : Z := 0x96DE1B173F119089.
Definition kMixBInv : Z := 0x319642B2D24D8EC3.

Lemma mulA_inj a b : in_u64 a -> in_u64 b -> mul64 a kMixA = mul64 b kMixA -> a = b.
Proof. by apply (mul64_inj kMixA kMixAInv). Qed.

Lemma mulB_inj a b : in_u64 a -> in_u64 b -> mul64 a kMixB = mul64 b kMixB -> a = b.
Proof. by apply (mul64_inj kMixB kMixBInv). Qed.

Lemma xorshift_inj64 k a b :
  0 < k -> in_u64 a -> in_u64 b -> xorshift k a = xorshift k b -> a = b.
Proof. intros Hk [Ha _] [Hb _]. by apply xorshift_inj. Qed.

Ltac peel_mix E :=
  repeat first
    [ apply xorshift_inj64 in E; [| lia | by auto with bhg ..]
    | apply mulA_inj in E; [| solve [apply in_u_xorshift; [lia | auto with bhg]] ..]
    | apply mulB_inj in E; [| solve [apply in_u_xorshift; [lia | auto with bhg]] ..] ].

Lemma nonce_out_inj a b : in_u64 a -> in_u64 b -> nonce_out a = nonce_out b -> a = b.
Proof. unfold nonce_out. intros Ha Hb E. by peel_mix E. Qed.

Lemma mix64_inj_r a b b' : in_u64 b -> in_u64 b' -> mix64 a b = mix64 a b' -> b = b'.
Proof.
  unfold mix64. intros Hb Hb'. 
  set (z := mul64 (xorshift 27 (mul64 (xorshift 30 (wrap 64 (a + kGamma))) kMixA)) kMixB).
  assert (forall v, in_u64 v -> in_u64 (Z.lxor z v)) as Hz.
  { intros v Hv. apply in_u_lxor; [lia | apply in_u_mul64 | done]. }
  intros E. pose proof (Hz b Hb). pose proof (Hz b' Hb').
  peel_mix E. by apply lxor_cancel_l in E.
Qed.

Lemma wrap_add_inj g a b : in_u64 a -> in_u64 b -> wrap 64 (a + g) = wrap 64 (b + g) -> a = b.
Proof.
  unfold wrap. intros Ha Hb E. rewrite <- (Z.mod_small a (2 ^ 64)), <- (Z.mod_small b (2 ^ 64)) by done.
  replace a with (a + g - g) by lia. replace b with (b + g - g) by lia.
  by rewrite <- (Zminus_mod_idemp_l (a + g)), <- (Zminus_mod_idemp_l (b + g)), E.
Qed.

Lemma mix64_inj_l a a' b : in_u64 a -> in_u64 a' -> in_u64 b -> mix64 a b = mix64 a' b -> a = a'.
Proof.
  unfold mix64. intros Ha Ha' Hb E.
  assert (forall v, in_u64 (Z.lxor (mul64 v kMixB) b)) as Hz.
  { intros v. apply in_u_lxor; [lia | apply in_u_mul64 | done]. }
  pose proof (Hz (xorshift 27 (mul64 (xorshift 30 (wrap 64 (a + kGamma))) kMixA))).
  pose proof (Hz (xorshift 27 (mul64 (xorshift 30 (wrap 64 (a' + kGamma))) kMixA))).
  assert (forall v, in_u64 (wrap 64 v)) by (intros; by apply in_u_wrap).
  peel_mix E. apply lxor_cancel_r in E. peel_mix E. by apply wrap_add_inj in E.
Qed.

(** ** Nonces do not repeat *)

Lemma nonces_nth n s i x :
  nth_error (nonces n s) i = Some x -> x = nonce_out (wrap 64 (s + (Z.of_nat i + 1) * kGamma)).
Proof.
  revert s i. induction n as [| n IH]; intros s i; simpl; [by destruct i |].
  destruct i as [| i]; simpl; intros E.
  - injection E as <-. by rewrite Z.mul_1_l.
  - apply IH in E. rewrite E. f_equal. unfold wrap. rewrite Zplus_mod_idemp_l. f_equal. lia.
Qed.

Definition kGammaInv : Z := 0xF1DE83E19937733D.

Lemma gamma_inj s i j :
  0 <= i < 2 ^ 64 -> 0 <= j < 2 ^ 64 ->
  wrap 64 (s + i * kGamma) = wrap 64 (s + j * kGamma) -> i = j.
Proof.
  intros Hi Hj E. apply (mul64_inj kGamma kGammaInv); [done | done | done |].
  unfold mul64. apply (wrap_add_inj s); [apply in_u_mul64 | apply in_u_mul64 |].
  unfold wrap in *. rewrite !Zplus_mod_idemp_l. by rewrite !(Z.add_comm (_ * _)).
Qed.

Lemma nonces_NoDup n s : Z.of_nat n < 2 ^ 64 -> NoDup (nonces n s).
Proof.
  intros Hn. apply NoDup_ListNoDup, NoDup_nth_error. intros i j Hi E.
  assert (forall k s, length (nonces k s) = k) as Hlen by (induction k; intros; simpl; auto).
  rewrite Hlen in Hi.
  destruct (nth_error (nonces n s) i) as [x |] eqn:Ei; [| by apply nth_error_None in Ei; rewrite Hlen in Ei; lia].
  symmetry in E. assert (j < n)%nat by (rewrite <- (Hlen n s); apply nth_error_Some; congruence).
  apply nonces_nth in Ei. apply nonces_nth in E. rewrite Ei in E.
  apply nonce_out_inj in E; [| by apply in_u_wrap ..]. apply gamma_inj in E; lia.
Qed.

(** ** CRC-32C detects every corruption confined to four consecutive bytes *)

(** The table-driven step on the state alone: [crc32c_step crc b] is [crc_shift (crc ^ b)]
    because the byte only meets the low eight bits. *)
Definition crc_entry (x : Z) : Z := nth (Z.to_nat (Z.land x 0xFF)) kCrc32cTable 0.
Definition crc_shift (x : Z) : Z := Z.lxor (crc_entry x) (Z.shiftr x 8).

Lemma crc_table_u32 x : In x kCrc32cTable -> in_u32 x.
Proof.
  assert (forallb (fun e => (0 <=? e) && (e <? 2 ^ 32)) kCrc32cTable = true) as Hall
    by (vm_compute; reflexivity).
  rewrite forallb_forall in Hall. intros Hx. apply Hall in Hx. bool_prop. by split.
Qed.

Lemma crc_entry_u32 x : in_u32 (crc_entry x).
Proof.
  unfold crc_entry.
  destruct (nth_in_or_default (Z.to_nat (Z.land x 0xFF)) kCrc32cTable 0) as [Hin | ->].
  - by apply crc_table_u32.
  - unfold in_u. lia.
Qed.

(** The top byte of a table entry identifies its index. *)
Lemma crc_top_inj x y :
  Z.shiftr (crc_entry x) 24 = Z.shiftr (crc_entry y) 24 -> Z.land x 0xFF = Z.land y 0xFF.
Proof.
  unfold crc_entry. set (tops := map (fun e => Z.shiftr e 24) kCrc32cTable).
  assert (forall i, 0 <= i < 256 ->
    List.find (fun p => snd p =? nth (Z.to_nat i) tops 0) (imap (fun i t => (Z.of_nat i, t)) tops)
    = Some (i, nth (Z.to_nat i) tops 0)) as Hinv.
  { intros i Hi.
    assert (forallb (fun i => bool_decide (List.find (fun p => snd p =? nth i tops 0)
              (imap (fun i t => (Z.of_nat i, t)) tops) = Some (Z.of_nat i, nth i tops 0)))
              (seq 0 256) = true) as Hall by (vm_compute; reflexivity).
    rewrite forallb_forall in Hall. specialize (Hall (Z.to_nat i)).
    rewrite bool_decide_eq_true, Z2Nat.id in Hall by lia. apply Hall, in_seq. lia. }
  assert (forall z, Z.shiftr (nth z kCrc32cTable 0) 24 = nth z tops 0) as Htop.
  { intros z. symmetry. exact (map_nth (fun e => Z.shiftr e 24) kCrc32cTable 0 z). }
  rewrite !Htop. intros E.
  assert (forall z, 0 <= Z.land z 0xFF < 256) as Hr.
  { intros z. change 0xFF with (Z.ones 8). rewrite Z.land_ones by lia.
    change (2 ^ 8) with 256. apply Z.mod_pos_bound. lia. }
  pose proof (Hinv _ (Hr x)) as Hx. pose proof (Hinv _ (Hr y)) as Hy.
  rewrite E, Hy in Hx. congruence.
Qed.

Lemma shiftr_u32_32 x : in_u32 x -> Z.shiftr x 32 = 0.
Proof. intros Hx. rewrite Z.shiftr_div_pow2 by lia. by apply Z.div_small. Qed.

Lemma crc_shift_inj x y : in_u32 x -> in_u32 y -> crc_shift x = crc_shift y -> x = y.
Proof.
  unfold crc_shift. intros Hx Hy E.
  assert (Z.land x 0xFF = Z.land y 0xFF) as Hlow.
  { apply crc_top_inj. apply (f_equal (fun v => Z.shiftr v 24)) in E.
    rewrite !Z.shiftr_lxor, !Z.shiftr_shiftr in E by lia. simpl (8 + 24) in E.
    by rewrite !shiftr_u32_32, !Z.lxor_0_r in E. }
  unfold crc_entry in E. rewrite Hlow in E. apply lxor_cancel_l in E.
  rewrite <- (Z.lor_ldiff_and x 0xFF), <- (Z.lor_ldiff_and y 0xFF), Hlow. f_equal.
  change 0xFF with (Z.ones 8). by rewrite !Z.ldiff_ones_r, E by lia.
Qed.

Lemma crc_shift_u32 x : in_u32 x -> in_u32 (crc_shift x).
Proof. intros. apply in_u_lxor; [lia | apply crc_entry_u32 |]. by apply in_u_shiftr. Qed.

Lemma shiftr_byte b : Z.shiftr (Z_of_byte b) 8 = 0.
Proof.
  rewrite Z.shiftr_div_pow2 by lia. apply Z.div_small. pose proof (Z_of_byte_range b). simpl. lia.
Qed.

Lemma crc32c_step_shift crc b : crc32c_step crc b = crc_shift (Z.lxor crc (Z_of_byte b)).
Proof.
  unfold crc32c_step, crc_shift, crc_entry. cbv zeta.
  by rewrite Z.shiftr_lxor, shiftr_byte, Z.lxor_0_r.
Qed.

(** A byte mixed in later is a shifted byte mixed in now. *)
Lemma crc_shift_late x v : crc_shift (Z.lxor x (Z.shiftl v 8)) = Z.lxor (crc_shift x) v.
Proof.
  unfold crc_shift, crc_entry.
  assert (Z.land (Z.lxor x (Z.shiftl v 8)) 0xFF = Z.land x 0xFF) as ->.
  { change 0xFF with (Z.ones 8). rewrite !Z.land_ones by lia. apply Z.bits_inj'. intros n Hn.
    destruct (decide (n < 8)).
    - rewrite !Z.mod_pow2_bits_low, Z.lxor_spec, Z.shiftl_spec_low by lia. apply xorb_false_r.
    - by rewrite !Z.mod_pow2_bits_high by lia. }
  rewrite Z.shiftr_lxor, Z.shiftr_shiftl_l by lia. simpl (8 - 8). rewrite Z.shiftl_0_r.
  by rewrite Z.lxor_assoc.
Qed.

Lemma crc_shifts_late n x v :
  Nat.iter n crc_shift (Z.lxor x (Z.shiftl v (8 * Z.of_nat n))) = Z.lxor (Nat.iter n crc_shift x) v.
Proof.
  revert v. induction n as [| n IH]; intros v; [by rewrite Z.shiftl_0_r |].
  replace (8 * Z.of_nat (S n)) with (8 + 8 * Z.of_nat n) by lia.
  change (Nat.iter (S n) crc_shift ?z) with (crc_shift (Nat.iter n crc_shift z)).
  by rewrite <- Z.shiftl_shiftl, IH, crc_shift_late by lia.
Qed.

(** [n] steps of the loop are [n] shifts of the state mixed with the whole block. *)
Lemma crc_fold_shifts bs crc :
  foldl crc32c_step crc bs = Nat.iter (length bs) crc_shift (Z.lxor crc (le_value bs)).
Proof.
  assert (forall b bs, le_value (b :: bs) = Z.lxor (Z_of_byte b) (Z.shiftl (le_value bs) 8)) as Hle.
  { intros b l. cbn [le_value]. rewrite Z.shiftl_mul_pow2 by lia. change (2 ^ 8) with 256.
    pose proof (Z_of_byte_range b).
    rewrite Z.add_nocarry_lxor; [by rewrite Z.mul_comm |].
    change 256 with (2 ^ 8). rewrite Z.mul_comm, <- Z.shiftl_mul_pow2 by lia.
    apply Z.bits_inj'. intros n Hn. rewrite Z.land_spec, Z.bits_0.
    destruct (decide (n < 8)); [by rewrite Z.shiftl_spec_low, andb_false_r by lia |].
    rewrite (in_u_high 8 (Z_of_byte b)); [done | lia | done | lia]. }
  revert bs crc. refine (rev_ind _ _ _); [intros; simpl; by rewrite Z.lxor_0_r |].
  intros b l IH crc. rewrite foldl_app, length_app. simpl. rewrite Nat.add_1_r. simpl.
  rewrite crc32c_step_shift, IH, <- crc_shifts_late. do 2 f_equal.
  rewrite Z.lxor_assoc. f_equal. clear IH. induction l as [| a l IHl].
  - cbn [app le_value length]. rewrite Z.shiftl_0_r, Z.lxor_0_l. lia.
  - cbn [app]. rewrite !Hle, <- IHl, Z.shiftl_lxor, Z.shiftl_shiftl by lia.
    rewrite Z.lxor_assoc. do 3 f_equal. cbn [length]. lia.
Qed.

Lemma crc_fold_u32 bs crc : in_u32 crc -> in_u32 (foldl crc32c_step crc bs).
Proof.
  revert crc. induction bs as [| b bs IH]; intros crc Hc; [done |]. simpl. apply IH.
  rewrite crc32c_step_shift. apply crc_shift_u32. apply in_u_lxor; [lia | done |].
  pose proof (Z_of_byte_range b). unfold in_u. lia.
Qed.

Lemma crc_shifts_inj n x y :
  in_u32 x -> in_u32 y -> Nat.iter n crc_shift x = Nat.iter n crc_shift y -> x = y.
Proof.
  assert (forall n z, in_u32 z -> in_u32 (Nat.iter n crc_shift z)) as Hr.
  { induction n0; intros; simpl; auto using crc_shift_u32. }
  intros Hx Hy. induction n as [| n IH]; simpl; [done |]. intros E.
  apply IH. by apply crc_shift_inj; auto.
Qed.

Lemma le_value_u32 bs : (length bs <= 4)%nat -> in_u32 (le_value bs).
Proof.
  intros Hl. pose proof (le_value_range bs). unfold zlen in *. unfold in_u.
  change (2 ^ 32) with (256 ^ 4).
  assert (256 ^ Z.of_nat (length bs) <= 256 ^ 4) by (apply Z.pow_le_mono_r; lia). lia.
Qed.

Lemma le_value_inj a b : length a = length b -> le_value a = le_value b -> a = b.
Proof. intros Hl E. by rewrite <- (le_bytes_value a), <- (le_bytes_value b), Hl, E. Qed.

Lemma crc_fold_inj_state bs x y :
  in_u32 x -> in_u32 y -> foldl crc32c_step x bs = foldl crc32c_step y bs -> x = y.
Proof.
  revert x y. induction bs as [| b bs IH]; intros x y Hx Hy; [done |]. simpl. intros E.
  assert (forall c, in_u32 c -> in_u32 (Z.lxor c (Z_of_byte b))) as Hb.
  { intros c Hc. apply in_u_lxor; [lia | done |]. pose proof (Z_of_byte_range b). unfold in_u. lia. }
  apply IH in E; rewrite ?crc32c_step_shift in *; auto using crc_shift_u32.
  apply crc_shift_inj in E; auto. by apply lxor_cancel_r in E.
Qed.

Lemma crc32c_seeded_range bs seed : in_u32 seed -> in_u32 (crc32c_seeded bs seed).
Proof.
  intros Hs. apply in_u_lxor; [lia | | unfold in_u; lia]. apply crc_fold_u32.
  apply in_u_lxor; [lia | done | unfold in_u; lia].
Qed.

Lemma crc32c_range bs : in_u32 (crc32c bs).
Proof. apply crc32c_seeded_range. unfold in_u. lia. Qed.
#[export] Hint Resolve crc32c_range : bhg.

Lemma crc32c_burst_seeded seed pre burst burst' post :
  in_u32 seed -> (length burst <= 4)%nat -> length burst = length burst' ->
  crc32c_seeded (pre ++ burst ++ post) seed = crc32c_seeded (pre ++ burst' ++ post) seed ->
  burst = burst'.
Proof.
  intros Hs Hl Hlen E. unfold crc32c_seeded in E. apply lxor_cancel_r in E.
  rewrite !foldl_app in E.
  assert (in_u32 (foldl crc32c_step (Z.lxor seed 0xFFFFFFFF) pre)) as Hp.
  { apply crc_fold_u32. apply in_u_lxor; [lia | done | unfold in_u; lia]. }
  apply crc_fold_inj_state in E; [| by apply crc_fold_u32 ..].
  rewrite (crc_fold_shifts burst), (crc_fold_shifts burst'), <- Hlen in E.
  apply crc_shifts_inj in E;
    [| apply in_u_lxor; [lia | done | apply le_value_u32; lia] ..].
  apply lxor_cancel_l in E. by apply le_value_inj.
Qed.

Lemma crc32c_burst pre burst burst' post :
  (length burst <= 4)%nat -> length burst = length burst' ->
  crc32c (pre ++ burst ++ post) = crc32c (pre ++ burst' ++ post) -> burst = burst'.
Proof. apply crc32c_burst_seeded. unfold in_u. lia. Qed.
