(* ===== verification/Bounded.v ===== *)
(** * Bounded containers and path names

    Models [include/blackhole/core/bounded.hpp] ([push_bounded], [BoundedHistory],
    [truncate_bounded], [BoundedMap]) and the pure part of [src/core/path.cpp]. Capacities
    and counters are [size_t] / [uint64_t] values; a [BoundedMap] is an ordered map with
    its capacity and its refusal counter. *)
From S2P Require Import Prelude OrderedMap Core.
Local Open Scope Z_scope.

(** ** Vectors with a hard capacity *)

(** include/blackhole/core/bounded.hpp:20-32 push_bounded *)
Definition push_bounded {A} (v : list A) (value : A) (capacity : Z) : Outcome * list A :=
  if capacity <=? zlen v then (Exhausted, v) else (Ok, v ++ [value]).

Lemma push_bounded_spec {A} (v : list A) x cap :
  zlen v <= cap ->
  let '(o, v') := push_bounded v x cap in
  zlen v' <= cap /\
  (o = Ok /\ v' = v ++ [x] /\ zlen v < cap \/ o = Exhausted /\ v' = v /\ zlen v = cap).
Proof.
  intros Hv. unfold push_bounded. destruct (Z.leb_spec cap (zlen v)).
  - split; [done |]. right. repeat split; lia.
  - rewrite zlen_app, zlen_cons, zlen_nil. split; [lia |]. left. auto.
Qed.

(** ** [BoundedHistory] *)

Module BoundedHistory.

  (** include/blackhole/core/bounded.hpp:65-69 BoundedHistory *)
Record t (A : Type) := Mk { items_ : list A; capacity_ : Z; seen_ : Z; dropped_ : Z }.
  Arguments Mk {A} _ _ _ _.
  Arguments items_ {A} _.
  Arguments capacity_ {A} _.
  Arguments seen_ {A} _.
  Arguments dropped_ {A} _.

  (** include/blackhole/core/bounded.hpp:39 BoundedHistory::BoundedHistory *)
Definition make {A} (capacity : Z) : t A := Mk [] capacity 0 0.

  (** include/blackhole/core/bounded.hpp:41-50 BoundedHistory::push *)
Definition push {A} (h : t A) (value : A) : Outcome * t A :=
    let h := Mk (items_ h) (capacity_ h) (incr (seen_ h)) (dropped_ h) in
    if capacity_ h <=? zlen (items_ h) then
      let h := Mk (items_ h) (capacity_ h) (seen_ h) (incr (dropped_ h)) in
      if capacity_ h =? 0 then (Exhausted, h)
      else (Ok, Mk (tail (items_ h) ++ [value]) (capacity_ h) (seen_ h) (dropped_ h))
    else (Ok, Mk (items_ h ++ [value]) (capacity_ h) (seen_ h) (dropped_ h)).

  (** include/blackhole/core/bounded.hpp:57-59 BoundedHistory::accounting_closed *)
Definition accounting_closed {A} (h : t A) : bool :=
    seen_ h =? u64_add (zlen (items_ h)) (dropped_ h).

  (** include/blackhole/core/bounded.hpp:60-63 BoundedHistory::clear *)
Definition clear {A} (h : t A) : t A := Mk [] (capacity_ h) (seen_ h) (dropped_ h).

  (** The retained entries are the newest of everything ever pushed. *)
Definition run {A} (capacity : Z) (vs : list A) : t A :=
    foldl (fun h v => (push h v).2) (make capacity) vs.

Definition wf {A} (h : t A) : Prop :=
    0 <= capacity_ h < 2 ^ 64 /\ zlen (items_ h) <= capacity_ h /\ accounting_closed h = true.

Lemma make_wf {A} cap : 0 <= cap < 2 ^ 64 -> wf (@make A cap).
  Proof. intros Hc. split; [done |]. split; [apply Hc | done]. Qed.

Lemma push_wf {A} (h : t A) v : wf h -> wf (push h v).2.
  Proof.
    intros (Hc & Hl & Ha). unfold accounting_closed in Ha. apply Z.eqb_eq in Ha.
    unfold push, wf, accounting_closed. cbn [capacity_ items_ seen_ dropped_].
    destruct (Z.leb_spec (capacity_ h) (zlen (items_ h))).
    - destruct (Z.eqb_spec (capacity_ h) 0); cbn; (split; [lia | split]).
      + done.
      + apply Z.eqb_eq. rewrite Ha. wrap_eq.
      + destruct (items_ h); autorewrite with zlen in *; simpl; autorewrite with zlen; lia.
      + apply Z.eqb_eq. rewrite Ha. destruct (items_ h); autorewrite with zlen in *; simpl;
          autorewrite with zlen; [lia | wrap_eq].
    - cbn. autorewrite with zlen. split; [lia | split; [lia |]].
      apply Z.eqb_eq. rewrite Ha. wrap_eq.
  Qed.

Lemma run_app {A} cap (vs : list A) v : run cap (vs ++ [v]) = (push (run cap vs) v).2.
  Proof. unfold run. by rewrite foldl_app. Qed.

Lemma run_capacity {A} cap (vs : list A) : capacity_ (run cap vs) = cap.
  Proof.
    induction vs as [| v vs IH] using rev_ind; [done |]. rewrite run_app. revert IH.
    unfold push. generalize (run cap vs). intros h. cbn. repeat split_if; done.
  Qed.

Lemma run_items {A} cap (vs : list A) :
    0 < cap -> items_ (run cap vs) = drop (Z.to_nat (zlen vs - cap)) vs.
  Proof.
    intros Hcap. induction vs as [| v vs IH] using rev_ind; [by rewrite drop_nil |].
    rewrite run_app. unfold push. cbn [capacity_ items_ seen_ dropped_].
    rewrite run_capacity, IH. autorewrite with zlen.
    unfold zlen. rewrite length_drop.
    destruct (Z.leb_spec cap (Z.of_nat (length vs - Z.to_nat (Z.of_nat (length vs) - cap)))).
    - destruct (Z.eqb_spec cap 0); [lia |]. cbn [items_ snd].
      rewrite drop_app_le by lia. f_equal.
      assert (forall l : list A, tail l = drop 1 l) as -> by (by intros []).
      rewrite drop_drop. f_equal. lia.
    - cbn [items_ snd]. replace (Z.to_nat (Z.of_nat (length vs) - cap)) with 0%nat by lia.
      replace (Z.to_nat (Z.of_nat (length vs) + (1 + 0) - cap)) with 0%nat by lia. done.
  Qed.
End BoundedHistory.

(** ** [truncate_bounded] *)

Definition dots : list byte := [x2e; x2e; x2e].

(** include/blackhole/core/bounded.hpp:74-82 truncate_bounded *)
Definition truncate_bounded (s : list byte) (max_len : Z) : list byte :=
  if zlen s <=? max_len then s
  else if max_len <=? 3 then take (Z.to_nat max_len) s
  else take (Z.to_nat (max_len - 3)) s ++ dots.

Lemma truncate_bounded_spec s n :
  0 <= n ->
  zlen (truncate_bounded s n) = Z.min (zlen s) n /\
  (zlen s <= n -> truncate_bounded s n = s) /\
  (3 < n < zlen s -> exists pre post, s = pre ++ post /\ truncate_bounded s n = pre ++ dots).
Proof.
  intros Hn. unfold truncate_bounded. destruct (Z.leb_spec (zlen s) n).
  - repeat split; [lia | lia].
  - unfold zlen in *. destruct (Z.leb_spec n 3).
    + rewrite length_take. repeat split; lia.
    + rewrite length_app, length_take. cbn [length dots]. split; [lia |]. split; [lia |].
      intros _. exists (take (Z.to_nat (n - 3)) s), (drop (Z.to_nat (n - 3)) s).
      by rewrite take_drop.
Qed.

(** ** [BoundedMap] *)

Module BoundedMap.
  Section BoundedMap.
Context {K V : Type} `{OrdLaws K}.

    (** include/blackhole/core/bounded.hpp:127-131 BoundedMap *)
Record t := Mk { capacity_ : Z; map_ : list (K * V); rejected_ : Z }.

    (** include/blackhole/core/bounded.hpp:88-89 BoundedMap::BoundedMap *)
Definition make (capacity : Z) : t := Mk capacity [] 0.

    (** include/blackhole/core/bounded.hpp:91-103 BoundedMap::insert *)
Definition insert (m : t) (key : K) (value : V) : Outcome * t :=
      match map_find key (map_ m) with
      | Some _ => (Ok, Mk (capacity_ m) (map_insert key value (map_ m)) (rejected_ m))
      | None =>
          if capacity_ m <=? zlen (map_ m) then
            (Exhausted, Mk (capacity_ m) (map_ m) (incr (rejected_ m)))
          else (Ok, Mk (capacity_ m) (map_insert key value (map_ m)) (rejected_ m))
      end.

    (** include/blackhole/core/bounded.hpp:105-112 BoundedMap::find *)
Definition find (m : t) (key : K) : option V := map_find key (map_ m).

    (** include/blackhole/core/bounded.hpp:113-118 BoundedMap::erase *)
Definition erase (m : t) (key : K) : Outcome * t :=
      match map_find key (map_ m) with
      | None => (NotFound, m)
      | Some _ => (Ok, Mk (capacity_ m) (map_erase key (map_ m)) (rejected_ m))
      end.

Definition wf (m : t) : Prop := map_wf (map_ m) /\ zlen (map_ m) <= capacity_ m.

Lemma insert_wf m k v : wf m -> wf (insert m k v).2.
    Proof.
      intros [Hw Hc]. unfold insert, wf.
      destruct (map_find k (map_ m)) as [v0 |] eqn:E.
      - cbn. split; [by apply map_wf_insert |]. unfold zlen.
        by erewrite map_insert_length_old by done.
      - destruct (Z.leb_spec (capacity_ m) (zlen (map_ m))); cbn; [done |].
        split; [by apply map_wf_insert |]. unfold zlen in *.
        rewrite map_insert_length_new by done. lia.
    Qed.

Lemma insert_spec m k v :
      let '(o, m') := insert m k v in
      (o = Ok /\ find m' k = Some v /\ rejected_ m' = rejected_ m
       \/ o = Exhausted /\ map_ m' = map_ m /\ find m k = None /\ rejected_ m' = incr (rejected_ m)) /\
      (forall k', k' <> k -> find m' k' = find m k').
    Proof.
      unfold insert, find. destruct (map_find k (map_ m)) eqn:E.
      - cbn. split; [left; by rewrite map_find_insert_eq |].
        intros. by apply map_find_insert_ne.
      - destruct (capacity_ m <=? zlen (map_ m)); cbn; [by split; [right |] |].
        split; [left; by rewrite map_find_insert_eq |]. intros. by apply map_find_insert_ne.
    Qed.

Lemma erase_wf m k : wf m -> wf (erase m k).2.
    Proof.
      intros [Hw Hc]. unfold erase. destruct (map_find k (map_ m)) eqn:E; [| done].
      split; cbn; [by apply map_wf_erase |]. unfold zlen in *. rewrite map_erase_length. lia.
    Qed.
  End BoundedMap.
  Arguments t : clear implicits.
End BoundedMap.

(** ** Path names *)

Definition kMaxPathComponentBytes : Z := 128.

(** [std::string_view] literals. *)
Definition slash : byte := x2f.
Definition backslash : byte := x5c.
Definition colon : byte := x3a.
Definition dot : byte := x2e.

Definition safe_char (c : byte) : bool :=
  negb ((c == x00) || (c == slash) || (c == backslash) || (c == colon) || (Z_of_byte c <? 0x20)).

(** src/core/path.cpp:9-21 is_safe_path_component *)
Definition is_safe_path_component (name : list byte) : bool :=
  if zlen name =? 0 then false
  else if kMaxPathComponentBytes <? zlen name then false
  else if (name == [dot]) || (name == [dot; dot]) then false
  else forallb safe_char name.

Definition is_sep (c : byte) : bool := (c == slash) || (c == backslash).

(** src/core/path.cpp:23-31 join_path *)
Definition join_path (dir component : list byte) : list byte :=
  match last dir with
  | None => component
  | Some c => (if is_sep c then dir else dir ++ [slash]) ++ component
  end.

(** [path.find_last_of] followed by [substr(0, pos)]. *)
Fixpoint before_last_sep (path : list byte) : option (list byte) :=
  match path with
  | [] => None
  | c :: path =>
      match before_last_sep path with
      | Some p => Some (c :: p)
      | None => if is_sep c then Some [] else None
      end
  end.

(** src/core/path.cpp:33-37 parent_dir *)
Definition parent_dir (path : list byte) : list byte := default [] (before_last_sep path).

Lemma safe_char_not_sep c : safe_char c = true -> is_sep c = false.
Proof.
  unfold safe_char, is_sep. rewrite negb_true_iff, !orb_false_iff. tauto.
Qed.

Lemma before_last_sep_none p : forallb (fun c => negb (is_sep c)) p = true -> before_last_sep p = None.
Proof.
  induction p as [| c p IH]; simpl; [done |]. intros H. bool_prop.
  rewrite IH by done. by rewrite H.
Qed.

Lemma before_last_sep_app d p :
  forallb (fun c => negb (is_sep c)) p = true ->
  before_last_sep (d ++ slash :: p) = Some d.
Proof.
  intros Hp. induction d as [| c d IH]; simpl; [| by rewrite IH].
  by rewrite before_last_sep_none.
Qed.

Lemma safe_component_no_sep name :
  is_safe_path_component name = true -> forallb (fun c => negb (is_sep c)) name = true.
Proof.
  unfold is_safe_path_component. repeat split_if; try done.
  rewrite !forallb_forall. intros Hf c Hc. apply negb_true_iff, safe_char_not_sep; auto.
Qed.

Lemma parent_join_safe dir name :
  dir <> [] -> (forall c, last dir = Some c -> is_sep c = false) ->
  is_safe_path_component name = true -> parent_dir (join_path dir name) = dir.
Proof.
  intros Hd Hl Hn. unfold join_path, parent_dir.
  destruct (last dir) as [c |] eqn:E; [| by apply last_None in E].
  rewrite (Hl c eq_refl), <- app_assoc. simpl.
  by rewrite before_last_sep_app by (by apply safe_component_no_sep).
Qed.

#[export] Hint Resolve BoundedMap.insert_wf BoundedMap.erase_wf BoundedHistory.push_wf : bhg.
