(* ===== verification/Ids.v ===== *)
(** * Identifiers, generations, sequences and time

    Models [include/blackhole/core/ids.hpp], [src/core/ids.cpp] and the value types and
    the manual clock of [include/blackhole/core/time.hpp] and [src/core/time.cpp]. The
    C++ class templates carry a phantom tag, so they are records with a phantom type
    parameter here: a [NodeId] is not a [LinkId], and an identifier is not a generation. *)
From Stdlib Require Import Strings.String.
From S2P Require Import Prelude OrderedMap Core Codec.
Local Open Scope Z_scope.

(** ** Strong types *)

(** include/blackhole/core/ids.hpp:16-39 StrongId *)
Record StrongId (Tag : Type) := MkId { id_value : Z }.
Arguments MkId {Tag} _.
Arguments id_value {Tag} _.

(** include/blackhole/core/ids.hpp:44-69 Generation *)
Record Generation (Tag : Type) := MkGen { gen_value : Z }.
Arguments MkGen {Tag} _.
Arguments gen_value {Tag} _.

(** include/blackhole/core/ids.hpp:72-95 Sequence *)
Record Sequence (Tag : Type) := MkSeq { seq_value : Z }.
Arguments MkSeq {Tag} _.
Arguments seq_value {Tag} _.

(** include/blackhole/core/ids.hpp:26 StrongId::is_nil *)
Definition id_nil {T} (a : StrongId T) : bool := id_value a =? 0.
(** include/blackhole/core/ids.hpp:54 Generation::is_nil *)
Definition gen_nil {T} (a : Generation T) : bool := gen_value a =? 0.
(** include/blackhole/core/ids.hpp:56 Generation::next *)
Definition gen_next {T} (a : Generation T) : Generation T := MkGen (incr (gen_value a)).
(** include/blackhole/core/ids.hpp:82 Sequence::is_nil *)
Definition seq_nil {T} (a : Sequence T) : bool := seq_value a =? 0.

#[export] Instance StrongId_eq_dec T : EqDecision (StrongId T).
Proof. solve_decision. Defined.
#[export] Instance Generation_eq_dec T : EqDecision (Generation T).
Proof. solve_decision. Defined.
#[export] Instance Sequence_eq_dec T : EqDecision (Sequence T).
Proof. solve_decision. Defined.

Definition three_way (a b : Z) : comparison := if a <? b then Lt else if b <? a then Gt else Eq.

Lemma three_way_compare a b : three_way a b = (a ?= b).
Proof.
  unfold three_way. destruct (Z.compare_spec a b), (Z.ltb_spec a b), (Z.ltb_spec b a); try done; lia.
Qed.

(** include/blackhole/core/ids.hpp:31-35 StrongId::operator<=> *)
#[export] Instance Ord_StrongId T : Ord (StrongId T) := fun a b => three_way (id_value a) (id_value b).

#[export] Instance OrdLaws_StrongId T : OrdLaws (StrongId T).
Proof.
  apply (OrdLaws_by_key (fun a => [id_value a])).
  - intros [a] [b]. unfold cmp, Ord_StrongId. simpl. rewrite three_way_compare.
    by destruct (a ?= b).
  - intros [a] [b] [= ->]. done.
Qed.

(** *** Tags *)

Inductive NodeIdTag := .
Inductive LinkIdTag := .
Inductive PathIdTag := .
Inductive EvidenceIdTag := .
Inductive EvidenceSourceIdTag := .
Inductive AttemptIdTag := .
Inductive DecisionIdTag := .
Inductive FenceIdTag := .
Inductive SessionIdTag := .
Inductive RequestIdTag := .
Inductive BootIdTag := .
Inductive IncarnationIdTag := .
Inductive PolicyVersionTag := .
Inductive PathGenerationTag := .
Inductive TopologyGenerationTag := .
Inductive LinkStateGenerationTag := .
Inductive CoordinatorEpochTag := .
Inductive SourceEpochTag := .
Inductive PolicyGenerationTag := .
Inductive EvidenceSeqTag := .
Inductive SessionSeqTag := .
Inductive RecordSeqTag := .

(** Aliases of [ids.hpp]. *)
Abbreviation NodeId := (StrongId NodeIdTag).
Abbreviation LinkId := (StrongId LinkIdTag).
Abbreviation PathId := (StrongId PathIdTag).
Abbreviation EvidenceId := (StrongId EvidenceIdTag).
Abbreviation EvidenceSourceId := (StrongId EvidenceSourceIdTag).
Abbreviation AttemptId := (StrongId AttemptIdTag).
Abbreviation DecisionId := (StrongId DecisionIdTag).
Abbreviation FenceId := (StrongId FenceIdTag).
Abbreviation SessionId := (StrongId SessionIdTag).
Abbreviation RequestId := (StrongId RequestIdTag).
Abbreviation BootId := (StrongId BootIdTag).
Abbreviation IncarnationId := (StrongId IncarnationIdTag).
Abbreviation PolicyVersion := (StrongId PolicyVersionTag).

(** Aliases of [ids.hpp]. *)
Abbreviation PathGeneration := (Generation PathGenerationTag).
Abbreviation TopologyGeneration := (Generation TopologyGenerationTag).
Abbreviation LinkStateGeneration := (Generation LinkStateGenerationTag).
Abbreviation CoordinatorEpoch := (Generation CoordinatorEpochTag).
Abbreviation SourceEpoch := (Generation SourceEpochTag).
Abbreviation PolicyGeneration := (Generation PolicyGenerationTag).

(** Aliases of [ids.hpp]. *)
Abbreviation EvidenceSequence := (Sequence EvidenceSeqTag).
Abbreviation SessionSequence := (Sequence SessionSeqTag).
Abbreviation RecordSequence := (Sequence RecordSeqTag).

(** *** Codecs *)

(** include/blackhole/core/ids.hpp:157-169 encode(StrongId) *)
#[export] Instance Codec_StrongId T : Codec (StrongId T) := {
  encode := fun v => w_u64 (id_value v);
  decode := raw ← r_u64; mret (MkId raw);
  image := fun v => le_bytes 8 (id_value v);
  valid := fun v => in_u64 (id_value v);
}.

(** include/blackhole/core/ids.hpp:171-183 encode(Generation) *)
#[export] Instance Codec_Generation T : Codec (Generation T) := {
  encode := fun v => w_u64 (gen_value v);
  decode := raw ← r_u64; mret (MkGen raw);
  image := fun v => le_bytes 8 (gen_value v);
  valid := fun v => in_u64 (gen_value v);
}.

(** include/blackhole/core/ids.hpp:185-197 encode(Sequence) *)
#[export] Instance Codec_Sequence T : Codec (Sequence T) := {
  encode := fun v => w_u64 (seq_value v);
  decode := raw ← r_u64; mret (MkSeq raw);
  image := fun v => le_bytes 8 (seq_value v);
  valid := fun v => in_u64 (seq_value v);
}.

(** A one-field wrapper around a [u64]. *)
Lemma wrapped_laws {A} (C : Codec A) (mk : Z -> A) (get : A -> Z) :
  (forall a, mk (get a) = a) ->
  encode = (fun v => w_u64 (get v)) -> decode = (raw ← r_u64; mret (mk raw)) ->
  image = (fun v => le_bytes 8 (get v)) -> valid = (fun v => in_u64 (get v)) -> CodecLaws A.
Proof.
  intros Hmk He Hd Hi Hv. split; rewrite ?He, ?Hd, ?Hi, ?Hv.
  - intros a _. apply emits_u64.
  - intros a Ha. eapply reads_bind_nil; [by apply reads_u64 |]. rewrite Hmk. apply reads_ret.
  - apply sticky_bind, sticky_u64.
  - apply total_bind; [apply total_u64 | intros; apply total_ret].
Qed.

Lemma wrapped_canonical {A} (C : Codec A) (mk : Z -> A) (get : A -> Z) :
  (forall z, get (mk z) = z) ->
  decode = (raw ← r_u64; mret (mk raw)) ->
  image = (fun v => le_bytes 8 (get v)) -> valid = (fun v => in_u64 (get v)) -> CanonicalCodec A.
Proof.
  intros Hg Hd Hi Hv. unfold CanonicalCodec. rewrite Hd, Hi, Hv.
  eapply accepts_bind; [apply accepts_u64 |]. intros z b [Hz ->].
  apply accepts_ret. cbn beta. by rewrite Hg, app_nil_r.
Qed.

#[export] Instance CodecLaws_StrongId T : CodecLaws (StrongId T).
Proof. by apply (wrapped_laws _ MkId id_value); [intros [] | ..]. Qed.
#[export] Instance CanonicalCodec_StrongId T : CanonicalCodec (StrongId T).
Proof. by apply (wrapped_canonical _ MkId id_value). Qed.
#[export] Instance CodecLaws_Generation T : CodecLaws (Generation T).
Proof. by apply (wrapped_laws _ MkGen gen_value); [intros [] | ..]. Qed.
#[export] Instance CanonicalCodec_Generation T : CanonicalCodec (Generation T).
Proof. by apply (wrapped_canonical _ MkGen gen_value). Qed.
#[export] Instance CodecLaws_Sequence T : CodecLaws (Sequence T).
Proof. by apply (wrapped_laws _ MkSeq seq_value); [intros [] | ..]. Qed.
#[export] Instance CanonicalCodec_Sequence T : CanonicalCodec (Sequence T).
Proof. by apply (wrapped_canonical _ MkSeq seq_value). Qed.

(** ** Time *)

(** include/blackhole/core/time.hpp:14-23 WallNs *)
Record WallNs := MkWall { wall_ns : Z }.
(** include/blackhole/core/time.hpp:26-34 MonoNs *)
Record MonoNs := MkMono { mono_ns : Z }.
(** include/blackhole/core/time.hpp:36-45 DurationNs *)
Record DurationNs := MkDuration { duration_ns : Z }.

#[export] Instance WallNs_eq_dec : EqDecision WallNs. Proof. solve_decision. Defined.
#[export] Instance DurationNs_eq_dec : EqDecision DurationNs. Proof. solve_decision. Defined.

Definition wall_zero (t : WallNs) : bool := wall_ns t =? 0.
Definition is_positive (d : DurationNs) : bool := 0 <? duration_ns d.

Definition kNsPerSecond : Z := 1000000000.
Definition kNsPerMilli : Z := 1000000.

(** include/blackhole/core/time.hpp:50 seconds *)
Definition seconds (n : Z) : DurationNs := MkDuration (n * kNsPerSecond).
(** include/blackhole/core/time.hpp:51 millis *)
Definition millis (n : Z) : DurationNs := MkDuration (n * kNsPerMilli).

(** include/blackhole/core/time.hpp:55-69 FreshnessWindow *)
Record FreshnessWindow := MkWindow { open : WallNs; close : WallNs }.
#[export] Instance FreshnessWindow_eq_dec : EqDecision FreshnessWindow.
Proof. solve_decision. Defined.

(** include/blackhole/core/time.hpp:59-61 FreshnessWindow::is_fresh_at *)
Definition window_fresh_at (w : FreshnessWindow) (t : WallNs) : bool :=
  (wall_ns (open w) <? wall_ns (close w)) && (wall_ns (open w) <=? wall_ns t)
  && (wall_ns t <? wall_ns (close w)).

(** include/blackhole/core/time.hpp:62 FreshnessWindow::is_degenerate *)
Definition window_degenerate (w : FreshnessWindow) : bool := wall_ns (close w) <=? wall_ns (open w).

Lemma window_fresh_at_spec w t :
  window_fresh_at w t = true <-> wall_ns (open w) <= wall_ns t < wall_ns (close w).
Proof. unfold window_fresh_at. rewrite !andb_true_iff, Z.leb_le, !Z.ltb_lt. lia. Qed.

(** include/blackhole/core/time.hpp:107-122 ManualClock *)
Record ManualClock := MkClock { wall_ : Z; mono_ : Z }.

(** src/core/time.cpp:23-24 ManualClock::ManualClock *)
Definition new_ManualClock (wall_start_ns : Z) : ManualClock := MkClock wall_start_ns 0.
(** src/core/time.cpp:26 ManualClock::wall_now *)
Definition wall_now (c : ManualClock) : WallNs := MkWall (wall_ c).
(** src/core/time.cpp:28 ManualClock::mono_now *)
Definition mono_now (c : ManualClock) : MonoNs := MkMono (mono_ c).
(** src/core/time.cpp:30-33 ManualClock::advance; signed overflow is excluded. *)
Definition clock_advance (d : DurationNs) (c : ManualClock) : ManualClock :=
  MkClock (wall_ c + duration_ns d) (mono_ c + duration_ns d).
(** src/core/time.cpp:35 ManualClock::set_wall *)
Definition set_wall (w : WallNs) (c : ManualClock) : ManualClock := MkClock (wall_ns w) (mono_ c).

(** include/blackhole/core/time.hpp:71-72 encode(WallNs) *)
#[export] Instance Codec_WallNs : Codec WallNs := {
  encode := fun v => w_i64 (wall_ns v);
  decode := raw ← r_i64; mret (MkWall raw);
  image := fun v => le_bytes 8 (u64_of_i64 (wall_ns v));
  valid := fun v => in_i64 (wall_ns v);
}.

(** include/blackhole/core/time.hpp:75-76 encode(DurationNs) *)
#[export] Instance Codec_DurationNs : Codec DurationNs := {
  encode := fun v => w_i64 (duration_ns v);
  decode := raw ← r_i64; mret (MkDuration raw);
  image := fun v => le_bytes 8 (u64_of_i64 (duration_ns v));
  valid := fun v => in_i64 (duration_ns v);
}.

Ltac i64_wrapper :=
  split;
  [ intros; apply emits_i64
  | intros [] ?; eapply reads_bind_nil; [ by apply reads_i64 | apply reads_ret ]
  | apply sticky_bind, sticky_i64
  | apply total_bind; [ apply total_i64 | intros; apply total_ret ] ].
Ltac i64_canonical :=
  eapply accepts_bind; [ apply accepts_i64 |]; intros ? ? [? ->];
  apply accepts_ret; cbn beta; by rewrite app_nil_r.

#[export] Instance CodecLaws_WallNs : CodecLaws WallNs. Proof. i64_wrapper. Qed.
#[export] Instance CanonicalCodec_WallNs : CanonicalCodec WallNs. Proof. i64_canonical. Qed.
#[export] Instance CodecLaws_DurationNs : CodecLaws DurationNs. Proof. i64_wrapper. Qed.
#[export] Instance CanonicalCodec_DurationNs : CanonicalCodec DurationNs. Proof. i64_canonical. Qed.

(** include/blackhole/core/time.hpp:77-80 encode(FreshnessWindow) *)
Definition encode_FreshnessWindow (v : FreshnessWindow) : Writer -> Writer :=
  seqw [encode (open v);
        encode (close v)].

(** include/blackhole/core/time.hpp:81-85 decode(FreshnessWindow) *)
Definition decode_FreshnessWindow : Decoder FreshnessWindow :=
  open_ ← decode (A := WallNs);
  close_ ← decode (A := WallNs);
  mret (MkWindow open_ close_).

Definition image_FreshnessWindow (v : FreshnessWindow) : list byte :=
  concat [image (open v);
          image (close v)].

Definition valid_FreshnessWindow (v : FreshnessWindow) : Prop :=
  valid (open v) /\
  valid (close v).

#[export] Instance Codec_FreshnessWindow : Codec FreshnessWindow := {
  encode := encode_FreshnessWindow; decode := decode_FreshnessWindow; image := image_FreshnessWindow; valid := valid_FreshnessWindow;
}.

#[export] Instance CodecLaws_FreshnessWindow : CodecLaws FreshnessWindow.
Proof. codec_laws encode_FreshnessWindow decode_FreshnessWindow image_FreshnessWindow valid_FreshnessWindow. Qed.

#[export] Instance CanonicalCodec_FreshnessWindow : CanonicalCodec FreshnessWindow.
Proof. codec_canonical decode_FreshnessWindow image_FreshnessWindow valid_FreshnessWindow. Qed.

(** ** Rendering for tools and logs *)

Local Open Scope string_scope.
Local Open Scope Z_scope.

Definition digit_char (d : Z) : Ascii.ascii :=
  Ascii.ascii_of_nat (Z.to_nat (if d <? 10 then 48 + d else 87 + d)).
Definition char_digit (c : Ascii.ascii) : Z :=
  let n := Z.of_nat (Ascii.nat_of_ascii c) in if n <? 58 then n - 48 else n - 87.

(** The [n] low digits of [v] in base [base], most significant first. *)
Fixpoint digits (base : Z) (n : nat) (v : Z) : string :=
  match n with
  | O => ""
  | S n => String (digit_char (v / base ^ Z.of_nat n mod base)) (digits base n v)
  end.

(** [%016llx]: src/core/ids.cpp:9-13 hex16 *)
Definition hex16 (v : Z) : string := digits 16 16 v.

(** The number of decimal digits of [v]; 20 suffice for a [uint64_t]. *)
Fixpoint dec_width (fuel : nat) (v : Z) : nat :=
  match fuel with
  | O => 1
  | S fuel => if v <? 10 then 1 else S (dec_width fuel (v / 10))
  end.

(** [%llu]: src/core/ids.cpp:15-19 hex_dec *)
Definition hex_dec (v : Z) : string := digits 10 (dec_width 20 v) v.

(** src/core/ids.cpp:23-36 to_text *)
Definition to_text_NodeId (v : NodeId) : string := "node:" ++ hex16 (id_value v).
Definition to_text_LinkId (v : LinkId) : string := "link:" ++ hex16 (id_value v).
Definition to_text_PathId (v : PathId) : string := "path:" ++ hex16 (id_value v).
Definition to_text_EvidenceSourceId (v : EvidenceSourceId) : string := "src:" ++ hex16 (id_value v).
Definition to_text_FenceId (v : FenceId) : string := "fence:" ++ hex16 (id_value v).
Definition to_text_DecisionId (v : DecisionId) : string := "dec:" ++ hex16 (id_value v).
Definition to_text_SessionId (v : SessionId) : string := "sess:" ++ hex16 (id_value v).
Definition to_text_BootId (v : BootId) : string := "boot:" ++ hex16 (id_value v).
Definition to_text_IncarnationId (v : IncarnationId) : string := "inc:" ++ hex16 (id_value v).
Definition to_text_PathGeneration (v : PathGeneration) : string := "pg" ++ hex_dec (gen_value v).
Definition to_text_TopologyGeneration (v : TopologyGeneration) : string := "tg" ++ hex_dec (gen_value v).
Definition to_text_LinkStateGeneration (v : LinkStateGeneration) : string := "lg" ++ hex_dec (gen_value v).
Definition to_text_CoordinatorEpoch (v : CoordinatorEpoch) : string := "ep" ++ hex_dec (gen_value v).
Definition to_text_PolicyVersion (v : PolicyVersion) : string := "pol:" ++ hex16 (id_value v).

Local Open Scope Z_scope.

Fixpoint digits_value (base : Z) (acc : Z) (s : string) : Z :=
  match s with
  | EmptyString => acc
  | String c s => digits_value base (base * acc + char_digit c) s
  end.

Lemma char_digit_char d : 0 <= d < 16 -> char_digit (digit_char d) = d.
Proof.
  intros Hd. apply Z.eqb_eq.
  apply (raw_range 0 15 (fun d => char_digit (digit_char d) =? d)); [reflexivity | lia].
Qed.

Lemma digits_value_digits base n v acc :
  2 <= base <= 16 ->
  digits_value base acc (digits base n v) = acc * base ^ Z.of_nat n + v mod base ^ Z.of_nat n.
Proof.
  intros Hb. revert acc. induction n as [| n IH]; intros acc.
  - simpl. rewrite Z.mod_1_r. lia.
  - cbn [digits digits_value]. rewrite IH.
    set (p := base ^ Z.of_nat n). assert (0 < p) by (apply Z.pow_pos_nonneg; lia).
    assert (0 <= v / p mod base < base) by (apply Z.mod_pos_bound; lia).
    rewrite char_digit_char by lia.
    rewrite Nat2Z.inj_succ, Z.pow_succ_r by lia. fold p.
    rewrite (Z.mul_comm base p), Z.rem_mul_r by lia. lia.
Qed.

Lemma dec_width_enough fuel v : 0 <= v < 10 ^ (Z.of_nat fuel + 1) -> v < 10 ^ Z.of_nat (dec_width fuel v).
Proof.
  revert v. induction fuel as [| fuel IH]; intros v Hv; [exact (proj2 Hv) |]. cbn [dec_width].
  destruct (Z.ltb_spec v 10); [done |].
  assert (v / 10 < 10 ^ Z.of_nat (dec_width fuel (v / 10))) as Hq.
  { apply IH. split; [apply Z.div_pos; lia |]. apply Z.div_lt_upper_bound; [lia |].
    rewrite <- Z.pow_succ_r by lia. replace (Z.succ (Z.of_nat fuel + 1)) with (Z.of_nat (S fuel) + 1) by lia. lia. }
  rewrite Nat2Z.inj_succ, Z.pow_succ_r by lia.
  pose proof (Z.div_mod v 10 ltac:(lia)). pose proof (Z.mod_pos_bound v 10). lia.
Qed.

Lemma hex16_inj a b : in_u64 a -> in_u64 b -> hex16 a = hex16 b -> a = b.
Proof.
  intros Ha Hb E. apply (f_equal (digits_value 16 0)) in E. unfold hex16 in E.
  rewrite !digits_value_digits, !Z.mod_small in E by (done || lia). lia.
Qed.

Lemma hex_dec_inj a b : in_u64 a -> in_u64 b -> hex_dec a = hex_dec b -> a = b.
Proof.
  assert (forall v, in_u64 v -> digits_value 10 0 (hex_dec v) = v) as Hd.
  { intros v [Hv1 Hv2]. unfold hex_dec. rewrite digits_value_digits by lia.
    rewrite Z.mod_small; [lia |]. split; [done |]. apply dec_width_enough. split; [done |].
    eapply Z.lt_trans; [exact Hv2 | done]. }
  intros Ha Hb E. by rewrite <- (Hd a), <- (Hd b), E.
Qed.
