(* ===== verification/Domain.v ===== *)
(** * Domain model: generations, scopes, evidence, reasons

    Models [include/blackhole/domain/generation.hpp], [scope.hpp], [classification.hpp],
    [evidence.hpp] and [src/domain/evidence.cpp]: the generation vector a claim is bound
    to, the source instance, the scope of a decision, the delivery evidence record with
    its structural checks, the classification and the reason codes, with their codecs. *)
From Stdlib Require Import Strings.String.
From S2P Require Import Prelude OrderedMap Core Codec Hash Ids.
Local Open Scope string_scope.
Local Open Scope Z_scope.

(** ** Generations *)

(** include/blackhole/domain/generation.hpp:22-42 GenerationVector *)
Record GenerationVector := MkGens {
  gv_path : PathGeneration;
  topology : TopologyGeneration;
  link_state : LinkStateGeneration;
  gv_epoch : CoordinatorEpoch;
}.
#[export] Instance GenerationVector_eq_dec : EqDecision GenerationVector.
Proof. solve_decision. Defined.

(** include/blackhole/domain/generation.hpp:39-41 GenerationVector::is_complete *)
Definition is_complete (v : GenerationVector) : bool :=
  negb (gen_nil (gv_path v)) && negb (gen_nil (topology v)) && negb (gen_nil (link_state v))
  && negb (gen_nil (gv_epoch v)).

Module GenMismatch.
(** include/blackhole/domain/generation.hpp:46-53 GenMismatch *)
Inductive t :=
| None | Path | Topology | LinkState | Epoch | Multiple.

Definition raw (e : t) : Z :=
  match e with
  | None => 0 | Path => 1 | Topology => 2 | LinkState => 3 | Epoch => 4 | Multiple => 5
  end.

Definition all : list t :=
  [None; Path; Topology; LinkState; Epoch; Multiple].

(** include/blackhole/domain/generation.hpp:55-55 is_valid(GenMismatch) *)
Definition is_valid (raw : Z) : bool := raw <=? 5.

(** include/blackhole/domain/generation.hpp:57-67 to_string(GenMismatch) *)
Definition to_string (e : t) : string :=
  match e with
  | None => "None" | Path => "Path" | Topology => "Topology" | LinkState => "LinkState"
  | Epoch => "Epoch" | Multiple => "Multiple"
  end.
End GenMismatch.

#[export] Instance RawEnum_GenMismatch : RawEnum GenMismatch.t := {
  to_raw := GenMismatch.raw; of_raw := pick GenMismatch.raw GenMismatch.all GenMismatch.None;
  is_valid_raw := fun z => (0 <=? z) && GenMismatch.is_valid z;
}.
#[export] Hint Unfold GenMismatch.is_valid : enum.
#[export] Instance RawEnumLaws_GenMismatch : RawEnumLaws GenMismatch.t.
Proof. solve_enum 0 5%nat. Qed.
#[export] Instance GenMismatch_eq_dec : EqDecision GenMismatch.t :=
  eq_dec_by_inj GenMismatch.raw (to_raw_inj (E := GenMismatch.t)).

(** include/blackhole/domain/generation.hpp:70-83 classify_mismatch *)
Definition classify_mismatch (a b : GenerationVector) : GenMismatch.t :=
  let n := Z.b2z (gv_path a != gv_path b) + Z.b2z (topology a != topology b)
           + Z.b2z (link_state a != link_state b) + Z.b2z (gv_epoch a != gv_epoch b) in
  if n =? 0 then GenMismatch.None
  else if 1 <? n then GenMismatch.Multiple
  else if gv_path a != gv_path b then GenMismatch.Path
  else if topology a != topology b then GenMismatch.Topology
  else if link_state a != link_state b then GenMismatch.LinkState
  else GenMismatch.Epoch.

(** The components of the vector that differ. *)
Definition differing (a b : GenerationVector) : list GenMismatch.t :=
  (if gv_path a != gv_path b then [GenMismatch.Path] else [])
  ++ (if topology a != topology b then [GenMismatch.Topology] else [])
  ++ (if link_state a != link_state b then [GenMismatch.LinkState] else [])
  ++ (if gv_epoch a != gv_epoch b then [GenMismatch.Epoch] else []).

Lemma classify_mismatch_differing a b :
  classify_mismatch a b =
  match differing a b with
  | [] => GenMismatch.None
  | [m] => m
  | _ => GenMismatch.Multiple
  end.
Proof.
  unfold classify_mismatch, differing.
  by destruct (gv_path a != gv_path b), (topology a != topology b),
    (link_state a != link_state b), (gv_epoch a != gv_epoch b).
Qed.

Lemma classify_mismatch_none a b : classify_mismatch a b = GenMismatch.None <-> a = b.
Proof.
  rewrite classify_mismatch_differing. unfold differing. destruct a as [p t l e], b as [p' t' l' e']. simpl.
  destruct (decide (p = p')), (decide (t = t')), (decide (l = l')), (decide (e = e'));
    repeat first [rewrite bool_decide_eq_true_2 by done | rewrite bool_decide_eq_false_2 by done]; simpl;
    split; congruence.
Qed.

(** include/blackhole/domain/generation.hpp:87-107 SourceRef *)
Record SourceRef := MkSource {
  sr_source : EvidenceSourceId;
  sr_boot : BootId;
  sr_incarnation : IncarnationId;
  sr_epoch : SourceEpoch;
}.
#[export] Instance SourceRef_eq_dec : EqDecision SourceRef.
Proof. solve_decision. Defined.

(** include/blackhole/domain/generation.hpp:104-106 SourceRef::is_valid *)
Definition source_valid (s : SourceRef) : bool :=
  negb (id_nil (sr_source s)) && negb (id_nil (sr_boot s)) && negb (id_nil (sr_incarnation s)).

(** include/blackhole/domain/generation.hpp:97-103 SourceRef::operator<=> *)
#[export] Instance Ord_SourceRef : Ord SourceRef := fun a b =>
  if sr_source a != sr_source b then three_way (id_value (sr_source a)) (id_value (sr_source b))
  else if sr_boot a != sr_boot b then three_way (id_value (sr_boot a)) (id_value (sr_boot b))
  else if sr_incarnation a != sr_incarnation b then
    three_way (id_value (sr_incarnation a)) (id_value (sr_incarnation b))
  else three_way (gen_value (sr_epoch a)) (gen_value (sr_epoch b)).

(** One comparison of the chain [if (a.x != b.x) return a.x <=> b.x;]. *)
Lemma three_way_chain {A} `{EqDecision A} (f : A -> Z) (a b : A) (c : comparison) :
  (forall x y, f x = f y -> x = y) ->
  (if a != b then three_way (f a) (f b) else c) = cmp_then (f a ?= f b) c.
Proof.
  intros Hf. rewrite three_way_compare. destruct (decide (a = b)) as [-> | Hne].
  - by rewrite bool_decide_eq_true_2, Z.compare_refl.
  - rewrite bool_decide_eq_false_2 by done. simpl.
    destruct (Z.compare_spec (f a) (f b)); try done. by apply Hf in H.
Qed.

Lemma id_value_inj {T} (a b : StrongId T) : id_value a = id_value b -> a = b.
Proof. destruct a, b. simpl. congruence. Qed.
Lemma gen_value_inj {T} (a b : Generation T) : gen_value a = gen_value b -> a = b.
Proof. destruct a, b. simpl. congruence. Qed.
Lemma seq_value_inj {T} (a b : Sequence T) : seq_value a = seq_value b -> a = b.
Proof. destruct a, b. simpl. congruence. Qed.
#[export] Hint Resolve id_value_inj gen_value_inj seq_value_inj : bhg.

Definition source_key (s : SourceRef) : list Z :=
  [id_value (sr_source s); id_value (sr_boot s); id_value (sr_incarnation s); gen_value (sr_epoch s)].

#[export] Instance OrdLaws_SourceRef : OrdLaws SourceRef.
Proof.
  apply (OrdLaws_by_key source_key).
  - intros a b. unfold cmp, Ord_SourceRef.
    rewrite !(three_way_chain id_value), three_way_compare by auto with bhg. simpl.
    by destruct (gen_value (sr_epoch a) ?= gen_value (sr_epoch b)).
  - intros [a b c d] [a' b' c' d']. unfold source_key. simpl. intros [= ? ? ? ?].
    f_equal; auto with bhg.
Qed.

(** include/blackhole/domain/generation.hpp:109-114 encode(GenerationVector) *)
Definition encode_GenerationVector (v : GenerationVector) : Writer -> Writer :=
  seqw [encode (gv_path v);
        encode (topology v);
        encode (link_state v);
        encode (gv_epoch v)].

(** include/blackhole/domain/generation.hpp:116-124 decode(GenerationVector) *)
Definition decode_GenerationVector : Decoder GenerationVector :=
  gv_path_ ← decode (A := PathGeneration);
  topology_ ← decode (A := TopologyGeneration);
  link_state_ ← decode (A := LinkStateGeneration);
  gv_epoch_ ← decode (A := CoordinatorEpoch);
  mret (MkGens gv_path_ topology_ link_state_ gv_epoch_).

Definition image_GenerationVector (v : GenerationVector) : list byte :=
  concat [image (gv_path v);
          image (topology v);
          image (link_state v);
          image (gv_epoch v)].

Definition valid_GenerationVector (v : GenerationVector) : Prop :=
  valid (gv_path v) /\
  valid (topology v) /\
  valid (link_state v) /\
  valid (gv_epoch v).

#[export] Instance Codec_GenerationVector : Codec GenerationVector := {
  encode := encode_GenerationVector; decode := decode_GenerationVector; image := image_GenerationVector; valid := valid_GenerationVector;
}.

#[export] Instance CodecLaws_GenerationVector : CodecLaws GenerationVector.
Proof. codec_laws encode_GenerationVector decode_GenerationVector image_GenerationVector valid_GenerationVector. Qed.

#[export] Instance CanonicalCodec_GenerationVector : CanonicalCodec GenerationVector.
Proof. codec_canonical decode_GenerationVector image_GenerationVector valid_GenerationVector. Qed.

(** include/blackhole/domain/generation.hpp:126-131 encode(SourceRef) *)
Definition encode_SourceRef (v : SourceRef) : Writer -> Writer :=
  seqw [encode (sr_source v);
        encode (sr_boot v);
        encode (sr_incarnation v);
        encode (sr_epoch v)].

(** include/blackhole/domain/generation.hpp:133-141 decode(SourceRef) *)
Definition decode_SourceRef : Decoder SourceRef :=
  sr_source_ ← decode (A := EvidenceSourceId);
  sr_boot_ ← decode (A := BootId);
  sr_incarnation_ ← decode (A := IncarnationId);
  sr_epoch_ ← decode (A := SourceEpoch);
  mret (MkSource sr_source_ sr_boot_ sr_incarnation_ sr_epoch_).

Definition image_SourceRef (v : SourceRef) : list byte :=
  concat [image (sr_source v);
          image (sr_boot v);
          image (sr_incarnation v);
          image (sr_epoch v)].

Definition valid_SourceRef (v : SourceRef) : Prop :=
  valid (sr_source v) /\
  valid (sr_boot v) /\
  valid (sr_incarnation v) /\
  valid (sr_epoch v).

#[export] Instance Codec_SourceRef : Codec SourceRef := {
  encode := encode_SourceRef; decode := decode_SourceRef; image := image_SourceRef; valid := valid_SourceRef;
}.

#[export] Instance CodecLaws_SourceRef : CodecLaws SourceRef.
Proof. codec_laws encode_SourceRef decode_SourceRef image_SourceRef valid_SourceRef. Qed.

#[export] Instance CanonicalCodec_SourceRef : CanonicalCodec SourceRef.
Proof. codec_canonical decode_SourceRef image_SourceRef valid_SourceRef. Qed.

(** ** Scopes *)

Module ScopeKind.
(** include/blackhole/domain/scope.hpp:13-18 ScopeKind *)
Inductive t :=
| Node | Link | Path | Segment.

Definition raw (e : t) : Z :=
  match e with
  | Node => 1 | Link => 2 | Path => 3 | Segment => 4
  end.

Definition all : list t :=
  [Node; Link; Path; Segment].

(** include/blackhole/domain/scope.hpp:20-22 is_valid(ScopeKind) *)
Definition is_valid (raw : Z) : bool := (1 <=? raw) && (raw <=? 4).

(** include/blackhole/domain/scope.hpp:24-32 to_string(ScopeKind) *)
Definition to_string (e : t) : string :=
  match e with
  | Node => "Node" | Link => "Link" | Path => "Path" | Segment => "Segment"
  end.
End ScopeKind.

#[export] Instance RawEnum_ScopeKind : RawEnum ScopeKind.t := {
  to_raw := ScopeKind.raw; of_raw := pick ScopeKind.raw ScopeKind.all ScopeKind.Node;
  is_valid_raw := fun z => (0 <=? z) && ScopeKind.is_valid z;
}.
#[export] Hint Unfold ScopeKind.is_valid : enum.
#[export] Instance RawEnumLaws_ScopeKind : RawEnumLaws ScopeKind.t.
Proof. solve_enum 0 4%nat. Qed.
#[export] Instance ScopeKind_eq_dec : EqDecision ScopeKind.t :=
  eq_dec_by_inj ScopeKind.raw (to_raw_inj (E := ScopeKind.t)).

(** include/blackhole/domain/scope.hpp:37-68 Scope *)
Record Scope := MkScope {
  s_kind : ScopeKind.t;
  s_path : PathId;
  s_node : NodeId;
  s_link : LinkId;
  begin_hop : Z;
  end_hop : Z;
}.
#[export] Instance Scope_eq_dec : EqDecision Scope.
Proof. solve_decision. Defined.

(** include/blackhole/domain/scope.hpp:45-53 Scope::is_valid *)
Definition scope_valid (s : Scope) : bool :=
  match s_kind s with
  | ScopeKind.Path => negb (id_nil (s_path s))
  | ScopeKind.Node => negb (id_nil (s_path s)) && negb (id_nil (s_node s))
  | ScopeKind.Link => negb (id_nil (s_path s)) && negb (id_nil (s_link s))
  | ScopeKind.Segment => negb (id_nil (s_path s)) && (begin_hop s <? end_hop s)
  end.

(** include/blackhole/domain/scope.hpp:60-67 Scope::operator<=> *)
#[export] Instance Ord_Scope : Ord Scope := fun a b =>
  if s_kind a != s_kind b then three_way (ScopeKind.raw (s_kind a)) (ScopeKind.raw (s_kind b))
  else if s_path a != s_path b then three_way (id_value (s_path a)) (id_value (s_path b))
  else if s_node a != s_node b then three_way (id_value (s_node a)) (id_value (s_node b))
  else if s_link a != s_link b then three_way (id_value (s_link a)) (id_value (s_link b))
  else if begin_hop a != begin_hop b then three_way (begin_hop a) (begin_hop b)
  else three_way (end_hop a) (end_hop b).

Definition scope_key (s : Scope) : list Z :=
  [ScopeKind.raw (s_kind s); id_value (s_path s); id_value (s_node s); id_value (s_link s);
   begin_hop s; end_hop s].

#[export] Instance OrdLaws_Scope : OrdLaws Scope.
Proof.
  apply (OrdLaws_by_key scope_key).
  - intros a b. unfold cmp, Ord_Scope.
    rewrite (three_way_chain ScopeKind.raw) by exact (to_raw_inj (E := ScopeKind.t)).
    rewrite !(three_way_chain id_value), (three_way_chain (fun z => z)), three_way_compare
      by auto with bhg. simpl. by destruct (end_hop a ?= end_hop b).
  - intros [a b c d e f] [a' b' c' d' e' f']. unfold scope_key. simpl. intros [= Hk ? ? ? ? ?].
    f_equal; auto with bhg. exact (to_raw_inj (E := ScopeKind.t) _ _ Hk).
Qed.

(** include/blackhole/domain/scope.hpp:72-82 scopes_overlap *)
Definition scopes_overlap (a b : Scope) : bool :=
  if s_path a != s_path b then false
  else if (s_kind a == ScopeKind.Path) || (s_kind b == ScopeKind.Path) then true
  else if s_kind a == ScopeKind.Node then (s_kind b == ScopeKind.Node) && (s_node a == s_node b)
  else if s_kind a == ScopeKind.Link then (s_kind b == ScopeKind.Link) && (s_link a == s_link b)
  else if (s_kind a == ScopeKind.Segment) && (s_kind b == ScopeKind.Segment) then
    (begin_hop a <? end_hop b) && (begin_hop b <? end_hop a)
  else false.

(** include/blackhole/domain/scope.hpp:95-102 encode(Scope) *)
Definition encode_Scope (v : Scope) : Writer -> Writer :=
  seqw [w_enum16 (s_kind v);
        encode (s_path v);
        encode (s_node v);
        encode (s_link v);
        w_u32 (begin_hop v);
        w_u32 (end_hop v)].

(** include/blackhole/domain/scope.hpp:104-116 decode(Scope) *)
Definition decode_Scope : Decoder Scope :=
  s_kind_ ← r_enum16 (E := ScopeKind.t);
  s_path_ ← decode (A := PathId);
  s_node_ ← decode (A := NodeId);
  s_link_ ← decode (A := LinkId);
  begin_hop_ ← r_u32;
  end_hop_ ← r_u32;
  mret (MkScope s_kind_ s_path_ s_node_ s_link_ begin_hop_ end_hop_).

Definition image_Scope (v : Scope) : list byte :=
  concat [le_bytes 2 (to_raw (s_kind v));
          image (s_path v);
          image (s_node v);
          image (s_link v);
          le_bytes 4 (begin_hop v);
          le_bytes 4 (end_hop v)].

Definition valid_Scope (v : Scope) : Prop :=
  valid (s_path v) /\
  valid (s_node v) /\
  valid (s_link v) /\
  in_u32 (begin_hop v) /\
  in_u32 (end_hop v).

#[export] Instance Codec_Scope : Codec Scope := {
  encode := encode_Scope; decode := decode_Scope; image := image_Scope; valid := valid_Scope;
}.

#[export] Instance CodecLaws_Scope : CodecLaws Scope.
Proof. codec_laws encode_Scope decode_Scope image_Scope valid_Scope. Qed.

#[export] Instance CanonicalCodec_Scope : CanonicalCodec Scope.
Proof. codec_canonical decode_Scope image_Scope valid_Scope. Qed.

Lemma scopes_overlap_sym a b : scopes_overlap a b = scopes_overlap b a.
Proof.
  unfold scopes_overlap. rewrite (beq_sym (s_path b)). destruct (s_path a == s_path b); [| done].
  cbn [negb]. destruct (s_kind a), (s_kind b); enum_eval; try done.
  - apply beq_sym.
  - apply beq_sym.
  - apply andb_comm.
Qed.

Lemma scopes_overlap_refl a : scope_valid a = true -> scopes_overlap a a = true.
Proof.
  unfold scope_valid, scopes_overlap. rewrite (bool_decide_eq_true_2 (s_path a = s_path a)) by done.
  cbn [negb]. destruct (s_kind a); enum_eval; intros H; bool_prop; try done.
  - apply beq_refl.
  - apply beq_refl.
  - rewrite andb_diag. by apply Z.ltb_lt.
Qed.

(** ** Classification *)

Module Classification.
(** include/blackhole/domain/classification.hpp:12-33 Classification *)
Inductive t :=
| Healthy | NoEvidence | Unknown | Lossy | Congested | Partitioned | Blackhole.

Definition raw (e : t) : Z :=
  match e with
  | Healthy => 0 | NoEvidence => 1 | Unknown => 2 | Lossy => 3 | Congested => 4
  | Partitioned => 5 | Blackhole => 6
  end.

Definition all : list t :=
  [Healthy; NoEvidence; Unknown; Lossy; Congested; Partitioned; Blackhole].

(** include/blackhole/domain/classification.hpp:35-35 is_valid(Classification) *)
Definition is_valid (raw : Z) : bool := raw <=? 6.

(** include/blackhole/domain/classification.hpp:37-48 to_string(Classification) *)
Definition to_string (e : t) : string :=
  match e with
  | Healthy => "HEALTHY" | NoEvidence => "NO_EVIDENCE" | Unknown => "UNKNOWN"
  | Lossy => "LOSSY" | Congested => "CONGESTED" | Partitioned => "PARTITIONED"
  | Blackhole => "BLACKHOLE"
  end.
End Classification.

#[export] Instance RawEnum_Classification : RawEnum Classification.t := {
  to_raw := Classification.raw; of_raw := pick Classification.raw Classification.all Classification.Healthy;
  is_valid_raw := fun z => (0 <=? z) && Classification.is_valid z;
}.
#[export] Hint Unfold Classification.is_valid : enum.
#[export] Instance RawEnumLaws_Classification : RawEnumLaws Classification.t.
Proof. solve_enum 0 6%nat. Qed.
#[export] Instance Classification_eq_dec : EqDecision Classification.t :=
  eq_dec_by_inj Classification.raw (to_raw_inj (E := Classification.t)).

(** include/blackhole/domain/classification.hpp:51-53 may_authorize_fence *)
Definition may_authorize_fence (c : Classification.t) : bool := c == Classification.Blackhole.

(** ** Delivery evidence *)

Module EvidenceKind.
(** include/blackhole/domain/evidence.hpp:15-28 EvidenceKind *)
Inductive t :=
| DeliverySuccess | DeliveryFailure | LossMeasurement | CongestionSignal | PartitionSignal
| StructuralWithdrawal.

Definition raw (e : t) : Z :=
  match e with
  | DeliverySuccess => 1 | DeliveryFailure => 2 | LossMeasurement => 3
  | CongestionSignal => 4 | PartitionSignal => 5 | StructuralWithdrawal => 6
  end.

Definition all : list t :=
  [DeliverySuccess; DeliveryFailure; LossMeasurement; CongestionSignal; PartitionSignal;
   StructuralWithdrawal].

(** include/blackhole/domain/evidence.hpp:30-32 is_valid(EvidenceKind) *)
Definition is_valid (raw : Z) : bool := (1 <=? raw) && (raw <=? 6).

(** include/blackhole/domain/evidence.hpp:34-44 to_string(EvidenceKind) *)
Definition to_string (e : t) : string :=
  match e with
  | DeliverySuccess => "DeliverySuccess" | DeliveryFailure => "DeliveryFailure"
  | LossMeasurement => "LossMeasurement" | CongestionSignal => "CongestionSignal"
  | PartitionSignal => "PartitionSignal" | StructuralWithdrawal => "StructuralWithdrawal"
  end.
End EvidenceKind.

#[export] Instance RawEnum_EvidenceKind : RawEnum EvidenceKind.t := {
  to_raw := EvidenceKind.raw; of_raw := pick EvidenceKind.raw EvidenceKind.all EvidenceKind.DeliverySuccess;
  is_valid_raw := fun z => (0 <=? z) && EvidenceKind.is_valid z;
}.
#[export] Hint Unfold EvidenceKind.is_valid : enum.
#[export] Instance RawEnumLaws_EvidenceKind : RawEnumLaws EvidenceKind.t.
Proof. solve_enum 0 6%nat. Qed.
#[export] Instance EvidenceKind_eq_dec : EqDecision EvidenceKind.t :=
  eq_dec_by_inj EvidenceKind.raw (to_raw_inj (E := EvidenceKind.t)).

Module EvidenceQuality.
(** include/blackhole/domain/evidence.hpp:47-51 EvidenceQuality *)
Inductive t :=
| Exact | Sampled | Approximate.

Definition raw (e : t) : Z :=
  match e with
  | Exact => 0 | Sampled => 1 | Approximate => 2
  end.

Definition all : list t :=
  [Exact; Sampled; Approximate].

(** include/blackhole/domain/evidence.hpp:53-53 is_valid(EvidenceQuality) *)
Definition is_valid (raw : Z) : bool := raw <=? 2.

(** include/blackhole/domain/evidence.hpp:55-62 to_string(EvidenceQuality) *)
Definition to_string (e : t) : string :=
  match e with
  | Exact => "Exact" | Sampled => "Sampled" | Approximate => "Approximate"
  end.
End EvidenceQuality.

#[export] Instance RawEnum_EvidenceQuality : RawEnum EvidenceQuality.t := {
  to_raw := EvidenceQuality.raw; of_raw := pick EvidenceQuality.raw EvidenceQuality.all EvidenceQuality.Exact;
  is_valid_raw := fun z => (0 <=? z) && EvidenceQuality.is_valid z;
}.
#[export] Hint Unfold EvidenceQuality.is_valid : enum.
#[export] Instance RawEnumLaws_EvidenceQuality : RawEnumLaws EvidenceQuality.t.
Proof. solve_enum 0 2%nat. Qed.
#[export] Instance EvidenceQuality_eq_dec : EqDecision EvidenceQuality.t :=
  eq_dec_by_inj EvidenceQuality.raw (to_raw_inj (E := EvidenceQuality.t)).

Module Provenance.
(** include/blackhole/domain/evidence.hpp:66-70 Provenance *)
Inductive t :=
| Real | Synthetic | Unsupported.

Definition raw (e : t) : Z :=
  match e with
  | Real => 0 | Synthetic => 1 | Unsupported => 2
  end.

Definition all : list t :=
  [Real; Synthetic; Unsupported].

(** include/blackhole/domain/evidence.hpp:72-72 is_valid(Provenance) *)
Definition is_valid (raw : Z) : bool := raw <=? 2.

(** include/blackhole/domain/evidence.hpp:74-81 to_string(Provenance) *)
Definition to_string (e : t) : string :=
  match e with
  | Real => "REAL" | Synthetic => "SYNTHETIC" | Unsupported => "UNSUPPORTED"
  end.
End Provenance.

#[export] Instance RawEnum_Provenance : RawEnum Provenance.t := {
  to_raw := Provenance.raw; of_raw := pick Provenance.raw Provenance.all Provenance.Real;
  is_valid_raw := fun z => (0 <=? z) && Provenance.is_valid z;
}.
#[export] Hint Unfold Provenance.is_valid : enum.
#[export] Instance RawEnumLaws_Provenance : RawEnumLaws Provenance.t.
Proof. solve_enum 0 2%nat. Qed.
#[export] Instance Provenance_eq_dec : EqDecision Provenance.t :=
  eq_dec_by_inj Provenance.raw (to_raw_inj (E := Provenance.t)).

Definition kLossTotalPpm : Z := 1000000.

(** include/blackhole/domain/evidence.hpp:87-119 DeliveryEvidence *)
Record DeliveryEvidence := MkEvidence {
  e_id : EvidenceId;
  e_source : SourceRef;
  e_scope : Scope;
  e_gens : GenerationVector;
  e_seq : EvidenceSequence;
  e_attempt : AttemptId;
  e_kind : EvidenceKind.t;
  quality : EvidenceQuality.t;
  provenance : Provenance.t;
  attempts : Z;
  failures : Z;
  loss_ppm : Z;
  rtt_us : Z;
  observed_at : WallNs;
  fresh : FreshnessWindow;
  external_owner : EvidenceSourceId;
}.
#[export] Instance DeliveryEvidence_eq_dec : EqDecision DeliveryEvidence.
Proof. solve_decision. Defined.

(** src/domain/evidence.cpp:7-39 DeliveryEvidence::structurally_valid *)
Definition structurally_valid_why (e : DeliveryEvidence) : bool * string :=
  if id_nil (e_id e) then (false, "evidence id must be non-zero")
  else if negb (source_valid (e_source e)) then (false, "source reference incomplete")
  else if negb (scope_valid (e_scope e)) then (false, "scope invalid for its kind")
  else if negb (is_complete (e_gens e)) then (false, "generation vector incomplete")
  else if seq_nil (e_seq e) then (false, "sequence must be non-zero")
  else if negb (EvidenceKind.is_valid (to_raw (e_kind e))) then (false, "evidence kind")
  else if negb (EvidenceQuality.is_valid (to_raw (quality e))) then (false, "quality")
  else if negb (Provenance.is_valid (to_raw (provenance e))) then (false, "provenance")
  else if kLossTotalPpm <? loss_ppm e then (false, "loss_ppm out of range")
  else if attempts e <? failures e then (false, "failures exceed attempts")
  else if wall_zero (observed_at e) then (false, "observed_at is zero")
  else if window_degenerate (fresh e) then (false, "freshness window degenerate")
  else if wall_ns (close (fresh e)) <=? wall_ns (observed_at e) then
    (false, "freshness window closes at or before observation")
  else
    match e_kind e with
    | EvidenceKind.DeliverySuccess | EvidenceKind.DeliveryFailure =>
        if attempts e =? 0 then (false, "delivery evidence must summarize at least one attempt")
        else (true, "")
    | EvidenceKind.LossMeasurement =>
        if attempts e =? 0 then (false, "loss measurement must summarize at least one sample")
        else (true, "")
    | EvidenceKind.CongestionSignal | EvidenceKind.PartitionSignal =>
        if id_nil (external_owner e) then (false, "external owner reference required") else (true, "")
    | EvidenceKind.StructuralWithdrawal => (true, "")
    end.

Definition structurally_valid (e : DeliveryEvidence) : bool := (structurally_valid_why e).1.

(** include/blackhole/domain/evidence.hpp:111-113 DeliveryEvidence::is_complete_delivery_failure *)
Definition is_complete_delivery_failure (e : DeliveryEvidence) : bool :=
  (0 <? failures e) && (failures e =? attempts e) && (kLossTotalPpm <=? loss_ppm e).

(** include/blackhole/domain/evidence.hpp:114-117 DeliveryEvidence::is_clean_delivery_success *)
Definition is_clean_delivery_success (e : DeliveryEvidence) : bool :=
  (e_kind e == EvidenceKind.DeliverySuccess) && (failures e =? 0) && (0 <? attempts e)
  && (loss_ppm e =? 0).

(** include/blackhole/domain/evidence.hpp:118 DeliveryEvidence::is_fresh_at *)
Definition is_fresh_at (e : DeliveryEvidence) (t : WallNs) : bool := window_fresh_at (fresh e) t.

(** src/domain/evidence.cpp:41-58 encode(DeliveryEvidence) *)
Definition encode_DeliveryEvidence (v : DeliveryEvidence) : Writer -> Writer :=
  seqw [encode (e_id v);
        encode (e_source v);
        encode (e_scope v);
        encode (e_gens v);
        encode (e_seq v);
        encode (e_attempt v);
        w_enum16 (e_kind v);
        w_enum8 (quality v);
        w_enum8 (provenance v);
        w_u64 (attempts v);
        w_u64 (failures v);
        w_u32 (loss_ppm v);
        w_u32 (rtt_us v);
        encode (observed_at v);
        encode (fresh v);
        encode (external_owner v)].

(** src/domain/evidence.cpp:60-108 decode(DeliveryEvidence) *)
Definition decode_DeliveryEvidence : Decoder DeliveryEvidence :=
  e_id_ ← decode (A := EvidenceId);
  e_source_ ← decode (A := SourceRef);
  e_scope_ ← decode (A := Scope);
  e_gens_ ← decode (A := GenerationVector);
  e_seq_ ← decode (A := EvidenceSequence);
  e_attempt_ ← decode (A := AttemptId);
  e_kind_ ← r_enum16 (E := EvidenceKind.t);
  quality_ ← r_enum8 (E := EvidenceQuality.t);
  provenance_ ← r_enum8 (E := Provenance.t);
  attempts_ ← r_u64;
  failures_ ← r_u64;
  loss_ppm_ ← r_u32;
  rtt_us_ ← r_u32;
  observed_at_ ← decode (A := WallNs);
  fresh_ ← decode (A := FreshnessWindow);
  external_owner_ ← decode (A := EvidenceSourceId);
  let v := MkEvidence e_id_ e_source_ e_scope_ e_gens_ e_seq_ e_attempt_ e_kind_ quality_ provenance_ attempts_ failures_ loss_ppm_ rtt_us_ observed_at_ fresh_ external_owner_ in
  ensure (structurally_valid v) Invalid ;; mret v.

Definition image_DeliveryEvidence (v : DeliveryEvidence) : list byte :=
  concat [image (e_id v);
          image (e_source v);
          image (e_scope v);
          image (e_gens v);
          image (e_seq v);
          image (e_attempt v);
          le_bytes 2 (to_raw (e_kind v));
          le_bytes 1 (to_raw (quality v));
          le_bytes 1 (to_raw (provenance v));
          le_bytes 8 (attempts v);
          le_bytes 8 (failures v);
          le_bytes 4 (loss_ppm v);
          le_bytes 4 (rtt_us v);
          image (observed_at v);
          image (fresh v);
          image (external_owner v)].

Definition valid_DeliveryEvidence (v : DeliveryEvidence) : Prop :=
  valid (e_id v) /\
  valid (e_source v) /\
  valid (e_scope v) /\
  valid (e_gens v) /\
  valid (e_seq v) /\
  valid (e_attempt v) /\
  in_u64 (attempts v) /\
  in_u64 (failures v) /\
  in_u32 (loss_ppm v) /\
  in_u32 (rtt_us v) /\
  valid (observed_at v) /\
  valid (fresh v) /\
  valid (external_owner v) /\
  structurally_valid v = true.

#[export] Instance Codec_DeliveryEvidence : Codec DeliveryEvidence := {
  encode := encode_DeliveryEvidence; decode := decode_DeliveryEvidence; image := image_DeliveryEvidence; valid := valid_DeliveryEvidence;
}.

#[export] Instance CodecLaws_DeliveryEvidence : CodecLaws DeliveryEvidence.
Proof. codec_laws encode_DeliveryEvidence decode_DeliveryEvidence image_DeliveryEvidence valid_DeliveryEvidence. Qed.

#[export] Instance CanonicalCodec_DeliveryEvidence : CanonicalCodec DeliveryEvidence.
Proof. codec_canonical decode_DeliveryEvidence image_DeliveryEvidence valid_DeliveryEvidence. Qed.

(** src/domain/evidence.cpp:110-117 derive_evidence_id *)
Definition derive_evidence_id (e : DeliveryEvidence) : EvidenceId :=
  let copy := MkEvidence (MkId 0) (e_source e) (e_scope e) (e_gens e) (e_seq e) (e_attempt e)
    (e_kind e) (quality e) (provenance e) (attempts e) (failures e) (loss_ppm e) (rtt_us e)
    (observed_at e) (fresh e) (external_owner e) in
  let w := encode_DeliveryEvidence copy (new_Writer 1024) in
  if negb (ok_ w) then MkId 0 else MkId (fnv1a64 (buf_ w)).

(** ** Reason codes *)

Module ReasonCode.
(** include/blackhole/domain/evidence.hpp:129-186 ReasonCode *)
Inductive t :=
| None | NoEvidenceObserved | OnlyStaleEvidence | GenerationMismatch
| SourceIncarnationChanged | FreshnessWindowExpired | ConflictingEvidence
| InvalidEvidenceRejected | ReplayedSequence | RegressedSequence | SequenceRollover
| DuplicateEvidence | WindowViolation | ClockSkewExceeded | CompleteDeliveryFailure
| PartialLossObserved | SevereLossObserved | CongestionExplainsLoss
| PartitionExplainsLoss | StructurallyWithdrawn | QualityBelowPolicy
| CorroborationInsufficient | CorroborationSatisfied | SourcesInsufficient
| IncarnationsInsufficient | AttemptsInsufficient | PolicyRefused | FenceIntentIssued
| FenceIntentRevoked | FenceExpired | FenceAcknowledged | FenceEffectVerified
| FenceEffectUnverified | RestartFencedPriorAuthority | DependencyGenerationChanged
| RestorationEvidenceFresh | RestorationCorroborated | RestorationRefusedNoEvidence
| RestorationRefusedStale | RestorationRefusedConflict | RestorationRefusedInsufficient
| LocalizationResolved | LocalizationAmbiguous | LocalizationInfeasible
| LocalizationSearchLimit | LocalizationInvalid | BudgetExhausted | UnsupportedInput
| InternalInvariantViolation.

Definition raw (e : t) : Z :=
  match e with
  | None => 0 | NoEvidenceObserved => 1 | OnlyStaleEvidence => 2 | GenerationMismatch => 3
  | SourceIncarnationChanged => 4 | FreshnessWindowExpired => 5 | ConflictingEvidence => 6
  | InvalidEvidenceRejected => 7 | ReplayedSequence => 8 | RegressedSequence => 9
  | SequenceRollover => 10 | DuplicateEvidence => 11 | WindowViolation => 12
  | ClockSkewExceeded => 13 | CompleteDeliveryFailure => 20 | PartialLossObserved => 21
  | SevereLossObserved => 22 | CongestionExplainsLoss => 23 | PartitionExplainsLoss => 24
  | StructurallyWithdrawn => 25 | QualityBelowPolicy => 26 | CorroborationInsufficient => 40
  | CorroborationSatisfied => 41 | SourcesInsufficient => 42 | IncarnationsInsufficient => 43
  | AttemptsInsufficient => 44 | PolicyRefused => 45 | FenceIntentIssued => 60
  | FenceIntentRevoked => 61 | FenceExpired => 62 | FenceAcknowledged => 63
  | FenceEffectVerified => 64 | FenceEffectUnverified => 65
  | RestartFencedPriorAuthority => 66 | DependencyGenerationChanged => 67
  | RestorationEvidenceFresh => 80 | RestorationCorroborated => 81
  | RestorationRefusedNoEvidence => 82 | RestorationRefusedStale => 83
  | RestorationRefusedConflict => 84 | RestorationRefusedInsufficient => 85
  | LocalizationResolved => 100 | LocalizationAmbiguous => 101
  | LocalizationInfeasible => 102 | LocalizationSearchLimit => 103
  | LocalizationInvalid => 104 | BudgetExhausted => 120 | UnsupportedInput => 121
  | InternalInvariantViolation => 122
  end.

Definition all : list t :=
  [None; NoEvidenceObserved; OnlyStaleEvidence; GenerationMismatch; SourceIncarnationChanged;
   FreshnessWindowExpired; ConflictingEvidence; InvalidEvidenceRejected; ReplayedSequence;
   RegressedSequence; SequenceRollover; DuplicateEvidence; WindowViolation;
   ClockSkewExceeded; CompleteDeliveryFailure; PartialLossObserved; SevereLossObserved;
   CongestionExplainsLoss; PartitionExplainsLoss; StructurallyWithdrawn; QualityBelowPolicy;
   CorroborationInsufficient; CorroborationSatisfied; SourcesInsufficient;
   IncarnationsInsufficient; AttemptsInsufficient; PolicyRefused; FenceIntentIssued;
   FenceIntentRevoked; FenceExpired; FenceAcknowledged; FenceEffectVerified;
   FenceEffectUnverified; RestartFencedPriorAuthority; DependencyGenerationChanged;
   RestorationEvidenceFresh; RestorationCorroborated; RestorationRefusedNoEvidence;
   RestorationRefusedStale; RestorationRefusedConflict; RestorationRefusedInsufficient;
   LocalizationResolved; LocalizationAmbiguous; LocalizationInfeasible;
   LocalizationSearchLimit; LocalizationInvalid; BudgetExhausted; UnsupportedInput;
   InternalInvariantViolation].

(** include/blackhole/domain/evidence.hpp:188-202 is_valid(ReasonCode) *)
Definition is_valid (raw : Z) : bool := ((0 <=? raw) && (raw <=? 13)) ||
  ((20 <=? raw) && (raw <=? 26)) ||
  ((40 <=? raw) && (raw <=? 45)) ||
  ((60 <=? raw) && (raw <=? 67)) ||
  ((80 <=? raw) && (raw <=? 85)) ||
  ((100 <=? raw) && (raw <=? 104)) ||
  ((120 <=? raw) && (raw <=? 122)).

(** src/domain/evidence.cpp:119-172 to_string(ReasonCode) *)
Definition to_string (e : t) : string :=
  match e with
  | None => "NONE" | NoEvidenceObserved => "NO_EVIDENCE_OBSERVED"
  | OnlyStaleEvidence => "ONLY_STALE_EVIDENCE" | GenerationMismatch => "GENERATION_MISMATCH"
  | SourceIncarnationChanged => "SOURCE_INCARNATION_CHANGED"
  | FreshnessWindowExpired => "FRESHNESS_WINDOW_EXPIRED"
  | ConflictingEvidence => "CONFLICTING_EVIDENCE"
  | InvalidEvidenceRejected => "INVALID_EVIDENCE_REJECTED"
  | ReplayedSequence => "REPLAYED_SEQUENCE" | RegressedSequence => "REGRESSED_SEQUENCE"
  | SequenceRollover => "SEQUENCE_ROLLOVER" | DuplicateEvidence => "DUPLICATE_EVIDENCE"
  | WindowViolation => "WINDOW_VIOLATION" | ClockSkewExceeded => "CLOCK_SKEW_EXCEEDED"
  | CompleteDeliveryFailure => "COMPLETE_DELIVERY_FAILURE"
  | PartialLossObserved => "PARTIAL_LOSS_OBSERVED"
  | SevereLossObserved => "SEVERE_LOSS_OBSERVED"
  | CongestionExplainsLoss => "CONGESTION_EXPLAINS_LOSS"
  | PartitionExplainsLoss => "PARTITION_EXPLAINS_LOSS"
  | StructurallyWithdrawn => "STRUCTURALLY_WITHDRAWN"
  | QualityBelowPolicy => "QUALITY_BELOW_POLICY"
  | CorroborationInsufficient => "CORROBORATION_INSUFFICIENT"
  | CorroborationSatisfied => "CORROBORATION_SATISFIED"
  | SourcesInsufficient => "SOURCES_INSUFFICIENT"
  | IncarnationsInsufficient => "INCARNATIONS_INSUFFICIENT"
  | AttemptsInsufficient => "ATTEMPTS_INSUFFICIENT" | PolicyRefused => "POLICY_REFUSED"
  | FenceIntentIssued => "FENCE_INTENT_ISSUED" | FenceIntentRevoked => "FENCE_INTENT_REVOKED"
  | FenceExpired => "FENCE_EXPIRED" | FenceAcknowledged => "FENCE_ACKNOWLEDGED"
  | FenceEffectVerified => "FENCE_EFFECT_VERIFIED"
  | FenceEffectUnverified => "FENCE_EFFECT_UNVERIFIED"
  | RestartFencedPriorAuthority => "RESTART_FENCED_PRIOR_AUTHORITY"
  | DependencyGenerationChanged => "DEPENDENCY_GENERATION_CHANGED"
  | RestorationEvidenceFresh => "RESTORATION_EVIDENCE_FRESH"
  | RestorationCorroborated => "RESTORATION_CORROBORATED"
  | RestorationRefusedNoEvidence => "RESTORATION_REFUSED_NO_EVIDENCE"
  | RestorationRefusedStale => "RESTORATION_REFUSED_STALE"
  | RestorationRefusedConflict => "RESTORATION_REFUSED_CONFLICT"
  | RestorationRefusedInsufficient => "RESTORATION_REFUSED_INSUFFICIENT"
  | LocalizationResolved => "LOCALIZATION_RESOLVED"
  | LocalizationAmbiguous => "LOCALIZATION_AMBIGUOUS"
  | LocalizationInfeasible => "LOCALIZATION_INFEASIBLE"
  | LocalizationSearchLimit => "LOCALIZATION_SEARCH_LIMIT"
  | LocalizationInvalid => "LOCALIZATION_INVALID" | BudgetExhausted => "BUDGET_EXHAUSTED"
  | UnsupportedInput => "UNSUPPORTED_INPUT"
  | InternalInvariantViolation => "INTERNAL_INVARIANT_VIOLATION"
  end.
End ReasonCode.

#[export] Instance RawEnum_ReasonCode : RawEnum ReasonCode.t := {
  to_raw := ReasonCode.raw; of_raw := pick ReasonCode.raw ReasonCode.all ReasonCode.None;
  is_valid_raw := fun z => (0 <=? z) && ReasonCode.is_valid z;
}.
#[export] Hint Unfold ReasonCode.is_valid : enum.
#[export] Instance RawEnumLaws_ReasonCode : RawEnumLaws ReasonCode.t.
Proof. solve_enum 0 122%nat. Qed.
#[export] Instance ReasonCode_eq_dec : EqDecision ReasonCode.t :=
  eq_dec_by_inj ReasonCode.raw (to_raw_inj (E := ReasonCode.t)).

