(* ===== verification/Policy.v ===== *)
(** * Fence policy and path structure

    Models [include/blackhole/domain/policy.hpp] and [src/domain/policy.cpp]: the policy
    record with every threshold and resource bound, [validate_policy] with its refusal
    texts, the fingerprint, and the path structure handed over by the topology owner. *)
From Stdlib Require Import Strings.String.
From S2P Require Import Prelude OrderedMap Core Checked Codec Hash Ids Domain.
Local Open Scope string_scope.
Local Open Scope Z_scope.

(** include/blackhole/domain/policy.hpp:18-68 FencePolicy *)
Record FencePolicy := MkPolicy {
  pol_version : PolicyVersion;
  pol_generation : PolicyGeneration;
  freshness : DurationNs;
  max_clock_skew : DurationNs;
  min_corroborating_sources : Z;
  min_distinct_incarnations : Z;
  min_attempts_per_source : Z;
  min_total_attempts : Z;
  require_exact_quality : bool;
  require_full_generation_agreement : bool;
  complete_failure_ppm : Z;
  severe_loss_ppm : Z;
  restore_min_sources : Z;
  restore_min_incarnations : Z;
  restore_min_successes : Z;
  restore_consecutive_clean : Z;
  fence_ttl : DurationNs;
  max_evidence_per_scope : Z;
  max_tracked_scopes : Z;
  max_sources_per_scope : Z;
  max_fences : Z;
  max_lineage_records : Z;
  max_reasons_per_decision : Z;
  max_journal_records : Z;
  max_journal_bytes : Z;
  max_localization_elements : Z;
  max_localization_search_nodes : Z;
  max_path_hops : Z;
  max_localization_solutions : Z;
  max_explanation_elements : Z;
  max_sessions : Z;
  max_inflight_per_session : Z;
  max_frame_bytes : Z;
  max_concurrent_connections : Z;
  log_capacity : Z;
}.
#[export] Instance FencePolicy_eq_dec : EqDecision FencePolicy.
Proof. solve_decision. Defined.

(** src/domain/policy.cpp:98 default_policy *)
Definition default_policy : FencePolicy :=
  MkPolicy (MkId 1) (MkGen 1) (seconds 30) (seconds 2) 2 2 16 32 true true 1000000 500000 2 2 16
    2 (seconds 60) 256 4096 64 1024 4096 16 65536 (64 * 1024 * 1024) 256 200000 64 64 32
    64 1 (2 ^ 20) 64 4096.

(** src/domain/policy.cpp:17-89 validate_policy *)
Definition validate_policy_why (p : FencePolicy) : Outcome * string :=
  if id_nil (pol_version p) then
    (Invalid, "policy version must be non-zero")
  else if negb (is_positive (freshness p)) then
    (Invalid, "freshness must be positive")
  else if duration_ns (max_clock_skew p) <? 0 then
    (Invalid, "max_clock_skew must be non-negative")
  else if min_corroborating_sources p <? 2 then
    (Invalid, "min_corroborating_sources must be >= 2")
  else if min_distinct_incarnations p <? 2 then
    (Invalid, "min_distinct_incarnations must be >= 2")
  else if min_corroborating_sources p <? min_distinct_incarnations p then
    (Invalid, "min_distinct_incarnations cannot exceed min_corroborating_sources")
  else if min_attempts_per_source p =? 0 then
    (Invalid, "min_attempts_per_source must be > 0")
  else if min_total_attempts p <? min_attempts_per_source p then
    (Invalid, "min_total_attempts must be >= min_attempts_per_source")
  else if (complete_failure_ppm p =? 0) || (kLossTotalPpm <? complete_failure_ppm p) then
    (Invalid, "complete_failure_ppm out of range")
  else if (severe_loss_ppm p =? 0) || (complete_failure_ppm p <=? severe_loss_ppm p) then
    (Invalid, "severe_loss_ppm must be > 0 and < complete_failure_ppm")
  else if restore_min_sources p <? 1 then
    (Invalid, "restore_min_sources must be >= 1")
  else if restore_min_incarnations p <? 1 then
    (Invalid, "restore_min_incarnations must be >= 1")
  else if restore_min_successes p =? 0 then
    (Invalid, "restore_min_successes must be > 0")
  else if restore_consecutive_clean p =? 0 then
    (Invalid, "restore_consecutive_clean must be > 0")
  else if negb (is_positive (fence_ttl p)) then
    (Invalid, "fence_ttl must be positive")
  else if max_evidence_per_scope p =? 0 then
    (Invalid, "max_evidence_per_scope must be > 0")
  else if max_tracked_scopes p =? 0 then
    (Invalid, "max_tracked_scopes must be > 0")
  else if max_sources_per_scope p =? 0 then
    (Invalid, "max_sources_per_scope must be > 0")
  else if max_fences p =? 0 then
    (Invalid, "max_fences must be > 0")
  else if max_lineage_records p =? 0 then
    (Invalid, "max_lineage_records must be > 0")
  else if max_reasons_per_decision p =? 0 then
    (Invalid, "max_reasons_per_decision must be > 0")
  else if max_journal_records p =? 0 then
    (Invalid, "max_journal_records must be > 0")
  else if max_journal_bytes p =? 0 then
    (Invalid, "max_journal_bytes must be > 0")
  else if max_localization_elements p =? 0 then
    (Invalid, "max_localization_elements must be > 0")
  else if max_localization_search_nodes p =? 0 then
    (Invalid, "max_localization_search_nodes must be > 0")
  else if max_path_hops p =? 0 then
    (Invalid, "max_path_hops must be > 0")
  else if max_localization_elements p <? max_path_hops p then
    (Invalid, "max_path_hops cannot exceed max_localization_elements")
  else if max_localization_solutions p =? 0 then
    (Invalid, "max_localization_solutions must be > 0")
  else if max_explanation_elements p =? 0 then
    (Invalid, "max_explanation_elements must be > 0")
  else if max_sessions p =? 0 then
    (Invalid, "max_sessions must be > 0")
  else if max_frame_bytes p <? 64 then
    (Invalid, "max_frame_bytes must be >= 64")
  else if max_concurrent_connections p =? 0 then
    (Invalid, "max_concurrent_connections must be > 0")
  else if log_capacity p =? 0 then
    (Invalid, "log_capacity must be > 0")
  else
    match checked_mul int64_t 2 (duration_ns (max_clock_skew p)) with
    | None => (Invalid, "freshness must exceed twice max_clock_skew")
    | Some need =>
        if duration_ns (freshness p) <=? need then
          (Invalid, "freshness must exceed twice max_clock_skew")
        else (Ok, "")
    end.

Definition validate_policy (p : FencePolicy) : Outcome := (validate_policy_why p).1.

(** src/domain/policy.cpp:100-136 encode(FencePolicy) *)
Definition encode_FencePolicy (v : FencePolicy) : Writer -> Writer :=
  seqw [encode (pol_version v);
        encode (pol_generation v);
        encode (freshness v);
        encode (max_clock_skew v);
        w_u32 (min_corroborating_sources v);
        w_u32 (min_distinct_incarnations v);
        w_u32 (min_attempts_per_source v);
        w_u64 (min_total_attempts v);
        w_boolean (require_exact_quality v);
        w_boolean (require_full_generation_agreement v);
        w_u32 (complete_failure_ppm v);
        w_u32 (severe_loss_ppm v);
        w_u32 (restore_min_sources v);
        w_u32 (restore_min_incarnations v);
        w_u64 (restore_min_successes v);
        w_u32 (restore_consecutive_clean v);
        encode (fence_ttl v);
        w_u32 (max_evidence_per_scope v);
        w_u32 (max_tracked_scopes v);
        w_u32 (max_sources_per_scope v);
        w_u32 (max_fences v);
        w_u32 (max_lineage_records v);
        w_u32 (max_reasons_per_decision v);
        w_u32 (max_journal_records v);
        w_u64 (max_journal_bytes v);
        w_u32 (max_localization_elements v);
        w_u32 (max_localization_search_nodes v);
        w_u32 (max_path_hops v);
        w_u32 (max_localization_solutions v);
        w_u32 (max_explanation_elements v);
        w_u32 (max_sessions v);
        w_u32 (max_inflight_per_session v);
        w_u32 (max_frame_bytes v);
        w_u32 (max_concurrent_connections v);
        w_u32 (log_capacity v)].

(** src/domain/policy.cpp:138-216 decode(FencePolicy) *)
Definition decode_FencePolicy : Decoder FencePolicy :=
  pol_version_ ← decode (A := PolicyVersion);
  pol_generation_ ← decode (A := PolicyGeneration);
  freshness_ ← decode (A := DurationNs);
  max_clock_skew_ ← decode (A := DurationNs);
  min_corroborating_sources_ ← r_u32;
  min_distinct_incarnations_ ← r_u32;
  min_attempts_per_source_ ← r_u32;
  min_total_attempts_ ← r_u64;
  require_exact_quality_ ← r_boolean;
  require_full_generation_agreement_ ← r_boolean;
  complete_failure_ppm_ ← r_u32;
  severe_loss_ppm_ ← r_u32;
  restore_min_sources_ ← r_u32;
  restore_min_incarnations_ ← r_u32;
  restore_min_successes_ ← r_u64;
  restore_consecutive_clean_ ← r_u32;
  fence_ttl_ ← decode (A := DurationNs);
  max_evidence_per_scope_ ← r_u32;
  max_tracked_scopes_ ← r_u32;
  max_sources_per_scope_ ← r_u32;
  max_fences_ ← r_u32;
  max_lineage_records_ ← r_u32;
  max_reasons_per_decision_ ← r_u32;
  max_journal_records_ ← r_u32;
  max_journal_bytes_ ← r_u64;
  max_localization_elements_ ← r_u32;
  max_localization_search_nodes_ ← r_u32;
  max_path_hops_ ← r_u32;
  max_localization_solutions_ ← r_u32;
  max_explanation_elements_ ← r_u32;
  max_sessions_ ← r_u32;
  max_inflight_per_session_ ← r_u32;
  max_frame_bytes_ ← r_u32;
  max_concurrent_connections_ ← r_u32;
  log_capacity_ ← r_u32;
  let v := MkPolicy pol_version_ pol_generation_ freshness_ max_clock_skew_ min_corroborating_sources_ min_distinct_incarnations_ min_attempts_per_source_ min_total_attempts_ require_exact_quality_ require_full_generation_agreement_ complete_failure_ppm_ severe_loss_ppm_ restore_min_sources_ restore_min_incarnations_ restore_min_successes_ restore_consecutive_clean_ fence_ttl_ max_evidence_per_scope_ max_tracked_scopes_ max_sources_per_scope_ max_fences_ max_lineage_records_ max_reasons_per_decision_ max_journal_records_ max_journal_bytes_ max_localization_elements_ max_localization_search_nodes_ max_path_hops_ max_localization_solutions_ max_explanation_elements_ max_sessions_ max_inflight_per_session_ max_frame_bytes_ max_concurrent_connections_ log_capacity_ in
  ensure (is_affirmative (validate_policy v)) Invalid ;; mret v.

Definition image_FencePolicy (v : FencePolicy) : list byte :=
  concat [image (pol_version v);
          image (pol_generation v);
          image (freshness v);
          image (max_clock_skew v);
          le_bytes 4 (min_corroborating_sources v);
          le_bytes 4 (min_distinct_incarnations v);
          le_bytes 4 (min_attempts_per_source v);
          le_bytes 8 (min_total_attempts v);
          le_bytes 1 (Z.b2z (require_exact_quality v));
          le_bytes 1 (Z.b2z (require_full_generation_agreement v));
          le_bytes 4 (complete_failure_ppm v);
          le_bytes 4 (severe_loss_ppm v);
          le_bytes 4 (restore_min_sources v);
          le_bytes 4 (restore_min_incarnations v);
          le_bytes 8 (restore_min_successes v);
          le_bytes 4 (restore_consecutive_clean v);
          image (fence_ttl v);
          le_bytes 4 (max_evidence_per_scope v);
          le_bytes 4 (max_tracked_scopes v);
          le_bytes 4 (max_sources_per_scope v);
          le_bytes 4 (max_fences v);
          le_bytes 4 (max_lineage_records v);
          le_bytes 4 (max_reasons_per_decision v);
          le_bytes 4 (max_journal_records v);
          le_bytes 8 (max_journal_bytes v);
          le_bytes 4 (max_localization_elements v);
          le_bytes 4 (max_localization_search_nodes v);
          le_bytes 4 (max_path_hops v);
          le_bytes 4 (max_localization_solutions v);
          le_bytes 4 (max_explanation_elements v);
          le_bytes 4 (max_sessions v);
          le_bytes 4 (max_inflight_per_session v);
          le_bytes 4 (max_frame_bytes v);
          le_bytes 4 (max_concurrent_connections v);
          le_bytes 4 (log_capacity v)].

Definition valid_FencePolicy (v : FencePolicy) : Prop :=
  valid (pol_version v) /\
  valid (pol_generation v) /\
  valid (freshness v) /\
  valid (max_clock_skew v) /\
  in_u32 (min_corroborating_sources v) /\
  in_u32 (min_distinct_incarnations v) /\
  in_u32 (min_attempts_per_source v) /\
  in_u64 (min_total_attempts v) /\
  in_u32 (complete_failure_ppm v) /\
  in_u32 (severe_loss_ppm v) /\
  in_u32 (restore_min_sources v) /\
  in_u32 (restore_min_incarnations v) /\
  in_u64 (restore_min_successes v) /\
  in_u32 (restore_consecutive_clean v) /\
  valid (fence_ttl v) /\
  in_u32 (max_evidence_per_scope v) /\
  in_u32 (max_tracked_scopes v) /\
  in_u32 (max_sources_per_scope v) /\
  in_u32 (max_fences v) /\
  in_u32 (max_lineage_records v) /\
  in_u32 (max_reasons_per_decision v) /\
  in_u32 (max_journal_records v) /\
  in_u64 (max_journal_bytes v) /\
  in_u32 (max_localization_elements v) /\
  in_u32 (max_localization_search_nodes v) /\
  in_u32 (max_path_hops v) /\
  in_u32 (max_localization_solutions v) /\
  in_u32 (max_explanation_elements v) /\
  in_u32 (max_sessions v) /\
  in_u32 (max_inflight_per_session v) /\
  in_u32 (max_frame_bytes v) /\
  in_u32 (max_concurrent_connections v) /\
  in_u32 (log_capacity v) /\
  is_affirmative (validate_policy v) = true.

#[export] Instance Codec_FencePolicy : Codec FencePolicy := {
  encode := encode_FencePolicy; decode := decode_FencePolicy; image := image_FencePolicy; valid := valid_FencePolicy;
}.

#[export] Instance CodecLaws_FencePolicy : CodecLaws FencePolicy.
Proof. codec_laws encode_FencePolicy decode_FencePolicy image_FencePolicy valid_FencePolicy. Qed.

#[export] Instance CanonicalCodec_FencePolicy : CanonicalCodec FencePolicy.
Proof. codec_canonical decode_FencePolicy image_FencePolicy valid_FencePolicy. Qed.

(** src/domain/policy.cpp:91-96 policy_fingerprint *)
Definition policy_fingerprint (p : FencePolicy) : Z :=
  let w := encode_FencePolicy p (new_Writer 4096) in
  if negb (ok_ w) then 0 else fnv1a64 (buf_ w).

(** ** What an accepted policy guarantees *)

(** The numeric invariants the rest of the program relies on. *)
Record policy_ok (p : FencePolicy) : Prop := {
  ok_version : id_value (pol_version p) <> 0;
  ok_skew : 0 <= duration_ns (max_clock_skew p);
  ok_freshness : 2 * duration_ns (max_clock_skew p) < duration_ns (freshness p);
  ok_freshness_pos : 0 < duration_ns (freshness p);
  ok_incarnations : 2 <= min_distinct_incarnations p <= min_corroborating_sources p;
  ok_attempts : min_attempts_per_source p <> 0 /\ min_attempts_per_source p <= min_total_attempts p;
  ok_loss : severe_loss_ppm p <> 0 /\ severe_loss_ppm p < complete_failure_ppm p <= kLossTotalPpm;
  ok_complete : complete_failure_ppm p <> 0;
  ok_restore : 1 <= restore_min_sources p /\ 1 <= restore_min_incarnations p /\
               restore_min_successes p <> 0 /\ restore_consecutive_clean p <> 0;
  ok_ttl : 0 < duration_ns (fence_ttl p);
  ok_hops : max_path_hops p <> 0 /\ max_path_hops p <= max_localization_elements p;
  ok_frame : 64 <= max_frame_bytes p;
  ok_bounds : Forall (fun b => b <> 0)
    [max_evidence_per_scope p; max_tracked_scopes p; max_sources_per_scope p; max_fences p;
     max_lineage_records p; max_reasons_per_decision p; max_journal_records p;
     max_journal_bytes p; max_localization_elements p; max_localization_search_nodes p;
     max_localization_solutions p; max_explanation_elements p; max_sessions p;
     max_concurrent_connections p; log_capacity p];
}.

Lemma checked_mul_two v :
  in_i64 v -> 0 <= v ->
  checked_mul int64_t 2 v = if 2 * v <? 2 ^ 63 then Some (2 * v) else None.
Proof.
  intros Hv Hp. unfold in_i64 in Hv.
  rewrite checked_mul_exact by (done || unfold in_type; cbn -[Z.pow]; split; lia).
  destruct (Z.ltb_spec (2 * v) (2 ^ 63)).
  - apply exact_in. unfold in_type. cbn -[Z.pow]. lia.
  - apply exact_out. unfold in_type. cbn -[Z.pow]. lia.
Qed.

(** Peel one refusal of the chain. *)
Lemma refuse_step (c : bool) (why : string) (k : Outcome * string) :
  (if c then (Invalid, why) else k).1 = Ok <-> c = false /\ k.1 = Ok.
Proof. destruct c; simpl; split; [done | by intros [] | tauto | tauto]. Qed.

Lemma skew_step p :
  in_i64 (duration_ns (max_clock_skew p)) -> in_i64 (duration_ns (freshness p)) ->
  0 <= duration_ns (max_clock_skew p) ->
  (match checked_mul int64_t 2 (duration_ns (max_clock_skew p)) with
   | Some need => if duration_ns (freshness p) <=? need
                  then (Invalid, "freshness must exceed twice max_clock_skew") else (Ok, "")
   | None => (Invalid, "freshness must exceed twice max_clock_skew")
   end).1 = Ok <-> 2 * duration_ns (max_clock_skew p) < duration_ns (freshness p).
Proof.
  intros Hs Hf Hp. rewrite checked_mul_two by done. unfold in_i64 in *.
  destruct (Z.ltb_spec (2 * duration_ns (max_clock_skew p)) (2 ^ 63)).
  - destruct (Z.leb_spec (duration_ns (freshness p)) (2 * duration_ns (max_clock_skew p)));
      simpl; split; intros; try done; lia.
  - split; [done | lia].
Qed.

(** Linear arithmetic that ignores the disequalities of the context. *)
Ltac arith_only :=
  first [ assumption
        | repeat match goal with H : _ <> _ |- _ => clear H end; lia ].
Ltac split_conj :=
  repeat match goal with
  | |- _ /\ _ => split
  | |- Forall _ [] => apply List.Forall_nil
  | |- Forall _ (_ :: _) => apply List.Forall_cons; cbn beta
  | |- _ <= _ <= _ => split
  | |- _ < _ <= _ => split
  end.

Lemma validate_policy_spec p :
  in_i64 (duration_ns (max_clock_skew p)) -> in_i64 (duration_ns (freshness p)) ->
  validate_policy p = Ok <-> policy_ok p.
Proof.
  intros Hs Hf. unfold validate_policy, validate_policy_why. rewrite !refuse_step.
  rewrite !negb_false_iff, !orb_false_iff, !Z.eqb_neq, !Z.ltb_ge, !Z.leb_gt.
  unfold id_nil, is_positive. rewrite Z.eqb_neq, !Z.ltb_lt.
  split.
  - intros H. destruct_and? H. rewrite skew_step in * by done. destruct_and?.
    constructor; split_conj; arith_only.
  - intros []. repeat match goal with H : Forall _ (_ :: _) |- _ => inversion_clear H end.
    destruct_and?. rewrite skew_step by done. split_conj; arith_only.
Qed.

(** ** Path structure *)

(** include/blackhole/domain/policy.hpp:85-96 PathStructure *)
Record PathStructure := MkPath { ps_path : PathId; nodes : list NodeId; links : list LinkId }.
#[export] Instance PathStructure_eq_dec : EqDecision PathStructure.
Proof. solve_decision. Defined.

(** include/blackhole/domain/policy.hpp:90-92 PathStructure::hop_count *)
Definition hop_count (p : PathStructure) : Z := wrap 32 (zlen (links p)).

(** include/blackhole/domain/policy.hpp:93-95 PathStructure::is_valid *)
Definition path_valid (p : PathStructure) : bool :=
  negb (id_nil (ps_path p)) && negb (zlen (nodes p) =? 0) && (zlen (nodes p) =? zlen (links p) + 1).

(** src/domain/policy.cpp:218-228 encode(PathStructure) *)
Definition encode_PathStructure (p : PathStructure) (max_hops : Z) (w : Writer) : Writer :=
  let w := encode (ps_path p) w in
  let n := zlen (links p) in
  if max_hops <? n then w_u32 0xFFFFFFFF w
  else seqw (map encode (links p)) (seqw (map encode (nodes p)) (w_u32 (wrap 32 n) w)).

(** src/domain/policy.cpp:230-259 decode(PathStructure) *)
Definition decode_PathStructure (max_hops : Z) : Decoder PathStructure :=
  path ← decode (A := PathId);
  hops ← r_u32;
  ensure (negb (max_hops <? hops)) Oversized ;;
  let node_count := hops + 1 in
  remaining_at_least ((node_count + hops) * 8) Malformed ;;
  ns ← repeat_dec (Z.to_nat node_count) (decode (A := NodeId));
  ls ← repeat_dec (Z.to_nat hops) (decode (A := LinkId));
  let out := MkPath path ns ls in
  ensure (path_valid out) Invalid ;; mret out.

Definition image_PathStructure (p : PathStructure) : list byte :=
  concat [image (ps_path p); le_bytes 4 (zlen (links p)); concat (map image (nodes p));
          concat (map image (links p))].

Definition valid_PathStructure (max_hops : Z) (p : PathStructure) : Prop :=
  path_valid p = true /\ zlen (links p) <= max_hops /\
  valid (ps_path p) /\ Forall valid (nodes p) /\ Forall valid (links p).

Lemma path_valid_lengths p : path_valid p = true -> zlen (nodes p) = zlen (links p) + 1.
Proof. unfold path_valid. intros H. bool_prop. done. Qed.

Section PathStructureCodec.
Context (max_hops : Z) (Hmax : in_u32 max_hops).

Lemma emits_PathStructure p :
  valid_PathStructure max_hops p -> Emits (encode_PathStructure p max_hops) (image_PathStructure p).
Proof.
  intros (Hp & Hl & Hv & Hn & Hk). unfold encode_PathStructure, image_PathStructure, in_u in *.
  pose proof (zlen_nonneg (links p)).
  destruct (Z.ltb_spec max_hops (zlen (links p))); [lia |].
  rewrite wrap_small by (unfold in_u; lia).
  apply (emits_seqw [encode (ps_path p); w_u32 (zlen (links p)); seqw (map encode (nodes p));
                     seqw (map encode (links p))]).
  repeat apply Forall2_cons_2; try apply Forall2_nil_2.
  - by apply encode_emits.
  - apply emits_u32.
  - apply emits_list. eapply Forall_impl; [exact Hn |]. intros x Hx. by apply encode_emits.
  - apply emits_list. eapply Forall_impl; [exact Hk |]. intros x Hx. by apply encode_emits.
Qed.

Lemma zlen_images {T} (l : list (StrongId T)) : zlen (concat (map image l)) = 8 * zlen l.
Proof.
  induction l as [| x l IH]; [done |]. cbn [map concat]. rewrite zlen_app, zlen_cons, IH.
  change (image x) with (le_bytes 8 (id_value x)). rewrite zlen_le_bytes. lia.
Qed.

Lemma reads_ids {T} (l : list (StrongId T)) n :
  Forall valid l -> n = length l -> Reads (repeat_dec n decode) (concat (map image l)) l.
Proof.
  intros Hl ->. apply reads_repeat. eapply Forall_impl; [exact Hl |].
  intros x Hx. by apply decode_reads.
Qed.

Lemma reads_PathStructure p :
  valid_PathStructure max_hops p -> Reads (decode_PathStructure max_hops) (image_PathStructure p) p.
Proof.
  intros (Hp & Hl & Hv & Hn & Hk). pose proof (path_valid_lengths p Hp) as Hlen.
  pose proof (zlen_nonneg (links p)). unfold in_u in Hmax.
  unfold decode_PathStructure, image_PathStructure. cbn [concat].
  eapply reads_bind; [by apply decode_reads |].
  eapply reads_bind; [apply reads_u32; unfold in_u; lia |].
  apply reads_ensure; [apply negb_true_iff, Z.ltb_ge; lia |].
  cbv zeta. apply reads_remaining.
  { rewrite !zlen_app, !zlen_images, zlen_nil. lia. }
  eapply reads_bind; [apply reads_ids; [done | unfold zlen in *; lia] |].
  eapply reads_bind; [apply reads_ids; [done | unfold zlen in *; lia] |].
  apply reads_ensure; destruct p; [done | apply reads_ret].
Qed.

Lemma accepts_PathStructure :
  Accepts (decode_PathStructure max_hops)
    (fun p bs => valid_PathStructure max_hops p /\ bs = image_PathStructure p).
Proof.
  unfold decode_PathStructure.
  eapply accepts_bind; [apply decode_accepts |]. intros path b1 [Hpath ->].
  eapply accepts_bind; [apply accepts_u32 |]. intros hops b2 [Hh ->].
  apply accepts_ensure. intros Hm. bool_prop. cbv zeta.
  apply accepts_remaining.
  eapply accepts_bind; [apply accepts_repeat, decode_accepts |]. intros ns b3 (Ln & Hn & ->).
  eapply accepts_bind; [apply accepts_repeat, decode_accepts |]. intros ls b4 (Ll & Hl & ->).
  apply accepts_ensure. intros Hv. apply accepts_ret. cbn beta.
  assert (zlen ls = hops) as Hls by (unfold zlen, in_u in *; lia).
  unfold valid_PathStructure, image_PathStructure. cbn [ps_path nodes links concat].
  rewrite Hls. done.
Qed.

Lemma total_PathStructure : Total (decode_PathStructure max_hops).
Proof.
  unfold decode_PathStructure.
  apply total_bind; [apply decode_total | intros].
  apply total_bind; [apply total_u32 | intros].
  apply total_bind; [by apply total_ensure | intros]. cbv zeta.
  apply total_bind; [by apply total_remaining | intros].
  apply total_bind; [apply total_repeat, decode_total | intros].
  apply total_bind; [apply total_repeat, decode_total | intros].
  apply total_bind; [by apply total_ensure | intros]. apply total_ret.
Qed.
End PathStructureCodec.

Lemma sticky_PathStructure n : Sticky (decode_PathStructure n).
Proof. apply sticky_bind, decode_sticky. Qed.
