(* ===== verification/Fixtures.v ===== *)
(** * Concrete inputs

    Small concrete policies, scopes and observations at which the theorems of the
    development are instantiated. *)
From S2P Require Import Prelude Core Codec Ids Domain Policy.
Local Open Scope Z_scope.

Definition fx_scope : Scope := MkScope ScopeKind.Path (MkId 7) (MkId 0) (MkId 0) 0 0.
Definition fx_segment (b e : Z) : Scope := MkScope ScopeKind.Segment (MkId 7) (MkId 0) (MkId 0) b e.
Definition fx_gens : GenerationVector := MkGens (MkGen 1) (MkGen 1) (MkGen 1) (MkGen 1).
Definition fx_now : WallNs := MkWall 1000000.
Definition fx_window : FreshnessWindow := MkWindow (MkWall 1) (MkWall 2000000).

(** An observation of [scope] by incarnation [inc] of source [src]. *)
Definition fx_evidence (scope : Scope) (src inc seq : Z) (kind : EvidenceKind.t) (atts fails loss : Z)
  : DeliveryEvidence :=
  MkEvidence (MkId (seq + 100)) (MkSource (MkId src) (MkId inc) (MkId inc) (MkGen 1)) scope fx_gens
    (MkSeq seq) (MkId 0) kind EvidenceQuality.Exact Provenance.Synthetic atts fails loss 10
    (MkWall 500000) fx_window (MkId 0).

Definition fx_failure (src inc : Z) : DeliveryEvidence :=
  fx_evidence fx_scope src inc 1 EvidenceKind.DeliveryFailure 16 16 1000000.
Definition fx_success (src inc : Z) : DeliveryEvidence :=
  fx_evidence fx_scope src inc 1 EvidenceKind.DeliverySuccess 16 0 0.

(** The default policy with another complete-failure threshold or another per-source minimum. *)
Definition with_complete_ppm (n : Z) (p : FencePolicy) : FencePolicy :=
  MkPolicy (pol_version p) (pol_generation p) (freshness p) (max_clock_skew p)
    (min_corroborating_sources p) (min_distinct_incarnations p) (min_attempts_per_source p)
    (min_total_attempts p) (require_exact_quality p) (require_full_generation_agreement p) n
    (severe_loss_ppm p) (restore_min_sources p) (restore_min_incarnations p)
    (restore_min_successes p) (restore_consecutive_clean p) (fence_ttl p)
    (max_evidence_per_scope p) (max_tracked_scopes p) (max_sources_per_scope p) (max_fences p)
    (max_lineage_records p) (max_reasons_per_decision p) (max_journal_records p)
    (max_journal_bytes p) (max_localization_elements p) (max_localization_search_nodes p)
    (max_path_hops p) (max_localization_solutions p) (max_explanation_elements p) (max_sessions p)
    (max_inflight_per_session p) (max_frame_bytes p) (max_concurrent_connections p) (log_capacity p).

Definition with_attempts_per_source (n : Z) (p : FencePolicy) : FencePolicy :=
  MkPolicy (pol_version p) (pol_generation p) (freshness p) (max_clock_skew p)
    (min_corroborating_sources p) (min_distinct_incarnations p) n
    (min_total_attempts p) (require_exact_quality p) (require_full_generation_agreement p)
    (complete_failure_ppm p)
    (severe_loss_ppm p) (restore_min_sources p) (restore_min_incarnations p)
    (restore_min_successes p) (restore_consecutive_clean p) (fence_ttl p)
    (max_evidence_per_scope p) (max_tracked_scopes p) (max_sources_per_scope p) (max_fences p)
    (max_lineage_records p) (max_reasons_per_decision p) (max_journal_records p)
    (max_journal_bytes p) (max_localization_elements p) (max_localization_search_nodes p)
    (max_path_hops p) (max_localization_solutions p) (max_explanation_elements p) (max_sessions p)
    (max_inflight_per_session p) (max_frame_bytes p) (max_concurrent_connections p) (log_capacity p).
