(* ===== verification/Foundations.v ===== *)
(** * Guarantees of the foundations

    Theorems about the codec, the checksums and identifiers, the policy validator, the
    bounded containers and path names, stated on the definitions of [Codec], [Hash],
    [Policy], [Bounded] and [Domain]. *)
From Stdlib Require Import Strings.String.
From S2P Require Import Prelude OrderedMap Core Checked Codec Hash Bounded Ids Domain Policy Fixtures.
Local Open Scope list_scope.
Local Open Scope Z_scope.

(** A corruption confined to four consecutive bytes of a frame or journal record always
    changes its CRC-32C. *)
Theorem crc32c_detects_bursts pre burst burst' post :
  (length burst <= 4)%nat -> length burst = length burst' -> burst <> burst' ->
  crc32c (pre ++ burst ++ post) <> crc32c (pre ++ burst' ++ post).
Proof. intros Hl He Hne E. by apply Hne, (crc32c_burst pre burst burst' post). Qed.

Example crc32c_detects_bursts_witness :
  crc32c ([x01; x02] ++ [x03; x04] ++ [x05]) <> crc32c ([x01; x02] ++ [x04; x04] ++ [x05]).
Proof. apply crc32c_detects_bursts; [simpl; lia | reflexivity | discriminate]. Defined.

(** The nonces of a seeded source do not repeat before 2^64 of them have been drawn. *)
Theorem seeded_nonces_distinct n seed : Z.of_nat n < 2 ^ 64 -> NoDup (nonces n seed).
Proof. apply nonces_NoDup. Qed.

Example seeded_nonces_distinct_witness : NoDup (nonces 5 42).
Proof. apply seeded_nonces_distinct. vm_compute. reflexivity. Defined.

(** The encoding of evidence is canonical: a byte string decodes, completely consumed,
    to an observation exactly when it is the image of that observation and the observation
    is valid; so truncated, extended and altered encodings are refused or decode to
    something else. *)
Theorem evidence_codec_canonical bs (e : DeliveryEvidence) :
  decode_all decode bs = Done e <-> valid e /\ bs = image e.
Proof. apply decode_all_canonical. Qed.

(** The encoding of policies is canonical and no encoding is a proper prefix of
    another. *)
Theorem policy_codec_canonical (a b : FencePolicy) bs tail :
  (decode_all decode bs = Done a <-> valid a /\ bs = image a) /\
  (valid a -> valid b -> image a ++ tail = image b -> tail = [] /\ a = b).
Proof. split; [apply decode_all_canonical | apply image_prefix_free]. Qed.

(** A policy is accepted exactly when it satisfies the invariants the runtime relies on:
    a positive freshness window larger than twice the clock skew, at least two
    incarnations, ordered loss thresholds, and no zero resource bound. *)
Theorem validate_policy_iff p :
  in_i64 (duration_ns (max_clock_skew p)) -> in_i64 (duration_ns (freshness p)) ->
  validate_policy p = Ok <-> policy_ok p.
Proof. apply validate_policy_spec. Qed.

Example validate_policy_iff_witness : policy_ok default_policy.
Proof.
  apply (validate_policy_iff default_policy); [split; vm_compute; [discriminate | reflexivity] ..|].
  vm_compute. reflexivity.
Defined.

(** A bounded history holds exactly the newest entries ever pushed, in order, up to its
    capacity, and counts what it dropped. *)
Theorem bounded_history_newest {A} capacity (vs : list A) :
  0 < capacity < 2 ^ 64 ->
  let h := BoundedHistory.run capacity vs in
  BoundedHistory.items_ h = drop (Z.to_nat (zlen vs - capacity)) vs /\
  zlen (BoundedHistory.items_ h) <= capacity /\ BoundedHistory.accounting_closed h = true.
Proof.
  intros Hc. cbv zeta. rewrite BoundedHistory.run_items by lia. split; [done |].
  rewrite <- (BoundedHistory.run_items capacity vs) by lia.
  assert (BoundedHistory.wf (BoundedHistory.run capacity vs)) as (_ & H2 & H3).
  { clear -Hc. induction vs as [| v vs IH] using rev_ind; [apply BoundedHistory.make_wf; lia |].
    rewrite BoundedHistory.run_app. by apply BoundedHistory.push_wf. }
  by rewrite BoundedHistory.run_capacity in H2.
Qed.

Example bounded_history_newest_witness : BoundedHistory.items_ (BoundedHistory.run 2 [1; 2; 3]) = [2; 3].
Proof. apply (bounded_history_newest 2 [1; 2; 3]). lia. Defined.
