(* ===== verification/Ledger.v ===== *)
(** * The live evidence ledger

    Models [include/blackhole/evidence/ledger.hpp] and [src/evidence/ledger.cpp]: bounded
    retention per scope, a sequencing cursor per source instance, and the admission of one
    observation on every branch. Times are [int64_t] nanoseconds; the sum
    [now + max_clock_skew] is assumed not to overflow, as in C++. *)
From Stdlib Require Import Strings.String Sorting.Permutation Sorting.Sorted.
From S2P Require Import Prelude OrderedMap Sort Core Codec Ids Domain Policy.
Local Open Scope string_scope.
Local Open Scope list_scope.
Local Open Scope Z_scope.

Module EvidenceAdmission.
(** include/blackhole/evidence/ledger.hpp:17-27 EvidenceAdmission *)
Inductive t :=
| Accepted | DuplicateAttempt | Replayed | Regressed | RolloverAccepted
| StructurallyInvalid | OutOfFreshnessWindow | ClockSkewExceeded | CapacityExhausted.

Definition raw (e : t) : Z :=
  match e with
  | Accepted => 0 | DuplicateAttempt => 1 | Replayed => 2 | Regressed => 3
  | RolloverAccepted => 4 | StructurallyInvalid => 5 | OutOfFreshnessWindow => 6
  | ClockSkewExceeded => 7 | CapacityExhausted => 8
  end.

Definition all : list t :=
  [Accepted; DuplicateAttempt; Replayed; Regressed; RolloverAccepted; StructurallyInvalid;
   OutOfFreshnessWindow; ClockSkewExceeded; CapacityExhausted].

(** include/blackhole/evidence/ledger.hpp:29-29 is_valid(EvidenceAdmission) *)
Definition is_valid (raw : Z) : bool := raw <=? 8.

(** include/blackhole/evidence/ledger.hpp:31-44 to_string(EvidenceAdmission) *)
Definition to_string (e : t) : string :=
  match e with
  | Accepted => "Accepted" | DuplicateAttempt => "DuplicateAttempt" | Replayed => "Replayed"
  | Regressed => "Regressed" | RolloverAccepted => "RolloverAccepted"
  | StructurallyInvalid => "StructurallyInvalid"
  | OutOfFreshnessWindow => "OutOfFreshnessWindow" | ClockSkewExceeded => "ClockSkewExceeded"
  | CapacityExhausted => "CapacityExhausted"
  end.
End EvidenceAdmission.

#[export] Instance RawEnum_EvidenceAdmission : RawEnum EvidenceAdmission.t := {
  to_raw := EvidenceAdmission.raw; of_raw := pick EvidenceAdmission.raw EvidenceAdmission.all EvidenceAdmission.Accepted;
  is_valid_raw := fun z => (0 <=? z) && EvidenceAdmission.is_valid z;
}.
#[export] Hint Unfold EvidenceAdmission.is_valid : enum.
#[export] Instance RawEnumLaws_EvidenceAdmission : RawEnumLaws EvidenceAdmission.t.
Proof. solve_enum 0 8%nat. Qed.
#[export] Instance EvidenceAdmission_eq_dec : EqDecision EvidenceAdmission.t :=
  eq_dec_by_inj EvidenceAdmission.raw (to_raw_inj (E := EvidenceAdmission.t)).

Definition kSequenceHalfSpace : Z := 2 ^ 63.
Definition kMaxRolloversPerSource : Z := 4.

(** include/blackhole/evidence/ledger.hpp:54-69 SourceCursor *)
Record SourceCursor := MkCursor {
  c_source : SourceRef;
  last_seq : EvidenceSequence;
  last_attempt : AttemptId;
  rollovers : Z;
  last_observed : WallNs;
  c_observed : Z;
  c_accepted : Z;
  c_rejected : Z;
  c_duplicates : Z;
  c_regressed : Z;
}.

(** include/blackhole/evidence/ledger.hpp:66-68 SourceCursor::accounting_closed *)
Definition cursor_accounting_closed (c : SourceCursor) : bool :=
  c_observed c =? u64_add (c_accepted c) (c_rejected c).

(** [SourceCursor{}] with its source set. *)
Definition new_cursor (s : SourceRef) : SourceCursor :=
  MkCursor s (MkSeq 0) (MkId 0) 0 (MkWall 0) 0 0 0 0 0.

(** include/blackhole/evidence/ledger.hpp:104-108 EvidenceLedger::ScopeState *)
Record ScopeState := MkScopeState {
  items : list DeliveryEvidence;
  cursors : list (SourceRef * SourceCursor);
  evictions : Z;
}.

(** include/blackhole/evidence/ledger.hpp:112-118 EvidenceLedger *)
Record EvidenceLedger := MkLedger {
  policy_ : FencePolicy;
  scopes_ : list (Scope * ScopeState);
  retained_ : Z;
  seen_ : Z;
  dropped_ : Z;
  admitted_ : Z;
  rejected_ : Z;
}.

(** src/evidence/ledger.cpp:7 EvidenceLedger::EvidenceLedger *)
Definition new_EvidenceLedger (policy : FencePolicy) : EvidenceLedger :=
  MkLedger policy [] 0 0 0 0 0.

(** src/evidence/ledger.cpp:9-16 EvidenceLedger::reset *)
Definition ledger_reset (l : EvidenceLedger) : EvidenceLedger := MkLedger (policy_ l) [] 0 0 0 0 0.

(** include/blackhole/evidence/ledger.hpp:96-98 EvidenceLedger::accounting_closed *)
Definition ledger_accounting_closed (l : EvidenceLedger) : bool :=
  (seen_ l =? u64_add (admitted_ l) (rejected_ l))
  && (admitted_ l =? u64_add (retained_ l) (dropped_ l)).

(** *** Steps of [ledger_admit] *)

Definition ledger_reject (l : EvidenceLedger) : EvidenceLedger :=
  MkLedger (policy_ l) (scopes_ l) (retained_ l) (seen_ l) (dropped_ l) (admitted_ l)
    (incr (rejected_ l)).

Definition put_scope (s : Scope) (st : ScopeState) (l : EvidenceLedger) : EvidenceLedger :=
  MkLedger (policy_ l) (map_insert s st (scopes_ l)) (retained_ l) (seen_ l) (dropped_ l)
    (admitted_ l) (rejected_ l).

Definition put_cursor (st : ScopeState) (src : SourceRef) (c : SourceCursor) : ScopeState :=
  MkScopeState (items st) (map_insert src c (cursors st)) (evictions st).

(** [e.attempt] repeats the last attempt, or [e.seq] the last sequence. *)
Definition is_duplicate (c : SourceCursor) (e : DeliveryEvidence) : bool :=
  (e_seq e == last_seq c) || (negb (id_nil (e_attempt e)) && (e_attempt e == last_attempt c)).

Definition looks_like_wrap (c : SourceCursor) (e : DeliveryEvidence) : bool :=
  (kSequenceHalfSpace <=? seq_value (last_seq c)) && (seq_value (e_seq e) <? kSequenceHalfSpace).

(** The verdict on the sequence of [e] and the cursor left by it, lines 69-93. *)
Definition sequence_check (c : SourceCursor) (e : DeliveryEvidence)
  : EvidenceAdmission.t * ReasonCode.t * SourceCursor :=
  if 0 <? c_accepted c then
    if is_duplicate c e then
      (EvidenceAdmission.DuplicateAttempt, ReasonCode.DuplicateEvidence,
       MkCursor (c_source c) (last_seq c) (last_attempt c) (rollovers c) (last_observed c)
         (c_observed c) (c_accepted c) (incr (c_rejected c)) (incr (c_duplicates c)) (c_regressed c))
    else if seq_value (e_seq e) <? seq_value (last_seq c) then
      if looks_like_wrap c e && (rollovers c <? kMaxRolloversPerSource) then
        (EvidenceAdmission.RolloverAccepted, ReasonCode.SequenceRollover,
         MkCursor (c_source c) (last_seq c) (last_attempt c) (wrap 32 (rollovers c + 1))
           (last_observed c) (c_observed c) (c_accepted c) (c_rejected c) (c_duplicates c)
           (c_regressed c))
      else
        (EvidenceAdmission.Regressed, ReasonCode.RegressedSequence,
         MkCursor (c_source c) (last_seq c) (last_attempt c) (rollovers c) (last_observed c)
           (c_observed c) (c_accepted c) (incr (c_rejected c)) (c_duplicates c)
           (incr (c_regressed c)))
    else (EvidenceAdmission.Accepted, ReasonCode.None, c)
  else (EvidenceAdmission.Accepted, ReasonCode.None, c).

Definition is_admitted (a : EvidenceAdmission.t) : bool :=
  (a == EvidenceAdmission.Accepted) || (a == EvidenceAdmission.RolloverAccepted).

(** [a.observed_at < b.observed_at || (a.observed_at == b.observed_at && a.seq < b.seq)] *)
Definition older (a b : DeliveryEvidence) : bool :=
  (wall_ns (observed_at a) <? wall_ns (observed_at b))
  || ((observed_at a == observed_at b) && (seq_value (e_seq a) <? seq_value (e_seq b))).

(** Index of the oldest observation: the first minimum, as the loop finds it. *)
Definition victim_index (its : list DeliveryEvidence) : nat :=
  match its with
  | [] => O
  | x :: rest_ =>
      (foldl (fun '(victim, best, i) a => if older a best then (i, a, S i) else (victim, best, S i))
         (O, x, 1%nat) rest_).1.1
  end.

(** [v.erase(v.begin() + i)] *)
Definition erase_at {A} (i : nat) (v : list A) : list A := take i v ++ drop (S i) v.

(** The cursor after acceptance, lines 117-120. *)
Definition accept_cursor (c : SourceCursor) (e : DeliveryEvidence) : SourceCursor :=
  MkCursor (c_source c) (e_seq e)
    (if negb (id_nil (e_attempt e)) then e_attempt e else last_attempt c)
    (rollovers c) (observed_at e) (c_observed c) (incr (c_accepted c)) (c_rejected c)
    (c_duplicates c) (c_regressed c).

(** Retention of an admitted observation with eviction of the oldest, lines 95-115. *)
Definition retain (e : DeliveryEvidence) (st : ScopeState) (l : EvidenceLedger)
  : ScopeState * EvidenceLedger :=
  let '(st, l) :=
    if max_evidence_per_scope (policy_ l) <=? zlen (items st) then
      (MkScopeState (erase_at (victim_index (items st)) (items st)) (cursors st) (incr (evictions st)),
       MkLedger (policy_ l) (scopes_ l) (decr (retained_ l)) (seen_ l) (incr (dropped_ l))
         (admitted_ l) (rejected_ l))
    else (st, l) in
  (MkScopeState (items st ++ [e]) (cursors st) (evictions st),
   MkLedger (policy_ l) (scopes_ l) (incr (retained_ l)) (seen_ l) (dropped_ l)
     (incr (admitted_ l)) (rejected_ l)).

(** src/evidence/ledger.cpp:18-122 EvidenceLedger::admit *)
Definition ledger_admit (e : DeliveryEvidence) (now : WallNs) (l : EvidenceLedger)
  : EvidenceAdmission.t * ReasonCode.t * EvidenceLedger :=
  let l := MkLedger (policy_ l) (scopes_ l) (retained_ l) (incr (seen_ l)) (dropped_ l)
             (admitted_ l) (rejected_ l) in
  if negb (structurally_valid e) then
    (EvidenceAdmission.StructurallyInvalid, ReasonCode.InvalidEvidenceRejected, ledger_reject l)
  else if wall_ns now + duration_ns (max_clock_skew (policy_ l)) <? wall_ns (observed_at e) then
    (EvidenceAdmission.ClockSkewExceeded, ReasonCode.ClockSkewExceeded, ledger_reject l)
  else if negb (is_fresh_at e now) then
    (EvidenceAdmission.OutOfFreshnessWindow, ReasonCode.FreshnessWindowExpired, ledger_reject l)
  else
    let found := map_find (e_scope e) (scopes_ l) in
    if (match found with None => true | Some _ => false end)
       && (max_tracked_scopes (policy_ l) <=? zlen (scopes_ l)) then
      (EvidenceAdmission.CapacityExhausted, ReasonCode.BudgetExhausted, ledger_reject l)
    else
      let st := default (MkScopeState [] [] 0) found in
      let cursor := map_find (e_source e) (cursors st) in
      if (match cursor with None => true | Some _ => false end)
         && (max_sources_per_scope (policy_ l) <=? zlen (cursors st)) then
        (EvidenceAdmission.CapacityExhausted, ReasonCode.BudgetExhausted,
         ledger_reject (put_scope (e_scope e) st l))
      else
        let c := default (new_cursor (e_source e)) cursor in
        let c := MkCursor (c_source c) (last_seq c) (last_attempt c) (rollovers c)
                   (last_observed c) (incr (c_observed c)) (c_accepted c) (c_rejected c)
                   (c_duplicates c) (c_regressed c) in
        let '(admission, reason, c) := sequence_check c e in
        if negb (is_admitted admission) then
          (admission, reason,
           ledger_reject (put_scope (e_scope e) (put_cursor st (e_source e) c) l))
        else
          let '(st, l) := retain e st l in
          (admission, reason,
           put_scope (e_scope e) (put_cursor st (e_source e) (accept_cursor c e)) l).

Definition evidence_key (e : DeliveryEvidence) : list Z :=
  wall_ns (observed_at e) :: source_key (e_source e) ++ [seq_value (e_seq e)].

(** src/evidence/ledger.cpp:129-133 evidence_for comparator *)
Definition evidence_before (a b : DeliveryEvidence) : bool :=
  if observed_at a != observed_at b then wall_ns (observed_at a) <? wall_ns (observed_at b)
  else if e_source a != e_source b then
    match cmp (e_source a) (e_source b) with Lt => true | _ => false end
  else seq_value (e_seq a) <? seq_value (e_seq b).

(** src/evidence/ledger.cpp:124-135 EvidenceLedger::evidence_for *)
Definition evidence_for (scope : Scope) (l : EvidenceLedger) : list DeliveryEvidence :=
  match map_find scope (scopes_ l) with
  | None => []
  | Some st => sort_by evidence_before (items st)
  end.

(** ** Retrieval is a sorted permutation *)

Lemma wall_ns_inj a b : wall_ns a = wall_ns b -> a = b.
Proof. destruct a, b. simpl. congruence. Qed.

Lemma ltb_compare a b : (a <? b) = match a ?= b with Lt => true | _ => false end.
Proof. done. Qed.

Lemma lex_app a b c d :
  length a = length c -> lex (a ++ b) (c ++ d) = cmp_then (lex a c) (lex b d).
Proof.
  revert c. induction a as [| x a IH]; intros [| y c] Hl; simpl in *; try done.
  rewrite IH by lia. by destruct (x ?= y).
Qed.

Lemma evidence_before_key a b : evidence_before a b = key_lt evidence_key a b.
Proof.
  unfold evidence_before, key_lt, evidence_key. cbn [lex].
  rewrite lex_app by done. rewrite !ltb_compare.
  destruct (decide (observed_at a = observed_at b)) as [-> | Hne].
  - rewrite beq_refl, Z.compare_refl. cbn [negb cmp_then].
    assert (cmp (e_source a) (e_source b) = lex (source_key (e_source a)) (source_key (e_source b))) as Hk.
    { unfold cmp, Ord_SourceRef, source_key. cbn [lex].
      rewrite !(three_way_chain id_value), three_way_compare by auto with bhg.
      by destruct (gen_value (sr_epoch (e_source a)) ?= gen_value (sr_epoch (e_source b))). }
    rewrite <- Hk. destruct (decide (e_source a = e_source b)) as [-> | Hs].
    + rewrite beq_refl, cmp_refl. cbn. by destruct (_ ?= _).
    + rewrite beq_ne by done. cbn [negb].
      destruct (cmp (e_source a) (e_source b)) eqn:E; try done. by apply cmp_eq in E.
  - rewrite beq_ne by done. cbn [negb].
    destruct (Z.compare_spec (wall_ns (observed_at a)) (wall_ns (observed_at b))); try done.
    by apply wall_ns_inj in H.
Qed.

#[export] Instance evidence_before_weak : StrictWeak evidence_before.
Proof.
  pose proof (key_lt_weak evidence_key) as [H1 H2 H3].
  split; intros *; rewrite ?evidence_before_key; eauto.
Qed.

(** Retained observations of a scope, in order of admission. *)
Definition scope_items (s : Scope) (l : EvidenceLedger) : list DeliveryEvidence :=
  match map_find s (scopes_ l) with None => [] | Some st => items st end.

Lemma evidence_for_sort s l : evidence_for s l = sort_by evidence_before (scope_items s l).
Proof. unfold evidence_for, scope_items. by destruct (map_find s (scopes_ l)). Qed.

Lemma evidence_for_spec s l :
  Permutation (evidence_for s l) (scope_items s l) /\
  StronglySorted (fun a b => evidence_before b a = false) (evidence_for s l).
Proof. rewrite evidence_for_sort. split; [apply sort_by_perm | apply sort_by_sorted, _]. Qed.

(** ** Eviction takes the oldest observation *)

Lemma older_key a b : older a b = key_lt (fun e => [wall_ns (observed_at e); seq_value (e_seq e)]) a b.
Proof.
  unfold older, key_lt. cbn [lex]. rewrite !ltb_compare.
  destruct (decide (observed_at a = observed_at b)) as [-> | Hne].
  - rewrite beq_refl, Z.compare_refl. cbn. by destruct (_ ?= _).
  - rewrite beq_ne by done. cbn [andb]. rewrite orb_false_r.
    destruct (Z.compare_spec (wall_ns (observed_at a)) (wall_ns (observed_at b))); try done.
    by apply wall_ns_inj in H.
Qed.

#[export] Instance older_weak : StrictWeak older.
Proof.
  pose proof (key_lt_weak (fun e => [wall_ns (observed_at e); seq_value (e_seq e)])) as [H1 H2 H3].
  split; intros *; rewrite ?older_key; eauto.
Qed.

Lemma victim_index_spec its :
  its <> [] -> exists v, nth_error its (victim_index its) = Some v /\ Forall (fun e => older e v = false) its.
Proof.
  destruct its as [| x its]; [done |]. intros _. unfold victim_index.
  assert (forall rest_ seen victim best,
    nth_error (seen ++ rest_) victim = Some best -> (victim < length seen)%nat ->
    Forall (fun e => older e best = false) seen ->
    let '(v, b, _) := foldl (fun '(victim, best, i) a => if older a best then (i, a, S i) else (victim, best, S i))
                        (victim, best, length seen) rest_ in
    nth_error (seen ++ rest_) v = Some b /\ Forall (fun e => older e b = false) (seen ++ rest_)) as Hgo.
  { induction rest_ as [| a rest_ IH]; intros seen victim best Hn Hv Hs; simpl.
    - by rewrite app_nil_r in *.
    - replace (seen ++ a :: rest_) with ((seen ++ [a]) ++ rest_) in * by (by rewrite <- app_assoc).
      replace (S (length seen)) with (length (seen ++ [a])) by (rewrite length_app; simpl; lia).
      destruct (older a best) eqn:E; apply IH.
      + rewrite nth_error_app1 by (rewrite length_app; simpl; lia).
        rewrite nth_error_app2 by lia. by rewrite Nat.sub_diag.
      + rewrite length_app. simpl. lia.
      + apply Forall_app. split; [| constructor; [apply lt_irrefl | constructor]].
        eapply Forall_impl; [exact Hs |]. intros e He.
        apply ge_trans with best; [by apply lt_asym | done].
      + done.
      + rewrite length_app. lia.
      + apply Forall_app. split; [done |]. by constructor. }
  specialize (Hgo its [x] O x eq_refl ltac:(simpl; lia)).
  cbn [length app] in Hgo. destruct (foldl _ _ its) as [[v b] i]. exists b. apply Hgo.
  constructor; [apply lt_irrefl | constructor].
Qed.

Lemma erase_at_length {A} i (v : list A) : (i < length v)%nat -> zlen (erase_at i v) = zlen v - 1.
Proof. intros Hi. unfold erase_at, zlen. rewrite length_app, length_take, length_drop. lia. Qed.

Lemma erase_at_perm {A} i (v : list A) x : nth_error v i = Some x -> Permutation v (x :: erase_at i v).
Proof.
  unfold erase_at. revert i. induction v as [| y v IH]; intros [| i]; simpl; try done.
  - intros [= ->]. done.
  - intros H. apply IH in H. simpl in H. 
    rewrite Permutation_swap. by constructor.
Qed.

(** ** The invariant of the ledger *)

Definition cursor_wf (src : SourceRef) (c : SourceCursor) : Prop :=
  c_source c = src /\ cursor_accounting_closed c = true /\
  0 <= rollovers c <= kMaxRolloversPerSource.

Definition scope_wf (p : FencePolicy) (s : Scope) (st : ScopeState) : Prop :=
  zlen (items st) <= max_evidence_per_scope p /\
  Forall (fun e => e_scope e = s /\ structurally_valid e = true) (items st) /\
  map_wf (cursors st) /\ zlen (cursors st) <= max_sources_per_scope p /\
  map_all cursor_wf (cursors st).

Definition n_items (st : ScopeState) : Z := zlen (items st).

(** Sizes within the policy, per-scope and per-source bookkeeping, exact accounting. *)
Record ledger_wf (l : EvidenceLedger) : Prop := {
  lw_map : map_wf (scopes_ l);
  lw_scopes : zlen (scopes_ l) <= max_tracked_scopes (policy_ l);
  lw_scope : map_all (scope_wf (policy_ l)) (scopes_ l);
  lw_retained : retained_ l = wrap 64 (map_sum n_items (scopes_ l));
  lw_closed : ledger_accounting_closed l = true;
}.

(** The bounds of an accepted policy that the ledger relies on. *)
Definition ledger_policy (p : FencePolicy) : Prop :=
  0 < max_evidence_per_scope p /\ 0 < max_tracked_scopes p /\ 0 < max_sources_per_scope p.

Lemma new_ledger_wf p : ledger_policy p -> ledger_wf (new_EvidenceLedger p).
Proof. intros (? & ? & ?). split; simpl; try done. unfold zlen. simpl. lia. Qed.

Lemma new_cursor_wf src : cursor_wf src (new_cursor src).
Proof. done. Qed.

Lemma put_scope_wf s st l :
  ledger_wf l -> scope_wf (policy_ l) s st ->
  (map_find s (scopes_ l) = None -> zlen (scopes_ l) < max_tracked_scopes (policy_ l)) ->
  n_items st = default 0 (n_items <$> map_find s (scopes_ l)) ->
  ledger_wf (put_scope s st l).
Proof.
  intros [Hm Hs Ha Hr Hc] Hst Hroom Hn. split; cbn [put_scope scopes_ policy_ retained_].
  - by apply map_wf_insert.
  - rewrite map_insert_size by done. destruct (map_find s (scopes_ l)); [lia |].
    specialize (Hroom eq_refl). lia.
  - by apply map_all_insert.
  - rewrite Hr. f_equal. destruct (map_find s (scopes_ l)) as [st0 |] eqn:E; simpl in Hn.
    + rewrite (map_sum_insert_old _ _ _ st0) by done. lia.
    + rewrite map_sum_insert_new by done. lia.
  - exact Hc.
Qed.

(** [++seen_] followed by [++rejected_] keeps the books closed. *)
Definition ledger_see (l : EvidenceLedger) : EvidenceLedger :=
  MkLedger (policy_ l) (scopes_ l) (retained_ l) (incr (seen_ l)) (dropped_ l) (admitted_ l) (rejected_ l).

Lemma see_reject_wf l : ledger_wf l -> ledger_wf (ledger_reject (ledger_see l)).
Proof.
  intros [Hm Hs Ha Hr Hc]. split; try done. unfold ledger_accounting_closed in *.
  cbn [ledger_reject ledger_see seen_ admitted_ rejected_ retained_ dropped_] in *.
  bool_prop. apply andb_true_iff. split; apply Z.eqb_eq; [| done].
  rewrite H. wrap_eq.
Qed.

Lemma sequence_check_cursor c e :
  cursor_wf (c_source c) c ->
  let '(a, _, c') := sequence_check
    (MkCursor (c_source c) (last_seq c) (last_attempt c) (rollovers c) (last_observed c)
       (incr (c_observed c)) (c_accepted c) (c_rejected c) (c_duplicates c) (c_regressed c)) e in
  (is_admitted a = true -> cursor_wf (c_source c) (accept_cursor c' e)) /\
  (is_admitted a = false -> cursor_wf (c_source c) c').
Proof.
  intros (_ & Hc & Hr). unfold cursor_accounting_closed in Hc. bool_prop.
  unfold sequence_check, cursor_wf, cursor_accounting_closed, kMaxRolloversPerSource in *.
  cbn [c_source last_seq last_attempt rollovers last_observed c_observed c_accepted c_rejected].
  repeat split_if; cbn [c_source rollovers c_observed c_accepted c_rejected accept_cursor];
    enum_eval; split; try done; intros _; (split; [done |]); (split; [| try done]);
    try (apply Z.eqb_eq; rewrite Hc; wrap_eq).
  all: bool_prop; rewrite wrap_small by (unfold in_u; cbn [rollovers] in *; lia); cbn [rollovers] in *; lia.
Qed.

(** What retention leaves: everything but an evicted oldest observation, plus the new one. *)
Lemma retain_items e st l :
  0 < max_evidence_per_scope (policy_ l) ->
  exists kept, items (retain e st l).1 = kept ++ [e] /\
    (zlen (items st) < max_evidence_per_scope (policy_ l) /\ kept = items st \/
     max_evidence_per_scope (policy_ l) <= zlen (items st) /\
     exists v, Permutation (items st) (v :: kept) /\ Forall (fun x => older x v = false) (items st)).
Proof.
  intros Hmax. unfold retain.
  destruct (Z.leb_spec (max_evidence_per_scope (policy_ l)) (zlen (items st))); simpl.
  - destruct (victim_index_spec (items st)) as (v & Hv & Hf).
    { intros E. rewrite E, zlen_nil in *. lia. }
    eexists. split; [done |]. right. split; [done |]. exists v. split; [| done].
    by apply erase_at_perm.
  - eexists. split; [done |]. by left.
Qed.

Lemma retain_frame e st l :
  cursors (retain e st l).1 = cursors st /\ scopes_ (retain e st l).2 = scopes_ l /\
  policy_ (retain e st l).2 = policy_ l.
Proof. unfold retain. by destruct (_ <=? _). Qed.

Lemma retain_counters e st l :
  0 < max_evidence_per_scope (policy_ l) ->
  let '(st', l') := retain e st l in
  retained_ l' = wrap 64 (retained_ l + (n_items st' - n_items st)) /\
  admitted_ l' = incr (admitted_ l) /\ seen_ l' = seen_ l /\ rejected_ l' = rejected_ l /\
  (admitted_ l = u64_add (retained_ l) (dropped_ l) ->
   admitted_ l' = u64_add (retained_ l') (dropped_ l')).
Proof.
  intros Hmax. unfold retain, n_items.
  destruct (Z.leb_spec (max_evidence_per_scope (policy_ l)) (zlen (items st))); cbn.
  - destruct (victim_index_spec (items st)) as (v & Hv & _).
    { intros E. rewrite E, zlen_nil in *. lia. }
    autorewrite with zlen.
    rewrite erase_at_length by (apply nth_error_Some; by rewrite Hv).
    repeat split; [wrap_eq |]. intros ->. wrap_eq.
  - autorewrite with zlen. repeat split; [wrap_eq |]. intros ->. wrap_eq.
Qed.

Lemma retain_scope_wf e s st l :
  0 < max_evidence_per_scope (policy_ l) -> scope_wf (policy_ l) s st ->
  e_scope e = s -> structurally_valid e = true -> scope_wf (policy_ l) s (retain e st l).1.
Proof.
  intros Hmax (Hi & Hf & Hrest) He Hv.
  destruct (retain_items e st l Hmax) as (kept & Hk & Hcase).
  unfold scope_wf. destruct (retain_frame e st l) as (-> & _ & _). rewrite Hk.
  split; [| split; [| done]].
  - autorewrite with zlen. destruct Hcase as [[? ->] | (? & v & Hp & _)]; [lia |].
    apply Permutation_length in Hp. unfold zlen in *. simpl in Hp. lia.
  - apply Forall_app. split; [| by repeat constructor].
    destruct Hcase as [[? ->] | (? & v & Hp & _)]; [done |].
    rewrite Hp in Hf. by inversion_clear Hf.
Qed.

Lemma put_cursor_wf p s st src c :
  scope_wf p s st -> cursor_wf src c ->
  (map_find src (cursors st) = None -> zlen (cursors st) < max_sources_per_scope p) ->
  scope_wf p s (put_cursor st src c).
Proof.
  intros (Hi & Hf & Hm & Hz & Ha) Hc Hroom. unfold scope_wf, put_cursor. cbn [items cursors].
  split; [done |]. split; [done |]. split; [by apply map_wf_insert |]. split.
  - rewrite map_insert_size by done. destruct (map_find src (cursors st)); [lia |].
    specialize (Hroom eq_refl). lia.
  - by apply map_all_insert.
Qed.

Lemma see_wf_fields l :
  ledger_wf l ->
  policy_ (ledger_see l) = policy_ l /\ scopes_ (ledger_see l) = scopes_ l.
Proof. done. Qed.

Lemma reject_put_scope s st l :
  ledger_reject (put_scope s st l) = put_scope s st (ledger_reject l).
Proof. done. Qed.

Lemma empty_scope_wf p s : ledger_policy p -> scope_wf p s (MkScopeState [] [] 0).
Proof. intros (? & ? & ?). unfold scope_wf. cbn. unfold zlen. cbn. repeat split; try done; lia. Qed.

(** The state of a tracked scope, or the empty one, is well-formed. *)
Lemma default_scope_wf l s :
  ledger_policy (policy_ l) -> ledger_wf l ->
  scope_wf (policy_ l) s (default (MkScopeState [] [] 0) (map_find s (scopes_ l))).
Proof.
  intros Hp Hl. destruct (map_find s (scopes_ l)) eqn:E; simpl; [| by apply empty_scope_wf].
  by apply (lw_scope l Hl).
Qed.

Lemma default_cursor_wf st src :
  map_all cursor_wf (cursors st) -> cursor_wf src (default (new_cursor src) (map_find src (cursors st))).
Proof. intros Ha. destruct (map_find src (cursors st)) eqn:E; simpl; auto using new_cursor_wf. Qed.

(** A tracked or new scope: a guard of [ledger_admit]. *)
Lemma room_guard {A} (found : option A) max size :
  (match found with None => true | Some _ => false end) && (max <=? size) = false ->
  found = None -> size < max.
Proof. intros H ->. simpl in H. bool_prop. lia. Qed.

(** Admission of a checked observation: eviction, retention, cursor and counters. *)
Lemma admitted_wf e st c l :
  ledger_policy (policy_ l) -> ledger_wf l ->
  (map_find (e_scope e) (scopes_ l) = None -> zlen (scopes_ l) < max_tracked_scopes (policy_ l)) ->
  (map_find (e_source e) (cursors st) = None -> zlen (cursors st) < max_sources_per_scope (policy_ l)) ->
  st = default (MkScopeState [] [] 0) (map_find (e_scope e) (scopes_ l)) ->
  structurally_valid e = true -> cursor_wf (e_source e) c ->
  ledger_wf (let '(st, l) := retain e st (ledger_see l) in
             put_scope (e_scope e) (put_cursor st (e_source e) c) l).
Proof.
  intros (Hev & Hp) Hl Hroom Hcroom Hst Hv Hc.
  assert (scope_wf (policy_ l) (e_scope e) st) as Hsw by (subst st; by apply default_scope_wf).
  pose proof (retain_counters e st (ledger_see l) Hev) as Hcnt.
  pose proof (retain_scope_wf e (e_scope e) st (ledger_see l) Hev Hsw eq_refl Hv) as Hsw'.
  pose proof (retain_frame e st (ledger_see l)) as (Hcu & Hsc & Hpo).
  destruct (retain e st (ledger_see l)) as [st' l'].
  destruct Hcnt as (Hr & Had & Hse & Hre & Hcl). cbn [fst snd] in *.
  destruct Hl as [Hm Hz Ha Hret Hclosed].
  unfold ledger_accounting_closed in Hclosed. bool_prop.
  split; cbn [put_scope scopes_ policy_ retained_]; rewrite ?Hsc, ?Hpo; cbn [ledger_see scopes_ policy_].
  - by apply map_wf_insert.
  - rewrite map_insert_size by done. destruct (map_find (e_scope e) (scopes_ l)); [lia |].
    specialize (Hroom eq_refl). lia.
  - apply map_all_insert; [done |]. apply put_cursor_wf; [done | done |]. by rewrite Hcu.
  - rewrite Hr. cbn [ledger_see retained_]. rewrite Hret.
    destruct (map_find (e_scope e) (scopes_ l)) as [st0 |] eqn:E; simpl in Hst; subst st.
    + rewrite (map_sum_insert_old _ _ _ st0) by done.
      change (n_items (put_cursor st' (e_source e) c)) with (n_items st'). wrap_eq.
    + rewrite map_sum_insert_new by done. unfold n_items. cbn [put_cursor items].
      rewrite zlen_nil. wrap_eq.
  - unfold ledger_accounting_closed. cbn [put_scope seen_ admitted_ rejected_ retained_ dropped_].
    apply andb_true_iff. split; apply Z.eqb_eq; [| by apply Hcl].
    rewrite Hse, Had, Hre. cbn [ledger_see seen_ admitted_ rejected_].
    rewrite H. wrap_eq.
Qed.

Lemma admit_ledger_wf e now l :
  ledger_policy (policy_ l) -> ledger_wf l -> ledger_wf (ledger_admit e now l).2.
Proof.
  intros Hp Hl. unfold ledger_admit. fold (ledger_see l). cbv zeta.
  cbn [ledger_see scopes_ policy_].
  destruct (structurally_valid e) eqn:Hv; [| by apply see_reject_wf]. cbn [negb].
  destruct (_ <? wall_ns (observed_at e)); [by apply see_reject_wf |].
  destruct (is_fresh_at e now); [| by apply see_reject_wf]. cbn [negb].
  match goal with |- context [if ?b then _ else _] => destruct b eqn:Hg1 end;
    [by apply see_reject_wf |].
  match goal with |- context [if ?b then _ else _] => destruct b eqn:Hg2 end.
  - cbn [snd]. rewrite reject_put_scope. apply put_scope_wf; cbn [ledger_reject scopes_ policy_].
    + by apply see_reject_wf.
    + exact (default_scope_wf l _ Hp Hl).
    + exact (room_guard _ _ _ Hg1).
    + cbn [ledger_see scopes_]. by destruct (map_find (e_scope e) (scopes_ l)).
  - set (st := default (MkScopeState [] [] 0) (map_find (e_scope e) (scopes_ l))) in *.
    assert (scope_wf (policy_ l) (e_scope e) st) as Hst by (by apply default_scope_wf).
    set (c := default (new_cursor (e_source e)) (map_find (e_source e) (cursors st))) in *.
    assert (cursor_wf (e_source e) c) as Hc by (apply default_cursor_wf, Hst).
    assert (c_source c = e_source e) as Hsrc by apply Hc.
    pose proof (sequence_check_cursor c e ltac:(by rewrite Hsrc)) as Hsq.
    destruct (sequence_check _ e) as [[a reason] c']. destruct Hsq as [Hyes Hno].
    rewrite Hsrc in Hyes, Hno.
    destruct (is_admitted a); cbn [negb].
    + pose proof (admitted_wf e st (accept_cursor c' e) l Hp Hl (room_guard _ _ _ Hg1)
        (room_guard _ _ _ Hg2) eq_refl Hv (Hyes eq_refl)) as H.
      destruct (retain e st (ledger_see l)) as [st' l']. exact H.
    + cbn [snd]. rewrite reject_put_scope. apply put_scope_wf; cbn [ledger_reject scopes_ policy_].
      * by apply see_reject_wf.
      * apply put_cursor_wf; [exact Hst | by apply Hno | exact (room_guard _ _ _ Hg2)].
      * exact (room_guard _ _ _ Hg1).
      * unfold st. cbn [ledger_see scopes_]. by destruct (map_find (e_scope e) (scopes_ l)).
Qed.

Lemma reset_wf l : ledger_policy (policy_ l) -> ledger_wf (ledger_reset l).
Proof. apply (new_ledger_wf (policy_ l)). Qed.

(** The branches of [ledger_admit]: refused before the scope is touched, refused with the scope
    tracked and its observations kept, or admitted. *)
Inductive admit_result (e : DeliveryEvidence) (l : EvidenceLedger)
  : EvidenceAdmission.t * ReasonCode.t * EvidenceLedger -> Prop :=
| AdmitRefused a r :
    is_admitted a = false -> r <> ReasonCode.None ->
    admit_result e l (a, r, ledger_reject (ledger_see l))
| AdmitRefusedTracked a r st' :
    is_admitted a = false -> r <> ReasonCode.None ->
    items st' = scope_items (e_scope e) l ->
    (forall src, src <> e_source e ->
       map_find src (cursors st') =
       map_find src (cursors (default (MkScopeState [] [] 0) (map_find (e_scope e) (scopes_ l))))) ->
    admit_result e l (a, r, put_scope (e_scope e) st' (ledger_reject (ledger_see l)))
| AdmitTaken a r c c' (st := default (MkScopeState [] [] 0) (map_find (e_scope e) (scopes_ l))) :
    is_admitted a = true -> structurally_valid e = true ->
    c = default (new_cursor (e_source e)) (map_find (e_source e) (cursors st)) ->
    sequence_check (MkCursor (c_source c) (last_seq c) (last_attempt c) (rollovers c)
                      (last_observed c) (incr (c_observed c)) (c_accepted c) (c_rejected c)
                      (c_duplicates c) (c_regressed c)) e = (a, r, c') ->
    admit_result e l
      (a, r, put_scope (e_scope e)
               (put_cursor (retain e st (ledger_see l)).1 (e_source e) (accept_cursor c' e))
               (retain e st (ledger_see l)).2).

Lemma sequence_check_refused c e a r c' :
  sequence_check c e = (a, r, c') -> is_admitted a = false -> r <> ReasonCode.None.
Proof. unfold sequence_check. repeat split_if; intros [= <- <- <-]; by intros. Qed.

Lemma admit_spec e now l : admit_result e l (ledger_admit e now l).
Proof.
  unfold ledger_admit. fold (ledger_see l). cbv zeta. cbn [ledger_see scopes_ policy_].
  destruct (structurally_valid e) eqn:Hv; [| by apply AdmitRefused]. cbn [negb].
  destruct (_ <? wall_ns (observed_at e)); [by apply AdmitRefused |].
  destruct (is_fresh_at e now); [| by apply AdmitRefused]. cbn [negb].
  match goal with |- context [if ?b then _ else _] => destruct b end; [by apply AdmitRefused |].
  assert (forall st, st = default (MkScopeState [] [] 0) (map_find (e_scope e) (scopes_ l)) ->
            items st = scope_items (e_scope e) l) as Hit.
  { intros st ->. unfold scope_items. by destruct (map_find (e_scope e) (scopes_ l)). }
  match goal with |- context [if ?b then _ else _] => destruct b end.
  - rewrite reject_put_scope. apply AdmitRefusedTracked; auto.
  - set (st := default (MkScopeState [] [] 0) (map_find (e_scope e) (scopes_ l))) in *.
    set (c := default (new_cursor (e_source e)) (map_find (e_source e) (cursors st))).
    destruct (sequence_check _ e) as [[a r] c'] eqn:Hsq.
    destruct (is_admitted a) eqn:Ha; cbn [negb].
    + pose proof (AdmitTaken e l a r c c' Ha Hv eq_refl Hsq) as H. fold st in H.
      by destruct (retain e st (ledger_see l)) as [st' l'].
    + rewrite reject_put_scope. apply AdmitRefusedTracked; [done | | exact (Hit st eq_refl) |].
      * by eapply sequence_check_refused.
      * intros src Hne. by apply map_find_insert_ne.
Qed.

Lemma admit_policy e now l : policy_ (ledger_admit e now l).2 = policy_ l.
Proof.
  destruct (admit_spec e now l); [done | done |]. by destruct (retain_frame e st (ledger_see l)) as (_ & _ & ?).
Qed.

(** Only the scope of [e] is touched, and only by an admission. *)
Lemma admit_items e now l s :
  0 < max_evidence_per_scope (policy_ l) ->
  let '(a, _, l') := ledger_admit e now l in
  (is_admitted a = false -> scope_items s l' = scope_items s l) /\
  (is_admitted a = true -> s <> e_scope e -> scope_items s l' = scope_items s l) /\
  (is_admitted a = true -> s = e_scope e ->
     exists kept, scope_items s l' = kept ++ [e] /\
       (zlen (scope_items s l) < max_evidence_per_scope (policy_ l) /\ kept = scope_items s l \/
        max_evidence_per_scope (policy_ l) <= zlen (scope_items s l) /\
        exists v, Permutation (scope_items s l) (v :: kept) /\
                  Forall (fun x => older x v = false) (scope_items s l))).
Proof.
  intros Hmax. destruct (admit_spec e now l).
  - split; [done |]. by rewrite H.
  - split; [| by rewrite H]. intros _. unfold scope_items. cbn [put_scope scopes_ ledger_reject ledger_see].
    rewrite map_find_insert. destruct (cmp s (e_scope e)) eqn:E; [| done | done].
    apply cmp_eq in E as ->. exact H1.
  - split; [by rewrite H |].
    pose proof (retain_frame e st (ledger_see l)) as (_ & Hsc & _).
    assert (items st = scope_items (e_scope e) l) as Hit.
    { unfold st, scope_items. by destruct (map_find (e_scope e) (scopes_ l)). }
    unfold scope_items at 1 3. cbn [put_scope scopes_]. rewrite Hsc, map_find_insert.
    split.
    + intros _ Hne. destruct (cmp s (e_scope e)) eqn:E; [| done | done].
      by apply cmp_eq in E.
    + intros _ ->. rewrite cmp_refl, <- Hit. cbn [put_cursor items].
      exact (retain_items e st (ledger_see l) Hmax).
Qed.

(** ** Sequences advance *)

Definition cursor_of (s : Scope) (src : SourceRef) (l : EvidenceLedger) : option SourceCursor :=
  st ← map_find s (scopes_ l); map_find src (cursors st).

(** The sequence number a source would have reached without wrapping its counter. *)
Definition extended_seq (c : SourceCursor) : Z := rollovers c * 2 ^ 64 + seq_value (last_seq c).

Lemma sequence_check_extends c e a r c' :
  0 < c_accepted c -> in_u64 (seq_value (last_seq c)) -> in_u64 (seq_value (e_seq e)) ->
  0 <= rollovers c <= kMaxRolloversPerSource ->
  sequence_check c e = (a, r, c') ->
  (is_admitted a = true -> extended_seq c < extended_seq (accept_cursor c' e) /\
     rollovers c' <= kMaxRolloversPerSource /\ is_duplicate c e = false) /\
  (is_admitted a = false -> extended_seq c' = extended_seq c).
Proof.
  intros Hacc Hl He Hr. unfold sequence_check. rewrite (proj2 (Z.ltb_lt 0 _)) by done.
  unfold in_u, kMaxRolloversPerSource, extended_seq in *.
  repeat split_if; intros [= <- <- <-]; enum_eval; split; try done; intros _; bool_prop.
  - cbn [accept_cursor rollovers last_seq].
    rewrite wrap_small by (unfold in_u; lia). repeat split; (done || lia).
  - cbn [accept_cursor rollovers last_seq]. unfold is_duplicate in *. bool_prop.
    assert (seq_value (e_seq e) <> seq_value (last_seq c)) by (intros ?%seq_value_inj; congruence).
    repeat split; try done; lia.
Qed.

Lemma admit_extends e now l c :
  ledger_wf l -> cursor_of (e_scope e) (e_source e) l = Some c ->
  0 < c_accepted c -> in_u64 (seq_value (last_seq c)) -> in_u64 (seq_value (e_seq e)) ->
  let '(a, _, l') := ledger_admit e now l in
  (is_admitted a = true ->
     exists c', cursor_of (e_scope e) (e_source e) l' = Some c' /\ last_seq c' = e_seq e /\
       extended_seq c < extended_seq c' /\ rollovers c' <= kMaxRolloversPerSource /\
       is_duplicate c e = false).
Proof.
  intros Hwf Hcur Hacc Hl He. destruct (admit_spec e now l); try (by rewrite H).
  intros _. unfold cursor_of in *.
  destruct (map_find (e_scope e) (scopes_ l)) as [st0 |] eqn:Est; [| done]. simpl in Hcur.
  pose proof (retain_frame e st (ledger_see l)) as (Hcs & Hsc & _).
  cbn [put_scope scopes_]. rewrite Hsc, map_find_insert_eq. cbn [mbind option_bind put_cursor cursors].
  rewrite map_find_insert_eq.
  assert (st = st0) as Hst by done. subst c0. rewrite Hst, Hcur in H2. simpl in H2.
  pose proof (lw_scope l Hwf _ _ Est) as (_ & _ & _ & _ & Hall). apply Hall in Hcur as (_ & _ & Hroll).
  apply sequence_check_extends in H2; try done. destruct H2 as [H2 _]. specialize (H2 H) as (Hext & Hmax & Hdup).
  eexists. by repeat split.
Qed.
