(* ===== verification/LedgerSpec.v ===== *)
(** * Histories of the evidence ledger

    Theorems about sequences of admissions: bounds and exact accounting after any history,
    the effect of one admission on the retained observations, and the order in which a
    source's sequence numbers are accepted. *)
From Stdlib Require Import Sorting.Permutation Sorting.Sorted.
From S2P Require Import Prelude OrderedMap Sort Core Codec Ids Domain Policy Fixtures Ledger.
Local Open Scope list_scope.
Local Open Scope Z_scope.

(** A history: observations with the times at which they are offered. *)
Definition admit_all (h : list (DeliveryEvidence * WallNs)) (l : EvidenceLedger) : EvidenceLedger :=
  foldl (fun l '(e, now) => (ledger_admit e now l).2) l h.

Lemma admit_all_wf h l :
  ledger_policy (policy_ l) -> ledger_wf l ->
  ledger_wf (admit_all h l) /\ policy_ (admit_all h l) = policy_ l.
Proof.
  revert l. induction h as [| [e now] h IH]; intros l Hp Hl; [done |].
  cbn [admit_all foldl]. rewrite <- (admit_policy e now l) in Hp |- *.
  apply IH; [done |]. apply admit_ledger_wf; [by rewrite <- (admit_policy e now l) | done].
Qed.

(** C20: after any history of admissions the ledger respects the bounds of its policy on
    scopes, on observations per scope and on sources per scope, every retained observation
    is structurally valid and filed under its own scope, and the accounting is exact: seen
    = admitted + rejected, admitted = retained + dropped, and [retained] counts what the
    scopes hold. *)
Theorem ledger_history_bounded p h :
  ledger_policy p ->
  let l := admit_all h (new_EvidenceLedger p) in
  zlen (scopes_ l) <= max_tracked_scopes p /\
  map_all (fun s st =>
      zlen (items st) <= max_evidence_per_scope p /\ zlen (cursors st) <= max_sources_per_scope p /\
      Forall (fun e => e_scope e = s /\ structurally_valid e = true) (items st)) (scopes_ l) /\
  ledger_accounting_closed l = true /\ retained_ l = wrap 64 (map_sum n_items (scopes_ l)).
Proof.
  intros Hp. cbv zeta. destruct (admit_all_wf h (new_EvidenceLedger p)) as [[H1 H2 H3 H4 H5] Hpol];
    [done | by apply new_ledger_wf |].
  rewrite Hpol in *. split; [done |]. split; [| by split].
  intros s st Hst. destruct (H3 s st Hst) as (? & ? & _ & ? & _). by split_and!.
Qed.

Example ledger_history_bounded_witness :
  ledger_accounting_closed
    (admit_all [(fx_failure 1 1, fx_now); (fx_success 2 2, fx_now); (fx_failure 1 1, fx_now)]
       (new_EvidenceLedger default_policy)) = true.
Proof.
  apply (ledger_history_bounded default_policy
    [(fx_failure 1 1, fx_now); (fx_success 2 2, fx_now); (fx_failure 1 1, fx_now)]).
  vm_compute. repeat split.
Defined.

(** An observation that is not admitted changes no retained observation; an admitted
    one is appended to its scope, and when the scope is full exactly one observation
    leaves, one no other observation of the scope is older than. *)
Theorem admit_retains e now l s :
  0 < max_evidence_per_scope (policy_ l) ->
  let '(a, _, l') := ledger_admit e now l in
  (is_admitted a = false -> scope_items s l' = scope_items s l) /\
  (is_admitted a = true -> s <> e_scope e -> scope_items s l' = scope_items s l) /\
  (is_admitted a = true -> s = e_scope e ->
     exists kept, scope_items s l' = kept ++ [e] /\
       (zlen (scope_items s l) < max_evidence_per_scope (policy_ l) /\ kept = scope_items s l \/
        max_evidence_per_scope (policy_ l) <= zlen (scope_items s l) /\
        exists v, Permutation (scope_items s l) (v :: kept) /\
                  Forall (fun x => older x v = false) (scope_items s l))).
Proof. apply admit_items. Qed.

Example admit_retains_witness :
  scope_items fx_scope (ledger_admit (fx_failure 1 1) fx_now (new_EvidenceLedger default_policy)).2 = [fx_failure 1 1].
Proof.
  pose proof (admit_retains (fx_failure 1 1) fx_now (new_EvidenceLedger default_policy) fx_scope
    ltac:(vm_compute; reflexivity)) as H.
  destruct (ledger_admit (fx_failure 1 1) fx_now (new_EvidenceLedger default_policy)) as [[a r] l'] eqn:E.
  destruct H as (_ & _ & H). assert (is_admitted a = true) as Ha
    by (change a with (a, r, l').1.1; rewrite <- E; vm_compute; reflexivity).
  destruct (H Ha eq_refl) as (kept & Hk & [[_ ->] | [Hx _]]).
  - cbn [snd]. rewrite Hk. reflexivity.
  - exfalso. vm_compute in Hx. apply Hx. reflexivity.
Defined.

(** Once a source instance has an accepted observation, each further one it is granted
    has a strictly greater extended sequence number (counter rollovers times 2^64 plus the
    sequence), is no duplicate of the last one, and the counter rolls over at most four
    times. *)
Theorem accepted_sequences_increase e now l c :
  ledger_wf l -> cursor_of (e_scope e) (e_source e) l = Some c ->
  0 < c_accepted c -> in_u64 (seq_value (last_seq c)) -> in_u64 (seq_value (e_seq e)) ->
  let '(a, _, l') := ledger_admit e now l in
  is_admitted a = true ->
  exists c', cursor_of (e_scope e) (e_source e) l' = Some c' /\ last_seq c' = e_seq e /\
    extended_seq c < extended_seq c' /\ rollovers c' <= kMaxRolloversPerSource /\
    is_duplicate c e = false.
Proof. apply admit_extends. Qed.

Definition fx_ledger : EvidenceLedger :=
  (ledger_admit (fx_failure 1 1) fx_now (new_EvidenceLedger default_policy)).2.
Definition fx_second : DeliveryEvidence := fx_evidence fx_scope 1 1 2 EvidenceKind.DeliveryFailure 16 16 1000000.

Example accepted_sequences_increase_witness :
  exists c', cursor_of fx_scope (e_source fx_second) (ledger_admit fx_second fx_now fx_ledger).2 = Some c' /\
    last_seq c' = MkSeq 2.
Proof.
  destruct (cursor_of (e_scope fx_second) (e_source fx_second) fx_ledger) as [c |] eqn:Ec;
    [| vm_compute in Ec; discriminate].
  pose proof (accepted_sequences_increase fx_second fx_now fx_ledger c) as H.
  destruct (ledger_admit fx_second fx_now fx_ledger) as [[a r] l'] eqn:E. cbn [snd].
  destruct H as (c' & Hc' & Hl & _).
  - apply admit_ledger_wf; [vm_compute; repeat split | apply new_ledger_wf; vm_compute; repeat split].
  - exact Ec.
  - vm_compute in Ec. injection Ec as <-. reflexivity.
  - vm_compute in Ec. injection Ec as <-. vm_compute. split; [discriminate | reflexivity].
  - vm_compute. split; [discriminate | reflexivity].
  - change a with (a, r, l').1.1. rewrite <- E. vm_compute. reflexivity.
  - exists c'. split; [exact Hc' | exact Hl].
Defined.

(** After a rollover a sequence number that was accepted before is accepted again: the
    ledger keeps only the last sequence of a source, and no admission is ever reported as
    [Replayed]. *)
Theorem rollover_readmits_old_sequence :
  let ev n := fx_evidence fx_scope 1 1 n EvidenceKind.DeliverySuccess 16 0 0 in
  let step n l := ledger_admit (ev n) fx_now l in
  let a := step (2 ^ 64 - 1) (new_EvidenceLedger default_policy) in
  let b := step 1 a.2 in
  let c := step (2 ^ 64 - 1) b.2 in
  a.1.1 = EvidenceAdmission.Accepted /\ b.1.1 = EvidenceAdmission.RolloverAccepted /\
  c.1.1 = EvidenceAdmission.Accepted /\
  scope_items fx_scope c.2 = [ev (2 ^ 64 - 1); ev 1; ev (2 ^ 64 - 1)].
Proof. vm_compute. repeat split. Qed.
