(* ===== verification/Classifier.v ===== *)
(** * Classification of delivery state

    Models [include/blackhole/diagnosis/classifier.hpp] and [src/diagnosis/classifier.cpp]:
    the evidence census, the classification in its strict precedence order, the
    corroboration check and the diagnosis fingerprint. Counters are [uint32_t] /
    [uint64_t] and wrap. *)
From Stdlib Require Import Strings.String Sorting.Permutation.
From S2P Require Import Prelude OrderedMap Sort Core Codec Hash Ids Domain Policy Fixtures.
Local Open Scope Z_scope.

(** include/blackhole/diagnosis/classifier.hpp:19-46 EvidenceCensus *)
Record EvidenceCensus := MkCensus {
  total : Z;
  fresh_current : Z;
  stale : Z;
  generation_mismatch : Z;
  quality_rejected : Z;
  invalid : Z;
  complete_failures : Z;
  clean_successes : Z;
  congestion_signals : Z;
  partition_signals : Z;
  withdrawals : Z;
  n_failure_sources : Z;
  failure_incarnations : Z;
  n_success_sources : Z;
  success_incarnations : Z;
  failure_attempts : Z;
  failure_losses : Z;
  success_attempts : Z;
  min_loss_ppm : Z;
  max_loss_ppm : Z;
  mismatch : GenMismatch.t;
}.

Definition empty_census : EvidenceCensus :=
  MkCensus 0 0 0 0 0 0 0 0 0 0 0 0 0 0 0 0 0 0 0 0 GenMismatch.None.

(** include/blackhole/diagnosis/classifier.hpp:48-71 Diagnosis *)
Record Diagnosis := MkDiagnosis {
  d_outcome : Outcome;
  classification : Classification.t;
  primary_reason : ReasonCode.t;
  d_reasons : list ReasonCode.t;
  d_scope : Scope;
  d_gens : GenerationVector;
  census : EvidenceCensus;
  decided_at : WallNs;
  corroborated : bool;
  corroboration_reason : ReasonCode.t;
  confidence_ppm : Z;
  failure_sources : list SourceRef;
  success_sources : list SourceRef;
}.

(** include/blackhole/diagnosis/classifier.hpp:73-79 ClassifyRequest *)
Record ClassifyRequest := MkRequest {
  req_scope : Scope;
  req_current : GenerationVector;
  req_now : WallNs;
  req_policy : option FencePolicy;
  req_evidence : list DeliveryEvidence;
}.

(** src/diagnosis/classifier.cpp:13-17 add_reason *)
Definition add_reason (c : ReasonCode.t) (max_reasons : Z) (rs : list ReasonCode.t) : list ReasonCode.t :=
  if max_reasons <=? zlen rs then rs
  else if existsb (fun r => r == c) rs then rs
  else rs ++ [c].

(** ** The census *)

(** The local variables of the scan over the evidence. *)
Record Scan := MkScan {
  s_census : EvidenceCensus;
  s_failure_sources : list SourceRef;
  s_success_sources : list SourceRef;
  attempts_by_source : list (SourceRef * Z);
  any_quality_rejected : bool;
  any_invalid : bool;
  worst_mismatch : GenMismatch.t;
}.

Definition incr32 (v : Z) : Z := wrap 32 (v + 1).

(** [complete] and [clean], lines 104-106. *)
Definition complete_failure (policy : FencePolicy) (e : DeliveryEvidence) : bool :=
  (complete_failure_ppm policy <=? loss_ppm e) && (0 <? failures e) && (failures e =? attempts e).

Definition clean_success (e : DeliveryEvidence) : bool :=
  (failures e =? 0) && (0 <? attempts e) && (loss_ppm e =? 0).

Definition merge_mismatch (worst m : GenMismatch.t) : GenMismatch.t :=
  if worst == GenMismatch.None then m
  else if worst != m then GenMismatch.Multiple else worst.

Definition with_census (s : Scan) (c : EvidenceCensus) : Scan :=
  MkScan c (s_failure_sources s) (s_success_sources s) (attempts_by_source s)
    (any_quality_rejected s) (any_invalid s) (worst_mismatch s).

(** A delivery observation in the scan, lines 99-119. *)
Definition scan_loss (policy : FencePolicy) (s : Scan) (e : DeliveryEvidence) : Scan :=
  let c := s_census s in
  let mn := Z.min (min_loss_ppm c) (loss_ppm e) in
  let mx := Z.max (max_loss_ppm c) (loss_ppm e) in
  if complete_failure policy e then
    MkScan
      (MkCensus (total c) (fresh_current c) (stale c) (generation_mismatch c) (quality_rejected c)
         (invalid c) (incr32 (complete_failures c)) (clean_successes c) (congestion_signals c)
         (partition_signals c) (withdrawals c) (n_failure_sources c) (failure_incarnations c)
         (n_success_sources c) (success_incarnations c)
         (u64_add (failure_attempts c) (attempts e)) (u64_add (failure_losses c) (failures e))
         (success_attempts c) mn mx (mismatch c))
      (set_insert (e_source e) (s_failure_sources s)) (s_success_sources s)
      (map_insert (e_source e)
         (u64_add (default 0 (map_find (e_source e) (attempts_by_source s))) (attempts e))
         (attempts_by_source s))
      (any_quality_rejected s) (any_invalid s) (worst_mismatch s)
  else if clean_success e then
    MkScan
      (MkCensus (total c) (fresh_current c) (stale c) (generation_mismatch c) (quality_rejected c)
         (invalid c) (complete_failures c) (incr32 (clean_successes c)) (congestion_signals c)
         (partition_signals c) (withdrawals c) (n_failure_sources c) (failure_incarnations c)
         (n_success_sources c) (success_incarnations c) (failure_attempts c) (failure_losses c)
         (u64_add (success_attempts c) (attempts e)) mn mx (mismatch c))
      (s_failure_sources s) (set_insert (e_source e) (s_success_sources s)) (attempts_by_source s)
      (any_quality_rejected s) (any_invalid s) (worst_mismatch s)
  else
    with_census s
      (MkCensus (total c) (fresh_current c) (stale c) (generation_mismatch c) (quality_rejected c)
         (invalid c) (complete_failures c) (clean_successes c) (congestion_signals c)
         (partition_signals c) (withdrawals c) (n_failure_sources c) (failure_incarnations c)
         (n_success_sources c) (success_incarnations c) (failure_attempts c) (failure_losses c)
         (success_attempts c) mn mx (mismatch c)).

(** The plain counters of the census. *)
Inductive Counter :=
| Total_ | FreshCurrent_ | Stale_ | GenerationMismatch_ | QualityRejected_ | Invalid_
| Congestion_ | Partition_ | Withdrawals_.
#[export] Instance Counter_eq_dec : EqDecision Counter.
Proof. solve_decision. Defined.

(** [++out.census.<counter>] *)
Definition bump (k : Counter) (s : Scan) : Scan :=
  let c := s_census s in
  let up k' v := if k == k' then incr32 v else v in
  with_census s
    (MkCensus (up Total_ (total c)) (up FreshCurrent_ (fresh_current c)) (up Stale_ (stale c))
       (up GenerationMismatch_ (generation_mismatch c)) (up QualityRejected_ (quality_rejected c))
       (up Invalid_ (invalid c)) (complete_failures c) (clean_successes c)
       (up Congestion_ (congestion_signals c)) (up Partition_ (partition_signals c))
       (up Withdrawals_ (withdrawals c)) (n_failure_sources c) (failure_incarnations c)
       (n_success_sources c) (success_incarnations c) (failure_attempts c) (failure_losses c)
       (success_attempts c) (min_loss_ppm c) (max_loss_ppm c) (mismatch c)).

(** src/diagnosis/classifier.cpp:60-121 classify (scan of one observation) *)
Definition scan_step (policy : FencePolicy) (current : GenerationVector) (now : WallNs)
  (s : Scan) (e : DeliveryEvidence) : Scan :=
  let s := bump Total_ s in
  if negb (structurally_valid e) then
    let s := bump Invalid_ s in
    MkScan (s_census s) (s_failure_sources s) (s_success_sources s) (attempts_by_source s)
      (any_quality_rejected s) true (worst_mismatch s)
  else if e_gens e != current then
    let s := bump GenerationMismatch_ s in
    MkScan (s_census s) (s_failure_sources s) (s_success_sources s) (attempts_by_source s)
      (any_quality_rejected s) (any_invalid s)
      (merge_mismatch (worst_mismatch s) (classify_mismatch (e_gens e) current))
  else if negb (is_fresh_at e now) then bump Stale_ s
  else if require_exact_quality policy && (quality e != EvidenceQuality.Exact) then
    let s := bump QualityRejected_ s in
    MkScan (s_census s) (s_failure_sources s) (s_success_sources s) (attempts_by_source s)
      true (any_invalid s) (worst_mismatch s)
  else
    let s := bump FreshCurrent_ s in
    match e_kind e with
    | EvidenceKind.StructuralWithdrawal => bump Withdrawals_ s
    | EvidenceKind.CongestionSignal => bump Congestion_ s
    | EvidenceKind.PartitionSignal => bump Partition_ s
    | EvidenceKind.DeliverySuccess | EvidenceKind.DeliveryFailure
    | EvidenceKind.LossMeasurement => scan_loss policy s e
    end.

(** The scan starts with [min_loss_ppm = kLossTotalPpm], lines 49-58. *)
Definition scan_start : Scan :=
  MkScan (MkCensus 0 0 0 0 0 0 0 0 0 0 0 0 0 0 0 0 0 0 kLossTotalPpm 0 GenMismatch.None)
    [] [] [] false false GenMismatch.None.

Definition incarnations_of (ss : list SourceRef) : list IncarnationId :=
  foldl (fun s r => set_insert (sr_incarnation r) s) [] ss.

(** src/diagnosis/classifier.cpp:123-137 classify (totals of the scan) *)
Definition finish_census (s : Scan) : EvidenceCensus :=
  let c := s_census s in
  MkCensus (total c) (fresh_current c) (stale c) (generation_mismatch c) (quality_rejected c)
    (invalid c) (complete_failures c) (clean_successes c) (congestion_signals c)
    (partition_signals c) (withdrawals c)
    (wrap 32 (zlen (s_failure_sources s))) (wrap 32 (zlen (incarnations_of (s_failure_sources s))))
    (wrap 32 (zlen (s_success_sources s))) (wrap 32 (zlen (incarnations_of (s_success_sources s))))
    (failure_attempts c) (failure_losses c) (success_attempts c) (min_loss_ppm c)
    (max_loss_ppm c) (worst_mismatch s).

(** ** Corroboration *)

(** src/diagnosis/classifier.cpp:251-279 evaluate_corroboration *)
Definition evaluate_corroboration (d : Diagnosis) (policy : FencePolicy) : bool * ReasonCode.t :=
  if classification d != Classification.Blackhole then (false, ReasonCode.PolicyRefused)
  else if d_outcome d != Ok then (false, ReasonCode.PolicyRefused)
  else if n_failure_sources (census d) <? min_corroborating_sources policy then
    (false, ReasonCode.SourcesInsufficient)
  else if failure_incarnations (census d) <? min_distinct_incarnations policy then
    (false, ReasonCode.IncarnationsInsufficient)
  else if failure_attempts (census d) <? min_total_attempts policy then
    (false, ReasonCode.AttemptsInsufficient)
  else if require_full_generation_agreement policy && (0 <? generation_mismatch (census d)) then
    (false, ReasonCode.GenerationMismatch)
  else (true, ReasonCode.CorroborationSatisfied).

(** ** Classification *)

(** The verdict of the precedence rules: outcome, classification, primary reason, the
    reasons offered in order, and the confidence. *)
Record Verdict := MkVerdict {
  v_outcome : Outcome;
  v_class : Classification.t;
  v_primary : ReasonCode.t;
  v_reasons : list ReasonCode.t;
  v_confidence : Z;
}.

(** src/diagnosis/classifier.cpp:139-248 classify (precedence rules) *)
Definition decide_verdict (policy : FencePolicy) (c : EvidenceCensus) (any_quality any_inv : bool)
  : Verdict :=
  if total c =? 0 then
    MkVerdict NoEvidence Classification.NoEvidence ReasonCode.NoEvidenceObserved
      [ReasonCode.NoEvidenceObserved] 0
  else if fresh_current c =? 0 then
    let quality_reason := if any_quality then [ReasonCode.QualityBelowPolicy] else [] in
    if (0 <? stale c) && (generation_mismatch c =? 0) then
      MkVerdict Stale Classification.Unknown ReasonCode.OnlyStaleEvidence
        ([ReasonCode.OnlyStaleEvidence; ReasonCode.FreshnessWindowExpired] ++ quality_reason) 0
    else if 0 <? generation_mismatch c then
      MkVerdict Stale Classification.Unknown ReasonCode.GenerationMismatch
        ([ReasonCode.GenerationMismatch] ++ quality_reason) 0
    else if 0 <? quality_rejected c then
      MkVerdict Unknown Classification.Unknown ReasonCode.QualityBelowPolicy
        ([ReasonCode.QualityBelowPolicy] ++ quality_reason) 0
    else
      MkVerdict Unknown Classification.Unknown ReasonCode.InvalidEvidenceRejected
        ([if any_inv then ReasonCode.InvalidEvidenceRejected else ReasonCode.OnlyStaleEvidence]
         ++ quality_reason) 0
  else if (0 <? withdrawals c) && (clean_successes c =? 0) then
    MkVerdict Unsupported Classification.Unknown ReasonCode.StructurallyWithdrawn
      [ReasonCode.StructurallyWithdrawn] 0
  else if 0 <? partition_signals c then
    MkVerdict Ok Classification.Partitioned ReasonCode.PartitionExplainsLoss
      [ReasonCode.PartitionExplainsLoss] 0
  else if 0 <? congestion_signals c then
    MkVerdict Ok Classification.Congested ReasonCode.CongestionExplainsLoss
      [ReasonCode.CongestionExplainsLoss] 0
  else if (0 <? complete_failures c) && (0 <? clean_successes c) then
    MkVerdict Conflict Classification.Unknown ReasonCode.ConflictingEvidence
      [ReasonCode.ConflictingEvidence] 0
  else if 0 <? complete_failures c then
    let src := n_failure_sources c in
    let need := min_corroborating_sources policy in
    MkVerdict Ok Classification.Blackhole ReasonCode.CompleteDeliveryFailure
      [ReasonCode.CompleteDeliveryFailure]
      (if need <=? src then kLossTotalPpm else wrap 32 (src * kLossTotalPpm / need))
  else if 0 <? max_loss_ppm c then
    let primary := if severe_loss_ppm policy <=? max_loss_ppm c then ReasonCode.SevereLossObserved
                   else ReasonCode.PartialLossObserved in
    MkVerdict Ok Classification.Lossy primary [primary] (max_loss_ppm c)
  else
    MkVerdict Ok Classification.Healthy ReasonCode.RestorationEvidenceFresh
      [ReasonCode.RestorationEvidenceFresh] kLossTotalPpm.

Definition add_reasons (rs : list ReasonCode.t) (max : Z) (acc : list ReasonCode.t)
  : list ReasonCode.t := foldl (fun acc r => add_reason r max acc) acc rs.

(** [out = Diagnosis{}] with scope, vector and time; refused input. *)
Definition refused_diagnosis (req : ClassifyRequest) (max : Z) : Diagnosis :=
  MkDiagnosis Invalid Classification.Unknown ReasonCode.UnsupportedInput
    (add_reason ReasonCode.UnsupportedInput max []) (req_scope req) (req_current req) empty_census
    (req_now req) false ReasonCode.CorroborationInsufficient 0 [] [].

(** src/diagnosis/classifier.cpp:26-249 classify *)
Definition classify (req : ClassifyRequest) : Diagnosis :=
  match req_policy req with
  | None => refused_diagnosis req 8
  | Some policy =>
      let max_reasons := max_reasons_per_decision policy in
      if negb (scope_valid (req_scope req)) || negb (is_complete (req_current req)) then
        refused_diagnosis req max_reasons
      else
        let s := foldl (scan_step policy (req_current req) (req_now req)) scan_start (req_evidence req) in
        let c := finish_census s in
        let v := decide_verdict policy c (any_quality_rejected s) (any_invalid s) in
        let d := MkDiagnosis (v_outcome v) (v_class v) (v_primary v)
                   (add_reasons (v_reasons v) max_reasons []) (req_scope req) (req_current req) c
                   (req_now req) false ReasonCode.CorroborationInsufficient (v_confidence v)
                   (s_failure_sources s) (s_success_sources s) in
        if v_class v == Classification.Blackhole then
          let '(ok, reason) := evaluate_corroboration d policy in
          MkDiagnosis (d_outcome d) (classification d) (primary_reason d)
            (add_reason reason max_reasons (d_reasons d)) (d_scope d) (d_gens d) (census d)
            (decided_at d) ok reason (confidence_ppm d) (failure_sources d) (success_sources d)
        else d
  end.

(** src/diagnosis/classifier.cpp:281-301 diagnosis_fingerprint *)
Definition diagnosis_fingerprint (d : Diagnosis) : Z :=
  let c := census d in
  let w := seqw ([w_enum8 (d_outcome d); w_enum16 (classification d); w_enum16 (primary_reason d);
                  encode (d_scope d); encode (d_gens d); w_u32 (total c); w_u32 (fresh_current c);
                  w_u32 (complete_failures c); w_u32 (clean_successes c);
                  w_u32 (congestion_signals c); w_u32 (partition_signals c);
                  w_u32 (withdrawals c); w_u32 (n_failure_sources c);
                  w_u32 (failure_incarnations c); w_u64 (failure_attempts c)]
                 ++ map encode (failure_sources d)) (new_Writer 1024) in
  if negb (ok_ w) then 0 else fnv1a64 (buf_ w).

(** ** The census as counts over the evidence *)

Section Census.
Context (policy : FencePolicy) (current : GenerationVector) (now : WallNs).

Definition current_gens (e : DeliveryEvidence) : bool := structurally_valid e && (e_gens e == current).
Definition fresh_now (e : DeliveryEvidence) : bool := current_gens e && is_fresh_at e now.
Definition weak_quality (e : DeliveryEvidence) : bool :=
  require_exact_quality policy && (quality e != EvidenceQuality.Exact).

(** What may influence the classification: structurally valid, bound to the exact
    generation vector, fresh at the decision time, of sufficient quality. *)
Definition usable (e : DeliveryEvidence) : bool := fresh_now e && negb (weak_quality e).

Definition is_loss_kind (k : EvidenceKind.t) : bool :=
  (k == EvidenceKind.DeliverySuccess) || (k == EvidenceKind.DeliveryFailure)
  || (k == EvidenceKind.LossMeasurement).

Definition usable_kind (k : EvidenceKind.t) (e : DeliveryEvidence) : bool := usable e && (e_kind e == k).
Definition usable_loss (e : DeliveryEvidence) : bool := usable e && is_loss_kind (e_kind e).
Definition usable_complete (e : DeliveryEvidence) : bool := usable_loss e && complete_failure policy e.
Definition usable_clean (e : DeliveryEvidence) : bool := usable_loss e && clean_success e.

Definition count (p : DeliveryEvidence -> bool) (l : list DeliveryEvidence) : Z :=
  wrap 32 (zlen (List.filter p l)).
Definition sum_of (f : DeliveryEvidence -> Z) (l : list DeliveryEvidence) : Z :=
  foldr (fun e acc => f e + acc) 0 l.

Lemma count_snoc p l e : count p (l ++ [e]) = if p e then incr32 (count p l) else count p l.
Proof.
  unfold count, incr32. rewrite List.filter_app. simpl.
  destruct (p e); autorewrite with zlen; unfold wrap; rewrite ?Zplus_mod_idemp_l; f_equal; lia.
Qed.

Lemma filter_snoc {A} (p : A -> bool) l x :
  List.filter p (l ++ [x]) = if p x then List.filter p l ++ [x] else List.filter p l.
Proof. rewrite List.filter_app. simpl. by destruct (p x); rewrite ?app_nil_r. Qed.

Lemma sum_of_snoc f l e : sum_of f (l ++ [e]) = sum_of f l + f e.
Proof. induction l as [| x l IH]; simpl; [lia |]. unfold sum_of in *. rewrite IH. lia. Qed.

Definition mismatches (l : list DeliveryEvidence) : list GenMismatch.t :=
  map (fun e => classify_mismatch (e_gens e) current)
    (List.filter (fun e => structurally_valid e && (e_gens e != current)) l).

Definition loss_values (l : list DeliveryEvidence) : list Z := map loss_ppm (List.filter usable_loss l).
Definition sources_of (p : DeliveryEvidence -> bool) (l : list DeliveryEvidence) : list SourceRef :=
  set_of (map e_source (List.filter p l)).

(** The census of a list of observations, by counting. *)
Definition census_ref (l : list DeliveryEvidence) : EvidenceCensus :=
  MkCensus (count (fun _ => true) l) (count usable l)
    (count (fun e => current_gens e && negb (is_fresh_at e now)) l)
    (count (fun e => structurally_valid e && (e_gens e != current)) l)
    (count (fun e => fresh_now e && weak_quality e) l)
    (count (fun e => negb (structurally_valid e)) l)
    (count usable_complete l) (count usable_clean l)
    (count (usable_kind EvidenceKind.CongestionSignal) l)
    (count (usable_kind EvidenceKind.PartitionSignal) l)
    (count (usable_kind EvidenceKind.StructuralWithdrawal) l)
    0 0 0 0
    (wrap 64 (sum_of attempts (List.filter usable_complete l)))
    (wrap 64 (sum_of failures (List.filter usable_complete l)))
    (wrap 64 (sum_of attempts (List.filter usable_clean l)))
    (foldl Z.min kLossTotalPpm (loss_values l)) (foldl Z.max 0 (loss_values l))
    GenMismatch.None.

Definition scan (l : list DeliveryEvidence) : Scan := foldl (scan_step policy current now) scan_start l.

Lemma complete_not_clean e : complete_failure policy e = true -> clean_success e = false.
Proof.
  unfold complete_failure, clean_success. intros H. bool_prop.
  rewrite (proj2 (Z.eqb_neq (failures e) 0)) by lia. done.
Qed.

(** One delivery observation in the scan against the counts. *)
Lemma scan_loss_step t fr st gm qr inv co cl cg pt wd fa fl sa mn mx fs ss ab aq ai wm e
  (s := MkScan (MkCensus t fr st gm qr inv co cl cg pt wd 0 0 0 0 (wrap 64 fa) (wrap 64 fl)
                  (wrap 64 sa) mn mx GenMismatch.None) fs ss ab aq ai wm)
  (complete := complete_failure policy e) (clean := clean_success e) :
  let s' := scan_loss policy s e in
  s_census s' =
    MkCensus t fr st gm qr inv (if complete then incr32 co else co) (if clean then incr32 cl else cl)
      cg pt wd 0 0 0 0 (wrap 64 (if complete then fa + attempts e else fa))
      (wrap 64 (if complete then fl + failures e else fl))
      (wrap 64 (if clean then sa + attempts e else sa))
      (Z.min mn (loss_ppm e)) (Z.max mx (loss_ppm e)) GenMismatch.None /\
  s_failure_sources s' = (if complete then set_insert (e_source e) fs else fs) /\
  s_success_sources s' = (if clean then set_insert (e_source e) ss else ss) /\
  any_quality_rejected s' = aq /\ any_invalid s' = ai /\ worst_mismatch s' = wm.
Proof.
  subst s complete clean. cbv zeta. pose proof (complete_not_clean e) as Hx.
  unfold scan_loss, u64_add, wrap.
  destruct (complete_failure policy e); [rewrite (Hx eq_refl) | destruct (clean_success e)];
    cbn -[Z.add Z.modulo Z.pow]; rewrite ?Zplus_mod_idemp_l; repeat split.
Qed.

Lemma sum_of_if f (b : bool) l e :
  sum_of f (if b then l ++ [e] else l) = if b then sum_of f l + f e else sum_of f l.
Proof. destruct b; [apply sum_of_snoc | done]. Qed.

Lemma sources_if (b : bool) l e :
  set_of (map e_source (if b then l ++ [e] else l)) =
  if b then set_insert (e_source e) (set_of (map e_source l)) else set_of (map e_source l).
Proof. destruct b; [rewrite map_app; apply set_of_snoc | done]. Qed.

Lemma scan_ref l :
  let s := scan l in
  s_census s = census_ref l /\
  s_failure_sources s = sources_of usable_complete l /\
  s_success_sources s = sources_of usable_clean l /\
  any_quality_rejected s = existsb (fun e => fresh_now e && weak_quality e) l /\
  any_invalid s = existsb (fun e => negb (structurally_valid e)) l /\
  worst_mismatch s = foldl merge_mismatch GenMismatch.None (mismatches l).
Proof.
  induction l as [| e l IH] using rev_ind; [done |]. cbv zeta in *.
  unfold scan in *. rewrite foldl_app. cbn [foldl].
  set (s := foldl (scan_step policy current now) scan_start l) in *. clearbody s.
  destruct s as [c fs ss ab aq ai wm]. cbn [s_census s_failure_sources s_success_sources
    any_quality_rejected any_invalid worst_mismatch] in IH.
  destruct IH as (-> & -> & -> & -> & -> & ->).
  unfold census_ref, loss_values, mismatches, sources_of.
  rewrite !count_snoc, !existsb_app, !filter_snoc. cbn [existsb].
  unfold usable_complete, usable_clean, usable_kind, usable_loss, usable, fresh_now, current_gens, scan_step.
  fold (weak_quality e).
  destruct (structurally_valid e) eqn:Hsv; cbn [negb andb orb];
    [| rewrite ?orb_true_r, ?orb_false_r; repeat split].
  destruct (e_gens e == current); cbn [negb andb orb];
    [| rewrite ?orb_true_r, ?orb_false_r, ?map_app, ?foldl_app; repeat split].
  destruct (is_fresh_at e now); cbn [negb andb orb];
    [| rewrite ?orb_true_r, ?orb_false_r; repeat split].
  destruct (weak_quality e); cbn [negb andb orb];
    [rewrite ?orb_true_r, ?orb_false_r; repeat split |].
  rewrite ?orb_false_r.
  destruct (e_kind e); unfold is_loss_kind; enum_eval; cbn [andb negb]; try (repeat split; fail).
  all: rewrite !sum_of_if, !sources_if, !map_app, !foldl_app; apply scan_loss_step.
Qed.
End Census.

(** ** Order independence *)

Lemma filter_Permutation {A} (p : A -> bool) l k :
  Permutation l k -> Permutation (List.filter p l) (List.filter p k).
Proof.
  induction 1 as [| x l k _ IH | x y l | l k m _ IH1 _ IH2]; simpl.
  - done.
  - destruct (p x); [by constructor | done].
  - destruct (p x), (p y); try done. apply Permutation_swap.
  - by rewrite IH1.
Qed.

Lemma zlen_perm {A} (l k : list A) : Permutation l k -> zlen l = zlen k.
Proof. intros H. unfold zlen. by rewrite (Permutation_length H). Qed.

Lemma count_perm p l k : Permutation l k -> count p l = count p k.
Proof. intros H. unfold count. by rewrite (zlen_perm _ _ (filter_Permutation p _ _ H)). Qed.

Lemma sum_of_perm f l k : Permutation l k -> sum_of f l = sum_of f k.
Proof. unfold sum_of. induction 1; simpl; lia. Qed.

Lemma foldl_comm_perm {A B} (f : B -> A -> B) l k b :
  (forall b x y, f (f b x) y = f (f b y) x) -> Permutation l k -> foldl f b l = foldl f b k.
Proof.
  intros Hf Hp. revert b. induction Hp as [| x l k _ IH | x y l | l k m _ IH1 _ IH2]; intros b; simpl; auto.
  - by rewrite Hf.
  - by rewrite IH1.
Qed.

Lemma existsb_perm {A} (p : A -> bool) l k : Permutation l k -> existsb p l = existsb p k.
Proof.
  induction 1 as [| x l k _ IH | x y l | l k m _ IH1 _ IH2]; simpl.
  - done.
  - by rewrite IH.
  - by destruct (p x), (p y).
  - by rewrite IH1.
Qed.

Lemma merge_mismatch_comm w a b :
  a <> GenMismatch.None -> b <> GenMismatch.None ->
  merge_mismatch (merge_mismatch w a) b = merge_mismatch (merge_mismatch w b) a.
Proof. by destruct w, a, b. Qed.

Lemma merge_mismatch_perm l k b :
  Forall (fun m => m <> GenMismatch.None) l -> Permutation l k ->
  foldl merge_mismatch b l = foldl merge_mismatch b k.
Proof.
  intros Hl Hp. revert b Hl. induction Hp as [| x l k _ IH | x y l | l k m Hp1 IH1 _ IH2]; intros b Hl; simpl; auto.
  - apply IH. by inversion Hl.
  - inversion_clear Hl as [| ? ? Hx Hl']. inversion_clear Hl' as [| ? ? Hy _].
    by rewrite merge_mismatch_comm.
  - rewrite IH1 by done. apply IH2. by rewrite <- Hp1.
Qed.

Lemma mismatches_not_none current l : Forall (fun m => m <> GenMismatch.None) (mismatches current l).
Proof.
  apply List.Forall_forall. intros m Hm. unfold mismatches in Hm.
  apply in_map_iff in Hm as (e & <- & He). apply filter_In in He as [_ He]. bool_prop.
  by rewrite classify_mismatch_none.
Qed.

Lemma census_ref_perm policy current now l k :
  Permutation l k -> census_ref policy current now l = census_ref policy current now k.
Proof.
  intros Hp. unfold census_ref, loss_values.
  pose proof (fun p => filter_Permutation p _ _ Hp) as Hf.
  rewrite !(count_perm _ _ _ Hp).
  rewrite !(sum_of_perm _ _ _ (Hf _)).
  rewrite (foldl_comm_perm Z.min _ _ _ ltac:(intros; lia) (Permutation_map loss_ppm (Hf (usable_loss policy current now)))).
  by rewrite (foldl_comm_perm Z.max _ _ _ ltac:(intros; lia) (Permutation_map loss_ppm (Hf (usable_loss policy current now)))).
Qed.

Lemma sources_of_perm p l k : Permutation l k -> sources_of p l = sources_of p k.
Proof. intros Hp. apply set_of_perm, Permutation_map. by apply filter_Permutation. Qed.

(** [classify] over the counted census. *)
Definition finished (policy : FencePolicy) (current : GenerationVector) (now : WallNs)
  (l : list DeliveryEvidence) : EvidenceCensus :=
  let c := census_ref policy current now l in
  let fs := sources_of (usable_complete policy current now) l in
  let ss := sources_of (usable_clean policy current now) l in
  MkCensus (total c) (fresh_current c) (stale c) (generation_mismatch c) (quality_rejected c)
    (invalid c) (complete_failures c) (clean_successes c) (congestion_signals c)
    (partition_signals c) (withdrawals c) (wrap 32 (zlen fs)) (wrap 32 (zlen (incarnations_of fs)))
    (wrap 32 (zlen ss)) (wrap 32 (zlen (incarnations_of ss)))
    (failure_attempts c) (failure_losses c) (success_attempts c) (min_loss_ppm c)
    (max_loss_ppm c) (foldl merge_mismatch GenMismatch.None (mismatches current l)).

Definition base_diagnosis (policy : FencePolicy) (req : ClassifyRequest) : Diagnosis :=
  let l := req_evidence req in
  let current := req_current req in
  let now := req_now req in
  let c := finished policy current now l in
  let v := decide_verdict policy c
             (existsb (fun e => fresh_now current now e && weak_quality policy e) l)
             (existsb (fun e => negb (structurally_valid e)) l) in
  MkDiagnosis (v_outcome v) (v_class v) (v_primary v)
    (add_reasons (v_reasons v) (max_reasons_per_decision policy) [])
    (req_scope req) current c now false ReasonCode.CorroborationInsufficient
    (v_confidence v) (sources_of (usable_complete policy current now) l)
    (sources_of (usable_clean policy current now) l).

Definition conclude (policy : FencePolicy) (d : Diagnosis) : Diagnosis :=
  if classification d == Classification.Blackhole then
    let '(ok, reason) := evaluate_corroboration d policy in
    MkDiagnosis (d_outcome d) (classification d) (primary_reason d)
      (add_reason reason (max_reasons_per_decision policy) (d_reasons d)) (d_scope d) (d_gens d)
      (census d) (decided_at d) ok reason (confidence_ppm d) (failure_sources d) (success_sources d)
  else d.

Definition classified (policy : FencePolicy) (req : ClassifyRequest) : Diagnosis :=
  conclude policy (base_diagnosis policy req).

Lemma conclude_class policy d : classification (conclude policy d) = classification d.
Proof.
  unfold conclude. destruct (classification d == Classification.Blackhole); [| done].
  by destruct (evaluate_corroboration d policy).
Qed.

Lemma conclude_corroborated policy d :
  corroborated d = false ->
  corroborated (conclude policy d) =
  (classification d == Classification.Blackhole) && (evaluate_corroboration d policy).1.
Proof.
  intros Hd. unfold conclude. destruct (classification d == Classification.Blackhole); [| done].
  by destruct (evaluate_corroboration d policy).
Qed.

Definition request_ok (req : ClassifyRequest) : bool :=
  scope_valid (req_scope req) && is_complete (req_current req).

Lemma classify_classified req policy :
  req_policy req = Some policy -> request_ok req = true -> classify req = classified policy req.
Proof.
  intros Hp Hok. unfold classify, classified, conclude, base_diagnosis. rewrite Hp.
  unfold request_ok in Hok. bool_prop. rewrite H, H0. cbn [negb orb]. cbv zeta.
  pose proof (scan_ref policy (req_current req) (req_now req) (req_evidence req)) as Hs.
  unfold scan in Hs. destruct (foldl _ scan_start (req_evidence req)) as [c fs ss ab aq ai wm].
  cbn [s_census s_failure_sources s_success_sources any_quality_rejected any_invalid worst_mismatch] in Hs.
  by destruct Hs as (-> & -> & -> & -> & -> & ->).
Qed.

Lemma classify_refused req :
  request_ok req = false \/ req_policy req = None ->
  classify req = refused_diagnosis req (if req_policy req is Some p then max_reasons_per_decision p else 8).
Proof.
  unfold classify, request_ok. intros Hr. destruct (req_policy req) as [p |]; [| done].
  destruct Hr as [Hr |]; [| done]. apply andb_false_iff in Hr.
  by destruct Hr as [-> | ->]; rewrite ?orb_true_r.
Qed.

Definition with_evidence (req : ClassifyRequest) (l : list DeliveryEvidence) : ClassifyRequest :=
  MkRequest (req_scope req) (req_current req) (req_now req) (req_policy req) l.

Lemma classify_order req l k :
  Permutation l k -> classify (with_evidence req l) = classify (with_evidence req k).
Proof.
  intros Hp. destruct (req_policy req) as [policy |] eqn:E.
  - destruct (request_ok req) eqn:Hok.
    + rewrite !(classify_classified _ policy) by done. unfold classified, base_diagnosis.
      cbn [with_evidence req_evidence req_current req_now req_scope].
      assert (finished policy (req_current req) (req_now req) l =
              finished policy (req_current req) (req_now req) k) as ->.
      { unfold finished. rewrite (census_ref_perm _ _ _ _ _ Hp), !(sources_of_perm _ _ _ Hp).
        rewrite (merge_mismatch_perm (mismatches (req_current req) l) (mismatches (req_current req) k));
          [done | apply mismatches_not_none |].
        by apply Permutation_map, filter_Permutation. }
      by rewrite !(existsb_perm _ _ _ Hp), !(sources_of_perm _ _ _ Hp).
    + rewrite !classify_refused by (by left). done.
  - rewrite !classify_refused by (by right). done.
Qed.

(** ** The precedence rules *)

Lemma count_pos p l :
  zlen l < 2 ^ 32 ->
  (0 <? count p l) = existsb p l /\ (count p l =? 0) = negb (existsb p l).
Proof.
  intros Hl. assert (count p l = zlen (List.filter p l)) as ->.
  { unfold count. apply wrap_small. unfold in_u, zlen in *.
    pose proof (filter_length_le p l). lia. }
  clear Hl. induction l as [| x l IH]; simpl; [done |].
  destruct (p x); cbn [orb negb]; [| exact IH].
  autorewrite with zlen. pose proof (zlen_nonneg (List.filter p l)).
  split; [apply Z.ltb_lt | apply Z.eqb_neq]; lia.
Qed.

Lemma max_loss_pos l m :
  0 <= m -> (0 <? foldl Z.max m l) = (0 <? m) || existsb (fun v => 0 <? v) l.
Proof.
  revert m. induction l as [| v l IH]; intros m Hm; simpl; [by rewrite orb_false_r |].
  rewrite IH by lia. rewrite orb_assoc. f_equal.
  destruct (Z.ltb_spec 0 m), (Z.ltb_spec 0 v), (Z.ltb_spec 0 (Z.max m v)); simpl; try done; lia.
Qed.

(** The decision table of the program, on the presence of usable observations. *)
Definition rule (policy : FencePolicy) (current : GenerationVector) (now : WallNs)
  (l : list DeliveryEvidence) : Classification.t :=
  let has p := existsb p l in
  if negb (has (fun _ => true)) then Classification.NoEvidence
  else if negb (has (usable policy current now)) then Classification.Unknown
  else if has (usable_kind policy current now EvidenceKind.StructuralWithdrawal)
          && negb (has (usable_clean policy current now)) then Classification.Unknown
  else if has (usable_kind policy current now EvidenceKind.PartitionSignal) then Classification.Partitioned
  else if has (usable_kind policy current now EvidenceKind.CongestionSignal) then Classification.Congested
  else if has (usable_complete policy current now) && has (usable_clean policy current now) then
    Classification.Unknown
  else if has (usable_complete policy current now) then Classification.Blackhole
  else if has (fun e => usable_loss policy current now e && (0 <? loss_ppm e)) then Classification.Lossy
  else Classification.Healthy.

Lemma existsb_loss policy current now l :
  existsb (fun v => 0 <? v) (loss_values policy current now l) =
  existsb (fun e => usable_loss policy current now e && (0 <? loss_ppm e)) l.
Proof.
  unfold loss_values. induction l as [| e l IH]; simpl; [done |].
  destruct (usable_loss policy current now e); simpl; by rewrite IH.
Qed.

Lemma verdict_rule policy current now l q i :
  zlen l < 2 ^ 32 ->
  v_class (decide_verdict policy (finished policy current now l) q i) = rule policy current now l.
Proof.
  intros Hl. unfold decide_verdict, rule, finished.
  cbn [total fresh_current stale generation_mismatch quality_rejected withdrawals clean_successes
       partition_signals congestion_signals complete_failures max_loss_ppm census_ref n_failure_sources].
  rewrite !(proj1 (count_pos _ _ Hl)), !(proj2 (count_pos _ _ Hl)), max_loss_pos, existsb_loss by done.
  cbn [Z.ltb Z.compare orb].
  repeat match goal with |- context [existsb ?p l] => destruct (existsb p l) end; cbn [negb andb];
    repeat split_if; done.
Qed.

(** ** Main theorems *)

(** The premises under which a subject is a blackhole, in terms of the evidence. *)
Definition blackhole_evidence (policy : FencePolicy) (req : ClassifyRequest) : Prop :=
  let u := usable policy (req_current req) (req_now req) in
  (exists e, In e (req_evidence req) /\ u e = true /\ is_loss_kind (e_kind e) = true /\
             complete_failure policy e = true) /\
  (forall e, In e (req_evidence req) -> u e = true ->
     e_kind e <> EvidenceKind.PartitionSignal /\ e_kind e <> EvidenceKind.CongestionSignal /\
     e_kind e <> EvidenceKind.StructuralWithdrawal /\
     ~ (is_loss_kind (e_kind e) = true /\ clean_success e = true)).

Lemma existsb_false {A} (p : A -> bool) l : existsb p l = false <-> forall x, In x l -> p x = false.
Proof.
  split.
  - intros H x Hx. apply not_true_is_false. intros Hp.
    assert (existsb p l = true) by (apply existsb_exists; eauto). congruence.
  - intros H. apply not_true_is_false. intros (x & Hx & Hp)%existsb_exists. by rewrite H in Hp.
Qed.

Lemma rule_blackhole policy req :
  rule policy (req_current req) (req_now req) (req_evidence req) = Classification.Blackhole <->
  blackhole_evidence policy req.
Proof.
  unfold rule, blackhole_evidence. set (l := req_evidence req).
  set (cur := req_current req). set (now := req_now req). split.
  - repeat split_if; try done. intros _. bool_prop. split.
    + apply existsb_exists in Heqb5 as (e & Hin & He). unfold usable_complete, usable_loss in He.
      bool_prop. by exists e.
    + intros e Hin Hu. rewrite existsb_false in *.
      repeat match goal with H : forall x, In x l -> _ = false |- _ => specialize (H e Hin) end.
      unfold usable_kind, usable_clean, usable_loss in *. rewrite Hu in *. cbn [andb] in *.
      bool_prop. repeat split; try done.
      * destruct Heqb1 as [Hw | Hw]; [| bool_prop].
        -- rewrite ?existsb_false in Hw. specialize (Hw e Hin). unfold usable_kind in Hw.
           rewrite Hu in Hw. cbn [andb] in Hw. by bool_prop.
        -- exfalso. destruct Heqb4 as [Hc | Hc]; rewrite ?existsb_false in Hc.
           ++ apply existsb_exists in Heqb5 as (x & Hx & Hxe). by rewrite Hc in Hxe.
           ++ apply existsb_exists in Hw as (x & Hx & Hxe). by rewrite Hc in Hxe.
      * intros [Hk Hcl]. destruct Heqb4 as [Hc | Hc].
        -- apply existsb_exists in Heqb5 as (x & Hx & Hxe).
           rewrite ?existsb_false in Hc. rewrite Hc in Hxe; done.
        -- rewrite ?existsb_false in Hc. specialize (Hc e Hin). unfold usable_clean, usable_loss in Hc.
           by rewrite Hu, Hk, Hcl in Hc.
  - intros [(e & Hin & Hu & Hk & Hc) Hno].
    assert (existsb (usable_complete policy cur now) l = true) as ->.
    { apply existsb_exists. exists e. unfold usable_complete, usable_loss. by rewrite Hu, Hk, Hc. }
    assert (existsb (usable policy cur now) l = true) as -> by (apply existsb_exists; eauto).
    assert (existsb (fun _ => true) l = true) as -> by (apply existsb_exists; eauto).
    assert (forall k, (forall x, In x l -> usable policy cur now x = true -> e_kind x <> k) ->
              existsb (usable_kind policy cur now k) l = false) as Hkind.
    { intros k Hx. apply existsb_false. intros x Hxin. unfold usable_kind.
      destruct (usable policy cur now x) eqn:E; [| done]. apply beq_ne. auto. }
    rewrite !Hkind by (intros x Hx Hxu; by apply Hno).
    assert (existsb (usable_clean policy cur now) l = false) as ->; [| done].
    apply existsb_false. intros x Hx. unfold usable_clean, usable_loss.
    destruct (usable policy cur now x) eqn:E; [| done].
    destruct (Hno x Hx E) as (_ & _ & _ & Hcl).
    destruct (is_loss_kind (e_kind x)), (clean_success x); try done. by destruct Hcl.
Qed.

Lemma classified_class policy req :
  zlen (req_evidence req) < 2 ^ 32 ->
  classification (classified policy req) =
  rule policy (req_current req) (req_now req) (req_evidence req).
Proof.
  intros Hl. rewrite <- (verdict_rule policy _ _ _
    (existsb (fun e => fresh_now (req_current req) (req_now req) e && weak_quality policy e) (req_evidence req))
    (existsb (fun e => negb (structurally_valid e)) (req_evidence req)) Hl).
  apply conclude_class.
Qed.

(** The same with the loss that README and [policy.hpp] call complete: everything was lost. *)
Definition unexplained_total_loss (policy : FencePolicy) (req : ClassifyRequest) : Prop :=
  let u := usable policy (req_current req) (req_now req) in
  (exists e, In e (req_evidence req) /\ u e = true /\ is_loss_kind (e_kind e) = true /\
             0 < attempts e /\ failures e = attempts e /\ loss_ppm e = kLossTotalPpm) /\
  (forall e, In e (req_evidence req) -> u e = true ->
     e_kind e <> EvidenceKind.PartitionSignal /\ e_kind e <> EvidenceKind.CongestionSignal /\
     e_kind e <> EvidenceKind.StructuralWithdrawal /\
     ~ (is_loss_kind (e_kind e) = true /\ clean_success e = true)).

Lemma usable_loss_bound policy cur now e : usable policy cur now e = true -> loss_ppm e <= kLossTotalPpm.
Proof.
  unfold usable, fresh_now, current_gens. intros Hu. bool_prop.
  assert (structurally_valid e = true) as Hv by assumption. clear -Hv. revert Hv.
  unfold structurally_valid, structurally_valid_why. destruct (Z.ltb_spec kLossTotalPpm (loss_ppm e)); [| done].
  repeat split_if; done.
Qed.

Lemma total_loss_evidence policy req :
  complete_failure_ppm policy = kLossTotalPpm -> blackhole_evidence policy req <-> unexplained_total_loss policy req.
Proof.
  intros Ht. unfold blackhole_evidence, unexplained_total_loss. apply and_iff_compat_r.
  split; intros (e & H1 & H2 & H3 & H4); exists e; (split; [exact H1 |]); (split; [exact H2 |]); (split; [exact H3 |]).
  - pose proof (usable_loss_bound _ _ _ _ H2). unfold complete_failure in H4. rewrite Ht in H4. bool_prop. lia.
  - unfold complete_failure. rewrite Ht. destruct H4 as (H4 & H5 & H6). rewrite H5, H6, !Z.leb_refl, Z.eqb_refl, andb_true_r.
    by apply Z.ltb_lt.
Qed.

(** C3: A subject is classified BLACKHOLE exactly when the request is well formed, some
    usable observation (valid, bound to the current generation vector, fresh, of accepted
    quality) reports complete delivery failure, and no usable observation is a clean
    success, a congestion or partition signal or a structural withdrawal. Complete is a
    matter of the policy: all attempts failed, with a loss of at least its
    [complete_failure_ppm]. Under the documented threshold of 1000000 it is total loss, so
    that no loss below 1000000 ppm is a BLACKHOLE; a policy may set the threshold lower. *)
Theorem blackhole_iff req policy :
  req_policy req = Some policy -> zlen (req_evidence req) < 2 ^ 32 ->
  (classification (classify req) = Classification.Blackhole <->
   request_ok req = true /\ blackhole_evidence policy req) /\
  (complete_failure_ppm policy = kLossTotalPpm ->
   classification (classify req) = Classification.Blackhole <->
   request_ok req = true /\ unexplained_total_loss policy req).
Proof.
  intros Hp Hl.
  assert (classification (classify req) = Classification.Blackhole <-> request_ok req = true /\ blackhole_evidence policy req) as H.
  { destruct (request_ok req) eqn:Hok.
    - rewrite (classify_classified req policy), classified_class, rule_blackhole by done. tauto.
    - rewrite classify_refused by (by left). split; [done | by intros [? _]]. }
  split; [exact H |]. intros Ht. by rewrite H, total_loss_evidence.
Qed.

Example blackhole_iff_witness :
  let req := MkRequest fx_scope fx_gens fx_now (Some default_policy) [fx_failure 1 1; fx_failure 2 2] in
  classification (classify req) = Classification.Blackhole /\ unexplained_total_loss default_policy req.
Proof.
  intros req.
  assert (classification (classify req) = Classification.Blackhole) as H by (vm_compute; reflexivity).
  split; [exact H |].
  apply (blackhole_iff req default_policy); [reflexivity | vm_compute; reflexivity | reflexivity | exact H].
Defined.

(** The table the comment of [classify] and the README give, word for word: complete failure
    is total loss, and a fresh structural withdrawal comes first whatever else is there.
    include/blackhole/diagnosis/classifier.hpp:83-92 classify (documented rules) *)
Definition documented_rule (policy : FencePolicy) (current : GenerationVector) (now : WallNs)
  (l : list DeliveryEvidence) : Classification.t :=
  let has p := existsb p l in
  let usable_total e := usable_loss policy current now e && is_complete_delivery_failure e in
  if negb (has (fun _ => true)) then Classification.NoEvidence
  else if negb (has (usable policy current now)) then Classification.Unknown
  else if has (usable_kind policy current now EvidenceKind.StructuralWithdrawal) then Classification.Unknown
  else if has (usable_kind policy current now EvidenceKind.PartitionSignal) then Classification.Partitioned
  else if has (usable_kind policy current now EvidenceKind.CongestionSignal) then Classification.Congested
  else if has usable_total && has (usable_clean policy current now) then Classification.Unknown
  else if has usable_total then Classification.Blackhole
  else if has (fun e => usable_loss policy current now e && (0 <? loss_ppm e)) then Classification.Lossy
  else Classification.Healthy.

(** A withdrawal contradicted by a clean success: where the code leaves the documented table. *)
Definition contradicted_withdrawal (policy : FencePolicy) (current : GenerationVector) (now : WallNs)
  (l : list DeliveryEvidence) : bool :=
  existsb (usable_kind policy current now EvidenceKind.StructuralWithdrawal) l && existsb (usable_clean policy current now) l.

Lemma usable_total_complete policy current now e :
  complete_failure_ppm policy = kLossTotalPpm ->
  usable_loss policy current now e && is_complete_delivery_failure e = usable_complete policy current now e.
Proof.
  intros Ht. unfold usable_complete, complete_failure, is_complete_delivery_failure. rewrite Ht.
  destruct (usable_loss _ _ _ _), (0 <? failures e), (failures e =? attempts e), (kLossTotalPpm <=? loss_ppm e); reflexivity.
Qed.

Lemma existsb_ext_all {A} (p q : A -> bool) l : (forall x, p x = q x) -> existsb p l = existsb q l.
Proof. intros H. induction l as [| x l IH]; simpl; [done | by rewrite H, IH]. Qed.

Lemma rule_documented policy current now l :
  complete_failure_ppm policy = kLossTotalPpm -> contradicted_withdrawal policy current now l = false ->
  rule policy current now l = documented_rule policy current now l.
Proof.
  intros Ht Hc. unfold rule, documented_rule. cbv zeta.
  rewrite !(existsb_ext_all _ _ l (fun e => usable_total_complete policy current now e Ht)).
  unfold contradicted_withdrawal in Hc. revert Hc.
  destruct (existsb (usable_kind policy current now EvidenceKind.StructuralWithdrawal) l); [| done].
  by destruct (existsb (usable_clean policy current now) l).
Qed.



(** A fresh withdrawal beside a clean success is HEALTHY, where the documented table has
    UNKNOWN. *)
Example withdrawal_ignored_beside_success :
  let withdrawn := fx_evidence fx_scope 1 1 1 EvidenceKind.StructuralWithdrawal 0 0 0 in
  let req := MkRequest fx_scope fx_gens fx_now (Some default_policy) [withdrawn; fx_success 2 2] in
  classification (classify req) = Classification.Healthy /\
  documented_rule default_policy fx_gens fx_now (req_evidence req) = Classification.Unknown.
Proof. vm_compute. by split. Qed.

(** C39: The whole diagnosis (outcome, classification, reasons, census, corroboration,
    confidence, sources) does not depend on the order of the observations. *)
Theorem classify_order_independent req l k :
  Permutation l k -> classify (with_evidence req l) = classify (with_evidence req k).
Proof. apply classify_order. Qed.

Example classify_order_independent_witness :
  let req := MkRequest fx_scope fx_gens fx_now (Some default_policy) [] in
  classify (with_evidence req [fx_failure 1 1; fx_success 2 2]) =
  classify (with_evidence req [fx_success 2 2; fx_failure 1 1]).
Proof. intros req. apply classify_order_independent. apply Permutation_swap. Defined.

(** The failing sources of a diagnosis, from the evidence. *)
Definition failing (policy : FencePolicy) (req : ClassifyRequest) : list SourceRef :=
  sources_of (usable_complete policy (req_current req) (req_now req)) (req_evidence req).

Definition total_failed_attempts (policy : FencePolicy) (req : ClassifyRequest) : Z :=
  sum_of attempts (List.filter (usable_complete policy (req_current req) (req_now req)) (req_evidence req)).

Lemma set_insert_length {K} `{OrdLaws K} (k : K) s : (length (set_insert k s) <= S (length s))%nat.
Proof. induction s as [| x s IH]; simpl; [lia |]. destruct (cmp k x); simpl; lia. Qed.

Lemma set_of_length {K} `{OrdLaws K} (l : list K) : (length (set_of l) <= length l)%nat.
Proof.
  induction l as [| x l IH] using rev_ind; [done |].
  rewrite set_of_snoc, length_app. pose proof (set_insert_length x (set_of l)). simpl. lia.
Qed.

Lemma incarnations_set ss : incarnations_of ss = set_of (map sr_incarnation ss).
Proof.
  unfold incarnations_of, set_of. generalize (@nil IncarnationId).
  induction ss as [| s ss IH]; intros acc; simpl; auto.
Qed.

Lemma failing_length policy req :
  zlen (failing policy req) <= zlen (req_evidence req) /\
  zlen (incarnations_of (failing policy req)) <= zlen (req_evidence req).
Proof.
  unfold failing, sources_of. rewrite incarnations_set. unfold zlen.
  set (p := usable_complete policy (req_current req) (req_now req)).
  pose proof (filter_length_le p (req_evidence req)).
  pose proof (set_of_length (map e_source (List.filter p (req_evidence req)))) as Hs.
  pose proof (set_of_length (map sr_incarnation (set_of (map e_source (List.filter p (req_evidence req)))))) as Hi.
  rewrite length_map in Hs, Hi. lia.
Qed.

(** The distinct source identifiers behind a diagnosis. *)
Definition failing_ids (policy : FencePolicy) (req : ClassifyRequest) : list EvidenceSourceId :=
  set_of (map sr_source (failing policy req)).

(** No source fails in two instances (boots, incarnations, epochs) at once. *)
Definition one_instance_each (policy : FencePolicy) (req : ClassifyRequest) : Prop :=
  forall s t, In s (failing policy req) -> In t (failing policy req) -> sr_source s = sr_source t -> s = t.

Lemma set_insert_length_new {K} `{OrdLaws K} (k : K) s : ~ In k s -> length (set_insert k s) = S (length s).
Proof.
  induction s as [| x s IH]; intros Hn; simpl; [done |]. destruct (cmp k x) eqn:E; simpl; [| done | rewrite IH; [done |]].
  - exfalso. apply Hn. left. symmetry. by apply cmp_eq.
  - intros Hin. apply Hn. by right.
Qed.

Lemma set_of_length_nodup {K} `{OrdLaws K} (l : list K) : NoDup l -> length (set_of l) = length l.
Proof.
  induction l as [| x l IH] using rev_ind; [done |]. intros Hn. rewrite set_of_snoc, length_app.
  apply NoDup_app in Hn as (H1 & H2 & _). assert (~ In x (set_of l)) as Hx.
  { intros Hin. apply (proj1 (set_of_In _ _)) in Hin. apply list_elem_of_In in Hin. apply (H2 x Hin). by left. }
  rewrite (set_insert_length_new x _ Hx), (IH H1). simpl. lia.
Qed.

Lemma failing_ids_count policy req :
  zlen (failing_ids policy req) <= zlen (failing policy req) /\
  (one_instance_each policy req -> zlen (failing_ids policy req) = zlen (failing policy req)).
Proof.
  unfold failing_ids, zlen. pose proof (set_of_length (map sr_source (failing policy req))) as Hle. rewrite length_map in Hle.
  split; [lia |]. intros Hone. rewrite set_of_length_nodup, length_map; [done |].
  assert (NoDup (failing policy req)) as Hn by (apply ascending_NoDup, set_of_ascending).
  revert Hone Hn. unfold one_instance_each. generalize (failing policy req) as l. induction l as [| s l IH]; intros Hone Hn; [constructor |].
  apply NoDup_cons in Hn as [Hs Hn]. cbn [map]. apply NoDup_cons. split; [| apply IH; [| exact Hn]].
  - intros Hin. apply list_elem_of_In, in_map_iff in Hin as (t & Et & Ht). apply Hs, list_elem_of_In.
    rewrite (Hone s t); [exact Ht | by left | by right | done].
  - intros a b Ha Hb. apply Hone; by right.
Qed.



(** A diagnosis depends on the policy through four functions only. *)
Lemma classify_policy_ext sc cur now l p q :
  max_reasons_per_decision p = max_reasons_per_decision q ->
  scan_step p = scan_step q -> decide_verdict p = decide_verdict q ->
  (forall d, evaluate_corroboration d p = evaluate_corroboration d q) ->
  classify (MkRequest sc cur now (Some p) l) = classify (MkRequest sc cur now (Some q) l).
Proof.
  intros Hm Hs Hd He. unfold classify. cbn [req_policy req_scope req_current req_now req_evidence].
  cbv zeta. by rewrite Hm, Hs, Hd, He.
Qed.

(** The policy's [min_attempts_per_source] has no influence on a diagnosis: whatever
    its value, the same observations give the same result. *)
Theorem min_attempts_per_source_ignored req policy n :
  req_policy req = Some policy ->
  classify (MkRequest (req_scope req) (req_current req) (req_now req)
              (Some (with_attempts_per_source n policy)) (req_evidence req)) = classify req.
Proof.
  intros Hp. destruct req as [sc cur now p l]. simpl in Hp. subst p.
  by apply classify_policy_ext.
Qed.

Example min_attempts_per_source_ignored_witness :
  let req := MkRequest fx_scope fx_gens fx_now (Some default_policy) [fx_failure 1 1] in
  classify (MkRequest fx_scope fx_gens fx_now (Some (with_attempts_per_source 1000 default_policy))
              [fx_failure 1 1]) = classify req.
Proof. intros req. apply (min_attempts_per_source_ignored req default_policy 1000). reflexivity. Defined.

(** Corroboration counts source instances, not source identifiers: two incarnations
    of one single source satisfy the default policy. And an accepted policy may lower
    [complete_failure_ppm], under which 60% loss is a BLACKHOLE. *)
Theorem corroboration_and_loss_limits :
  let one := MkRequest fx_scope fx_gens fx_now (Some default_policy) [fx_failure 1 1; fx_failure 1 2] in
  let lower := with_complete_ppm 600000 default_policy in
  let partial := fx_evidence fx_scope 1 1 1 EvidenceKind.DeliveryFailure 16 16 600000 in
  corroborated (classify one) = true /\
  Forall (fun e => sr_source (e_source e) = MkId 1) (req_evidence one) /\
  validate_policy default_policy = Ok /\ validate_policy lower = Ok /\
  classification (classify (MkRequest fx_scope fx_gens fx_now (Some lower) [partial]))
  = Classification.Blackhole.
Proof. repeat split; try (vm_compute; reflexivity). repeat constructor. Qed.
