(* ===== verification/Hitting.v ===== *)
(** * The exact solver: feasibility oracle and solution enumerator

    Models [FeasibilityOracle] and [SolutionEnumerator] of [src/localize/localizer.cpp].
    Candidates are indices; [cover] is the list of their masks over constraint sets
    ([cover[ci]] has bit [si] when candidate [ci] belongs to set [si]). The oracle keeps a
    node counter, an exhaustion flag and its memo table; the enumerator threads the oracle.
    The counters stop at their budget and cannot wrap, so they are plain integers.

    The theorems: unless the budget ran out, the oracle decides coverability exactly, with
    any sound memo; the enumerator produces the minimum covers in lexicographic order. *)
From Stdlib Require Import Sorting.Permutation Sorting.Sorted.
From S2P Require Import Prelude OrderedMap Sort Core Checked Hash.
Local Open Scope Z_scope.

(** [cover[ci]] *)
Definition cov (cover : list Z) (ci : nat) : Z := nth ci cover 0.

(** ** Feasibility oracle *)

(** src/localize/localizer.cpp:134-184 FeasibilityOracle *)
Record Oracle := MkOracle { o_nodes : Z; o_exhausted : bool; memo_ : list (list Z * bool) }.

Definition new_Oracle : Oracle := MkOracle 0 false [].

(** [Key{mask, budget, lo}] under [std::tie] order. *)
Definition memo_key (mask : Z) (budget lo : nat) : list Z := [mask; Z.of_nat budget; Z.of_nat lo].

Section Solver.
Context (cover : list Z) (budget_ : Z).

(** The loop over the candidates [ci >= lo] of [covers]: [next] is the recursive call. *)
Fixpoint covers_scan (next : Z -> Oracle -> bool * Oracle) (mask : Z) (si : Z) (cs : list Z) (o : Oracle)
  : bool * Oracle :=
  match cs with
  | [] => (false, o)
  | c :: cs =>
      if Z.land c (Z.shiftl 1 si) =? 0 then covers_scan next mask si cs o
      else
        let '(hit, o) := next (Z.ldiff mask c) o in
        if hit then (true, o)
        else if o_exhausted o then (false, o)
        else covers_scan next mask si cs o
  end.

(** src/localize/localizer.cpp:138-164 FeasibilityOracle::covers *)
Fixpoint covers (budget : nat) (lo : nat) (mask : Z) (o : Oracle) : bool * Oracle :=
  if o_exhausted o then (false, o)
  else if mask =? 0 then (true, o)
  else
    match budget with
    | O => (false, o)
    | S b =>
        let o := MkOracle (o_nodes o + 1) (o_exhausted o) (memo_ o) in
        if budget_ <? o_nodes o then (false, MkOracle (o_nodes o) true (memo_ o))
        else
          match map_find (memo_key mask budget lo) (memo_ o) with
          | Some result => (result, o)
          | None =>
              let si := lowest_set_bit64 mask in
              let '(result, o) :=
                if si <? 64 then covers_scan (covers b lo) mask si (drop lo cover) o
                else (false, o) in
              if o_exhausted o then (result, o)
              else (result, MkOracle (o_nodes o) false (map_insert (memo_key mask budget lo) result (memo_ o)))
          end
    end.

(** ** Solution enumerator *)

(** src/localize/localizer.cpp:188-239 SolutionEnumerator *)
Record Enum := MkEnum {
  oracle_ : Oracle;
  current_ : list nat;
  first_ : list nat;
  found_ : Z;
  truncated_ : bool;
  nodes_ : Z;
}.

Definition new_Enum (o : Oracle) : Enum := MkEnum o [] [] 0 false 0.

Definition e_truncate (s : Enum) : Enum :=
  MkEnum (oracle_ s) (current_ s) (first_ s) (found_ s) true (nodes_ s).
Definition e_push (ci : nat) (s : Enum) : Enum :=
  MkEnum (oracle_ s) (current_ s ++ [ci]) (first_ s) (found_ s) (truncated_ s) (nodes_ s).
Definition e_pop (s : Enum) : Enum :=
  MkEnum (oracle_ s) (removelast (current_ s)) (first_ s) (found_ s) (truncated_ s) (nodes_ s).
Definition e_node (s : Enum) : Enum :=
  MkEnum (oracle_ s) (current_ s) (first_ s) (found_ s) (truncated_ s) (nodes_ s + 1).
Definition e_oracle (o : Oracle) (s : Enum) : Enum :=
  MkEnum o (current_ s) (first_ s) (found_ s) (truncated_ s) (nodes_ s).

Context (max_solutions node_budget : Z).

(** A complete cover was reached, lines 196-201. *)
Definition e_found (s : Enum) : Enum :=
  let found := found_ s + 1 in
  MkEnum (oracle_ s) (current_ s) (if found =? 1 then current_ s else first_ s) found
    (if max_solutions <=? found then true else truncated_ s) (nodes_ s).

(** The loop over [ci]: [next] is the recursive call. *)
Fixpoint run_scan (next : nat -> Z -> Enum -> Enum) (b : nat) (mask : Z) (cis : list nat) (s : Enum) : Enum :=
  match cis with
  | [] => s
  | ci :: cis =>
      let s := e_node s in
      if node_budget <? nodes_ s then e_truncate s
      else if Z.land (cov cover ci) mask =? 0 then run_scan next b mask cis s
      else
        let '(ok, o) := covers b (S ci) (Z.ldiff mask (cov cover ci)) (oracle_ s) in
        let s := e_oracle o s in
        if negb ok then
          if o_exhausted o then e_truncate s else run_scan next b mask cis s
        else
          let s := e_pop (next (S ci) (Z.ldiff mask (cov cover ci)) (e_push ci s)) in
          if truncated_ s then s else run_scan next b mask cis s
  end.

(** src/localize/localizer.cpp:194-221 SolutionEnumerator::run *)
Fixpoint run (budget : nat) (lo : nat) (mask : Z) (s : Enum) : Enum :=
  if truncated_ s then s
  else if mask =? 0 then e_found s
  else
    match budget with
    | O => s
    | S b => run_scan (run b) b mask (seq lo (length cover - lo)) s
    end.

(** ** Covers *)

(** The union of the masks of [H] contains [mask]. *)
Definition hits (H : list nat) (mask : Z) : Prop :=
  forall si, 0 <= si -> Z.testbit mask si = true -> exists ci, In ci H /\ Z.testbit (cov cover ci) si = true.

Definition in_range (lo : nat) (H : list nat) : Prop := Forall (fun ci => lo <= ci < length cover)%nat H.

(** At most [b] candidates of index at least [lo] cover [mask]. *)
Definition coverable (b lo : nat) (mask : Z) : Prop :=
  exists H, (length H <= b)%nat /\ in_range lo H /\ hits H mask.

Definition memo_sound (m : list (list Z * bool)) : Prop :=
  forall mask b lo v, in_u64 mask -> map_find (memo_key mask b lo) m = Some v -> (v = true <-> coverable b lo mask).

Lemma hits_ldiff ci H mask : hits H (Z.ldiff mask (cov cover ci)) -> hits (ci :: H) mask.
Proof.
  intros Hh si Hsi Hbit. destruct (Z.testbit (cov cover ci) si) eqn:E.
  - exists ci. split; [by left | done].
  - destruct (Hh si Hsi) as (cj & Hin & Hj); [by rewrite Z.ldiff_spec, Hbit, E |].
    exists cj. split; [by right | done].
Qed.

Lemma hits_remove ci H mask : hits (ci :: H) mask -> hits H (Z.ldiff mask (cov cover ci)).
Proof.
  intros Hh si Hsi. rewrite Z.ldiff_spec. intros Hbit. bool_prop.
  destruct (Hh si Hsi) as (cj & [<- | Hin] & Hj); [done | congruence |]. eauto.
Qed.

Lemma hits_perm H K mask : Permutation H K -> hits H mask -> hits K mask.
Proof.
  intros Hp Hh si Hsi Hbit. destruct (Hh si Hsi Hbit) as (ci & Hin & Hc).
  exists ci. split; [by eapply Permutation_in | done].
Qed.

Lemma hits_nil mask : 0 <= mask -> hits [] mask -> mask = 0.
Proof.
  intros Hm Hh. apply Z.bits_inj'. intros n Hn. rewrite Z.bits_0.
  destruct (Z.testbit mask n) eqn:E; [| done]. by destruct (Hh n Hn E) as (? & [] & _).
Qed.

Lemma ldiff_u64 mask c : in_u64 mask -> in_u64 (Z.ldiff mask c).
Proof.
  intros Hm. destruct (decide (Z.ldiff mask c = 0)) as [-> | Hne]; [unfold in_u; lia |].
  assert (0 <= Z.ldiff mask c) as Hnn by (apply Z.ldiff_nonneg; left; apply Hm).
  split; [done |]. apply Z.log2_lt_pow2; [lia |]. apply Z.nle_gt. intros Hle.
  pose proof (Z.bit_log2 (Z.ldiff mask c) ltac:(lia)) as Hbit.
  rewrite Z.ldiff_spec, (in_u_high 64 mask) in Hbit by (done || lia). done.
Qed.

Lemma land_bit c si : 0 <= si -> (Z.land c (Z.shiftl 1 si) =? 0) = negb (Z.testbit c si).
Proof.
  intros Hsi. destruct (Z.testbit c si) eqn:E; simpl.
  - apply Z.eqb_neq. intros Hz. apply (f_equal (fun z => Z.testbit z si)) in Hz.
    rewrite Z.land_spec, E, Z.shiftl_1_l, Z.pow2_bits_true, Z.bits_0 in Hz by done. done.
  - apply Z.eqb_eq, Z.bits_inj'. intros n Hn. rewrite Z.land_spec, Z.shiftl_1_l, Z.bits_0.
    destruct (decide (n = si)) as [-> | Hne]; [by rewrite E |].
    rewrite Z.pow2_bits_false by lia. apply andb_false_r.
Qed.

Lemma covers_zero b lo o :
  o_exhausted o = false -> covers b lo 0 o = (true, o).
Proof. intros He. by destruct b; simpl; rewrite He. Qed.

(** ** The oracle decides coverability *)

Definition oracle_ok (o : Oracle) : Prop := memo_sound (memo_ o).

Definition oracle_spec (b lo : nat) (mask : Z) (res : bool * Oracle) : Prop :=
  oracle_ok res.2 /\
  (res.1 = true -> coverable b lo mask) /\
  (o_exhausted res.2 = false -> coverable b lo mask -> res.1 = true).

Lemma covers_scan_spec b lo mask si start o :
  (forall m o, in_u64 m -> oracle_ok o -> oracle_spec b lo m (covers b lo m o)) ->
  in_u64 mask -> 0 <= si -> oracle_ok o -> (lo <= start)%nat ->
  let res := covers_scan (covers b lo) mask si (drop start cover) o in
  oracle_ok res.2 /\
  (res.1 = true -> coverable (S b) lo mask) /\
  (o_exhausted res.2 = false -> o_exhausted o = false ->
   (exists ci, (start <= ci < length cover)%nat /\ Z.testbit (cov cover ci) si = true /\
               coverable b lo (Z.ldiff mask (cov cover ci))) -> res.1 = true).
Proof.
  intros IH Hm Hsi. remember (length cover - start)%nat as n eqn:Hn.
  revert start o Hn. induction n as [| n IHn]; intros start o Hn Ho Hlo; cbv zeta.
  - rewrite drop_ge by lia. simpl. split; [done |]. split; [done |].
    intros _ _ (ci & Hci & _). lia.
  - assert (drop start cover = cov cover start :: drop (S start) cover) as ->.
    { apply drop_S. unfold cov. rewrite nth_lookup.
      destruct (lookup_lt_is_Some_2 cover start ltac:(lia)) as [x Hx]. by rewrite Hx. }
    cbn [covers_scan]. rewrite land_bit by done.
    destruct (Z.testbit (cov cover start) si) eqn:Hbit; cbn [negb].
    + pose proof (IH (Z.ldiff mask (cov cover start)) o (ldiff_u64 _ _ Hm) Ho) as (H1 & H2 & H3).
      destruct (covers b lo (Z.ldiff mask (cov cover start)) o) as [hit o1]. cbn [fst snd] in *.
      destruct hit.
      * cbn [fst snd]. split; [done |]. split; [| done]. intros _.
        destruct (H2 eq_refl) as (K & HK1 & HK2 & HK3). exists (start :: K). split; [simpl; lia |].
        split; [by constructor; [lia |] | by apply hits_ldiff].
      * destruct (o_exhausted o1) eqn:He1; cbn [fst snd].
        -- split; [done |]. split; [done |]. congruence.
        -- specialize (IHn (S start) o1 ltac:(lia) H1 ltac:(lia)) as (G1 & G2 & G3).
           split; [done |]. split; [done |]. intros Hex _ (ci & Hci & Hcb & Hcov).
           apply G3; [done | done |]. exists ci. split; [| done].
           destruct (decide (ci = start)) as [-> | ]; [| lia]. by specialize (H3 eq_refl Hcov).
    + specialize (IHn (S start) o ltac:(lia) Ho ltac:(lia)) as (G1 & G2 & G3).
      split; [done |]. split; [done |]. intros Hex Hex0 (ci & Hci & Hcb & Hcov).
      apply G3; [done | done |]. exists ci. split; [| done].
      destruct (decide (ci = start)) as [-> | ]; [congruence | lia].
Qed.

Lemma memo_sound_insert m mask b lo v :
  memo_sound m -> in_u64 mask -> (v = true <-> coverable b lo mask) ->
  memo_sound (map_insert (memo_key mask b lo) v m).
Proof.
  intros Hm Hmask Hv mask' b' lo' v' Hmask'. rewrite map_find_insert.
  destruct (cmp (memo_key mask' b' lo') (memo_key mask b lo)) eqn:E; try apply Hm; try done.
  apply (cmp_eq (K := list Z)) in E. injection E as -> Hb Hl.
  apply Nat2Z.inj in Hb, Hl. subst. by intros [= <-].
Qed.

Lemma coverable_zero b lo : coverable b lo 0.
Proof. exists []. split; [simpl; lia |]. split; [constructor |]. intros si _. by rewrite Z.bits_0. Qed.

Lemma coverable_split b lo mask :
  in_u64 mask -> mask <> 0 -> coverable (S b) lo mask ->
  exists ci, (lo <= ci < length cover)%nat /\
    Z.testbit (cov cover ci) (lowest_set_bit64 mask) = true /\
    coverable b lo (Z.ldiff mask (cov cover ci)).
Proof.
  intros Hm Hnz (K & HK1 & HK2 & HK3).
  destruct (lowest_set_bit64_spec mask Hm Hnz) as (Hsi & Hbit & _).
  destruct (HK3 (lowest_set_bit64 mask) ltac:(lia) Hbit) as (ci & Hin & Hc).
  apply in_split in Hin as (K1 & K2 & ->).
  exists ci. split.
  { unfold in_range in HK2. rewrite List.Forall_forall in HK2. apply HK2, in_or_app. right. by left. }
  split; [done |]. exists (K1 ++ K2). split; [| split].
  - rewrite length_app in *. simpl in HK1. lia.
  - apply Forall_app in HK2 as [H1 H2]. apply Forall_app. split; [done |]. by inversion H2.
  - apply hits_remove. eapply hits_perm; [| exact HK3]. symmetry. apply Permutation_middle.
Qed.

Lemma covers_spec b lo mask o :
  in_u64 mask -> oracle_ok o -> oracle_spec b lo mask (covers b lo mask o).
Proof.
  revert mask o. induction b as [| b IH]; intros mask o Hm Ho; simpl.
  - destruct (o_exhausted o) eqn:He; [split; [done |]; split; [done |]; cbn; congruence |].
    destruct (Z.eqb_spec mask 0) as [-> | Hnz].
    + split; [done |]. split; [intros _; apply coverable_zero | done].
    + split; [done |]. split; [done |]. cbn. intros _ (K & HK1 & HK2 & HK3).
      destruct K; [| simpl in HK1; lia]. apply hits_nil in HK3; [done | apply Hm].
  - destruct (o_exhausted o) eqn:He; [split; [done |]; split; [done |]; cbn; congruence |].
    destruct (Z.eqb_spec mask 0) as [-> | Hnz];
      [by split; [| split; [intros _; apply coverable_zero |]] |].
    cbn [o_nodes memo_]. destruct (budget_ <? o_nodes o + 1); [done |].
    destruct (map_find (memo_key mask (S b) lo) (memo_ o)) as [v |] eqn:Ef.
    + apply (Ho mask (S b) lo v Hm) in Ef. split; [done |]. cbn. tauto.
    + destruct (lowest_set_bit64_spec mask Hm Hnz) as (Hsi & _ & _).
      destruct (Z.ltb_spec (lowest_set_bit64 mask) 64); [| lia].
      pose proof (covers_scan_spec b lo mask (lowest_set_bit64 mask) lo
        (MkOracle (o_nodes o + 1) false (memo_ o))
        (fun m o => IH m o) Hm ltac:(lia) Ho ltac:(lia)) as Hscan. cbv zeta in Hscan.
      destruct (covers_scan _ mask _ (drop lo cover) _) as [result o1]. cbn [fst snd o_exhausted] in Hscan.
      destruct Hscan as (H1 & H2 & H3).
      assert (o_exhausted o1 = false -> coverable (S b) lo mask -> result = true) as H4.
      { intros He1 Hc. apply H3; [done | done |]. by apply coverable_split. }
      destruct (o_exhausted o1) eqn:He1.
      * split; [done |]. split; [done |]. cbn. congruence.
      * split; [| split; [done |]]; cbn; [| auto].
        apply memo_sound_insert; [done | done |]. split; [done | by apply H4].
Qed.

(** ** The enumerator without pruning *)

(** Every ascending cover of at most [b] candidates of index at least [lo] in which each
    candidate covers something new, in lexicographic order. *)
Fixpoint solutions (b : nat) (lo : nat) (mask : Z) : list (list nat) :=
  if mask =? 0 then [[]]
  else
    match b with
    | O => []
    | S b =>
        flat_map (fun ci => if Z.land (cov cover ci) mask =? 0 then []
                            else map (cons ci) (solutions b (S ci) (Z.ldiff mask (cov cover ci))))
          (seq lo (length cover - lo))
    end.

Definition ascending_nat (H : list nat) : Prop := StronglySorted lt H.

Lemma solutions_sound b lo mask H :
  In H (solutions b lo mask) ->
  (length H <= b)%nat /\ in_range lo H /\ ascending_nat H /\ hits H mask.
Proof.
  revert lo mask H. induction b as [| b IH]; intros lo mask H; simpl.
  - destruct (Z.eqb_spec mask 0) as [-> |]; [| done]. intros [<- | []].
    repeat split; try constructor. intros si _. by rewrite Z.bits_0.
  - destruct (Z.eqb_spec mask 0) as [-> |].
    + intros [<- | []]. split; [simpl; lia |]. repeat split; try constructor.
      intros si _. by rewrite Z.bits_0.
    + intros (ci & Hci & Hin)%in_flat_map. apply in_seq in Hci.
      destruct (Z.land (cov cover ci) mask =? 0); [done |].
      apply in_map_iff in Hin as (K & <- & HK). apply IH in HK as (H1 & H2 & H3 & H4).
      split; [simpl; lia |]. split; [| split].
      * constructor; [lia |]. eapply Forall_impl; [exact H2 |]. simpl. lia.
      * constructor; [done |]. eapply Forall_impl; [exact H2 |]. simpl. lia.
      * by apply hits_ldiff.
Qed.

Lemma solutions_nil b lo mask : ~ coverable b lo mask -> solutions b lo mask = [].
Proof.
  intros Hn. destruct (solutions b lo mask) as [| H l] eqn:E; [done |]. exfalso. apply Hn.
  exists H. assert (In H (solutions b lo mask)) as Hin by (rewrite E; by left).
  apply solutions_sound in Hin. tauto.
Qed.

(** What a run over the solutions [sols] does to the enumerator. *)
Record enumerated (sols : list (list nat)) (s s' : Enum) : Prop := {
  en_current : current_ s' = current_ s;
  en_oracle : oracle_ok (oracle_ s');
  en_found : found_ s <= found_ s' <= found_ s + zlen sols;
  en_complete : truncated_ s' = false -> found_ s' = found_ s + zlen sols /\ found_ s' < max_solutions;
  en_later : 0 < found_ s -> first_ s' = first_ s;
  en_none : found_ s' = 0 -> first_ s' = first_ s;
  en_first : found_ s = 0 -> 0 < found_ s' ->
    exists h t, sols = h :: t /\ first_ s' = current_ s ++ h;
}.

(** A live enumerator: it has not been cut short and has room for a solution. *)
Record live (s : Enum) : Prop := {
  live_trunc : truncated_ s = false;
  live_found : 0 <= found_ s < max_solutions;
  live_oracle : oracle_ok (oracle_ s);
}.

Lemma enumerated_refl s : live s -> enumerated [] s s.
Proof. intros [? ? ?]. split; rewrite ?zlen_nil; try done; intros; lia. Qed.

Lemma enumerated_live sols s s' : live s -> enumerated sols s s' -> truncated_ s' = false -> live s'.
Proof. intros [? ? ?] [? ? ? Hc ? ? ?] Ht. specialize (Hc Ht). split; [done | lia | done]. Qed.

Lemma enumerated_app a b s1 s2 s3 :
  live s1 -> truncated_ s2 = false ->
  enumerated a s1 s2 -> enumerated b s2 s3 -> enumerated (a ++ b) s1 s3.
Proof.
  intros [Hl1 Hl2 Hl3] Ht [A1 A2 A3 A4 A5 A6 A7] [B1 B2 B3 B4 B5 B6 B7].
  destruct (A4 Ht) as [A4a A4b]. pose proof (zlen_nonneg a). pose proof (zlen_nonneg b).
  split; rewrite ?zlen_app; try done; try congruence; try lia.
  - intros Ht3. destruct (B4 Ht3). lia.
  - intros Hf. rewrite B5 by lia. auto.
  - intros Hf. rewrite B6, A6 by lia. done.
  - intros Hf1 Hf3. destruct (decide (found_ s2 = 0)) as [E | E].
    + assert (a = []) as -> by (destruct a; rewrite ?zlen_cons in *; [done | pose proof (zlen_nonneg a); lia]).
      destruct (B7 E Hf3) as (h & t & -> & ->). exists h, t. by rewrite A1.
    + destruct (A7 Hf1 ltac:(lia)) as (h & t & -> & Hfst). exists h, (t ++ b).
      split; [done |]. rewrite B5 by lia. done.
Qed.

Lemma enumerated_stop a b s1 s2 :
  truncated_ s2 = true -> enumerated a s1 s2 -> enumerated (a ++ b) s1 s2.
Proof.
  intros Ht [A1 A2 A3 A4 A5 A6 A7]. pose proof (zlen_nonneg b).
  split; rewrite ?zlen_app; try done; try lia; try congruence.
  intros H1 H2. destruct (A7 H1 H2) as (h & t & -> & ?). by exists h, (t ++ b).
Qed.

Lemma enumerated_node sols s s' : enumerated sols (e_node s) s' -> enumerated sols s s'.
Proof. by intros []. Qed.

Lemma enumerated_oracle sols o s s' :
  enumerated sols (e_oracle o s) s' -> enumerated sols s s'.
Proof. by intros []. Qed.

Lemma enumerated_truncate s : live s -> enumerated [] s (e_truncate s).
Proof. intros [? ? ?]. split; rewrite ?zlen_nil; try done; intros; simpl in *; lia. Qed.

(** Entering and leaving the branch of candidate [ci]. *)
Lemma enumerated_branch sols ci s s' :
  enumerated sols (e_push ci s) s' -> enumerated (map (cons ci) sols) s (e_pop s').
Proof.
  intros [A1 A2 A3 A4 A5 A6 A7]. cbn [e_push e_pop current_ found_ first_ truncated_ oracle_] in *.
  assert (zlen (map (cons ci) sols) = zlen sols) as Hz by (unfold zlen; by rewrite length_map).
  split; cbn [e_pop current_ found_ first_ truncated_ oracle_]; rewrite ?Hz; try done.
  - rewrite A1. apply removelast_last.
  - intros H1 H2. destruct (A7 H1 H2) as (h & t & -> & ->).
    exists (ci :: h), (map (cons ci) t). by rewrite <- app_assoc.
Qed.

Lemma run_scan_spec b mask cis s :
  (forall lo m s, in_u64 m -> live s -> enumerated (solutions b lo m) s (run b lo m s)) ->
  in_u64 mask -> live s ->
  enumerated
    (flat_map (fun ci => if Z.land (cov cover ci) mask =? 0 then []
                         else map (cons ci) (solutions b (S ci) (Z.ldiff mask (cov cover ci)))) cis)
    s (run_scan (run b) b mask cis s).
Proof.
  intros IH Hm. revert s. induction cis as [| ci cis IHc]; intros s Hs;
    cbn [flat_map run_scan]; cbv zeta.
  - by apply enumerated_refl.
  - apply enumerated_node. assert (live (e_node s)) as Hn by (destruct Hs; by split).
    set (s1 := e_node s) in *. clearbody s1. clear s Hs.
    destruct (node_budget <? nodes_ s1).
    { rewrite <- (app_nil_l (_ ++ _)). apply enumerated_stop; [done | by apply enumerated_truncate]. }
    destruct (Z.land (cov cover ci) mask =? 0); [by apply IHc |].
    pose proof (covers_spec b (S ci) (Z.ldiff mask (cov cover ci)) (oracle_ s1)
      (ldiff_u64 _ _ Hm) (live_oracle _ Hn)) as (Ho & Htrue & Hfalse).
    destruct (covers b (S ci) (Z.ldiff mask (cov cover ci)) (oracle_ s1)) as [ok o]. cbn [fst snd] in *.
    apply (enumerated_oracle _ o).
    assert (live (e_oracle o s1)) as Hl by (destruct Hn; by split).
    set (s2 := e_oracle o s1) in *. assert (oracle_ s2 = o) as Hso by done. clearbody s2.
    destruct ok; cbn [negb].
    + pose proof (IH (S ci) (Z.ldiff mask (cov cover ci)) (e_push ci s2) (ldiff_u64 _ _ Hm)) as Hrun.
      assert (live (e_push ci s2)) as Hl' by (destruct Hl; by split).
      specialize (Hrun Hl'). apply enumerated_branch in Hrun.
      destruct (truncated_ (e_pop (run b (S ci) _ (e_push ci s2)))) eqn:Ht.
      * by apply enumerated_stop.
      * eapply enumerated_app; [exact Hl | exact Ht | exact Hrun |].
        apply IHc. exact (enumerated_live _ _ _ Hl Hrun Ht).
    + destruct (o_exhausted o) eqn:He.
      * rewrite <- (app_nil_l (_ ++ _)). apply enumerated_stop; [done | by apply enumerated_truncate].
      * rewrite solutions_nil; [by apply IHc |]. intros Hc. by specialize (Hfalse eq_refl Hc).
Qed.

Lemma run_spec b lo mask s :
  in_u64 mask -> live s -> enumerated (solutions b lo mask) s (run b lo mask s).
Proof.
  assert (forall s, live s -> enumerated [[]] s (e_found s)) as Hfound.
  { intros s0 [H1 H2 H3]. split; cbn [e_found current_ found_ first_ truncated_ oracle_];
      rewrite ?zlen_cons, ?zlen_nil; try done; try lia.
    - destruct (Z.leb_spec max_solutions (found_ s0 + 1)); [done | lia].
    - intros Hp. by destruct (Z.eqb_spec (found_ s0 + 1) 1); [lia |].
    - intros -> _. exists [], []. by rewrite app_nil_r. }
  revert lo mask s. induction b as [| b IH]; intros lo mask s Hm Hs; simpl;
    rewrite (live_trunc s Hs); (destruct (mask =? 0); [by apply Hfound |]).
  - by apply enumerated_refl.
  - by apply run_scan_spec.
Qed.

(** ** Minimum covers *)

(** No cover over the candidates is smaller than [n]. *)
Definition no_smaller (n : nat) (mask : Z) : Prop :=
  forall K, in_range 0 K -> hits K mask -> (n <= length K)%nat.

Lemma in_range_weaken lo lo' H : (lo' <= lo)%nat -> in_range lo H -> in_range lo' H.
Proof. intros Hl Hr. eapply Forall_impl; [exact Hr |]. simpl. lia. Qed.

Lemma solutions_complete b lo mask H :
  0 <= mask -> (length H <= b)%nat -> in_range lo H -> ascending_nat H -> hits H mask ->
  no_smaller (length H) mask -> In H (solutions b lo mask).
Proof.
  revert b lo mask. induction H as [| ci H IH]; intros b lo mask Hm Hb Hr Ha Hh Hmin.
  - apply hits_nil in Hh as ->; [| done]. by destruct b; left.
  - assert (mask <> 0) as Hnz.
    { intros ->. specialize (Hmin [] ltac:(constructor)). simpl in Hmin.
      assert (S (length H) <= 0)%nat; [| lia]. apply Hmin. intros si _. by rewrite Z.bits_0. }
    destruct b as [| b]; [simpl in Hb; lia |]. simpl.
    rewrite (proj2 (Z.eqb_neq mask 0) Hnz).
    inversion_clear Hr as [| ? ? Hci Hr']. inversion_clear Ha as [| ? ? Ha' Hlt].
    apply in_flat_map. exists ci. split; [apply in_seq; lia |].
    destruct (Z.eqb_spec (Z.land (cov cover ci) mask) 0) as [E |].
    + exfalso. specialize (Hmin H). simpl in Hmin.
      assert (S (length H) <= length H)%nat; [| lia]. apply Hmin.
      * by apply (in_range_weaken lo); [lia |].
      * intros si Hsi Hbit. destruct (Hh si Hsi Hbit) as (cj & [<- | Hin] & Hc); [| by exists cj].
        exfalso. apply (f_equal (fun z => Z.testbit z si)) in E.
        by rewrite Z.land_spec, Hc, Hbit, Z.bits_0 in E.
    + apply in_map. apply IH.
      * apply Z.ldiff_nonneg. by left.
      * simpl in Hb. lia.
      * unfold in_range in *. rewrite List.Forall_forall in *. intros x Hx.
        specialize (Hr' x Hx). specialize (Hlt x Hx). lia.
      * done.
      * by apply hits_remove.
      * intros K HK1 HK2. specialize (Hmin (ci :: K)). simpl in Hmin.
        assert (S (length H) <= S (length K))%nat; [| lia]. apply Hmin.
        -- constructor; [lia | done].
        -- by apply hits_ldiff.
Qed.

(** Lexicographic order of index lists. *)
Definition index_lt (H K : list nat) : Prop := lex (map Z.of_nat H) (map Z.of_nat K) = Lt.

Lemma StronglySorted_app_intro {A} (R : A -> A -> Prop) l k :
  StronglySorted R l -> StronglySorted R k -> (forall x y, In x l -> In y k -> R x y) ->
  StronglySorted R (l ++ k).
Proof.
  intros Hl Hk Hx. induction Hl as [| a l Hl IH Ha]; simpl; [done |]. constructor.
  - apply IH. intros x y Hin. apply Hx. by right.
  - apply Forall_app. split; [done |]. apply List.Forall_forall. intros y Hy. apply Hx; [by left | done].
Qed.

Lemma solutions_sorted b lo mask : StronglySorted index_lt (solutions b lo mask).
Proof.
  revert lo mask. induction b as [| b IH]; intros lo mask; simpl;
    (destruct (mask =? 0); [repeat constructor |]); [constructor |].
  generalize (length cover - lo)%nat as n. intros n. revert lo. induction n as [| n IHn]; intros lo; simpl; [constructor |].
  apply StronglySorted_app_intro.
  - destruct (Z.land (cov cover lo) mask =? 0); [constructor |].
    specialize (IH (S lo) (Z.ldiff mask (cov cover lo))).
    induction IH as [| H l Hs IHs Hf]; simpl; constructor; [done |].
    apply List.Forall_forall. intros K (K' & <- & HK)%in_map_iff.
    rewrite List.Forall_forall in Hf. unfold index_lt. simpl. rewrite Z.compare_refl. simpl. by apply Hf.
  - apply IHn.
  - intros H K HH HK. apply in_flat_map in HK as (cj & Hcj & HK). apply in_seq in Hcj.
    destruct (Z.land (cov cover lo) mask =? 0); [done |].
    destruct (Z.land (cov cover cj) mask =? 0); [done |].
    apply in_map_iff in HH as (H' & <- & _). apply in_map_iff in HK as (K' & <- & _).
    unfold index_lt. simpl. destruct (Z.compare_spec (Z.of_nat lo) (Z.of_nat cj)); simpl; (done || lia).
Qed.

(** A minimum cover of [mask]: ascending, over the candidates, of minimum size. *)
Definition minimum (mask : Z) (H : list nat) : Prop :=
  in_range 0 H /\ ascending_nat H /\ hits H mask /\ no_smaller (length H) mask.

Lemma solutions_minimum b mask H :
  0 <= mask -> coverable b 0 mask -> (forall j, (j < b)%nat -> ~ coverable j 0 mask) ->
  In H (solutions b 0 mask) <-> minimum mask H.
Proof.
  intros Hm Hc Hn.
  assert (no_smaller b mask) as Hmin.
  { intros K HK1 HK2. apply Nat.nlt_ge. intros Hlt. apply (Hn (length K) Hlt). by exists K. }
  split.
  - intros Hin. apply solutions_sound in Hin as (H1 & H2 & H3 & H4).
    assert (length H = b) as <-.
    { specialize (Hmin H H2 H4). lia. }
    done.
  - intros (H1 & H2 & H3 & H4). apply solutions_complete; try done.
    destruct Hc as (K & HK1 & HK2 & HK3). specialize (H4 K HK2 HK3). lia.
Qed.

(** ** The search for the minimum size *)

(** src/localize/localizer.cpp:356-365 localize (size loop) *)
Fixpoint size_search (fuel k : nat) (full : Z) (o : Oracle) : option nat * Oracle :=
  match fuel with
  | O => (None, o)
  | S fuel =>
      let '(ok, o) := covers k 0 full o in
      if ok then (Some k, o)
      else if o_exhausted o then (None, o)
      else size_search fuel (S k) full o
  end.

Lemma covers_exhausted b lo mask o : o_exhausted o = true -> covers b lo mask o = (false, o).
Proof. intros He. destruct b; simpl; by rewrite He. Qed.

Lemma size_search_spec fuel k full o :
  in_u64 full -> oracle_ok o -> o_exhausted o = false ->
  let '(res, o') := size_search fuel k full o in
  oracle_ok o' /\
  match res with
  | Some n => (k <= n < k + fuel)%nat /\ coverable n 0 full /\
              forall j, (k <= j < n)%nat -> ~ coverable j 0 full
  | None => o_exhausted o' = true \/ forall j, (k <= j < k + fuel)%nat -> ~ coverable j 0 full
  end.
Proof.
  intros Hf. revert k o. induction fuel as [| fuel IH]; intros k o Ho He; simpl.
  - split; [done |]. right. lia.
  - pose proof (covers_spec k 0 full o Hf Ho) as (H1 & H2 & H3).
    destruct (covers k 0 full o) as [ok o1]. cbn [fst snd] in *. destruct ok.
    + split; [done |]. split; [lia |]. split; [auto |]. lia.
    + destruct (o_exhausted o1) eqn:He1; [by split; [| left] |].
      specialize (IH (S k) o1 H1 He1). destruct (size_search fuel (S k) full o1) as [res o2].
      destruct IH as [IH1 IH2]. split; [done |].
      assert (~ coverable k 0 full) as Hk by (intros Hc; by specialize (H3 eq_refl Hc)).
      destruct res as [n |].
      * destruct IH2 as (? & ? & Hj). split; [lia |]. split; [done |]. intros j Hjk.
        destruct (decide (j = k)) as [-> |]; [done | apply Hj; lia].
      * destruct IH2 as [| Hj]; [by left |]. right. intros j Hjk.
        destruct (decide (j = k)) as [-> |]; [done | apply Hj; lia].
Qed.

(** ** A budget that is enough *)

(** Nodes a call of the oracle with [b] candidates to spend visits at most. *)
Fixpoint oracle_cost (b : nat) : Z :=
  match b with O => 0 | S b => 1 + Z.of_nat (length cover) * oracle_cost b end.

Lemma oracle_cost_nonneg b : 0 <= oracle_cost b.
Proof. induction b; cbn [oracle_cost]; nia. Qed.

Definition within (cost : Z) (o o' : Oracle) : Prop :=
  o_exhausted o' = false /\ o_nodes o <= o_nodes o' <= o_nodes o + cost.

Lemma covers_scan_cost b lo mask si cs o :
  (forall m o, o_exhausted o = false -> o_nodes o + oracle_cost b <= budget_ ->
     within (oracle_cost b) o (covers b lo m o).2) ->
  o_exhausted o = false -> o_nodes o + Z.of_nat (length cs) * oracle_cost b <= budget_ ->
  within (Z.of_nat (length cs) * oracle_cost b) o (covers_scan (covers b lo) mask si cs o).2.
Proof.
  intros IH. pose proof (oracle_cost_nonneg b). revert o.
  induction cs as [| c cs IHc]; intros o He Hb; cbn [covers_scan length] in *.
  - split; [done |]. simpl. lia.
  - destruct (Z.land c (Z.shiftl 1 si) =? 0).
    + destruct (IHc o He ltac:(nia)) as [? ?]. split; [done | nia].
    + destruct (IH (Z.ldiff mask c) o He ltac:(nia)) as [H1 H2].
      destruct (covers b lo (Z.ldiff mask c) o) as [hit o1]. cbn [snd] in *.
      destruct hit; [split; [done | cbn [snd]; nia] |]. rewrite H1.
      destruct (IHc o1 H1 ltac:(nia)) as [? ?]. split; [done | nia].
Qed.

Lemma covers_cost b lo mask o :
  o_exhausted o = false -> o_nodes o + oracle_cost b <= budget_ ->
  within (oracle_cost b) o (covers b lo mask o).2.
Proof.
  revert mask o. induction b as [| b IH]; intros mask o He Hb; simpl; rewrite He.
  - destruct (mask =? 0); split; (done || cbn; lia).
  - pose proof (oracle_cost_nonneg b). cbn [oracle_cost] in Hb.
    destruct (mask =? 0); [split; [done | cbn; nia] |].
    destruct (Z.ltb_spec budget_ (o_nodes o + 1)); [nia |].
    destruct (map_find _ (memo_ o)); [split; [done | cbn; nia] |].
    destruct (lowest_set_bit64 mask <? 64); [| split; [done | cbn; nia]].
    pose proof (covers_scan_cost b lo mask (lowest_set_bit64 mask) (drop lo cover)
      (MkOracle (o_nodes o + 1) false (memo_ o)) IH eq_refl) as Hs.
    rewrite length_drop in Hs. cbn [o_nodes] in Hs.
    assert (Z.of_nat (length cover - lo) * oracle_cost b <= Z.of_nat (length cover) * oracle_cost b) by nia.
    destruct (Hs ltac:(lia)) as [W1 W2].
    destruct (covers_scan _ mask _ _ _) as [result o1]. cbn [snd o_nodes] in *. rewrite W1.
    split; [done | cbn [snd o_nodes]; lia].
Qed.

(** Oracle nodes and enumeration nodes spent by a run with [b] candidates to place. *)
Fixpoint run_oracle_cost (b : nat) : Z :=
  match b with O => 0 | S b => Z.of_nat (length cover) * (oracle_cost b + run_oracle_cost b) end.
Fixpoint run_cost (b : nat) : Z :=
  match b with O => 0 | S b => Z.of_nat (length cover) * (1 + run_cost b) end.

Lemma run_costs_nonneg b : 0 <= run_oracle_cost b /\ 0 <= run_cost b.
Proof.
  induction b as [| b [IH1 IH2]]; cbn [run_oracle_cost run_cost]; [lia |].
  pose proof (oracle_cost_nonneg b). nia.
Qed.

(** Within its budgets a run is cut short only by the bound on solutions. *)
Definition roomy (co cn : Z) (s : Enum) : Prop :=
  o_exhausted (oracle_ s) = false /\ o_nodes (oracle_ s) + co <= budget_ /\ nodes_ s + cn <= node_budget.

Record ran (co cn : Z) (s s' : Enum) : Prop := {
  ran_live : o_exhausted (oracle_ s') = false;
  ran_oracle : o_nodes (oracle_ s') <= o_nodes (oracle_ s) + co;
  ran_nodes : nodes_ s' <= nodes_ s + cn;
  ran_mono : found_ s <= found_ s';
  ran_cut : truncated_ s = false -> truncated_ s' = true -> max_solutions <= found_ s';
}.

Lemma run_scan_cost b mask cis s :
  (forall lo m s, roomy (run_oracle_cost b) (run_cost b) s ->
     ran (run_oracle_cost b) (run_cost b) s (run b lo m s)) ->
  let k := Z.of_nat (length cis) in
  truncated_ s = false ->
  roomy (k * (oracle_cost b + run_oracle_cost b)) (k * (1 + run_cost b)) s ->
  ran (k * (oracle_cost b + run_oracle_cost b)) (k * (1 + run_cost b)) s (run_scan (run b) b mask cis s).
Proof.
  intros IH. cbv zeta. pose proof (oracle_cost_nonneg b). pose proof (run_costs_nonneg b) as [? ?].
  revert s. induction cis as [| ci cis IHc]; intros s Ht (He & Ho & Hn);
    cbn [run_scan length]; cbv zeta; [change (Z.of_nat 0) with 0; split; try done; try lia; congruence |].
  cbn [length] in Ho, Hn. rewrite Nat2Z.inj_succ in *.
  set (k := Z.of_nat (length cis)) in *. assert (0 <= k) by lia.
  destruct (Z.ltb_spec node_budget (nodes_ (e_node s))) as [Hx |]; [cbn in Hx; nia |].
  destruct (Z.land (cov cover ci) mask =? 0).
  { destruct (IHc (e_node s) Ht) as [R1 R2 R3 R4 R5]; [split; [done | cbn; nia] |].
    cbn in R2, R3. split; try done; nia. }
  destruct (covers_cost b (S ci) (Z.ldiff mask (cov cover ci)) (oracle_ (e_node s)) He ltac:(cbn; nia)) as [C1 C2].
  destruct (covers b (S ci) _ (oracle_ (e_node s))) as [ok o]. cbn [snd] in *. cbn in C2.
  destruct ok; cbn [negb].
  - destruct (IH (S ci) (Z.ldiff mask (cov cover ci)) (e_push ci (e_oracle o (e_node s)))) as [R1 R2 R3 R4 R5];
      [split; [done | cbn; nia] |].
    destruct (run b (S ci) _ _) as [o2 cur fst fnd tr nd].
    unfold e_pop. cbn [e_push e_oracle e_node oracle_ current_ first_ found_ truncated_ nodes_] in *.
    destruct tr.
    + split; cbn [oracle_ current_ first_ found_ truncated_ nodes_]; try done; nia.
    + destruct (IHc (MkEnum o2 (removelast cur) fst fnd false nd)) as [Q1 Q2 Q3 Q4 Q5];
        [done | split; [done | cbn; nia] |].
      cbn [oracle_ current_ first_ found_ truncated_ nodes_] in *. split; try done; try nia. auto.
  - rewrite C1. destruct (IHc (e_oracle o (e_node s))) as [R1 R2 R3 R4 R5]; [done | split; [done | cbn; nia] |].
    cbn in R2, R3. split; try done; nia.
Qed.

Lemma run_within b lo mask s :
  roomy (run_oracle_cost b) (run_cost b) s -> ran (run_oracle_cost b) (run_cost b) s (run b lo mask s).
Proof.
  assert (forall co cn s, 0 <= co -> 0 <= cn -> roomy co cn s -> ran co cn s s) as Hid.
  { intros co cn s0 Hco Hcn (He & Ho & Hn). split; try done; try lia. congruence. }
  assert (forall co cn s, 0 <= co -> 0 <= cn -> roomy co cn s -> ran co cn s (e_found s)) as Hfound.
  { intros co cn s0 Hco Hcn (He & Ho & Hn). split; cbn; try done; try lia.
    intros ->. destruct (Z.leb_spec max_solutions (found_ s0 + 1)); [lia | done]. }
  revert lo mask s. induction b as [| b IH]; intros lo mask s Hr; cbn [run].
  - destruct (truncated_ s); [by apply Hid |]. destruct (mask =? 0); [by apply Hfound | by apply Hid].
  - pose proof (run_costs_nonneg b) as [? ?]. pose proof (oracle_cost_nonneg b).
    cbn [run_oracle_cost run_cost] in *.
    destruct (truncated_ s) eqn:Ht; [apply Hid; (done || nia) |].
    destruct (mask =? 0); [apply Hfound; (done || nia) |].
    set (n := length cover) in *.
    assert (Z.of_nat (length (seq lo (n - lo))) <= Z.of_nat n) by (rewrite length_seq; lia).
    pose proof (run_scan_cost b mask (seq lo (n - lo)) s IH) as Hs. cbv zeta in Hs.
    destruct Hr as (He & Ho & Hn).
    destruct (Hs Ht) as [R1 R2 R3 R4 R5]; [split; [done | nia] |].
    split; try done; nia.
Qed.

(** Nodes of the whole size search. *)
Fixpoint search_cost (fuel k : nat) : Z :=
  match fuel with O => 0 | S fuel => oracle_cost k + search_cost fuel (S k) end.

Lemma size_search_cost fuel k full o :
  o_exhausted o = false -> o_nodes o + search_cost fuel k <= budget_ ->
  within (search_cost fuel k) o (size_search fuel k full o).2.
Proof.
  assert (forall fuel k, 0 <= search_cost fuel k) as Hnn.
  { induction fuel0 as [| f IH]; intros k0; cbn [search_cost]; [lia |].
    pose proof (oracle_cost_nonneg k0). specialize (IH (S k0)). lia. }
  revert k o. induction fuel as [| fuel IH]; intros k o He Hb; cbn [size_search search_cost] in *.
  - split; [done | cbn; lia].
  - pose proof (Hnn fuel (S k)).
    destruct (covers_cost k 0 full o He ltac:(lia)) as [C1 C2].
    destruct (covers k 0 full o) as [ok o1]. cbn [snd] in *.
    destruct ok; [split; [done | cbn [snd]; lia] |]. rewrite C1.
    destruct (IH (S k) o1 C1 ltac:(lia)) as [? ?]. split; [done | lia].
Qed.
End Solver.
