(* ===== verification/Localizer.v ===== *)
(** * Failure localization

    Models [include/blackhole/localize/localizer.hpp] and [src/localize/localizer.cpp]:
    the reduction of segment observations to a hitting-set instance, the exact solver
    built on the oracle and enumerator of [Hitting], the greedy heuristic, the reference
    solver, the independent validator and the derivation of the input from hop probes.
    Elements and counters are [uint32_t] / [uint64_t] values; masks are 64-bit values. *)
From Stdlib Require Import Strings.String Sorting.Permutation Sorting.Sorted.
From S2P Require Import Prelude OrderedMap Sort Core Checked Hash Domain Hitting.
Local Open Scope string_scope.
Local Open Scope list_scope.
Local Open Scope Z_scope.

Module LocalizationStatus.
(** include/blackhole/localize/localizer.hpp:47-59 LocalizationStatus *)
Inductive t :=
| Resolved | Ambiguous | Indeterminate | ProvenInfeasible | InvalidInput.

Definition raw (e : t) : Z :=
  match e with
  | Resolved => 0 | Ambiguous => 1 | Indeterminate => 2 | ProvenInfeasible => 3
  | InvalidInput => 4
  end.

Definition all : list t :=
  [Resolved; Ambiguous; Indeterminate; ProvenInfeasible; InvalidInput].

(** include/blackhole/localize/localizer.hpp:61-61 is_valid(LocalizationStatus) *)
Definition is_valid (raw : Z) : bool := raw <=? 4.

(** include/blackhole/localize/localizer.hpp:63-72 to_string(LocalizationStatus) *)
Definition to_string (e : t) : string :=
  match e with
  | Resolved => "Resolved" | Ambiguous => "Ambiguous" | Indeterminate => "Indeterminate"
  | ProvenInfeasible => "ProvenInfeasible" | InvalidInput => "InvalidInput"
  end.
End LocalizationStatus.

#[export] Instance RawEnum_LocalizationStatus : RawEnum LocalizationStatus.t := {
  to_raw := LocalizationStatus.raw; of_raw := pick LocalizationStatus.raw LocalizationStatus.all LocalizationStatus.Resolved;
  is_valid_raw := fun z => (0 <=? z) && LocalizationStatus.is_valid z;
}.
#[export] Hint Unfold LocalizationStatus.is_valid : enum.
#[export] Instance RawEnumLaws_LocalizationStatus : RawEnumLaws LocalizationStatus.t.
Proof. solve_enum 0 4%nat. Qed.
#[export] Instance LocalizationStatus_eq_dec : EqDecision LocalizationStatus.t :=
  eq_dec_by_inj LocalizationStatus.raw (to_raw_inj (E := LocalizationStatus.t)).

Definition kMaxLocalizationSets : Z := 64.
Definition kMaxLocalizationCandidates : Z := 64.
Definition kReferenceSolverMaxCandidates : Z := 18.

(** include/blackhole/localize/localizer.hpp:78-89 LocalizationInput *)
Record LocalizationInput := MkInput {
  element_count : Z;
  proven_ok : list Z;
  failure_sets : list (list Z);
  search_node_budget : Z;
  max_solutions : Z;
}.

(** include/blackhole/localize/localizer.hpp:94-109 LocalizationResult *)
Record LocalizationResult := MkResult {
  status : LocalizationStatus.t;
  elements : list Z;
  optimal_size : Z;
  optimality_proven : bool;
  uniqueness_proven : bool;
  solutions_truncated : bool;
  solutions_found : Z;
  search_nodes : Z;
  infeasible_witness : Z;
  has_infeasible_witness : bool;
  reason : ReasonCode.t;
}.

(** ** Reduction *)

(** src/localize/localizer.cpp:16-26 Reduced *)
Record Reduced := MkReduced {
  candidates : list Z;
  sets : list Z;
  raw_sets : list (list Z);
  set_origin : list Z;
  cover : list Z;
  full_mask : Z;
  min_set_origin : Z;
  has_empty_set : bool;
  empty_set_origin : Z;
}.

(** [0, 1, ..., n - 1] *)
Definition range (n : Z) : list Z := map Z.of_nat (seq 0 (Z.to_nat n)).

Definition zmem (e : Z) (l : list Z) : bool := existsb (fun x => x =? e) l.

(** [!ok[e]] for an element of the subject. *)
Definition is_candidate (i : LocalizationInput) (e : Z) : bool :=
  (0 <=? e) && (e <? element_count i) && negb (zmem e (proven_ok i)).

Definition candidates_of (i : LocalizationInput) : list Z :=
  List.filter (is_candidate i) (range (element_count i)).

(** A failure set restricted to live candidates, sorted and deduplicated, lines 45-51. *)
Definition live_set (i : LocalizationInput) (s : list Z) : list Z :=
  set_of (List.filter (is_candidate i) s).

(** src/localize/localizer.cpp:28-31 RawSet *)
Record RawSet := MkRaw { elems : list Z; origin : Z }.

Definition indexed_sets (i : LocalizationInput) : list RawSet :=
  imap (fun k s => MkRaw (live_set i s) (Z.of_nat k)) (failure_sets i).

Definition is_nil {A} (l : list A) : bool := match l with [] => true | _ => false end.

(** By size, then lexicographically, lines 69-74. *)
Definition raw_key (r : RawSet) : list Z := zlen (elems r) :: elems r.

(** The halving loop of [std::lower_bound] over the [len] positions from [first]: the first
    position whose element is not below [e]. *)
Fixpoint lower_bound (fuel : nat) (l : list Z) (e : Z) (first len : nat) : nat :=
  match fuel with
  | O => first
  | S fuel =>
      match len with
      | O => first
      | _ =>
          let half := Nat.div2 len in
          if nth (first + half) l 0 <? e then lower_bound fuel l e (S (first + half)) (len - half - 1)
          else lower_bound fuel l e first half
      end
  end.

(** [std::binary_search]. *)
Definition binary_search (l : list Z) (e : Z) : bool :=
  match l !! lower_bound (length l) l e 0 (length l) with Some x => negb (e <? x) | None => false end.

(** [std::includes] on ascending ranges. *)
Definition includes (a b : list Z) : bool := forallb (fun x => zmem x a) b.

(** Duplicates and supersets of a kept set are dropped, lines 76-88. *)
Definition keep_minimal (raw : list RawSet) : list RawSet :=
  foldl (fun kept r =>
           if existsb (fun k => (zlen (elems k) <=? zlen (elems r)) && includes (elems r) (elems k)) kept
           then kept else kept ++ [r]) [] raw.

(** Position of an element in the ascending candidates ([std::lower_bound]). *)
Fixpoint index_of (e : Z) (cands : list Z) : option nat :=
  match cands with
  | [] => None
  | c :: cands => if c =? e then Some O else S <$> index_of e cands
  end.

Definition bit (n : nat) : Z := Z.shiftl 1 (Z.of_nat n).

(** src/localize/localizer.cpp:117-126 elements_to_mask *)
Definition elements_to_mask (cands : list Z) (es : list Z) : Z :=
  foldl (fun m e => match index_of e cands with Some ci => Z.lor m (bit ci) | None => m end) 0 es.

(** [cover[ci]]: the sets that contain candidate [ci], lines 103-113. *)
Definition cover_of (sets : list Z) (ci : nat) : Z :=
  foldl (fun acc '(si, m) => if Z.land m (bit ci) =? 0 then acc else Z.lor acc (bit si))
    0 (imap pair sets).

(** src/localize/localizer.cpp:33-115 reduce *)
Definition reduce (i : LocalizationInput) : Reduced :=
  let cands := candidates_of i in
  let all := indexed_sets i in
  let empties := List.filter (fun r => is_nil (elems r)) all in
  let raw := List.filter (fun r => negb (is_nil (elems r))) all in
  let kept := keep_minimal (sort_by (key_lt raw_key) raw) in
  let ms := map (fun r => elements_to_mask cands (elems r)) kept in
  MkReduced cands ms (map elems kept) (map origin kept)
    (map (cover_of ms) (seq 0 (length cands)))
    (foldl (fun m si => Z.lor m (bit si)) 0 (seq 0 (length kept)))
    (match kept with [] => 0 | k :: _ => origin k end)
    (negb (is_nil empties)) (match empties with [] => 0 | r :: _ => origin r end).

(** src/localize/localizer.cpp:244-261 disjoint_lower_bound *)
Definition disjoint_lower_bound (r : Reduced) : nat :=
  (foldl (fun '(used, count) m =>
            if Z.land m used =? 0 then (Z.lor used m, S count) else (used, count))
     (0, O) (sort_by (key_lt (fun m => [popcount64 m; m])) (sets r))).2.

(** ** Validation of the input *)

(** Ascending, unique and below [n]: [Some why] on the first offence, lines 292-321. *)
Fixpoint check_elements (n : Z) (out_of_range unsorted : string) (prev : option Z) (l : list Z)
  : option string :=
  match l with
  | [] => None
  | e :: l =>
      if n <=? e then Some out_of_range
      else if (match prev with Some p => e <=? p | None => false end) then Some unsorted
      else check_elements n out_of_range unsorted (Some e) l
  end.

Fixpoint first_some {A B} (f : A -> option B) (l : list A) : option B :=
  match l with [] => None | x :: l => match f x with Some b => Some b | None => first_some f l end end.

(** src/localize/localizer.cpp:265-323 validate_localization_input *)
Definition validate_localization_input (i : LocalizationInput) : Outcome * string :=
  let n := element_count i in
  if n =? 0 then (Invalid, "element_count must be positive")
  else if kMaxLocalizationSets <? zlen (failure_sets i) then
    (Oversized, "failure_sets exceeds the supported mask width")
  else if n <? zlen (proven_ok i) then (Invalid, "proven_ok larger than element_count")
  else if kMaxLocalizationCandidates <? n - zlen (proven_ok i) then
    (Unsupported, "candidate count exceeds the supported bound")
  else if search_node_budget i =? 0 then (Invalid, "search_node_budget must be positive")
  else if max_solutions i =? 0 then (Invalid, "max_solutions must be positive")
  else
    match check_elements n "proven_ok element out of range" "proven_ok must be ascending and unique"
            None (proven_ok i) with
    | Some why => (Invalid, why)
    | None =>
        match first_some (check_elements n "failure set element out of range"
                            "failure set must be ascending and unique" None) (failure_sets i) with
        | Some why => (Invalid, why)
        | None => (Ok, "")
        end
    end.

(** ** Greedy heuristic *)

(** The first candidate of maximal count, lines 414-422. *)
Definition best_candidate (cov_ : list Z) (remaining : Z) : nat * Z :=
  foldl (fun '(best_idx, best_count) '(ci, c) =>
           let cnt := popcount64 (Z.land c remaining) in
           if best_count <? cnt then (ci, cnt) else (best_idx, best_count))
    (length cov_, 0) (imap pair cov_).

(** The loop of [greedy_localization]; 64 rounds clear a 64-bit mask. *)
Fixpoint greedy_loop (fuel : nat) (r : Reduced) (remaining : Z) (chosen : list Z) : list Z :=
  match fuel with
  | O => chosen
  | S fuel =>
      if remaining =? 0 then chosen
      else
        let '(best_idx, best_count) := best_candidate (cover r) remaining in
        if Nat.leb (length (candidates r)) best_idx || (best_count =? 0) then chosen
        else greedy_loop fuel r (Z.ldiff remaining (cov (cover r) best_idx))
               (chosen ++ [nth best_idx (candidates r) 0])
  end.

(** src/localize/localizer.cpp:409-429 greedy_localization *)
Definition greedy_localization (i : LocalizationInput) : list Z :=
  let r := reduce i in
  sort_by (fun a b => a <? b) (greedy_loop 65 r (full_mask r) []).

(** ** Exact solver *)

Definition invalid_result : LocalizationResult :=
  MkResult LocalizationStatus.InvalidInput [] 0 false false false 0 0 0 false ReasonCode.LocalizationInvalid.
Definition infeasible_result (witness : Z) : LocalizationResult :=
  MkResult LocalizationStatus.ProvenInfeasible [] 0 false false false 0 0 witness true
    ReasonCode.LocalizationInfeasible.
(** No failed segment: the empty set is the unique proven-optimal localization. *)
Definition trivial_result : LocalizationResult :=
  MkResult LocalizationStatus.Resolved [] 0 true true false 1 0 0 false ReasonCode.LocalizationResolved.

(** src/localize/localizer.cpp:325-407 localize *)
Definition localize (i : LocalizationInput) : LocalizationResult :=
  if negb (is_affirmative (validate_localization_input i).1) then invalid_result
  else
    let r := reduce i in
    if has_empty_set r then infeasible_result (empty_set_origin r)
    else if is_nil (sets r) then trivial_result
    else
      let lb := disjoint_lower_bound r in
      let start := (if Nat.eqb lb 0 then 1 else lb)%nat in
      let '(size, oracle) :=
        size_search (cover r) (search_node_budget i) (65 - start) start (full_mask r) new_Oracle in
      let nodes1 := o_nodes oracle in
      match size with
      | None =>
          MkResult LocalizationStatus.Indeterminate (greedy_localization i) 0 false false false 0 nodes1
            0 false ReasonCode.LocalizationSearchLimit
      | Some best =>
          let remaining_budget :=
            if nodes1 <? search_node_budget i then search_node_budget i - nodes1 else 1 in
          let en := run (cover r) (search_node_budget i) (max_solutions i) remaining_budget best 0
                      (full_mask r) (new_Enum oracle) in
          let unique := negb (truncated_ en) && (found_ en =? 1) in
          if found_ en =? 0 then
            MkResult LocalizationStatus.Indeterminate (greedy_localization i) (Z.of_nat best) false unique
              (truncated_ en) (found_ en) (nodes1 + nodes_ en) 0 false ReasonCode.LocalizationSearchLimit
          else
            MkResult
              (if 1 <? found_ en then LocalizationStatus.Ambiguous else LocalizationStatus.Resolved)
              (map (fun ci => nth ci (candidates r) 0) (first_ en)) (Z.of_nat best) true unique
              (truncated_ en) (found_ en) (nodes1 + nodes_ en) 0 false
              (if 1 <? found_ en then ReasonCode.LocalizationAmbiguous else ReasonCode.LocalizationResolved)
      end.

(** ** Reference solver *)

(** The next combination of [k] indices below [n], lines 481-491: the rightmost index
    that can grow is incremented and its successors follow it. *)
Fixpoint next_combination_rev (n : nat) (j : nat) (rev_idx : list nat) : option (list nat) :=
  match rev_idx with
  | [] => None
  | x :: rest_ =>
      if Nat.ltb x (n - 1 - j)%nat then Some (rev (seq (S x) (S j)) ++ rest_)
      else next_combination_rev n (S j) rest_
  end.

Definition next_combination (n : nat) (idx : list nat) : option (list nat) :=
  match next_combination_rev n 0 (rev idx) with Some l => Some (rev l) | None => None end.

Definition union_cover (cov_ : list Z) (idx : list nat) : Z :=
  foldl (fun acc ci => Z.lor acc (cov cov_ ci)) 0 idx.

(** The inner loop over the combinations of one size. *)
Fixpoint combinations (fuel : nat) (r : Reduced) (max : Z) (idx : list nat) (mins : list (list Z))
  : list (list Z) :=
  match fuel with
  | O => mins
  | S fuel =>
      let mins :=
        if union_cover (cover r) idx =? full_mask r
        then mins ++ [map (fun ci => nth ci (candidates r) 0) idx] else mins in
      if (union_cover (cover r) idx =? full_mask r) && (max <=? zlen mins) then mins
      else
        match next_combination (length (candidates r)) idx with
        | None => mins
        | Some idx => combinations fuel r max idx mins
        end
  end.

Fixpoint reference_sizes (fuel : nat) (k : nat) (r : Reduced) (max : Z) : option (nat * list (list Z)) :=
  match fuel with
  | O => None
  | S fuel =>
      match combinations (2 ^ length (candidates r)) r max (seq 0 k) [] with
      | [] => reference_sizes fuel (S k) r max
      | mins => Some (k, mins)
      end
  end.

(** src/localize/localizer.cpp:431-512 reference_localize *)
Definition reference_localize (i : LocalizationInput) (max_candidates : Z) : LocalizationResult :=
  if negb (is_affirmative (validate_localization_input i).1) then invalid_result
  else
    let r := reduce i in
    if has_empty_set r then infeasible_result (empty_set_origin r)
    else if is_nil (sets r) then trivial_result
    else if max_candidates <? zlen (candidates r) then
      MkResult LocalizationStatus.Indeterminate [] 0 false false false 0 0 0 false
        ReasonCode.LocalizationSearchLimit
    else
      match reference_sizes (length (candidates r)) 1 r (max_solutions i) with
      | Some (k, mins) =>
          let n := zlen mins in
          MkResult (if 1 <? n then LocalizationStatus.Ambiguous else LocalizationStatus.Resolved)
            (default [] (head mins)) (Z.of_nat k) true (n =? 1)
            ((max_solutions i <=? n) && (1 <? max_solutions i)) n 0 0 false
            (if 1 <? n then ReasonCode.LocalizationAmbiguous else ReasonCode.LocalizationResolved)
      | None => infeasible_result (min_set_origin r)
      end.

(** ** Independent validator *)

Module OptimalityCheck.
(** include/blackhole/localize/localizer.hpp:119-124 ValidationReport::OptimalityCheck *)
Inductive t := NotRequested | Oracle | ExhaustiveReference | Unavailable.
End OptimalityCheck.

(** include/blackhole/localize/localizer.hpp:118-133 ValidationReport *)
Record ValidationReport := MkReport {
  rep_valid : bool;
  covers_all : bool;
  subset_of_candidates : bool;
  canonical_order : bool;
  size_matches : bool;
  optimality : OptimalityCheck.t;
  optimality_confirmed : bool;
  detail : string;
}.

Definition empty_report (why : string) : ValidationReport :=
  MkReport false false false false false OptimalityCheck.NotRequested false why.

(** The element checks of a claimed localization, lines 550-564. *)
Fixpoint check_claim (i : LocalizationInput) (prev : option Z) (l : list Z) : option string :=
  match l with
  | [] => None
  | e :: l =>
      if element_count i <=? e then Some "element out of range"
      else if binary_search (proven_ok i) e then Some "element is proven healthy"
      else if (match prev with Some p => e <=? p | None => false end)
      then Some "elements are not strictly ascending"
      else check_claim i (Some e) l
  end.

(** src/localize/localizer.cpp:514-629 verify_localization *)
Definition verify_localization (i : LocalizationInput) (result : LocalizationResult) : ValidationReport :=
  let r := reduce i in
  match status result with
  | LocalizationStatus.ProvenInfeasible =>
      if negb (has_infeasible_witness result) then
        empty_report "ProvenInfeasible reported without a certificate"
      else if zlen (failure_sets i) <=? infeasible_witness result then
        empty_report "certificate index out of range"
      else if existsb (fun e => (e <? element_count i) && negb (binary_search (proven_ok i) e))
                (nth (Z.to_nat (infeasible_witness result)) (failure_sets i) []) then
        empty_report "certificate set still contains a live candidate"
      else MkReport true true true true true OptimalityCheck.Oracle true
             "infeasibility certificate verified"
  | LocalizationStatus.InvalidInput => empty_report "result is InvalidInput"
  | _ =>
      match check_claim i None (elements result) with
      | Some why => empty_report why
      | None =>
          let covers_ := forallb (fun s => existsb (fun e => binary_search (elements result) e) s) (failure_sets i) in
          let size_ok := negb (optimality_proven result) || (optimal_size result =? zlen (elements result)) in
          if optimality_proven result then
            if zlen (candidates r) <=? kReferenceSolverMaxCandidates then
              let ref := reference_localize i kReferenceSolverMaxCandidates in
              if status ref == LocalizationStatus.Indeterminate then
                MkReport covers_ covers_ true true size_ok OptimalityCheck.Unavailable false
                  "reference solver unavailable for this instance"
              else
                let same_ambiguity :=
                  bool_decide ((status ref == LocalizationStatus.Ambiguous)
                               = (status result == LocalizationStatus.Ambiguous))
                  || solutions_truncated result in
                let confirmed := (optimal_size ref =? optimal_size result)
                                 && (elements ref == elements result) && same_ambiguity in
                MkReport (covers_ && confirmed) covers_ true true size_ok
                  OptimalityCheck.ExhaustiveReference confirmed
                  (if confirmed then "optimality confirmed by exhaustive reference"
                   else "independent reference disagrees with the solver output")
            else
              let m := elements_to_mask (candidates r) (elements result) in
              let covers_mask := Z.land m (full_mask r) =? full_mask r in
              let '(no_smaller_, oracle) :=
                if optimal_size result =? 0 then (true, new_Oracle)
                else
                  let '(ok, o) := covers (cover r) 4000000 (Z.to_nat (optimal_size result - 1)) 0
                                    (full_mask r) new_Oracle in
                  (negb ok && negb (o_exhausted o), o) in
              let confirmed := covers_mask && no_smaller_ && negb (o_exhausted oracle) in
              MkReport (covers_ && confirmed) covers_ true true size_ok OptimalityCheck.Oracle confirmed
                (if confirmed then "optimality confirmed by feasibility oracle"
                 else "optimality oracle could not confirm the claimed minimum")
          else MkReport covers_ covers_ true true size_ok OptimalityCheck.NotRequested false
                 "validity verified"
      end
  end.

(** ** From probes to constraints *)

(** include/blackhole/localize/localizer.hpp:150-154 HopProbe *)
Record HopProbe := MkProbe { p_begin : Z; p_end : Z; success : bool }.

Definition probe_invalid (hop_count : Z) (p : HopProbe) : bool :=
  (p_end p <=? p_begin p) || (hop_count <? p_end p).

Definition in_probe (p : HopProbe) (h : Z) : bool := (p_begin p <=? h) && (h <? p_end p).

(** src/localize/localizer.cpp:631-673 build_localization_input *)
Definition build_localization_input (hop_count : Z) (probes : list HopProbe)
  (search_node_budget max_solutions : Z) : (Outcome * string) + LocalizationInput :=
  if hop_count =? 0 then inl (Invalid, "hop_count must be positive")
  else if kMaxLocalizationSets <? zlen probes then
    inl (Oversized, "probe count exceeds the supported mask width")
  else if existsb (probe_invalid hop_count) probes then inl (Invalid, "probe range invalid")
  else
    let ok h := existsb (fun p => success p && in_probe p h) probes in
    let i := MkInput hop_count (List.filter ok (range hop_count))
               (map (fun p => List.filter (fun h => in_probe p h && negb (ok h)) (range hop_count))
                  (List.filter (fun p => negb (success p)) probes))
               search_node_budget max_solutions in
    let '(v, why) := validate_localization_input i in
    if negb (is_affirmative v) then inl (v, why) else inr i.
