(* ===== verification/LocalizerSpec.v ===== *)
(** * Correctness of failure localization

    The abstract contract of the localizer, stated on failure sets and elements, and the
    proof that the reduction, the oracle, the enumerator and the greedy heuristic
    implement it: a localization explains every failed segment with elements not proven
    healthy, and [localize] returns the least minimum one. *)
From Stdlib Require Import Strings.String Sorting.Permutation Sorting.Sorted.
From S2P Require Import Prelude OrderedMap Sort Core Checked Hash Domain Hitting Localizer.
Local Open Scope string_scope.
Local Open Scope list_scope.
Local Open Scope Z_scope.

(** ** The contract *)

(** [E] explains every failed segment with elements not proven healthy. *)
Definition explains (i : LocalizationInput) (E : list Z) : Prop :=
  Forall (fun e => is_candidate i e = true) E /\
  Forall (fun s => exists e, In e s /\ In e E) (failure_sets i).

(** A localization: an explanation in canonical order. *)
Definition localization (i : LocalizationInput) (E : list Z) : Prop :=
  explains i E /\ StronglySorted Z.lt E.

(** No explanation is smaller. *)
Definition minimum_localization (i : LocalizationInput) (E : list Z) : Prop :=
  localization i E /\ forall E', explains i E' -> (length E <= length E')%nat.

(** Lexicographic order of element lists. *)
Definition elements_lt (E E' : list Z) : Prop := lex E E' = Lt.

(** The elements of an input are [uint32_t] values. *)
Definition input_ok (i : LocalizationInput) : Prop :=
  in_u32 (element_count i) /\ Forall (fun e => 0 <= e) (proven_ok i) /\
  Forall (Forall (fun e => 0 <= e)) (failure_sets i) /\
  in_u64 (search_node_budget i) /\ in_u32 (max_solutions i).

(** ** Masks built by a loop of [|=] *)

Lemma bit_spec n j : 0 <= j -> Z.testbit (bit n) j = (j =? Z.of_nat n).
Proof.
  intros Hj. unfold bit. rewrite Z.shiftl_1_l. destruct (Z.eqb_spec j (Z.of_nat n)) as [-> |].
  - apply Z.pow2_bits_true. lia.
  - apply Z.pow2_bits_false. lia.
Qed.

Lemma foldl_lor_spec {A} (step : Z -> A -> Z) (P : A -> Z -> bool) l m0 j :
  (forall m x, Z.testbit (step m x) j = Z.testbit m j || P x j) ->
  Z.testbit (foldl step m0 l) j = Z.testbit m0 j || existsb (fun x => P x j) l.
Proof.
  intros Hs. revert m0. induction l as [| x l IH]; intros m0; simpl.
  - by rewrite orb_false_r.
  - by rewrite IH, Hs, orb_assoc.
Qed.

Lemma foldl_lor_nonneg {A} (step : Z -> A -> Z) l m0 :
  (forall m x, 0 <= m -> 0 <= step m x) -> 0 <= m0 -> 0 <= foldl step m0 l.
Proof. intros Hs. revert m0. induction l as [| x l IH]; intros m0 Hm; simpl; auto. Qed.

Lemma bit_nonneg n : 0 <= bit n.
Proof. apply Z.shiftl_nonneg. lia. Qed.

Lemma index_of_lookup cands e k : index_of e cands = Some k -> cands !! k = Some e.
Proof.
  revert k. induction cands as [| c cands IH]; intros k; simpl; [done |].
  destruct (Z.eqb_spec c e) as [-> |]; [by intros [= <-] |].
  destruct (index_of e cands) as [k' |]; simpl; [| done]. intros [= <-]. by apply IH.
Qed.

Lemma index_of_complete cands e k :
  StronglySorted Z.lt cands -> cands !! k = Some e -> index_of e cands = Some k.
Proof.
  intros Hs. revert k. induction Hs as [| c cands Hs IH Hc]; intros k; [done |].
  destruct k as [| k]; simpl.
  - intros [= ->]. by rewrite Z.eqb_refl.
  - intros Hk. rewrite List.Forall_forall in Hc.
    assert (c < e) by (apply Hc, list_elem_of_In; by eapply list_elem_of_lookup_2).
    destruct (Z.eqb_spec c e); [lia |]. by rewrite (IH k Hk).
Qed.

Lemma elements_to_mask_spec cands es j :
  Z.testbit (elements_to_mask cands es) (Z.of_nat j) = true <->
  exists e, In e es /\ index_of e cands = Some j.
Proof.
  unfold elements_to_mask. rewrite (foldl_lor_spec _
    (fun e j => match index_of e cands with Some ci => j =? Z.of_nat ci | None => false end)).
  - rewrite Z.bits_0. simpl. rewrite existsb_exists. split; intros (e & Hin & He); exists e; split; try done.
    + destruct (index_of e cands) as [ci |]; [| done]. f_equal. bool_prop. lia.
    + rewrite He. by apply Z.eqb_eq.
  - intros m e. destruct (index_of e cands) as [ci |]; [| by rewrite orb_false_r].
    by rewrite Z.lor_spec, bit_spec by lia.
Qed.

Lemma elements_to_mask_nonneg cands es : 0 <= elements_to_mask cands es.
Proof.
  apply foldl_lor_nonneg; [| lia]. intros m e Hm. destruct (index_of e cands); [| done].
  apply Z.lor_nonneg. split; [done | apply bit_nonneg].
Qed.

Lemma cover_of_spec ms ci si :
  Z.testbit (cover_of ms ci) (Z.of_nat si) = true <->
  exists m, ms !! si = Some m /\ Z.testbit m (Z.of_nat ci) = true.
Proof.
  unfold cover_of. rewrite (foldl_lor_spec _
    (fun '(sj, m) j => (j =? Z.of_nat sj) && Z.testbit m (Z.of_nat ci))).
  - rewrite Z.bits_0. simpl. rewrite existsb_exists. split.
    + intros ([sj m] & Hin & Hb). bool_prop. apply list_elem_of_In, list_elem_of_lookup_1 in Hin as [k Hk].
      rewrite list_lookup_imap in Hk. destruct (ms !! k) as [m' |] eqn:E; simplify_eq/=.
      by exists m.
    + intros (m & Hm & Hb). exists (si, m). rewrite Z.eqb_refl, Hb. split; [| done].
      apply list_elem_of_In, (list_elem_of_lookup_2 _ si). by rewrite list_lookup_imap, Hm.
  - intros acc [sj m]. unfold bit at 1. rewrite land_bit by lia.
    destruct (Z.testbit m (Z.of_nat ci)); simpl; [| by rewrite andb_false_r, orb_false_r].
    by rewrite Z.lor_spec, bit_spec, andb_true_r by lia.
Qed.

Lemma zmem_In e l : zmem e l = true <-> In e l.
Proof.
  unfold zmem. rewrite existsb_exists. split.
  - intros (x & Hin & Hx). bool_prop. by subst.
  - intros Hin. exists e. by rewrite Z.eqb_refl.
Qed.

Lemma includes_spec a b : includes a b = true <-> incl b a.
Proof.
  unfold includes, incl. rewrite forallb_forall. split; intros H x Hx; [by apply zmem_In, H |].
  by apply zmem_In, H.
Qed.

(** ** Candidates *)

Lemma range_spec n e : In e (range n) <-> 0 <= e < n.
Proof.
  unfold range. rewrite in_map_iff. split.
  - intros (k & <- & Hk). apply in_seq in Hk. lia.
  - intros He. exists (Z.to_nat e). split; [lia |]. apply in_seq. lia.
Qed.

Lemma range_sorted n : StronglySorted Z.lt (range n).
Proof.
  unfold range. generalize 0%nat. induction (Z.to_nat n) as [| k IH]; intros s; simpl; [constructor |].
  constructor; [apply IH |]. apply List.Forall_forall. intros x (y & <- & Hy)%in_map_iff.
  apply in_seq in Hy. lia.
Qed.

Lemma sorted_filter {A} (R : A -> A -> Prop) f l :
  StronglySorted R l -> StronglySorted R (List.filter f l).
Proof.
  induction 1 as [| x l Hl IH Hx]; simpl; [constructor |]. destruct (f x); [| done].
  constructor; [done |]. rewrite List.Forall_forall in *. intros y [Hy _]%filter_In. auto.
Qed.

Lemma sorted_NoDup l : StronglySorted Z.lt l -> List.NoDup l.
Proof.
  induction 1 as [| x l Hl IH Hx]; constructor; [| done]. intros Hin.
  rewrite List.Forall_forall in Hx. specialize (Hx _ Hin). lia.
Qed.

Section Candidates.
Context (i : LocalizationInput).

Lemma candidates_In e : In e (candidates_of i) <-> is_candidate i e = true.
Proof.
  unfold candidates_of. rewrite filter_In, range_spec. unfold is_candidate. split; [tauto |].
  intros H. split; [| done]. bool_prop. lia.
Qed.

Lemma candidates_sorted : StronglySorted Z.lt (candidates_of i).
Proof. apply sorted_filter, range_sorted. Qed.

(** At most 64 candidates remain when the input passes validation. *)
Lemma candidates_bound :
  0 <= element_count i -> element_count i - zlen (proven_ok i) <= 64 ->
  StronglySorted Z.lt (proven_ok i) -> Forall (fun e => 0 <= e < element_count i) (proven_ok i) ->
  (length (candidates_of i) <= 64)%nat.
Proof.
  intros Hn Hb Hs Hr.
  assert (incl (range (element_count i)) (candidates_of i ++ proven_ok i)) as Hincl.
  { intros e He. apply in_app_iff. destruct (zmem e (proven_ok i)) eqn:E; [right; by apply zmem_In |].
    left. apply candidates_In. unfold is_candidate. apply range_spec in He.
    rewrite E. simpl. destruct (Z.leb_spec 0 e), (Z.ltb_spec e (element_count i)); done || lia. }
  assert (List.NoDup (candidates_of i ++ proven_ok i)) as Hnd.
  { apply List.NoDup_app; [apply sorted_NoDup, candidates_sorted | by apply sorted_NoDup |].
    intros e He Hin. apply candidates_In in He. unfold is_candidate in He. bool_prop.
    apply zmem_In in Hin. congruence. }
  assert (incl (candidates_of i ++ proven_ok i) (range (element_count i))) as Hincl'.
  { intros e [He | He]%in_app_iff; apply range_spec.
    - apply candidates_In in He. unfold is_candidate in He. bool_prop. lia.
    - rewrite List.Forall_forall in Hr. by apply Hr. }
  apply (NoDup_incl_length Hnd) in Hincl'. rewrite length_app in Hincl'.
  unfold range in Hincl'. rewrite length_map, length_seq in Hincl'. unfold zlen in Hb. lia.
Qed.

(** Index lists over the candidates and the elements they stand for. *)
Definition elements_of (H : list nat) : list Z := map (fun ci => nth ci (candidates_of i) 0) H.

Definition indices_of (E : list Z) : list nat := omap (fun e => index_of e (candidates_of i)) E.

Definition index_range (H : list nat) : Prop := Forall (fun ci => ci < length (candidates_of i))%nat H.

Lemma nth_candidate ci :
  (ci < length (candidates_of i))%nat -> candidates_of i !! ci = Some (nth ci (candidates_of i) 0).
Proof. intros Hc. by apply nth_lookup_Some_2 || (rewrite nth_lookup; destruct (lookup_lt_is_Some_2 _ _ Hc) as [x ->]). Qed.

Lemma elements_of_candidate H :
  index_range H -> Forall (fun e => is_candidate i e = true) (elements_of H).
Proof.
  intros Hr. unfold elements_of. apply List.Forall_forall. intros e (ci & <- & Hin)%in_map_iff.
  unfold index_range in Hr. rewrite List.Forall_forall in Hr. apply candidates_In, nth_In, Hr, Hin.
Qed.

Lemma index_of_nth ci :
  (ci < length (candidates_of i))%nat -> index_of (nth ci (candidates_of i) 0) (candidates_of i) = Some ci.
Proof. intros Hc. apply index_of_complete; [apply candidates_sorted | by apply nth_candidate]. Qed.

Lemma index_of_candidate e :
  is_candidate i e = true -> exists ci, index_of e (candidates_of i) = Some ci /\ (ci < length (candidates_of i))%nat /\ nth ci (candidates_of i) 0 = e.
Proof.
  intros He. apply candidates_In in He. apply (In_nth _ _ 0) in He as (ci & Hc & <-).
  exists ci. split; [by apply index_of_nth | done].
Qed.

Lemma indices_elements E :
  Forall (fun e => is_candidate i e = true) E ->
  elements_of (indices_of E) = E /\ index_range (indices_of E).
Proof.
  induction 1 as [| e E He HE [IH1 IH2]]; [by split; [| constructor] |].
  destruct (index_of_candidate e He) as (ci & Hci & Hlt & Hnth).
  unfold indices_of in *. cbn [omap list_omap]. rewrite Hci. split.
  - unfold elements_of in *. cbn [map]. by rewrite Hnth, IH1.
  - by constructor.
Qed.

Lemma nth_candidate_lt a b :
  (a < b)%nat -> (b < length (candidates_of i))%nat ->
  nth a (candidates_of i) 0 < nth b (candidates_of i) 0.
Proof.
  pose proof candidates_sorted as Hs. revert a b. induction Hs as [| c l Hl IH Hc]; intros a b Hab Hb; simpl in Hb; [lia |].
  destruct b as [| b]; [lia |]. destruct a as [| a]; simpl.
  - rewrite List.Forall_forall in Hc. apply Hc, nth_In. lia.
  - apply IH; lia.
Qed.

Lemma nth_candidate_compare a b :
  (a < length (candidates_of i))%nat -> (b < length (candidates_of i))%nat ->
  (nth a (candidates_of i) 0 ?= nth b (candidates_of i) 0) = (Z.of_nat a ?= Z.of_nat b).
Proof.
  intros Ha Hb. destruct (Nat.lt_trichotomy a b) as [H | [-> | H]].
  - rewrite (proj2 (Z.compare_lt_iff _ _)); [symmetry; apply Z.compare_lt_iff; lia |]. by apply nth_candidate_lt.
  - by rewrite !Z.compare_refl.
  - rewrite (proj2 (Z.compare_gt_iff _ _)); [symmetry; apply Z.compare_gt_iff; lia |]. by apply nth_candidate_lt.
Qed.

Lemma elements_sorted H :
  index_range H -> ascending_nat H <-> StronglySorted Z.lt (elements_of H).
Proof.
  intros Hr. induction Hr as [| ci H Hci Hr IH]; simpl; [split; constructor |].
  assert (forall cj, In cj H -> (ci < cj)%nat <-> nth ci (candidates_of i) 0 < nth cj (candidates_of i) 0) as Heq.
  { intros cj Hin. rewrite List.Forall_forall in Hr. specialize (Hr _ Hin).
    split; intros Hlt; [by apply nth_candidate_lt |].
    destruct (Nat.lt_trichotomy ci cj) as [| [-> | Hgt]]; [done | lia |].
    pose proof (nth_candidate_lt cj ci Hgt Hci). lia. }
  split; inversion_clear 1 as [| ? ? Hs Hf]; constructor; try by apply IH.
  - apply List.Forall_forall. intros e (cj & <- & Hin)%in_map_iff.
    apply (Heq cj Hin). rewrite List.Forall_forall in Hf. auto.
  - apply List.Forall_forall. intros cj Hin. apply (Heq cj Hin).
    rewrite List.Forall_forall in Hf. apply Hf. unfold elements_of. apply in_map_iff. by exists cj.
Qed.

Lemma elements_lex H K :
  index_range H -> index_range K -> lex (elements_of H) (elements_of K) = lex (map Z.of_nat H) (map Z.of_nat K).
Proof.
  intros HH. revert K. induction HH as [| a H Ha HH IH]; intros K HK; destruct HK as [| b K Hb HK]; try done.
  cbn [elements_of map lex]. change (map (fun ci => nth ci (candidates_of i) 0)) with elements_of.
  rewrite nth_candidate_compare by done. by rewrite IH.
Qed.
End Candidates.

(** ** Validation *)

Record input_valid (i : LocalizationInput) : Prop := {
  v_count : 0 < element_count i;
  v_sets : zlen (failure_sets i) <= kMaxLocalizationSets;
  v_candidates : element_count i - zlen (proven_ok i) <= kMaxLocalizationCandidates;
  v_proven : zlen (proven_ok i) <= element_count i;
  v_budget : 0 < search_node_budget i;
  v_max : 0 < max_solutions i;
  v_ok_sorted : StronglySorted Z.lt (proven_ok i);
  v_ok_range : Forall (fun e => 0 <= e < element_count i) (proven_ok i);
  v_set_sorted : Forall (StronglySorted Z.lt) (failure_sets i);
  v_set_range : Forall (Forall (fun e => 0 <= e < element_count i)) (failure_sets i);
}.

Lemma check_elements_spec n a b prev l :
  Forall (fun e => 0 <= e) l ->
  check_elements n a b prev l = None <->
  Forall (fun e => 0 <= e < n) l /\ StronglySorted Z.lt l /\
  match prev with Some p => Forall (fun e => p < e) l | None => True end.
Proof.
  intros Hl. revert prev. induction Hl as [| e l He Hl IH]; intros prev; simpl.
  { split; [intros _ | done]. repeat split; try constructor. by destruct prev. }
  destruct (Z.leb_spec n e) as [Hn | Hn].
  { split; [done |]. intros (Hf & _). inversion Hf. lia. }
  destruct (match prev with Some p => e <=? p | None => false end) eqn:Ep.
  { split; [done |]. intros (_ & _ & Hp). destruct prev; [| done]. inversion Hp. bool_prop. lia. }
  rewrite IH. split.
  - intros (H1 & H2 & H3). split; [by constructor |]. split; [by constructor |].
    destruct prev as [p |]; [| done]. bool_prop. constructor; [done |].
    eapply Forall_impl; [exact H3 |]. simpl. lia.
  - intros (H1 & H2 & _). inversion H1. by inversion H2.
Qed.

Lemma first_some_None {A B} (f : A -> option B) l :
  first_some f l = None <-> Forall (fun x => f x = None) l.
Proof.
  induction l as [| x l IH]; simpl; [by split |]. destruct (f x) eqn:E.
  - split; [done |]. inversion_clear 1. congruence.
  - rewrite IH. split; [by constructor | by inversion_clear 1].
Qed.

Lemma validate_input_spec i :
  input_ok i -> (validate_localization_input i).1 = Ok <-> input_valid i.
Proof.
  intros (Hn & Hok & Hfs & Hb & Hm).
  assert (forall a b, first_some (check_elements (element_count i) a b None) (failure_sets i) = None <->
    Forall (StronglySorted Z.lt) (failure_sets i) /\
    Forall (Forall (fun e => 0 <= e < element_count i)) (failure_sets i)) as Hsets.
  { intros a b. rewrite first_some_None, <- Forall_and. rewrite !List.Forall_forall in *.
    split; intros H s Hs; specialize (H s Hs); rewrite check_elements_spec in * by auto; tauto. }
  unfold in_u in *. unfold validate_localization_input.
  destruct (Z.eqb_spec (element_count i) 0); [split; [done |]; intros []; lia |].
  destruct (Z.ltb_spec kMaxLocalizationSets (zlen (failure_sets i))); [split; [done |]; intros []; lia |].
  destruct (Z.ltb_spec (element_count i) (zlen (proven_ok i))); [split; [done |]; intros []; lia |].
  destruct (Z.ltb_spec kMaxLocalizationCandidates (element_count i - zlen (proven_ok i)));
    [split; [done |]; intros []; lia |].
  destruct (Z.eqb_spec (search_node_budget i) 0); [split; [done |]; intros []; lia |].
  destruct (Z.eqb_spec (max_solutions i) 0); [split; [done |]; intros []; lia |].
  destruct (check_elements _ _ _ None (proven_ok i)) eqn:E1.
  { split; [done |]. intros [? ? ? ? ? ? Hs Hr ? ?].
    rewrite (proj2 (check_elements_spec _ _ _ None _ Hok)) in E1; done. }
  destruct (first_some _ (failure_sets i)) eqn:E2.
  { split; [done |]. intros [? ? ? ? ? ? ? ? Hs Hr]. by rewrite (proj2 (Hsets _ _)) in E2. }
  apply check_elements_spec in E1 as (? & ? & _); [| done]. apply Hsets in E2 as [? ?].
  split; [| done]. intros _. split; (done || lia).
Qed.

Lemma affirmative_ok o : is_affirmative o = true <-> o = Ok.
Proof. by destruct o. Qed.

(** ** The reduction *)

Lemma keep_minimal_spec raw :
  incl (keep_minimal raw) raw /\
  forall r, In r raw -> exists k, In k (keep_minimal raw) /\ incl (elems k) (elems r).
Proof.
  unfold keep_minimal.
  induction raw as [| r raw [IH1 IH2]] using rev_ind; [by split; [intros ? | intros ? []] |].
  rewrite foldl_app. cbn [foldl]. set (kept := foldl _ [] raw) in *.
  destruct (existsb _ kept) eqn:E.
  - split; [by apply incl_appl |]. intros s [Hs | [<- | []]]%in_app_iff; [by apply IH2 |].
    apply existsb_exists in E as (k & Hk & Hinc). bool_prop. exists k. split; [done | by apply includes_spec].
  - split; [apply incl_app; [by apply incl_appl | apply incl_appr, incl_refl] |].
    intros s [Hs | [<- | []]]%in_app_iff.
    + destruct (IH2 s Hs) as (k & Hk & Hinc). exists k. split; [apply in_app_iff; by left | done].
    + exists r. split; [apply in_app_iff; right; by left | apply incl_refl].
Qed.

Section Reduction.
Context (i : LocalizationInput).

Definition raw_nonempty : list RawSet := List.filter (fun r => negb (is_nil (elems r))) (indexed_sets i).
Definition kept : list RawSet := keep_minimal (sort_by (key_lt raw_key) raw_nonempty).

Lemma indexed_sets_In r :
  In r (indexed_sets i) <->
  exists k s, failure_sets i !! k = Some s /\ r = MkRaw (live_set i s) (Z.of_nat k).
Proof.
  unfold indexed_sets. rewrite <- list_elem_of_In, list_elem_of_lookup. split.
  - intros (k & Hk). rewrite list_lookup_imap in Hk. destruct (failure_sets i !! k) as [s |] eqn:E; [| done].
    simplify_eq/=. by exists k, s.
  - intros (k & s & Hk & ->). exists k. by rewrite list_lookup_imap, Hk.
Qed.

Lemma live_set_In s e : In e (live_set i s) <-> In e s /\ is_candidate i e = true.
Proof. unfold live_set. by rewrite set_of_In, filter_In. Qed.

Lemma kept_live k : In k kept -> elems k <> [] /\ exists s, In s (failure_sets i) /\ elems k = live_set i s.
Proof.
  intros Hk. apply keep_minimal_spec, sort_by_In, filter_In in Hk as [Hk Hne].
  apply indexed_sets_In in Hk as (n & s & Hn & ->). cbn [elems] in *. split; [by destruct (live_set i s) |].
  exists s. split; [by apply list_elem_of_In, (list_elem_of_lookup_2 _ n) | done].
Qed.

Lemma kept_nonempty k : In k kept -> exists e, In e (elems k) /\ is_candidate i e = true.
Proof.
  intros Hk. apply kept_live in Hk as (Hne & s & _ & Hs). destruct (elems k) as [| e es] eqn:E; [done |].
  exists e. split; [by left |]. assert (In e (live_set i s)) as Hin by (rewrite <- Hs; by left).
  by apply live_set_In in Hin as [_ ?].
Qed.

(** Without an empty set, meeting the kept sets is meeting every failure set. *)
Lemma kept_covers E :
  has_empty_set (reduce i) = false -> Forall (fun e => is_candidate i e = true) E ->
  Forall (fun s => exists e, In e s /\ In e E) (failure_sets i) <->
  Forall (fun k => exists e, In e (elems k) /\ In e E) kept.
Proof.
  intros Hempty HE. rewrite !List.Forall_forall in *. split; intros Hall.
  - intros k Hk. apply kept_live in Hk as (_ & s & Hs & ->). destruct (Hall s Hs) as (e & Hes & HeE).
    exists e. split; [apply live_set_In; auto | done].
  - intros s Hs. apply list_elem_of_In, list_elem_of_lookup_1 in Hs as [n Hn].
    set (r := MkRaw (live_set i s) (Z.of_nat n)).
    assert (In r (indexed_sets i)) as Hr by (apply indexed_sets_In; by exists n, s).
    assert (is_nil (elems r) = false) as Hne.
    { destruct (is_nil (elems r)) eqn:En; [| done]. exfalso.
      unfold reduce in Hempty. cbn [has_empty_set] in Hempty. bool_prop.
      assert (In r (List.filter (fun r => is_nil (elems r)) (indexed_sets i))) as Hin by by apply filter_In.
      by destruct (List.filter _ (indexed_sets i)). }
    destruct (proj2 (keep_minimal_spec (sort_by (key_lt raw_key) raw_nonempty)) r) as (k & Hk & Hinc).
    { apply sort_by_In, filter_In. by rewrite Hne. }
    destruct (Hall k Hk) as (e & Hek & HeE). exists e. split; [| done].
    apply Hinc in Hek. by apply live_set_In in Hek as [? _].
Qed.

Lemma kept_length : (length kept <= length (failure_sets i))%nat.
Proof.
  unfold kept, keep_minimal.
  assert (forall raw acc, (length (foldl (fun kept r =>
    if existsb (fun k => (zlen (elems k) <=? zlen (elems r))%Z && includes (elems r) (elems k)) kept
    then kept else kept ++ [r]) acc raw) <= length acc + length raw)%nat) as Hgo.
  { induction raw as [| r raw IH]; intros acc; simpl; [lia |]. rewrite IH.
    destruct (existsb _ acc); rewrite ?length_app; simpl; lia. }
  rewrite Hgo, sort_by_length. simpl. unfold raw_nonempty, indexed_sets.
  rewrite filter_length_le. by rewrite length_imap.
Qed.

Lemma reduce_candidates : candidates (reduce i) = candidates_of i.
Proof. reflexivity. Qed.

Lemma reduce_cover_length : length (cover (reduce i)) = length (candidates_of i).
Proof. unfold reduce. cbn [cover]. by rewrite length_map, length_seq. Qed.

Lemma full_mask_spec si : Z.testbit (full_mask (reduce i)) (Z.of_nat si) = true <-> (si < length kept)%nat.
Proof.
  unfold reduce. cbn [full_mask]. fold raw_nonempty. fold kept.
  rewrite (foldl_lor_spec _ (fun sj j => j =? Z.of_nat sj)).
  - rewrite Z.bits_0. simpl. rewrite existsb_exists. split.
    + intros (sj & Hin & Hb). apply in_seq in Hin. bool_prop. lia.
    + intros Hlt. exists si. rewrite Z.eqb_refl. split; [apply in_seq; lia | done].
  - intros m sj. by rewrite Z.lor_spec, bit_spec by lia.
Qed.

Lemma full_mask_nonneg : 0 <= full_mask (reduce i).
Proof.
  unfold reduce. cbn [full_mask]. apply foldl_lor_nonneg; [| lia].
  intros m x Hm. apply Z.lor_nonneg. split; [done | apply bit_nonneg].
Qed.

Lemma cover_spec ci si :
  (ci < length (candidates_of i))%nat ->
  Z.testbit (cov (cover (reduce i)) ci) (Z.of_nat si) = true <->
  exists k, kept !! si = Some k /\ In (nth ci (candidates_of i) 0) (elems k).
Proof.
  intros Hci. unfold cov, reduce. cbn [cover]. fold raw_nonempty. fold kept.
  rewrite (nth_indep _ _ (cover_of (map (fun r => elements_to_mask (candidates_of i) (elems r)) kept) 0%nat))
    by by rewrite length_map, length_seq.
  rewrite map_nth, seq_nth by done. rewrite cover_of_spec. cbn [Nat.add]. split.
  - intros (m & Hm & Hb). rewrite list_lookup_fmap in Hm. destruct (kept !! si) as [k |]; [| done].
    simplify_eq/=. exists k. split; [done |]. apply elements_to_mask_spec in Hb as (e & He & Hidx).
    apply index_of_lookup in Hidx. rewrite nth_candidate in Hidx by done. by simplify_eq.
  - intros (k & Hk & Hin). exists (elements_to_mask (candidates_of i) (elems k)).
    rewrite list_lookup_fmap, Hk. split; [done |]. apply elements_to_mask_spec.
    exists (nth ci (candidates_of i) 0). split; [done | by apply index_of_nth].
Qed.
End Reduction.

(** ** Covers of the reduced instance are explanations *)

Section Bridge.
Context (i : LocalizationInput) (Hempty : has_empty_set (reduce i) = false).

Lemma in_range_index H : in_range (cover (reduce i)) 0 H <-> index_range i H.
Proof.
  unfold in_range, index_range. rewrite reduce_cover_length, !List.Forall_forall.
  split; intros Hf x Hx; specialize (Hf x Hx); lia.
Qed.

Lemma hits_explains H :
  index_range i H -> hits (cover (reduce i)) H (full_mask (reduce i)) <-> explains i (elements_of i H).
Proof.
  intros Hr. unfold explains.
  pose proof (elements_of_candidate i H Hr) as Hcand. rewrite (kept_covers i _ Hempty Hcand).
  unfold index_range in Hr. rewrite !List.Forall_forall in *. split.
  - intros Hh. split; [done |]. intros k Hk. apply list_elem_of_In, list_elem_of_lookup_1 in Hk as [si Hsi].
    destruct (Hh (Z.of_nat si) ltac:(lia)) as (ci & Hin & Hc).
    { apply full_mask_spec. by eapply lookup_lt_Some. }
    apply cover_spec in Hc as (k' & Hk' & He); [| auto]. simplify_eq.
    eexists. split; [exact He |]. apply in_map_iff. by exists ci.
  - intros [_ Hk] si Hsi Hbit. replace si with (Z.of_nat (Z.to_nat si)) in * by lia.
    apply full_mask_spec in Hbit. destruct (lookup_lt_is_Some_2 _ _ Hbit) as [k Hlk].
    destruct (Hk k) as (e & Hek & HeH); [by apply list_elem_of_In, (list_elem_of_lookup_2 _ (Z.to_nat si)) |].
    apply in_map_iff in HeH as (ci & <- & Hin). exists ci. split; [done |].
    apply cover_spec; [auto |]. by exists k.
Qed.

(** Every explanation is the image of a cover of the same size. *)
Lemma explains_cover E :
  explains i E -> exists H, index_range i H /\ elements_of i H = E /\ length H = length E /\
    hits (cover (reduce i)) H (full_mask (reduce i)).
Proof.
  intros HE. destruct (indices_elements i E (proj1 HE)) as [HH Hr]. exists (indices_of i E).
  split; [done |]. split; [done |]. split.
  - rewrite <- HH at 2. unfold elements_of. by rewrite length_map.
  - apply hits_explains; [done |]. by rewrite HH.
Qed.

Lemma minimum_bridge H :
  index_range i H ->
  minimum (cover (reduce i)) (full_mask (reduce i)) H <-> minimum_localization i (elements_of i H).
Proof.
  intros Hr. unfold minimum, minimum_localization, localization.
  rewrite in_range_index, hits_explains, (elements_sorted i H Hr) by done.
  assert (length (elements_of i H) = length H) as -> by apply length_map.
  split.
  - intros (_ & Ha & Hh & Hmin). split; [done |]. intros E' (K & HK1 & <- & HK2 & HK3)%explains_cover.
    rewrite <- HK2. apply Hmin; [by apply in_range_index | done].
  - intros ((Hh & Ha) & Hmin). split_and!; try done. intros K HK1%in_range_index HK2.
    rewrite <- (length_map (fun ci => nth ci (candidates_of i) 0) K). apply Hmin. by apply hits_explains.
Qed.
End Bridge.

Lemma has_empty_set_spec i :
  has_empty_set (reduce i) = true <->
  exists s, In s (failure_sets i) /\ forall e, In e s -> is_candidate i e = false.
Proof.
  unfold reduce. cbn [has_empty_set]. split.
  - destruct (List.filter _ (indexed_sets i)) as [| r l] eqn:E; [done |]. intros _.
    assert (In r (List.filter (fun r => is_nil (elems r)) (indexed_sets i))) as Hr by (rewrite E; by left).
    apply filter_In in Hr as [Hr Hnil]. apply indexed_sets_In in Hr as (n & s & Hn & ->).
    exists s. split; [by apply list_elem_of_In, (list_elem_of_lookup_2 _ n) |]. cbn [elems] in Hnil.
    intros e He. destruct (is_candidate i e) eqn:Ec; [| done].
    assert (In e (live_set i s)) as Hin by by apply live_set_In. by destruct (live_set i s).
  - intros (s & Hs & Hall). apply list_elem_of_In, list_elem_of_lookup_1 in Hs as [n Hn].
    assert (In (MkRaw (live_set i s) (Z.of_nat n)) (List.filter (fun r => is_nil (elems r)) (indexed_sets i))) as Hin.
    { apply filter_In. split; [apply indexed_sets_In; by exists n, s |]. cbn [elems].
      destruct (live_set i s) as [| e l] eqn:E; [done |].
      assert (In e (live_set i s)) as [He Hc]%live_set_In by (rewrite E; by left). by rewrite (Hall e He) in Hc. }
    by destruct (List.filter _ (indexed_sets i)).
Qed.

(** The certificate names the first failure set without a candidate. *)
Lemma empty_set_origin_spec i :
  has_empty_set (reduce i) = true ->
  exists s, failure_sets i !! Z.to_nat (empty_set_origin (reduce i)) = Some s /\
    0 <= empty_set_origin (reduce i) < zlen (failure_sets i) /\
    forall e, In e s -> is_candidate i e = false.
Proof.
  unfold reduce. cbn [has_empty_set empty_set_origin].
  destruct (List.filter _ (indexed_sets i)) as [| r l] eqn:E; [done |]. intros _.
  assert (In r (List.filter (fun r => is_nil (elems r)) (indexed_sets i))) as Hr by (rewrite E; by left).
  apply filter_In in Hr as [Hr Hnil]. apply indexed_sets_In in Hr as (n & s & Hn & ->).
  exists s. cbn [origin elems] in *. rewrite Nat2Z.id. split; [done |]. split.
  { apply lookup_lt_Some in Hn. unfold zlen. lia. }
  intros e He. destruct (is_candidate i e) eqn:Ec; [| done].
  assert (In e (live_set i s)) as Hin by by apply live_set_In. by destruct (live_set i s).
Qed.

(** ** The disjoint lower bound *)

Lemma filter_length_lt {A} (f g : A -> bool) l :
  (forall x, In x l -> f x = true -> g x = true) ->
  (exists x, In x l /\ f x = false /\ g x = true) ->
  (length (List.filter f l) < length (List.filter g l))%nat.
Proof.
  assert (forall l, (forall x, In x l -> f x = true -> g x = true) ->
    (length (List.filter f l) <= length (List.filter g l))%nat) as Hle.
  { intros k. induction k as [| x k IH]; intros H; simpl; [lia |].
    specialize (IH (fun y Hy => H y (or_intror Hy))). pose proof (H x (or_introl eq_refl)).
    destruct (f x), (g x); simpl; lia. }
  induction l as [| x l IH]; intros H (y & Hy & Hf & Hg); [done |]. simpl.
  pose proof (Hle l (fun y Hy => H y (or_intror Hy))). pose proof (H x (or_introl eq_refl)) as Hx.
  destruct Hy as [-> | Hy].
  - rewrite Hf, Hg. simpl. lia.
  - specialize (IH (fun y Hy => H y (or_intror Hy)) (ex_intro _ y (conj Hy (conj Hf Hg)))).
    destruct (f x), (g x); simpl; lia.
Qed.

Lemma disjoint_lower_bound_le r H :
  (forall m, In m (sets r) -> exists ci, In ci H /\ Z.testbit m (Z.of_nat ci) = true) ->
  (disjoint_lower_bound r <= length H)%nat.
Proof.
  intros Hh. unfold disjoint_lower_bound. set (l := sort_by _ (sets r)).
  assert (forall m, In m l -> exists ci, In ci H /\ Z.testbit m (Z.of_nat ci) = true) as Hl.
  { intros m Hm. apply Hh. by apply sort_by_In in Hm. }
  clearbody l. clear Hh.
  assert (forall used count, (count <= length (List.filter (fun ci => Z.testbit used (Z.of_nat ci)) H))%nat ->
    let res := foldl (fun '(used, count) m => if Z.land m used =? 0 then (Z.lor used m, S count) else (used, count))
                 (used, count) l in
    (res.2 <= length (List.filter (fun ci => Z.testbit res.1 (Z.of_nat ci)) H))%nat) as Hgo.
  { induction l as [| m l IH]; intros used count Hc; simpl; [done |].
    specialize (IH (fun m Hm => Hl m (or_intror Hm))).
    destruct (Z.eqb_spec (Z.land m used) 0) as [Hz | Hz]; [| by apply IH].
    apply IH. destruct (Hl m (or_introl eq_refl)) as (ci & Hin & Hbit).
    eapply Nat.le_lt_trans; [exact Hc |]. apply filter_length_lt.
    - intros x _ Hx. by rewrite Z.lor_spec, Hx.
    - exists ci. split; [done |]. rewrite Z.lor_spec, Hbit, orb_true_r. split; [| done].
      apply (f_equal (fun z => Z.testbit z (Z.of_nat ci))) in Hz.
      by rewrite Z.land_spec, Hbit, Z.bits_0 in Hz. }
  specialize (Hgo 0 0%nat (Nat.le_0_l _)). cbv zeta in Hgo.
  etransitivity; [exact Hgo |]. apply filter_length_le.
Qed.

(** ** The search *)

Lemma in_u_bits w m : 0 <= m -> 0 < w -> (forall j, w <= j -> Z.testbit m j = false) -> in_u w m.
Proof.
  intros Hm Hw Hb. split; [done |]. destruct (decide (m = 0)) as [-> |]; [by apply Z.pow_pos_nonneg; lia |].
  apply Z.log2_lt_pow2; [lia |]. apply Z.nle_gt. intros Hle.
  pose proof (Z.bit_log2 m ltac:(lia)) as Hbit. by rewrite Hb in Hbit.
Qed.

(** Enough nodes for the size search and for the enumeration, over at most [c] candidates. *)
Definition oracle_budget (cands : list Z) : Z :=
  search_cost cands 64 1 + run_oracle_cost cands 64.

Section Search.
Context (i : LocalizationInput) (Hok : input_ok i) (Hv : input_valid i).
Context (Hempty : has_empty_set (reduce i) = false) (Hsets : is_nil (sets (reduce i)) = false).

Abbreviation r := (reduce i).

Lemma candidates_le_64 : (length (candidates_of i) <= 64)%nat.
Proof. destruct Hv. apply candidates_bound; try done; lia. Qed.

Lemma kept_ne : kept i <> [].
Proof. intros E. unfold reduce in Hsets. cbn [sets] in Hsets. fold (raw_nonempty i) in Hsets. by fold (kept i) in Hsets; rewrite E in Hsets. Qed.

Lemma full_mask_u64 : in_u64 (full_mask r).
Proof.
  apply in_u_bits; [apply full_mask_nonneg | lia |]. intros j Hj.
  destruct (Z.testbit (full_mask r) j) eqn:E; [| done].
  replace j with (Z.of_nat (Z.to_nat j)) in E by lia. apply full_mask_spec in E.
  pose proof (kept_length i). pose proof (v_sets i Hv) as Hs. unfold kMaxLocalizationSets, zlen in Hs. lia.
Qed.

Lemma full_mask_ne : full_mask r <> 0.
Proof.
  intros E. assert (Z.testbit (full_mask r) (Z.of_nat 0) = true) as Hb.
  { apply full_mask_spec. pose proof kept_ne. destruct (kept i); simpl; [done | lia]. }
  by rewrite E, Z.bits_0 in Hb.
Qed.

Lemma all_cover : coverable (cover r) (length (candidates_of i)) 0 (full_mask r).
Proof.
  exists (seq 0 (length (candidates_of i))). split; [by rewrite length_seq |]. split.
  - apply in_range_index. apply List.Forall_forall. intros x Hx%in_seq. lia.
  - intros si Hsi Hb. replace si with (Z.of_nat (Z.to_nat si)) in * by lia. apply full_mask_spec in Hb.
    destruct (lookup_lt_is_Some_2 _ _ Hb) as [k Hk].
    destruct (kept_nonempty i k) as (e & He & Hc); [by apply list_elem_of_In, (list_elem_of_lookup_2 _ (Z.to_nat si)) |].
    destruct (index_of_candidate i e Hc) as (ci & _ & Hlt & Hnth). exists ci. split; [apply in_seq; lia |].
    apply cover_spec; [done |]. exists k. by rewrite Hnth.
Qed.

Lemma lower_bound_hits K :
  in_range (cover r) 0 K -> hits (cover r) K (full_mask r) -> (disjoint_lower_bound r <= length K)%nat.
Proof.
  intros HK%in_range_index Hh. apply disjoint_lower_bound_le. intros m Hm.
  unfold reduce in Hm. cbn [sets] in Hm. fold (raw_nonempty i) in Hm. fold (kept i) in Hm.
  apply in_map_iff in Hm as (k & <- & Hk). apply list_elem_of_In, list_elem_of_lookup_1 in Hk as [si Hsi].
  destruct (Hh (Z.of_nat si) ltac:(lia)) as (ci & Hin & Hc).
  { apply full_mask_spec. by eapply lookup_lt_Some. }
  unfold index_range in HK. rewrite List.Forall_forall in HK.
  apply cover_spec in Hc as (k' & Hk' & He); [| auto]. simplify_eq.
  exists ci. split; [done |]. apply elements_to_mask_spec. eexists. split; [exact He |]. apply index_of_nth. auto.
Qed.

(** Where the size search starts. *)
Definition start : nat := if Nat.eqb (disjoint_lower_bound r) 0 then 1%nat else disjoint_lower_bound r.

Lemma start_le K :
  in_range (cover r) 0 K -> hits (cover r) K (full_mask r) -> (1 <= start <= length K)%nat.
Proof.
  intros HK Hh. pose proof (lower_bound_hits K HK Hh). unfold start.
  destruct (Nat.eqb_spec (disjoint_lower_bound r) 0); [| lia]. destruct K as [| c K]; [| simpl; lia].
  exfalso. apply full_mask_ne. eapply hits_nil; [apply full_mask_nonneg | exact Hh].
Qed.

Lemma start_range : (1 <= start <= 64)%nat.
Proof.
  destruct all_cover as (K & HK1 & HK2 & HK3). pose proof (start_le K HK2 HK3).
  pose proof candidates_le_64. lia.
Qed.

Definition search : option nat * Oracle :=
  size_search (cover r) (search_node_budget i) (65 - start) start (full_mask r) new_Oracle.

Lemma new_Oracle_ok : oracle_ok (cover r) new_Oracle.
Proof. intros mask b lo v _. done. Qed.

Lemma search_spec :
  oracle_ok (cover r) search.2 /\
  match search.1 with
  | Some n => (n <= 64)%nat /\ coverable (cover r) n 0 (full_mask r) /\
              forall j, (j < n)%nat -> ~ coverable (cover r) j 0 (full_mask r)
  | None => o_exhausted search.2 = true
  end.
Proof.
  pose proof (size_search_spec (cover r) (search_node_budget i) (65 - start) start (full_mask r) new_Oracle
    full_mask_u64 new_Oracle_ok eq_refl) as Hs.
  unfold search. destruct (size_search _ _ _ _ _ _) as [[n |] o]; cbn [fst snd] in *.
  - destruct Hs as (Ho & Hn & Hc & Hj). split; [done |]. split; [lia |]. split; [done |].
    intros j Hjn (K & HK1 & HK2 & HK3). pose proof (start_le K HK2 HK3).
    apply (Hj (length K)); [lia |]. by exists K.
  - destruct Hs as (Ho & [He | Hj]); [done |]. exfalso.
    destruct all_cover as (K & HK1 & HK2 & HK3). pose proof candidates_le_64.
    pose proof (start_le K HK2 HK3). apply (Hj (length K)); [lia |]. by exists K.
Qed.

Definition remaining : Z :=
  if o_nodes search.2 <? search_node_budget i then search_node_budget i - o_nodes search.2 else 1.

Definition enumeration (best : nat) : Enum :=
  run (cover r) (search_node_budget i) (max_solutions i) remaining best 0 (full_mask r) (new_Enum search.2).

Lemma localize_search :
  localize i =
  match search.1 with
  | None => MkResult LocalizationStatus.Indeterminate (greedy_localization i) 0 false false false 0
              (o_nodes search.2) 0 false ReasonCode.LocalizationSearchLimit
  | Some best =>
      let en := enumeration best in
      let unique := negb (truncated_ en) && (found_ en =? 1) in
      if found_ en =? 0 then
        MkResult LocalizationStatus.Indeterminate (greedy_localization i) (Z.of_nat best) false unique
          (truncated_ en) (found_ en) (o_nodes search.2 + nodes_ en) 0 false ReasonCode.LocalizationSearchLimit
      else
        MkResult
          (if 1 <? found_ en then LocalizationStatus.Ambiguous else LocalizationStatus.Resolved)
          (elements_of i (first_ en)) (Z.of_nat best) true unique
          (truncated_ en) (found_ en) (o_nodes search.2 + nodes_ en) 0 false
          (if 1 <? found_ en then ReasonCode.LocalizationAmbiguous else ReasonCode.LocalizationResolved)
  end.
Proof.
  unfold localize. rewrite (proj2 (affirmative_ok _)) by by apply validate_input_spec.
  cbn [negb]. cbv zeta. rewrite Hempty, Hsets. unfold enumeration, remaining, search. fold start.
  destruct (size_search _ _ _ _ _ _) as [[best |] o]; reflexivity.
Qed.

(** What the enumeration yields, in terms of minimum localizations. *)
Lemma enumeration_spec best :
  search.1 = Some best ->
  exists sols, enumerated (cover r) (max_solutions i) sols (new_Enum search.2) (enumeration best) /\
    (forall H, In H sols <-> minimum (cover r) (full_mask r) H) /\
    StronglySorted index_lt sols /\ (forall H, In H sols -> length H = best /\ index_range i H).
Proof.
  intros Hb. destruct search_spec as [Ho Hs]. rewrite Hb in Hs. destruct Hs as (Hle & Hc & Hj).
  exists (solutions (cover r) best 0 (full_mask r)).
  assert (forall H, In H (solutions (cover r) best 0 (full_mask r)) <-> minimum (cover r) (full_mask r) H) as Hmin
    by (intros H; by apply solutions_minimum; [apply full_mask_nonneg | ..]).
  split; [| split; [done | split; [apply solutions_sorted |]]].
  - apply run_spec; [apply full_mask_u64 |]. pose proof (v_max i Hv). by split.
  - intros H Hin. pose proof (proj1 (Hmin H) Hin) as (H1 & _ & H3 & _).
    split; [| by apply in_range_index]. apply solutions_sound in Hin as (Hlen & _).
    apply Nat.le_antisymm; [done |]. apply Nat.nlt_ge. intros Hlt. apply (Hj (length H) Hlt). by exists H.
Qed.
End Search.

(** ** The greedy heuristic *)

Lemma popcount64_filter v :
  popcount64 v = Z.of_nat (length (List.filter (fun i => Z.testbit v (Z.of_nat i)) (seq 0 64))).
Proof.
  unfold popcount64, zlen. f_equal. generalize (seq 0 64) as l.
  induction l as [| a l IH]; [done |]. rewrite filter_cons. cbn [List.filter].
  destruct (Z.testbit v (Z.of_nat a)); destruct (decide _); try done. cbn [length]. by rewrite IH.
Qed.

Lemma popcount64_bounds v : 0 <= popcount64 v <= 64.
Proof.
  rewrite popcount64_filter. pose proof (filter_length_le (fun i => Z.testbit v (Z.of_nat i)) (seq 0 64)) as H.
  rewrite length_seq in H. lia.
Qed.

Lemma popcount64_zero v : in_u64 v -> popcount64 v = 0 -> v = 0.
Proof.
  intros Hv Hp. destruct (decide (v = 0)) as [| Hnz]; [done |]. exfalso.
  destruct (lowest_set_bit64_spec v Hv Hnz) as (Hi & Hb & _).
  rewrite popcount64_filter in Hp. set (l := List.filter _ _) in Hp.
  assert (In (Z.to_nat (lowest_set_bit64 v)) l) as Hin.
  { apply filter_In. split; [apply in_seq; lia |]. by rewrite Z2Nat.id by lia. }
  destruct l; simpl in *; [done | lia].
Qed.

Lemma popcount64_ldiff v c :
  in_u64 v -> Z.land c v <> 0 -> popcount64 (Z.ldiff v c) < popcount64 v.
Proof.
  intros Hv Hnz. rewrite !popcount64_filter. apply Nat2Z.inj_lt, filter_length_lt.
  - intros x _. rewrite Z.ldiff_spec. intros H. by bool_prop.
  - assert (in_u64 (Z.land c v)) as Hu.
    { apply in_u_bits; [apply Z.land_nonneg; right; apply Hv | lia |]. intros j Hj.
      rewrite Z.land_spec, (in_u_high 64 v) by (done || lia). apply andb_false_r. }
    destruct (lowest_set_bit64_spec _ Hu Hnz) as (Hi & Hb & _). rewrite Z.land_spec in Hb. bool_prop.
    exists (Z.to_nat (lowest_set_bit64 (Z.land c v))). rewrite Z.ldiff_spec, Z2Nat.id by lia.
    split; [apply in_seq; lia |]. split; [| done]. rewrite H. apply andb_false_r.
Qed.

Lemma best_candidate_spec cov_ remaining :
  let '(idx, count) := best_candidate cov_ remaining in
  (idx = length cov_ /\ count = 0 \/ (idx < length cov_)%nat /\ count = popcount64 (Z.land (cov cov_ idx) remaining)) /\
  0 <= count /\ forall ci, (ci < length cov_)%nat -> popcount64 (Z.land (cov cov_ ci) remaining) <= count.
Proof.
  unfold best_candidate.
  assert (forall l k d, (forall j, (j < length l)%nat -> nth (k + j) cov_ 0 = nth j l 0) -> (k + length l <= length cov_)%nat ->
    let acc := foldl (fun '(bi, bc) '(ci, c) => let cnt := popcount64 (Z.land c remaining) in
                        if bc <? cnt then (ci, cnt) else (bi, bc)) d (imap (fun j c => (k + j, c)%nat) l) in
    (acc = d \/ exists ci, (k <= ci < k + length l)%nat /\ acc = (ci, popcount64 (Z.land (cov cov_ ci) remaining))) /\
    d.2 <= acc.2 /\ forall ci, (k <= ci < k + length l)%nat -> popcount64 (Z.land (cov cov_ ci) remaining) <= acc.2) as Hgo.
  { induction l as [| c l IH]; intros k [bi bc] Hn Hk; cbn [imap foldl length].
    { split; [by left |]. simpl. split; [lia |]. intros ci Hci. lia. }
    rewrite Nat.add_0_r.
    assert (c = cov cov_ k) as Hck by (unfold cov; specialize (Hn 0%nat); simpl in Hn; rewrite Nat.add_0_r in Hn; rewrite Hn by lia; done).
    rewrite (imap_ext _ (fun j c => (S k + j, c)%nat)) by (intros; simpl; f_equal; lia). cbv zeta. cbn [length] in *.
    set (d := if bc <? popcount64 (Z.land c remaining) then (k, popcount64 (Z.land c remaining)) else (bi, bc)).
    specialize (IH (S k) d). cbv zeta in IH.
    destruct IH as (IH1 & IH2 & IH3).
    { intros j Hj. specialize (Hn (S j) ltac:(lia)). simpl in Hn. rewrite <- Hn. f_equal. lia. }
    { lia. }
    assert (bc <= d.2 /\ popcount64 (Z.land c remaining) <= d.2) as [Hd1 Hd2]
      by (unfold d; destruct (Z.ltb_spec bc (popcount64 (Z.land c remaining))); cbn [snd]; lia).
    split; [| split; [cbn [snd]; lia |]].
    - destruct IH1 as [IH1 | (ci & Hci & IH1)]; [| right; exists ci; split; [lia | done]].
      rewrite IH1. unfold d. destruct (bc <? _); [| by left]. right. exists k. split; [lia |]. by rewrite <- Hck.
    - intros ci Hci. destruct (decide (ci = k)) as [-> |]; [rewrite <- Hck; lia | apply IH3; lia]. }
  specialize (Hgo cov_ 0%nat (length cov_, 0) ltac:(done) ltac:(lia)). cbv zeta in Hgo. cbn [Nat.add] in Hgo.
  change (imap pair cov_) with (imap (fun j c => (j, c)) cov_).
  destruct (foldl _ _ _) as [idx count]. cbn [snd] in Hgo. destruct Hgo as (H1 & H2 & H3).
  split; [| split; [done |]].
  - destruct H1 as [[= -> ->] | (ci & Hci & [= -> ->])]; [by left | right; split; [lia | done]].
  - intros ci Hci. apply H3. lia.
Qed.

#[export] Instance ltb_weak : StrictWeak Z.ltb.
Proof. split; intros; repeat match goal with H : _ = _ |- _ => revert H end; lia. Qed.

Lemma sort_elements_sorted l : List.NoDup l -> StronglySorted Z.lt (sort_by (fun a b => a <? b) l).
Proof.
  intros Hnd. change (StronglySorted Z.lt (sort_by Z.ltb l)). pose proof (sort_by_sorted Z.ltb l) as Hs.
  assert (List.NoDup (sort_by Z.ltb l)) as Hn by (eapply Permutation_NoDup; [symmetry; apply sort_by_perm | done]).
  induction Hs as [| x k Hk IH Hx]; [constructor |]. inversion_clear Hn as [| ? ? Hnin Hnd'].
  constructor; [by apply IH |]. rewrite List.Forall_forall in *. intros y Hy. specialize (Hx y Hy).
  apply Z.ltb_ge in Hx. assert (x <> y) by (by intros ->). lia.
Qed.

Section Greedy.
Context (i : LocalizationInput) (Hempty : has_empty_set (reduce i) = false).
Context (Hfull : in_u64 (full_mask (reduce i))).

(** The invariant of the loop: [H] are the chosen candidates, [m] the sets still unhit. *)
Record greedy_inv (H : list nat) (m : Z) : Prop := {
  g_range : index_range i H;
  g_nodup : List.NoDup H;
  g_mask : in_u64 m;
  g_sub : forall si, Z.testbit m si = true -> Z.testbit (full_mask (reduce i)) si = true;
  g_cover : forall si, 0 <= si -> Z.testbit (full_mask (reduce i)) si = true ->
    Z.testbit m si = true \/ exists ci, In ci H /\ Z.testbit (cov (cover (reduce i)) ci) si = true;
  g_fresh : forall ci, In ci H -> Z.land (cov (cover (reduce i)) ci) m = 0;
}.

Lemma greedy_inv_step H m ci :
  greedy_inv H m -> (ci < length (candidates_of i))%nat -> Z.land (cov (cover (reduce i)) ci) m <> 0 ->
  greedy_inv (H ++ [ci]) (Z.ldiff m (cov (cover (reduce i)) ci)).
Proof.
  intros [H1 H2 H3 H4 H5 H6] Hci Hnz. split.
  - apply Forall_app. split; [done | by repeat constructor].
  - apply List.NoDup_app; [done | by repeat constructor; intros [] |].
    intros c Hin [<- | []]. by rewrite H6 in Hnz.
  - by apply ldiff_u64.
  - intros si. rewrite Z.ldiff_spec. intros Hb. bool_prop. by apply H4.
  - intros si Hsi Hb. rewrite Z.ldiff_spec. destruct (Z.testbit (cov (cover (reduce i)) ci) si) eqn:E.
    + right. exists ci. split; [apply in_app_iff; right; by left | done].
    + destruct (H5 si Hsi Hb) as [-> | (cj & Hin & Hc)]; [by left |].
      right. exists cj. split; [apply in_app_iff; by left | done].
  - intros cj [Hin | [<- | []]]%in_app_iff; apply Z.bits_inj'; intros n Hn;
      rewrite Z.land_spec, Z.ldiff_spec, Z.bits_0.
    + pose proof (f_equal (fun z => Z.testbit z n) (H6 cj Hin)) as Hz. cbv beta in Hz.
      rewrite Z.land_spec, Z.bits_0 in Hz.
      destruct (Z.testbit (cov (cover (reduce i)) cj) n), (Z.testbit m n); done.
    + destruct (Z.testbit (cov (cover (reduce i)) ci) n); [by rewrite andb_false_r | done].
Qed.

Lemma greedy_loop_spec fuel H m :
  greedy_inv H m -> popcount64 m < Z.of_nat fuel ->
  exists K, greedy_loop fuel (reduce i) m (elements_of i H) = elements_of i K /\ greedy_inv K 0.
Proof.
  revert H m. induction fuel as [| fuel IH]; intros H m Hi Hp; [pose proof (popcount64_bounds m); lia |].
  cbn [greedy_loop]. destruct (Z.eqb_spec m 0) as [-> | Hnz]; [by exists H |].
  pose proof (best_candidate_spec (cover (reduce i)) m) as Hb.
  destruct (best_candidate (cover (reduce i)) m) as [idx count]. destruct Hb as (Hbest & Hc & Hmax).
  rewrite reduce_cover_length in Hbest, Hmax. rewrite reduce_candidates.
  assert (0 < count) as Hpos.
  { destruct (lowest_set_bit64_spec m (g_mask _ _ Hi) Hnz) as (Hr & Hbit & _).
    set (si := lowest_set_bit64 m) in *. replace si with (Z.of_nat (Z.to_nat si)) in Hbit by lia.
    pose proof (g_sub _ _ Hi _ Hbit) as Hf. apply full_mask_spec in Hf.
    destruct (lookup_lt_is_Some_2 _ _ Hf) as [k Hk].
    destruct (kept_nonempty i k) as (e & He & Hcand); [by apply list_elem_of_In, (list_elem_of_lookup_2 _ (Z.to_nat si)) |].
    destruct (index_of_candidate i e Hcand) as (ci & _ & Hlt & Hnth).
    assert (Z.testbit (cov (cover (reduce i)) ci) (Z.of_nat (Z.to_nat si)) = true) as Hcb
      by (apply cover_spec; [done | exists k; by rewrite Hnth]).
    specialize (Hmax ci Hlt). pose proof (popcount64_bounds (Z.land (cov (cover (reduce i)) ci) m)).
    destruct (decide (popcount64 (Z.land (cov (cover (reduce i)) ci) m) = 0)) as [E | E]; [| lia].
    apply popcount64_zero in E.
    - apply (f_equal (fun z => Z.testbit z (Z.of_nat (Z.to_nat si)))) in E.
      by rewrite Z.land_spec, Hcb, Hbit, Z.bits_0 in E.
    - apply in_u_bits; [apply Z.land_nonneg; right; apply (g_mask _ _ Hi) | lia |]. intros j Hj.
      rewrite Z.land_spec, (in_u_high 64 m) by (apply (g_mask _ _ Hi) || lia). apply andb_false_r. }
  destruct Hbest as [[_ Hz] | [Hlt Hcnt]]; [lia |].
  rewrite (proj2 (Nat.leb_gt _ _) Hlt), (proj2 (Z.eqb_neq count 0)) by lia. cbn [orb].
  assert (Z.land (cov (cover (reduce i)) idx) m <> 0) as Hne.
  { intros E. rewrite E in Hcnt. change (popcount64 0) with 0 in Hcnt. lia. }
  pose proof (popcount64_ldiff m (cov (cover (reduce i)) idx) (g_mask _ _ Hi) Hne).
  destruct (IH (H ++ [idx]) (Z.ldiff m (cov (cover (reduce i)) idx))) as (K & HK1 & HK2);
    [by apply greedy_inv_step | lia |].
  exists K. split; [| done]. rewrite <- HK1. unfold elements_of. by rewrite map_app.
Qed.

(** The greedy heuristic explains every failure and returns a canonical set. *)
Lemma greedy_spec : localization i (greedy_localization i).
Proof.
  unfold greedy_localization.
  destruct (greedy_loop_spec 65 [] (full_mask (reduce i))) as (K & HK & [G1 G2 G3 G4 G5 G6]).
  { split; [constructor | constructor | done | done | by left | by intros ? []]. }
  { pose proof (popcount64_bounds (full_mask (reduce i))). lia. }
  cbn [elements_of map] in HK. rewrite HK. split.
  - assert (explains i (elements_of i K)) as [E1 E2].
    { apply hits_explains; [done | done |]. intros si Hsi Hb.
      destruct (G5 si Hsi Hb) as [Hz | ?]; [by rewrite Z.bits_0 in Hz | done]. }
    split.
    + rewrite List.Forall_forall in *. intros e He%sort_by_In. auto.
    + rewrite List.Forall_forall in *. intros s Hs. destruct (E2 s Hs) as (e & He & HeE).
      exists e. split; [done | by apply sort_by_In].
  - apply sort_elements_sorted. unfold elements_of. apply Finite.Injective_map_NoDup_in; [| done].
    unfold index_range in G1. rewrite List.Forall_forall in G1. intros a b Ha Hb Heq.
    destruct (Nat.lt_trichotomy a b) as [Hl | [| Hl]]; [| done |];
      pose proof (nth_candidate_lt i _ _ Hl ltac:(auto)); lia.
Qed.
End Greedy.

(** ** What [localize] answers *)

Lemma sets_nil i : is_nil (sets (reduce i)) = true -> has_empty_set (reduce i) = false -> failure_sets i = [].
Proof.
  intros Hs He. destruct (failure_sets i) as [| s l] eqn:E; [done |]. exfalso.
  assert (kept i = []) as Hk.
  { unfold reduce in Hs. cbn [sets] in Hs. fold (raw_nonempty i) in Hs. fold (kept i) in Hs. by destruct (kept i). }
  assert (Forall (fun s => exists e, In e s /\ In e (candidates_of i)) (failure_sets i)) as Hall.
  { apply kept_covers; [done | | by rewrite Hk].
    apply List.Forall_forall. intros e. apply candidates_In. }
  assert (In (MkRaw (live_set i s) 0) (sort_by (key_lt raw_key) (raw_nonempty i))) as Hin.
  { apply sort_by_In, filter_In. split.
    - apply indexed_sets_In. exists 0%nat, s. by rewrite E.
    - rewrite E in Hall. inversion_clear Hall as [| ? ? (e & Hes & Hec) ?]. cbn [elems].
      apply candidates_In in Hec. assert (In e (live_set i s)) as Hl by by apply live_set_In.
      by destruct (live_set i s). }
  destruct (proj2 (keep_minimal_spec _) _ Hin) as (k & Hkin & _). fold (kept i) in Hkin. by rewrite Hk in Hkin.
Qed.

(** The branches of [localize]. *)
Inductive localize_case (i : LocalizationInput) : LocalizationResult -> Prop :=
| case_invalid : ~ input_valid i -> localize_case i invalid_result
| case_infeasible : input_valid i -> has_empty_set (reduce i) = true ->
    localize_case i (infeasible_result (empty_set_origin (reduce i)))
| case_trivial : input_valid i -> failure_sets i = [] -> localize_case i trivial_result
| case_search : input_valid i -> has_empty_set (reduce i) = false -> is_nil (sets (reduce i)) = false ->
    localize_case i (localize i).

Lemma localize_cases i : input_ok i -> localize_case i (localize i).
Proof.
  intros Hok. destruct (is_affirmative (validate_localization_input i).1) eqn:Ev.
  - pose proof (proj1 (validate_input_spec i Hok) (proj1 (affirmative_ok _) Ev)) as Hv.
    destruct (has_empty_set (reduce i)) eqn:Ee.
    + assert (localize i = infeasible_result (empty_set_origin (reduce i))) as ->
        by (unfold localize; by rewrite Ev, Ee).
      by apply case_infeasible.
    + destruct (is_nil (sets (reduce i))) eqn:Es; [| by apply case_search].
      assert (localize i = trivial_result) as -> by (unfold localize; by rewrite Ev, Ee, Es).
      apply case_trivial; [done | by apply sets_nil].
  - assert (localize i = invalid_result) as -> by (unfold localize; by rewrite Ev).
    apply case_invalid. intros Hv. apply (validate_input_spec i Hok) in Hv. by rewrite Hv in Ev.
Qed.

Definition decided (s : LocalizationStatus.t) : Prop :=
  s = LocalizationStatus.Resolved \/ s = LocalizationStatus.Ambiguous.

(** What a decided answer says. *)
Record answered (i : LocalizationInput) (res : LocalizationResult) : Prop := {
  ans_minimum : minimum_localization i (elements res);
  ans_least : forall E, minimum_localization i E -> E = elements res \/ elements_lt (elements res) E;
  ans_size : optimal_size res = zlen (elements res) /\ optimality_proven res = true;
  ans_count : solutions_truncated res = false ->
    exists l, List.NoDup l /\ (forall E, In E l <-> minimum_localization i E) /\ zlen l = solutions_found res;
  ans_ambiguous : status res = LocalizationStatus.Ambiguous ->
    exists E, minimum_localization i E /\ E <> elements res;
}.

Lemma trivial_answered i : failure_sets i = [] -> answered i trivial_result.
Proof.
  intros Hnil.
  assert (minimum_localization i []) as Hmin.
  { repeat split; try constructor; [by rewrite Hnil | simpl; lia]. }
  assert (forall E, minimum_localization i E -> E = []) as Huniq.
  { intros E [_ HE]. specialize (HE [] (proj1 (proj1 Hmin))). by destruct E; [| simpl in HE; lia]. }
  split; try done.
  - intros E HE. left. by apply Huniq.
  - intros _. exists [[]]. split; [repeat constructor; intros [] |]. split; [| done].
    intros E. split; [by intros [<- | []] |]. intros HE. left. symmetry. by apply Huniq.
Qed.

Lemma lex_refl l : lex l l = Eq.
Proof. apply (cmp_refl (K := list Z)). Qed.

Lemma index_lt_NoDup l : StronglySorted index_lt l -> List.NoDup l.
Proof.
  induction 1 as [| x l Hl IH Hx]; constructor; [| done]. intros Hin.
  rewrite List.Forall_forall in Hx. specialize (Hx _ Hin). unfold index_lt in Hx. by rewrite lex_refl in Hx.
Qed.

Lemma elements_of_inj i H K : index_range i H -> index_range i K -> elements_of i H = elements_of i K -> H = K.
Proof.
  intros HH HK Heq. pose proof (elements_lex i H K HH HK) as Hl. rewrite Heq, lex_refl in Hl.
  symmetry in Hl. apply (cmp_eq (K := list Z)) in Hl. revert Hl. apply list_fmap_eq_inj, Nat2Z.inj'.
Qed.

Lemma search_answered i :
  input_ok i -> input_valid i -> has_empty_set (reduce i) = false -> is_nil (sets (reduce i)) = false ->
  decided (status (localize i)) -> answered i (localize i).
Proof.
  intros Hok Hv He Hs. rewrite (localize_search i Hok Hv He Hs).
  destruct (search i).1 as [best |] eqn:Eb; [| by intros [|]].
  destruct (enumeration_spec i Hv Hs best Eb) as (sols & Hen & Hsols & Hsort & Hlen).
  cbv zeta. set (en := enumeration i best) in *. destruct (Z.eqb_spec (found_ en) 0) as [Ez | Ez]; [by intros [|] |].
  intros _. destruct Hen as [_ _ Hf Hc _ _ Hfirst]. cbn [new_Enum found_] in Hf, Hc, Hfirst.
  destruct (Hfirst eq_refl ltac:(lia)) as (h & t & -> & Eh). cbn [new_Enum current_ app] in Eh.
  destruct (Hlen h (or_introl eq_refl)) as [Hh Hhr].
  assert (forall K, In K (h :: t) <-> index_range i K /\ minimum_localization i (elements_of i K)) as Hmin.
  { intros K. split.
    - intros Hin. pose proof (proj2 (Hlen K Hin)). split; [done |]. apply minimum_bridge; [done | done |]. by apply Hsols.
    - intros [Hr HK]. apply Hsols. by apply (minimum_bridge i He). }
  assert (forall E, minimum_localization i E -> exists K, E = elements_of i K /\ In K (h :: t)) as Hall.
  { intros E HE. destruct (explains_cover i He E (proj1 (proj1 HE))) as (K & HK1 & <- & _).
    exists K. split; [done |]. by apply Hmin. }
  inversion_clear Hsort as [| ? ? Hts Hht]. rewrite List.Forall_forall in Hht.
  split; cbn [elements optimal_size optimality_proven solutions_truncated solutions_found status]; rewrite ?Eh.
  - apply Hmin. by left.
  - intros E (K & -> & Hin)%Hall. destruct Hin as [<- | Hin]; [by left | right].
    unfold elements_lt. rewrite elements_lex; [by apply Hht | done |]. apply Hmin. by right.
  - split; [| done]. unfold zlen, elements_of. by rewrite length_map, Hh.
  - intros Ht. destruct (Hc Ht) as [Hc' _]. exists (map (elements_of i) (h :: t)). split; [| split].
    + apply Finite.Injective_map_NoDup_in; [| apply index_lt_NoDup; constructor; [done | by apply List.Forall_forall]].
      intros a b Ha Hb. apply elements_of_inj; [apply (Hlen a Ha) | apply (Hlen b Hb)].
    + intros E. rewrite in_map_iff. split; [intros (K & <- & Hin); by apply Hmin |].
      intros (K & -> & Hin)%Hall. by exists K.
    + unfold zlen in *. rewrite length_map. lia.
  - destruct (Z.ltb_spec 1 (found_ en)); [| done]. intros _.
    destruct t as [| h' t]; [unfold zlen in Hf; simpl in Hf; lia |].
    exists (elements_of i h'). split; [apply Hmin; right; by left |]. intros Heq.
    apply elements_of_inj in Heq as ->; [| apply Hlen; right; by left | done].
    specialize (Hht h (or_introl eq_refl)). unfold index_lt in Hht. by rewrite lex_refl in Hht.
Qed.

Lemma localize_answered i : input_ok i -> decided (status (localize i)) -> answered i (localize i).
Proof.
  intros Hok. destruct (localize_cases i Hok); try by intros [|].
  - intros _. by apply trivial_answered.
  - by apply search_answered.
Qed.

(** A report of uniqueness means that the enumeration ran to its end. *)
Lemma localize_unique_untruncated i :
  input_ok i -> uniqueness_proven (localize i) = true ->
  decided (status (localize i)) /\ solutions_truncated (localize i) = false /\ solutions_found (localize i) = 1.
Proof.
  intros Hok. destruct (localize_cases i Hok) as [| | | Hv He Hs]; try done.
  - intros _. split; [by left | done].
  - rewrite (localize_search i Hok Hv He Hs).
    destruct (search i).1 as [best |]; [| done]. cbv zeta. set (en := enumeration i best).
    destruct (Z.eqb_spec (found_ en) 0) as [Ez | Ez]; cbn [uniqueness_proven status solutions_truncated solutions_found];
      intros Hu; bool_prop; [lia |].
    split; [| done]. destruct (1 <? found_ en); [by right | by left].
Qed.

(** *** Fixtures: a ten-hop path with three failed segments *)

Definition fx_input : LocalizationInput :=
  MkInput 10 [0; 1; 9] [[2; 3; 4]; [4; 5; 6]; [6; 7]] 1000 8.
Definition fx_ambiguous : LocalizationInput := MkInput 6 [0] [[1; 2]; [2; 3]; [3; 4]] 1000 8.

Lemma fx_input_ok : input_ok fx_input.
Proof. repeat split; try (vm_compute; done); repeat constructor; lia. Qed.
Lemma fx_ambiguous_ok : input_ok fx_ambiguous.
Proof. repeat split; try (vm_compute; done); repeat constructor; lia. Qed.

(** *** A budget that decides *)

(** Nodes that suffice when a minimum explanation has [n] elements. *)
Definition ample_budget (i : LocalizationInput) (n : nat) : Z :=
  search_cost (cover (reduce i)) n 1 + run_oracle_cost (cover (reduce i)) n + run_cost (cover (reduce i)) n.

Lemma size_search_within cov_ budget n fuel k full o :
  in_u64 full -> oracle_ok cov_ o -> o_exhausted o = false -> coverable cov_ n 0 full ->
  (k <= n < k + fuel)%nat -> o_nodes o + search_cost cov_ (S n - k) k <= budget ->
  within (search_cost cov_ (S n - k) k) o (size_search cov_ budget fuel k full o).2.
Proof.
  intros Hf. revert k o. induction fuel as [| fuel IH]; intros k o Ho He Hc Hk Hb; [lia |].
  assert (forall f k, 0 <= search_cost cov_ f k) as Hnn.
  { induction f as [| f IHf]; intros k0; cbn [search_cost]; [lia |].
    pose proof (oracle_cost_nonneg cov_ k0). specialize (IHf (S k0)). lia. }
  replace (S n - k)%nat with (S (S n - S k)) in * by lia. cbn [size_search search_cost] in *.
  pose proof (Hnn (S n - S k)%nat (S k)).
  destruct (covers_cost cov_ budget k 0 full o He ltac:(lia)) as [C1 C2].
  pose proof (covers_spec cov_ budget k 0 full o Hf Ho) as (S1 & S2 & S3).
  destruct (covers cov_ budget k 0 full o) as [ok o1]. cbn [fst snd] in *.
  destruct ok; [split; [done | cbn [snd]; lia] |]. rewrite C1.
  assert (k <> n) by (intros ->; by specialize (S3 C1 Hc)).
  destruct (IH (S k) o1 S1 C1 Hc ltac:(lia) ltac:(lia)) as [? ?]. split; [done | lia].
Qed.

Lemma search_cost_tail cov_ f k j : search_cost cov_ f (j + k) <= search_cost cov_ (j + f) k.
Proof.
  revert k. induction j as [| j IH]; intros k; cbn [Nat.add search_cost]; [lia |].
  specialize (IH (S k)). replace (j + S k)%nat with (S (j + k)) in IH by lia.
  pose proof (oracle_cost_nonneg cov_ k). lia.
Qed.

Lemma search_decides i E :
  input_ok i -> input_valid i -> has_empty_set (reduce i) = false -> is_nil (sets (reduce i)) = false ->
  minimum_localization i E -> ample_budget i (length E) <= search_node_budget i ->
  decided (status (localize i)).
Proof.
  intros Hok Hv He Hs HE Hb.
  destruct (explains_cover i He E (proj1 (proj1 HE))) as (K & HK1 & HKE & HKl & HK3).
  rewrite <- HKE in HE. apply (minimum_bridge i He K HK1) in HE as HKmin.
  apply in_range_index in HK1 as HK2. rewrite <- HKl in Hb. set (n := length K) in *.
  assert (coverable (cover (reduce i)) n 0 (full_mask (reduce i))) as Hc by by exists K.
  assert (forall j, (j < n)%nat -> ~ coverable (cover (reduce i)) j 0 (full_mask (reduce i))) as Hj.
  { intros j Hlt (K' & H1 & H2 & H3). destruct HKmin as (_ & _ & _ & Hmin). specialize (Hmin K' H2 H3). fold n in Hmin. lia. } rewrite (localize_search i Hok Hv He Hs).
  assert (1 <= start i <= n)%nat as Hst.
  { exact (start_le i Hs K HK2 HK3). }
  assert (n <= 64)%nat as Hn.
  { apply Nat.nlt_ge. intros Hlt. apply (Hj (length (candidates_of i))); [| apply all_cover].
    pose proof (candidates_le_64 i Hv). lia. }
  unfold ample_budget in Hb. pose proof (run_costs_nonneg (cover (reduce i)) n) as [R1 R2].
  pose proof (search_cost_tail (cover (reduce i)) (S n - start i) 1 (start i - 1)) as Htail.
  replace (start i - 1 + 1)%nat with (start i) in Htail by lia.
  replace (start i - 1 + (S n - start i))%nat with n in Htail by lia.
  destruct (size_search_within (cover (reduce i)) (search_node_budget i) n (65 - start i) (start i)
    (full_mask (reduce i)) new_Oracle (full_mask_u64 i Hv) (new_Oracle_ok i) eq_refl Hc ltac:(lia) ltac:(cbn [new_Oracle o_nodes]; lia)) as [W1 W2].
  fold (search i) in W1, W2. cbn [new_Oracle o_nodes] in W2.
  destruct (search_spec i Hv Hs) as [So Sr]. destruct (search i).1 as [best |] eqn:Eb; [| congruence].
  assert (best = n) as ->.
  { destruct Sr as (_ & Hcb & Hjb). destruct (Nat.lt_trichotomy best n) as [Hl | [| Hl]]; [| done |].
    - exfalso. exact (Hj _ Hl Hcb).
    - exfalso. exact (Hjb _ Hl Hc). }
  destruct (enumeration_spec i Hv Hs n Eb) as (sols & Hen & Hsols & _ & _).
  pose proof (run_within (cover (reduce i)) (search_node_budget i) (max_solutions i) (remaining i) n 0
    (full_mask (reduce i)) (new_Enum (search i).2)) as Hrun.
  destruct Hrun as [Q1 Q2 Q3 Q4 Q5].
  { split; [done |]. cbn [new_Enum oracle_ nodes_]. split; [lia |]. unfold remaining.
    destruct (Z.ltb_spec (o_nodes (search i).2) (search_node_budget i)); lia. }
  fold (enumeration i n) in Q5. cbv zeta. set (en := enumeration i n) in *. clearbody en.
  assert (0 < found_ en) as Hpos.
  { destruct (truncated_ en) eqn:Et.
    - specialize (Q5 eq_refl eq_refl). pose proof (v_max i Hv). lia.
    - destruct (en_complete _ _ _ _ _ Hen Et) as [-> _]. cbn [new_Enum found_].
      apply Hsols in HKmin. destruct sols; [done |]. rewrite zlen_cons. pose proof (zlen_nonneg sols). lia. }
  destruct (Z.eqb_spec (found_ en) 0); [lia |]. cbn [status]. destruct (1 <? found_ en); [by right | by left].
Qed.

(** ** Properties *)

(** C2: a decided answer of [localize] is a minimum localization, it precedes every other
    minimum localization lexicographically, and the reported size is its size. *)
Theorem localize_minimum i :
  input_ok i -> decided (status (localize i)) ->
  minimum_localization i (elements (localize i)) /\
  (forall E, minimum_localization i E -> E = elements (localize i) \/ elements_lt (elements (localize i)) E) /\
  optimal_size (localize i) = zlen (elements (localize i)) /\ optimality_proven (localize i) = true.
Proof. intros Hok Hd. by destruct (localize_answered i Hok Hd) as [? ? [? ?] ? ?]. Qed.

Example localize_minimum_witness :
  decided (status (localize fx_input)) /\ minimum_localization fx_input [2; 6].
Proof.
  assert (decided (status (localize fx_input))) as Hd by (right; vm_compute; reflexivity).
  split; [exact Hd |].
  pose proof (proj1 (localize_minimum fx_input fx_input_ok Hd)) as Hm.
  replace (elements (localize fx_input)) with [2; 6] in Hm by (vm_compute; reflexivity). exact Hm.
Defined.

(** When the enumeration was not cut short, [solutions_found] is the number of
    minimum localizations. *)
Theorem localize_counts i :
  input_ok i -> decided (status (localize i)) -> solutions_truncated (localize i) = false ->
  exists l, List.NoDup l /\ (forall E, In E l <-> minimum_localization i E) /\
    zlen l = solutions_found (localize i).
Proof. intros Hok Hd. by apply localize_answered. Qed.

Example localize_counts_witness :
  exists l, List.NoDup l /\ (forall E, In E l <-> minimum_localization fx_ambiguous E) /\ zlen l = 3.
Proof.
  destruct (localize_counts fx_ambiguous fx_ambiguous_ok) as (l & H1 & H2 & H3);
    [right; vm_compute; reflexivity | vm_compute; reflexivity |].
  exists l. split; [exact H1 |]. split; [exact H2 |].
  replace 3 with (solutions_found (localize fx_ambiguous)) by (vm_compute; reflexivity). exact H3.
Defined.

(** Uniqueness is reported only for the one minimum localization, and an [Ambiguous]
    answer has another minimum localization. *)
Theorem localize_uniqueness i :
  input_ok i ->
  (uniqueness_proven (localize i) = true ->
     forall E, minimum_localization i E <-> E = elements (localize i)) /\
  (status (localize i) = LocalizationStatus.Ambiguous ->
     exists E, minimum_localization i E /\ E <> elements (localize i)).
Proof.
  intros Hok. split.
  - intros Hu. destruct (localize_unique_untruncated i Hok Hu) as (Hd & Ht & Hf).
    destruct (localize_answered i Hok Hd) as [Hmin _ _ Hc _]. destruct (Hc Ht) as (l & Hnd & Hl & Hlen).
    rewrite Hf in Hlen. destruct l as [| E0 [| E1 l]]; [done | | rewrite !zlen_cons in Hlen; pose proof (zlen_nonneg l); lia].
    apply Hl in Hmin as [Hmin | []]. intros E. rewrite <- Hl, <- Hmin. simpl. intuition congruence.
  - intros Ha. apply localize_answered; [done | by right | done].
Qed.

Example localize_uniqueness_witness :
  minimum_localization (MkInput 7 [0] [[2; 3]; [3; 4]; [3; 6]] 1000 8) [3] /\
  exists E, minimum_localization fx_ambiguous E /\ E <> [1; 3].
Proof.
  split.
  - apply (proj1 (localize_uniqueness (MkInput 7 [0] [[2; 3]; [3; 4]; [3; 6]] 1000 8)
      ltac:(repeat split; try (vm_compute; done); repeat constructor; lia)) ltac:(vm_compute; reflexivity)).
    vm_compute. reflexivity.
  - destruct (proj2 (localize_uniqueness fx_ambiguous fx_ambiguous_ok) ltac:(vm_compute; reflexivity)) as (E & H1 & H2).
    exists E. split; [exact H1 |]. intros H. apply H2. rewrite H. vm_compute. reflexivity.
Defined.

(** Infeasibility is proven exactly when no set of elements explains the failures,
    and the certificate names a failure set all of whose elements are proven healthy. *)
Theorem localize_infeasible_iff i :
  input_ok i -> (validate_localization_input i).1 = Ok ->
  (status (localize i) = LocalizationStatus.ProvenInfeasible <-> ~ exists E, explains i E) /\
  (has_infeasible_witness (localize i) = true ->
     exists s, failure_sets i !! Z.to_nat (infeasible_witness (localize i)) = Some s /\
       forall e, In e s -> is_candidate i e = false).
Proof.
  intros Hok Hval. apply (validate_input_spec i Hok) in Hval as Hv.
  assert (has_empty_set (reduce i) = false -> explains i (greedy_localization i)) as Hex
    by (intros He; apply greedy_spec; [done | by apply full_mask_u64]).
  destruct (localize_cases i Hok) as [| _ He | _ Hn | _ He Hs]; [done | | |].
  - split; [| intros _; destruct (empty_set_origin_spec i He) as (s & Hs & _ & Hall); by exists s].
    split; [| done]. intros _ (E & HE & HS). apply has_empty_set_spec in He as (s & Hs & Hall).
    rewrite List.Forall_forall in *. destruct (HS s Hs) as (e & Hes & HeE). specialize (HE e HeE).
    by rewrite Hall in HE.
  - split; [| done]. split; [done |]. intros Hno. exfalso. apply Hno. exists []. split; [constructor |].
    by rewrite Hn.
  - assert (status (localize i) <> LocalizationStatus.ProvenInfeasible /\ has_infeasible_witness (localize i) = false) as [H1 H2].
    { rewrite (localize_search i Hok Hv He Hs). destruct (search i).1 as [best |]; [| done]. cbv zeta.
      destruct (_ =? 0); [done |]. by destruct (1 <? _). }
    split; [| congruence]. split; [done |]. intros Hno. exfalso. apply Hno. eexists. by apply Hex.
Qed.

Example localize_infeasible_iff_witness :
  ~ exists E, explains (MkInput 4 [1; 2] [[0; 1]; [1; 2]] 1000 8) E.
Proof.
  apply (proj1 (localize_infeasible_iff (MkInput 4 [1; 2] [[0; 1]; [1; 2]] 1000 8)
    ltac:(repeat split; try (vm_compute; done); repeat constructor; lia) ltac:(vm_compute; reflexivity))).
  vm_compute. reflexivity.
Defined.

(** C26: with an ample node budget [localize] decides: the status is [Resolved] or
    [Ambiguous] whenever the input is valid and an explanation exists. *)
Theorem localize_decides i E :
  input_ok i -> (validate_localization_input i).1 = Ok ->
  minimum_localization i E -> ample_budget i (length E) <= search_node_budget i ->
  decided (status (localize i)).
Proof.
  intros Hok Hval HE Hb. apply (validate_input_spec i Hok) in Hval as Hv.
  destruct (localize_cases i Hok) as [| _ He | _ Hn | _ He Hs]; [done | | by left |].
  - exfalso. apply has_empty_set_spec in He as (s & Hs & Hall). destruct HE as [[[HE HS] _] _].
    rewrite List.Forall_forall in *. destruct (HS s Hs) as (e & Hes & HeE). specialize (HE e HeE).
    by rewrite Hall in HE.
  - by apply (search_decides i E).
Qed.

Example localize_decides_witness : decided (status (localize fx_input)).
Proof.
  apply (localize_decides fx_input [2; 6] fx_input_ok); [vm_compute; reflexivity | | vm_compute; discriminate].
  split; [split; [split |] |].
  - repeat constructor.
  - repeat constructor; [exists 2 | exists 6 | exists 6]; simpl; lia.
  - repeat constructor; lia.
  - intros E' [_ HE']. destruct E' as [| a [| b E']]; simpl; [| | lia]; exfalso; unfold fx_input in HE'; cbn in HE';
      inversion_clear HE' as [| ? ? (x & Hx1 & Hx2) H1]; inversion_clear H1 as [| ? ? _ H2];
      inversion_clear H2 as [| ? ? (y & Hy1 & Hy2) _]; simpl in *; intuition lia.
Defined.

(** Unless the input is invalid or infeasible, the elements [localize] returns, exact
    or heuristic, are a localization: none is proven healthy and every failed segment
    contains one. *)
Theorem localize_sound i :
  input_ok i -> status (localize i) <> LocalizationStatus.InvalidInput ->
  status (localize i) <> LocalizationStatus.ProvenInfeasible -> localization i (elements (localize i)).
Proof.
  intros Hok H1 H2. destruct (decide (status (localize i) = LocalizationStatus.Indeterminate)) as [Hi | Hi].
  - revert Hi. destruct (localize_cases i Hok) as [| | | Hv He Hs]; [done .. |].
    rewrite (localize_search i Hok Hv He Hs). intros Hi.
    assert (localization i (greedy_localization i)) as Hg by (apply greedy_spec; [done | by apply full_mask_u64]).
    destruct (search i).1 as [best |]; [| done]. cbv zeta in *.
    destruct (_ =? 0); [done |]. by destruct (1 <? _).
  - apply localize_answered; [done |]. unfold decided. destruct (status (localize i)); naive_solver.
Qed.

Example localize_sound_witness :
  localization (MkInput 10 [0; 1; 9] [[2; 3; 4]; [4; 5; 6]; [6; 7]] 1 8)
    (elements (localize (MkInput 10 [0; 1; 9] [[2; 3; 4]; [4; 5; 6]; [6; 7]] 1 8))).
Proof.
  apply localize_sound; [repeat split; try (vm_compute; done); repeat constructor; lia | vm_compute; discriminate ..].
Defined.

(** With [max_solutions = 1] the enumeration stops at the first minimum localization,
    so [Resolved] is reported for an ambiguous instance: [Resolved] does not mean unique.
    The uniqueness flag stays false. *)
Theorem resolved_not_unique :
  let i := MkInput 6 [0] [[1; 2]; [2; 3]; [3; 4]] 1000 1 in
  status (localize i) = LocalizationStatus.Resolved /\ uniqueness_proven (localize i) = false /\
  elements (localize i) = [1; 3] /\ explains i [2; 3] /\ optimal_size (localize i) = 2.
Proof.
  repeat split; try (vm_compute; reflexivity); repeat constructor; [exists 2 | exists 2 | exists 3]; simpl; lia.
Qed.
