(* ===== verification/Validator.v ===== *)
(** * The independent validator and the derivation of constraints from probes

    Theorems about [verify_localization] and [build_localization_input] of
    [src/localize/localizer.cpp]: what an accepted report guarantees, a correct result
    the validator rejects, and the meaning of the constraints built from hop probes. *)
From Stdlib Require Import Strings.String Sorting.Permutation Sorting.Sorted.
From S2P Require Import Prelude OrderedMap Sort Core Checked Domain Hitting Localizer LocalizerSpec.
Local Open Scope string_scope.
Local Open Scope list_scope.
Local Open Scope Z_scope.

(** ** Acceptance is sound *)

(** [std::binary_search] reports only elements of the range, whatever its order, and every
    element of an ascending one. *)
Lemma lower_bound_spec l e fuel first len :
  (len <= fuel)%nat ->
  (first <= lower_bound fuel l e first len <= first + len)%nat /\
  (lower_bound fuel l e first len = (first + len)%nat \/ e <= nth (lower_bound fuel l e first len) l 0) /\
  ((forall i j, (i < j < first + len)%nat -> nth i l 0 < nth j l 0) ->
   forall j, (first <= j < lower_bound fuel l e first len)%nat -> nth j l 0 < e).
Proof.
  revert first len. induction fuel as [| fuel IH]; intros first len Hf; cbn [lower_bound].
  { repeat split; lia. }
  destruct len as [| len']; [repeat split; lia |].
  set (len := S len') in *. set (half := Nat.div2 len).
  assert (half < len)%nat as Hh by (apply Nat.lt_div2; lia).
  destruct (Z.ltb_spec (nth (first + half) l 0) e) as [Hlt | Hge].
  - destruct (IH (S (first + half)) (len - half - 1)%nat) as (H1 & H2 & H3); [lia |].
    replace (S (first + half) + (len - half - 1))%nat with (first + len)%nat in * by lia.
    split; [lia |]. split; [done |]. intros Hs j Hj.
    destruct (lt_eq_lt_dec j (first + half)) as [[Hl | ->] | Hg]; [| done | apply H3; [done | lia]].
    specialize (Hs j (first + half)%nat ltac:(lia)). lia.
  - destruct (IH first half) as (H1 & H2 & H3); [lia |]. split; [lia |]. split.
    + right. destruct H2 as [-> | H2]; done.
    + intros Hs j Hj. apply H3; [intros; apply Hs; lia | done].
Qed.

Lemma binary_search_In l e : binary_search l e = true -> In e l.
Proof.
  unfold binary_search. destruct (lower_bound_spec l e (length l) 0 (length l) ltac:(lia)) as (H1 & H2 & _).
  set (k := lower_bound _ _ _ _ _) in *. destruct (l !! k) as [x |] eqn:El; [| done].
  pose proof (lookup_lt_Some _ _ _ El) as Hk. intros Hx. bool_prop.
  rewrite (nth_lookup_Some _ _ _ _ El) in H2.
  replace e with x by lia. apply list_elem_of_In. by eapply list_elem_of_lookup_2.
Qed.

Lemma ascending_nth l :
  StronglySorted Z.lt l -> forall i j, (i < j < length l)%nat -> nth i l 0 < nth j l 0.
Proof.
  induction 1 as [| x l Hs IH Hf]; intros i j Hj; [simpl in Hj; lia |].
  destruct j as [| j]; [lia |]. simpl in Hj. destruct i as [| i]; simpl.
  - rewrite List.Forall_forall in Hf. apply Hf, nth_In. lia.
  - apply IH. lia.
Qed.

Lemma In_binary_search l e : StronglySorted Z.lt l -> In e l -> binary_search l e = true.
Proof.
  intros Hs Hin. pose proof (ascending_nth l Hs) as Ha. apply (In_nth _ _ 0) in Hin as (p & Hp & <-).
  unfold binary_search.
  destruct (lower_bound_spec l (nth p l 0) (length l) 0 (length l) ltac:(lia)) as (H1 & H2 & H3).
  specialize (H3 Ha). set (k := lower_bound _ _ _ _ _) in *.
  assert (k <= p)%nat as Hkp by (destruct (le_lt_dec k p) as [| Hlt]; [done | specialize (H3 p ltac:(lia)); lia]).
  assert (k = p) as ->.
  { destruct (Nat.eq_dec k p); [done |]. specialize (Ha k p ltac:(lia)). destruct H2; lia. }
  destruct (l !! p) as [x |] eqn:El; [| apply lookup_ge_None in El; lia].
  rewrite (nth_lookup_Some _ _ _ _ El), Z.ltb_irrefl. done.
Qed.

Lemma binary_search_zmem l e : StronglySorted Z.lt l -> binary_search l e = zmem e l.
Proof.
  intros Hs. apply eq_true_iff_eq. rewrite zmem_In.
  split; [apply binary_search_In | by apply In_binary_search].
Qed.

Lemma check_claim_spec i prev l :
  StronglySorted Z.lt (proven_ok i) -> Forall (fun e => 0 <= e) l -> check_claim i prev l = None ->
  Forall (fun e => is_candidate i e = true) l /\ StronglySorted Z.lt l /\
  match prev with Some p => Forall (fun e => p < e) l | None => True end.
Proof.
  intros Ha Hl. revert prev. induction Hl as [| e l He Hl IH]; intros prev; simpl.
  { intros _. repeat split; try constructor. by destruct prev. }
  destruct (Z.leb_spec (element_count i) e); [done |]. rewrite (binary_search_zmem _ _ Ha).
  destruct (zmem e (proven_ok i)) eqn:Em; [done |].
  destruct (match prev with Some p => e <=? p | None => false end) eqn:Ep; [done |].
  intros Hc. destruct (IH _ Hc) as (H1 & H2 & H3). split; [| split; [by constructor |]].
  - constructor; [| done]. unfold is_candidate. rewrite Em.
    destruct (Z.leb_spec 0 e), (Z.ltb_spec e (element_count i)); done || lia.
  - destruct prev as [p |]; [| done]. bool_prop. constructor; [done |].
    eapply Forall_impl; [exact H3 |]. simpl. lia.
Qed.

Lemma covers_check_spec (sets E : list (list Z)) l :
  forallb (fun s => existsb (fun e => binary_search l e) s) sets = true ->
  Forall (fun s => exists e, In e s /\ In e l) sets.
Proof.
  intros Hf. apply List.Forall_forall. intros s Hs. rewrite forallb_forall in Hf.
  specialize (Hf s Hs). apply existsb_exists in Hf as (e & He & Hm). apply binary_search_In in Hm. eauto.
Qed.

Lemma verify_elements i res :
  StronglySorted Z.lt (proven_ok i) -> Forall (fun e => 0 <= e) (elements res) ->
  status res <> LocalizationStatus.ProvenInfeasible ->
  rep_valid (verify_localization i res) = true -> localization i (elements res).
Proof.
  intros Ha He Hs. unfold verify_localization.
  assert (forall (b : bool) (c : option string), c = check_claim i None (elements res) ->
    b = forallb (fun s => existsb (fun e => binary_search (elements res) e) s) (failure_sets i) ->
    c = None -> b = true -> localization i (elements res)) as Hgo.
  { intros b c -> -> Hc Hb. destruct (check_claim_spec i None _ Ha He Hc) as (H1 & H2 & _).
    split; [split; [done |] | done]. by apply (covers_check_spec _ []). }
  destruct (status res); try done;
    (destruct (check_claim i None (elements res)) eqn:Ec; [done |]);
    set (cv := forallb _ (failure_sets i)) in *; intros Hr; apply (Hgo cv None); try done; revert Hr;
    (destruct (optimality_proven res); [| done]); cbv zeta;
    (destruct (zlen _ <=? _);
       [destruct (_ == _); [done |]; cbn [rep_valid]; intros Hr; by bool_prop
       |destruct (if optimal_size res =? 0 then _ else _) as [ns o]; cbn [rep_valid]; intros Hr; by bool_prop]).
Qed.

(** C24: a result the validator accepts for a validated input is what it claims: its
    elements are a localization, and a claim of infeasibility means that nothing explains
    the failures. *)
Theorem verify_localization_sound i res :
  input_ok i -> (validate_localization_input i).1 = Ok ->
  Forall (fun e => 0 <= e) (elements res) -> 0 <= infeasible_witness res ->
  rep_valid (verify_localization i res) = true ->
  (status res = LocalizationStatus.ProvenInfeasible -> ~ exists E, explains i E) /\
  (status res <> LocalizationStatus.ProvenInfeasible -> localization i (elements res)).
Proof.
  intros Hok Hv He Hw Hr. apply validate_input_spec in Hv; [| done]. pose proof (v_ok_sorted i Hv) as Ha.
  split; [| intros Hs; by apply verify_elements].
  intros Hs (E & HE & HS). unfold verify_localization in Hr. rewrite Hs in Hr.
  destruct (negb (has_infeasible_witness res)); [done |].
  destruct (Z.leb_spec (zlen (failure_sets i)) (infeasible_witness res)) as [| Hlt]; [done |].
  destruct (existsb _ _) eqn:Ex; [done |].
  set (n := Z.to_nat (infeasible_witness res)) in *.
  assert (In (nth n (failure_sets i) []) (failure_sets i)) as Hin by (apply nth_In; unfold zlen in Hlt; lia).
  rewrite List.Forall_forall in *. destruct (HS _ Hin) as (e & Hes & HeE). specialize (HE e HeE).
  rewrite <- not_true_iff_false in Ex. apply Ex, existsb_exists. exists e. split; [done |].
  rewrite (binary_search_zmem _ _ Ha).
  unfold is_candidate in HE. bool_prop. apply andb_true_iff. split; [by apply Z.ltb_lt | by apply negb_true_iff].
Qed.

Example verify_localization_sound_witness :
  rep_valid (verify_localization fx_ambiguous (localize fx_ambiguous)) = true /\
  localization fx_ambiguous [1; 3].
Proof.
  assert (rep_valid (verify_localization fx_ambiguous (localize fx_ambiguous)) = true) as Hr by (vm_compute; reflexivity).
  split; [exact Hr |].
  pose proof (proj2 (verify_localization_sound fx_ambiguous (localize fx_ambiguous) fx_ambiguous_ok ltac:(vm_compute; reflexivity)
    ltac:(vm_compute; repeat constructor; discriminate) ltac:(vm_compute; discriminate) Hr)
    ltac:(vm_compute; discriminate)) as H.
  replace (elements (localize fx_ambiguous)) with [1; 3] in H by (vm_compute; reflexivity). exact H.
Defined.

(** Above the size handled by the reference solver the validator compares a mask over
    candidates with a mask over failure sets: it rejects the correct, proven optimal
    answer of [localize] on a twenty-hop path with two disjoint failures, and accepts the
    answer on the same failures over eighteen hops. *)
Theorem verify_rejects_correct_result :
  let i n := MkInput n [] [[0; 1]; [2; 3]] 1000 8 in
  status (localize (i 20)) = LocalizationStatus.Ambiguous /\
  solutions_truncated (localize (i 20)) = false /\ elements (localize (i 20)) = [0; 2] /\
  rep_valid (verify_localization (i 20) (localize (i 20))) = false /\
  covers_all (verify_localization (i 20) (localize (i 20))) = true /\
  elements (localize (i 18)) = [0; 2] /\
  rep_valid (verify_localization (i 18) (localize (i 18))) = true.
Proof. vm_compute. repeat split. Qed.

(** The validator relies on the order of [proven_ok] and does not check it: where the list
    is not ascending the binary search misses a proven healthy element and the validator
    accepts a result that blames it. The input does not pass validation. *)
Theorem verify_trusts_proven_order :
  let i := MkInput 4 [3; 1; 2] [[1]] 1000 8 in
  let claim := MkResult LocalizationStatus.Resolved [1] 0 false false false 1 0 0 false
                 ReasonCode.LocalizationResolved in
  (validate_localization_input i).1 = Invalid /\ is_candidate i 1 = false /\
  binary_search (proven_ok i) 1 = false /\ rep_valid (verify_localization i claim) = true.
Proof. vm_compute. repeat split. Qed.

(** ** Constraints from probes *)

(** [E] explains the probes: it meets every failed probe and avoids every hop that a
    successful probe crossed. *)
Definition explains_probes (hop_count : Z) (probes : list HopProbe) (E : list Z) : Prop :=
  Forall (fun e => 0 <= e < hop_count /\
                   forall p, In p probes -> success p = true -> in_probe p e = false) E /\
  forall p, In p probes -> success p = false -> exists e, In e E /\ in_probe p e = true.

Lemma filter_range_In f n e : In e (List.filter f (range n)) <-> 0 <= e < n /\ f e = true.
Proof. by rewrite filter_In, range_spec. Qed.

Lemma built_explains hop_count probes budget max i :
  0 <= hop_count -> Forall (fun p => 0 <= p_begin p) probes ->
  build_localization_input hop_count probes budget max = inr i ->
  (validate_localization_input i).1 = Ok /\
  forall E, explains i E <-> explains_probes hop_count probes E.
Proof.
  intros Hn Hp. unfold build_localization_input.
  destruct (hop_count =? 0); [done |]. destruct (_ <? zlen probes); [done |].
  destruct (existsb (probe_invalid hop_count) probes) eqn:Ei; [done |]. cbv zeta.
  set (ok := fun h => existsb (fun p => success p && in_probe p h) probes).
  set (i0 := MkInput _ _ _ _ _). destruct (validate_localization_input i0) as [v why] eqn:Ev.
  destruct (is_affirmative v) eqn:Ea; cbn [negb]; [| done]. intros [= <-]. rewrite Ev.
  apply affirmative_ok in Ea as ->. split; [done |].
  assert (forall e, is_candidate i0 e = true <-> 0 <= e < hop_count /\ ok e = false) as Hcand.
  { intros e. unfold is_candidate. cbn [i0 element_count proven_ok].
    destruct (zmem e _) eqn:Em.
    - apply zmem_In, filter_range_In in Em as [_ Ho]. rewrite andb_false_r. split; [done |]. intros [_ ?]; congruence.
    - split; intros H; bool_prop.
      + split; [lia |]. destruct (ok e) eqn:Eo; [| done].
        assert (In e (List.filter ok (range hop_count))) as Hin by (apply filter_range_In; split; [lia | done]).
        apply zmem_In in Hin. congruence.
      + destruct H. destruct (Z.leb_spec 0 e), (Z.ltb_spec e hop_count); done || lia. }
  assert (forall e, ok e = false <-> forall p, In p probes -> success p = true -> in_probe p e = false) as Hok.
  { intros e. unfold ok. rewrite <- not_true_iff_false, existsb_exists. split.
    - intros Hno p Hin Hs. apply not_true_iff_false. intros Hpr. apply Hno. exists p. by rewrite Hs, Hpr.
    - intros Hall (p & Hin & Hb). bool_prop. specialize (Hall p Hin H). congruence. }
  intros E. unfold explains, explains_probes. cbn [i0 failure_sets].
  rewrite Forall_map, !List.Forall_forall. split; intros [H1 H2]; split.
  - intros e He. specialize (H1 e He). apply Hcand in H1 as [? ?]. split; [done | by apply Hok].
  - intros p Hin Hs. destruct (H2 p) as (e & He & HeE); [apply filter_In; by rewrite Hs |].
    apply filter_range_In in He as [_ He]. bool_prop. by exists e.
  - intros e He. destruct (H1 e He) as [? ?]. apply Hcand. split; [done | by apply Hok].
  - intros p [Hin Hs]%filter_In. bool_prop. destruct (H2 p Hin Hs) as (e & HeE & Hpr).
    exists e. split; [| done]. destruct (H1 e HeE) as [Hr Hfree]. apply filter_range_In.
    pose proof (proj2 (Hok e) Hfree) as Ho. unfold ok in Ho. rewrite Hpr, Ho. by split.
Qed.

Lemma built_ok hop_count probes budget max i :
  in_u32 hop_count -> in_u64 budget -> in_u32 max ->
  build_localization_input hop_count probes budget max = inr i -> input_ok i.
Proof.
  intros Hn Hb Hm. unfold build_localization_input.
  destruct (hop_count =? 0); [done |]. destruct (_ <? zlen probes); [done |].
  destruct (existsb (probe_invalid hop_count) probes); [done |]. cbv zeta.
  set (ok := fun h => existsb (fun p => success p && in_probe p h) probes). set (i0 := MkInput _ _ _ _ _).
  destruct (validate_localization_input i0) as [v why]. destruct (is_affirmative v); cbn [negb]; [| done]. intros [= <-].
  assert (forall f, Forall (fun e => 0 <= e) (List.filter f (range hop_count))) as Hr.
  { intros f. apply List.Forall_forall. intros e He. apply filter_range_In in He. lia. }
  split; [exact Hn |]. split; [apply Hr |]. split; [| by split].
  cbn [i0 failure_sets]. apply Forall_map, List.Forall_forall. intros p _. apply Hr.
Qed.

(** The constraints built from probes mean what the probes say: an explanation of the
    built input is exactly a set of hops that meets every failed probe and contains no
    hop crossed by a successful one; and the built input passes validation. *)
Theorem build_localization_input_spec hop_count probes budget max i :
  0 <= hop_count -> Forall (fun p => 0 <= p_begin p) probes ->
  build_localization_input hop_count probes budget max = inr i ->
  (validate_localization_input i).1 = Ok /\
  forall E, explains i E <-> explains_probes hop_count probes E.
Proof. apply built_explains. Qed.

Example build_localization_input_spec_witness :
  explains_probes 6 [MkProbe 0 2 true; MkProbe 1 4 false; MkProbe 3 6 false] [3].
Proof.
  apply (build_localization_input_spec 6 [MkProbe 0 2 true; MkProbe 1 4 false; MkProbe 3 6 false] 100 4
    (MkInput 6 [0; 1] [[2; 3]; [3; 4; 5]] 100 4)); [lia | repeat constructor; simpl; lia | vm_compute; reflexivity |].
  split; [by repeat constructor | repeat constructor; exists 3; simpl; lia].
Defined.
