(* ===== verification/Fence.v ===== *)
(** * Authority and the fence registry

    Models the authority ladder, the fencing intents and the bounded [FenceRegistry] of
    [include/blackhole/authority/authority.hpp] and [src/authority/authority.cpp]. The
    registry is an ordered map of records and a block of [uint64_t] counters; a [FenceOp]
    is one public call, and [run_op] its effect on the registry. *)
From Stdlib Require Import Strings.String Sorting.Sorted.
From S2P Require Import Prelude OrderedMap Sort Core Checked Codec Hash Ids Domain Policy Fixtures.
Local Open Scope string_scope.
Local Open Scope list_scope.
Local Open Scope Z_scope.

Module AuthorityStage.
(** include/blackhole/authority/authority.hpp:37-45 AuthorityStage *)
Inductive t :=
| None | Observation | Eligibility | Authorization | Intent | Acknowledgement
| VerifiedEffect.

Definition raw (e : t) : Z :=
  match e with
  | None => 0 | Observation => 1 | Eligibility => 2 | Authorization => 3 | Intent => 4
  | Acknowledgement => 5 | VerifiedEffect => 6
  end.

Definition all : list t :=
  [None; Observation; Eligibility; Authorization; Intent; Acknowledgement; VerifiedEffect].

(** include/blackhole/authority/authority.hpp:47-47 is_valid(AuthorityStage) *)
Definition is_valid (raw : Z) : bool := raw <=? 6.

(** include/blackhole/authority/authority.hpp:49-60 to_string(AuthorityStage) *)
Definition to_string (e : t) : string :=
  match e with
  | None => "NONE" | Observation => "OBSERVATION" | Eligibility => "ELIGIBILITY"
  | Authorization => "AUTHORIZATION" | Intent => "INTENT"
  | Acknowledgement => "ACKNOWLEDGEMENT" | VerifiedEffect => "VERIFIED_EFFECT"
  end.
End AuthorityStage.

#[export] Instance RawEnum_AuthorityStage : RawEnum AuthorityStage.t := {
  to_raw := AuthorityStage.raw; of_raw := pick AuthorityStage.raw AuthorityStage.all AuthorityStage.None;
  is_valid_raw := fun z => (0 <=? z) && AuthorityStage.is_valid z;
}.
#[export] Hint Unfold AuthorityStage.is_valid : enum.
#[export] Instance RawEnumLaws_AuthorityStage : RawEnumLaws AuthorityStage.t.
Proof. solve_enum 0 6%nat. Qed.
#[export] Instance AuthorityStage_eq_dec : EqDecision AuthorityStage.t :=
  eq_dec_by_inj AuthorityStage.raw (to_raw_inj (E := AuthorityStage.t)).

Module FenceLifecycle.
(** include/blackhole/authority/authority.hpp:116-123 FenceLifecycle *)
Inductive t :=
| Intent | Acknowledged | EffectReported | Revoked | Expired | FencedByRestart.

Definition raw (e : t) : Z :=
  match e with
  | Intent => 0 | Acknowledged => 1 | EffectReported => 2 | Revoked => 3 | Expired => 4
  | FencedByRestart => 5
  end.

Definition all : list t :=
  [Intent; Acknowledged; EffectReported; Revoked; Expired; FencedByRestart].

(** include/blackhole/authority/authority.hpp:125-125 is_valid(FenceLifecycle) *)
Definition is_valid (raw : Z) : bool := raw <=? 5.

(** include/blackhole/authority/authority.hpp:127-137 to_string(FenceLifecycle) *)
Definition to_string (e : t) : string :=
  match e with
  | Intent => "INTENT" | Acknowledged => "ACKNOWLEDGED" | EffectReported => "EFFECT_REPORTED"
  | Revoked => "REVOKED" | Expired => "EXPIRED" | FencedByRestart => "FENCED_BY_RESTART"
  end.
End FenceLifecycle.

#[export] Instance RawEnum_FenceLifecycle : RawEnum FenceLifecycle.t := {
  to_raw := FenceLifecycle.raw; of_raw := pick FenceLifecycle.raw FenceLifecycle.all FenceLifecycle.Intent;
  is_valid_raw := fun z => (0 <=? z) && FenceLifecycle.is_valid z;
}.
#[export] Hint Unfold FenceLifecycle.is_valid : enum.
#[export] Instance RawEnumLaws_FenceLifecycle : RawEnumLaws FenceLifecycle.t.
Proof. solve_enum 0 5%nat. Qed.
#[export] Instance FenceLifecycle_eq_dec : EqDecision FenceLifecycle.t :=
  eq_dec_by_inj FenceLifecycle.raw (to_raw_inj (E := FenceLifecycle.t)).

Module DecisionKind.
(** include/blackhole/authority/authority.hpp:246-254 DecisionKind *)
Inductive t :=
| Diagnosis | FenceIntent | FenceAcknowledgement | FenceEffect | FenceRevocation
| Restoration | Interruption.

Definition raw (e : t) : Z :=
  match e with
  | Diagnosis => 1 | FenceIntent => 2 | FenceAcknowledgement => 3 | FenceEffect => 4
  | FenceRevocation => 5 | Restoration => 6 | Interruption => 7
  end.

Definition all : list t :=
  [Diagnosis; FenceIntent; FenceAcknowledgement; FenceEffect; FenceRevocation; Restoration;
   Interruption].

(** include/blackhole/authority/authority.hpp:256-258 is_valid(DecisionKind) *)
Definition is_valid (raw : Z) : bool := (1 <=? raw) && (raw <=? 7).

(** include/blackhole/authority/authority.hpp:260-271 to_string(DecisionKind) *)
Definition to_string (e : t) : string :=
  match e with
  | Diagnosis => "Diagnosis" | FenceIntent => "FenceIntent"
  | FenceAcknowledgement => "FenceAcknowledgement" | FenceEffect => "FenceEffect"
  | FenceRevocation => "FenceRevocation" | Restoration => "Restoration"
  | Interruption => "Interruption"
  end.
End DecisionKind.

#[export] Instance RawEnum_DecisionKind : RawEnum DecisionKind.t := {
  to_raw := DecisionKind.raw; of_raw := pick DecisionKind.raw DecisionKind.all DecisionKind.Diagnosis;
  is_valid_raw := fun z => (0 <=? z) && DecisionKind.is_valid z;
}.
#[export] Hint Unfold DecisionKind.is_valid : enum.
#[export] Instance RawEnumLaws_DecisionKind : RawEnumLaws DecisionKind.t.
Proof. solve_enum 0 7%nat. Qed.
#[export] Instance DecisionKind_eq_dec : EqDecision DecisionKind.t :=
  eq_dec_by_inj DecisionKind.raw (to_raw_inj (E := DecisionKind.t)).

Module PathLifecycle.
(** include/blackhole/authority/authority.hpp:313-323 PathLifecycle *)
Inductive t :=
| Unobserved | Observed | Suspected | Diagnosed | FenceIntended | FenceAcknowledged
| Restored | Interrupted | Fenced.

Definition raw (e : t) : Z :=
  match e with
  | Unobserved => 0 | Observed => 1 | Suspected => 2 | Diagnosed => 3 | FenceIntended => 4
  | FenceAcknowledged => 5 | Restored => 6 | Interrupted => 7 | Fenced => 8
  end.

Definition all : list t :=
  [Unobserved; Observed; Suspected; Diagnosed; FenceIntended; FenceAcknowledged; Restored;
   Interrupted; Fenced].

Definition is_valid (raw : Z) : bool := raw <=? 8.

(** include/blackhole/authority/authority.hpp:325-338 to_string(PathLifecycle) *)
Definition to_string (e : t) : string :=
  match e with
  | Unobserved => "UNOBSERVED" | Observed => "OBSERVED" | Suspected => "SUSPECTED"
  | Diagnosed => "DIAGNOSED" | FenceIntended => "FENCE_INTENDED"
  | FenceAcknowledged => "FENCE_ACKNOWLEDGED" | Restored => "RESTORED"
  | Interrupted => "INTERRUPTED" | Fenced => "FENCED"
  end.
End PathLifecycle.

#[export] Instance RawEnum_PathLifecycle : RawEnum PathLifecycle.t := {
  to_raw := PathLifecycle.raw; of_raw := pick PathLifecycle.raw PathLifecycle.all PathLifecycle.Unobserved;
  is_valid_raw := fun z => (0 <=? z) && PathLifecycle.is_valid z;
}.
#[export] Hint Unfold PathLifecycle.is_valid : enum.
#[export] Instance RawEnumLaws_PathLifecycle : RawEnumLaws PathLifecycle.t.
Proof. solve_enum 0 8%nat. Qed.
#[export] Instance PathLifecycle_eq_dec : EqDecision PathLifecycle.t :=
  eq_dec_by_inj PathLifecycle.raw (to_raw_inj (E := PathLifecycle.t)).

(** ** Authority vectors and intents *)

(** include/blackhole/authority/authority.hpp:65-93 AuthorityVector *)
Record AuthorityVector := MkAuthority {
  av_stage : AuthorityStage.t;
  av_decision : DecisionId;
  av_fence : FenceId;
  av_gens : GenerationVector;
  av_boot : BootId;
  av_incarnation : IncarnationId;
  av_policy : PolicyVersion;
  av_issued_at : WallNs;
  av_expires_at : WallNs;
  av_revoked : bool;
  av_revoke_reason : ReasonCode.t;
  av_provenance : Provenance.t;
}.
#[export] Instance AuthorityVector_eq_dec : EqDecision AuthorityVector.
Proof. solve_decision. Defined.

(** include/blackhole/authority/authority.hpp:79-82 AuthorityVector::is_positive *)
Definition av_is_positive (a : AuthorityVector) : bool :=
  (AuthorityStage.raw AuthorityStage.Authorization <=? AuthorityStage.raw (av_stage a))
  && negb (av_revoked a).

(** include/blackhole/authority/authority.hpp:85-92 AuthorityVector::is_binding_at *)
Definition is_binding_at (a : AuthorityVector) (current : GenerationVector) (current_boot : BootId)
  (current_incarnation : IncarnationId) (now : WallNs) : bool :=
  if negb (av_is_positive a) then false
  else if av_gens a != current then false
  else if av_boot a != current_boot then false
  else if av_incarnation a != current_incarnation then false
  else (wall_ns (av_expires_at a) =? 0) || (wall_ns now <? wall_ns (av_expires_at a)).

(** include/blackhole/authority/authority.hpp:95-112 FenceIntent *)
Record FenceIntent := MkIntent {
  fi_id : FenceId;
  fi_decision : DecisionId;
  fi_scope : Scope;
  fi_gens : GenerationVector;
  fi_boot : BootId;
  fi_incarnation : IncarnationId;
  fi_policy : PolicyVersion;
  fi_provenance : Provenance.t;
  fi_reason : ReasonCode.t;
  fi_issued_at : WallNs;
  fi_expires_at : WallNs;
}.
#[export] Instance FenceIntent_eq_dec : EqDecision FenceIntent.
Proof. solve_decision. Defined.

(** include/blackhole/authority/authority.hpp:108-111 FenceIntent::is_valid *)
Definition intent_valid (f : FenceIntent) : bool :=
  negb (id_nil (fi_id f)) && negb (id_nil (fi_decision f)) && scope_valid (fi_scope f)
  && is_complete (fi_gens f) && negb (id_nil (fi_boot f)) && negb (id_nil (fi_incarnation f))
  && (wall_ns (fi_issued_at f) <? wall_ns (fi_expires_at f)).

(** include/blackhole/authority/authority.hpp:139-153 FenceRecord *)
Record FenceRecord := MkFence {
  fr_intent : FenceIntent;
  fr_lifecycle : FenceLifecycle.t;
  fr_effect_verified : bool;
  fr_ack_owner : EvidenceSourceId;
  fr_acked_at : WallNs;
  fr_effect_owner : EvidenceSourceId;
  fr_effected_at : WallNs;
  fr_terminal_reason : ReasonCode.t;
}.

(** include/blackhole/authority/authority.hpp:149-152 FenceRecord::is_open *)
Definition is_open (r : FenceRecord) : bool :=
  (fr_lifecycle r == FenceLifecycle.Intent) || (fr_lifecycle r == FenceLifecycle.Acknowledged)
  || (fr_lifecycle r == FenceLifecycle.EffectReported).

(** A record as it is created: [FenceRecord rec; rec.intent = intent]. *)
Definition new_record (i : FenceIntent) : FenceRecord :=
  MkFence i FenceLifecycle.Intent false (MkId 0) (MkWall 0) (MkId 0) (MkWall 0) ReasonCode.None.

(** include/blackhole/authority/authority.hpp:155-176 FenceStats *)
Record FenceStats := MkStats {
  issue_attempts : Z;
  issued : Z;
  n_open : Z;
  acknowledged : Z;
  effects_reported : Z;
  effects_verified : Z;
  revoked : Z;
  expired : Z;
  fenced_by_restart : Z;
  duplicates_refused : Z;
  capacity_refused : Z;
  unknown_id_refused : Z;
}.

(** include/blackhole/authority/authority.hpp:172-175 FenceStats::accounting_closed *)
Definition fence_accounting_closed (s : FenceStats) : bool :=
  (issue_attempts s =? u64_add (u64_add (issued s) (duplicates_refused s)) (capacity_refused s))
  && (issued s =? u64_add (u64_add (u64_add (n_open s) (revoked s)) (expired s)) (fenced_by_restart s)).

(** ** Counter updates *)

Definition count_attempt (s : FenceStats) : FenceStats :=
  MkStats (incr (issue_attempts s)) (issued s) (n_open s) (acknowledged s) (effects_reported s)
    (effects_verified s) (revoked s) (expired s) (fenced_by_restart s) (duplicates_refused s)
    (capacity_refused s) (unknown_id_refused s).
Definition count_duplicate (s : FenceStats) : FenceStats :=
  MkStats (issue_attempts s) (issued s) (n_open s) (acknowledged s) (effects_reported s)
    (effects_verified s) (revoked s) (expired s) (fenced_by_restart s) (incr (duplicates_refused s))
    (capacity_refused s) (unknown_id_refused s).
Definition count_capacity (s : FenceStats) : FenceStats :=
  MkStats (issue_attempts s) (issued s) (n_open s) (acknowledged s) (effects_reported s)
    (effects_verified s) (revoked s) (expired s) (fenced_by_restart s) (duplicates_refused s)
    (incr (capacity_refused s)) (unknown_id_refused s).
Definition count_unknown (s : FenceStats) : FenceStats :=
  MkStats (issue_attempts s) (issued s) (n_open s) (acknowledged s) (effects_reported s)
    (effects_verified s) (revoked s) (expired s) (fenced_by_restart s) (duplicates_refused s)
    (capacity_refused s) (incr (unknown_id_refused s)).
Definition count_issued (s : FenceStats) : FenceStats :=
  MkStats (issue_attempts s) (incr (issued s)) (incr (n_open s)) (acknowledged s) (effects_reported s)
    (effects_verified s) (revoked s) (expired s) (fenced_by_restart s) (duplicates_refused s)
    (capacity_refused s) (unknown_id_refused s).
Definition count_acknowledged (s : FenceStats) : FenceStats :=
  MkStats (issue_attempts s) (issued s) (n_open s) (incr (acknowledged s)) (effects_reported s)
    (effects_verified s) (revoked s) (expired s) (fenced_by_restart s) (duplicates_refused s)
    (capacity_refused s) (unknown_id_refused s).
Definition count_effect (verified : bool) (s : FenceStats) : FenceStats :=
  MkStats (issue_attempts s) (issued s) (n_open s) (acknowledged s) (incr (effects_reported s))
    (if verified then incr (effects_verified s) else effects_verified s) (revoked s) (expired s)
    (fenced_by_restart s) (duplicates_refused s) (capacity_refused s) (unknown_id_refused s).

(** How an open fence ends. *)
Inductive Ending := ByExpiry | ByRevocation | ByRestart.

Definition count_closed (how : Ending) (s : FenceStats) : FenceStats :=
  MkStats (issue_attempts s) (issued s) (decr (n_open s)) (acknowledged s) (effects_reported s)
    (effects_verified s)
    (match how with ByRevocation => incr (revoked s) | _ => revoked s end)
    (match how with ByExpiry => incr (expired s) | _ => expired s end)
    (match how with ByRestart => incr (fenced_by_restart s) | _ => fenced_by_restart s end)
    (duplicates_refused s) (capacity_refused s) (unknown_id_refused s).

(** ** The registry *)

(** include/blackhole/authority/authority.hpp:179-223 FenceRegistry *)
Record FenceRegistry := MkRegistry {
  reg_policy : FencePolicy;
  records_ : list (FenceId * FenceRecord);
  stats_ : FenceStats;
}.

Definition zero_stats : FenceStats := MkStats 0 0 0 0 0 0 0 0 0 0 0 0.

(** src/authority/authority.cpp:9 FenceRegistry::FenceRegistry *)
Definition new_FenceRegistry (policy : FencePolicy) : FenceRegistry := MkRegistry policy [] zero_stats.

(** src/authority/authority.cpp:11-15 FenceRegistry::clear *)
Definition registry_clear (r : FenceRegistry) : FenceRegistry := MkRegistry (reg_policy r) [] (stats_ r).

Definition with_stats (f : FenceStats -> FenceStats) (r : FenceRegistry) : FenceRegistry :=
  MkRegistry (reg_policy r) (records_ r) (f (stats_ r)).
Definition put_record (id : FenceId) (rec : FenceRecord) (r : FenceRegistry) : FenceRegistry :=
  MkRegistry (reg_policy r) (map_insert id rec (records_ r)) (stats_ r).

(** What an issuing call passes. *)
Record IssueRequest := MkIssue {
  iq_scope : Scope;
  iq_gens : GenerationVector;
  iq_boot : BootId;
  iq_incarnation : IncarnationId;
  iq_provenance : Provenance.t;
  iq_reason : ReasonCode.t;
  iq_now : WallNs;
}.

Definition issue_request_ok (q : IssueRequest) : bool :=
  scope_valid (iq_scope q) && is_complete (iq_gens q) && negb (id_nil (iq_boot q))
  && negb (id_nil (iq_incarnation q)).

(** An open record for the same subject under the same generation vector. *)
Definition same_subject (scope : Scope) (gens : GenerationVector) (kv : FenceId * FenceRecord) : bool :=
  is_open kv.2 && ((fi_scope (fr_intent kv.2) == scope) && (fi_gens (fr_intent kv.2) == gens)).

Definition open_duplicate (scope : Scope) (gens : GenerationVector) (r : FenceRegistry)
  : option FenceRecord := option_map snd (List.find (same_subject scope gens) (records_ r)).

(** The bytes an identity is derived from, lines 60-66. *)
Definition identity_writer (q : IssueRequest) (attempts : Z) : Writer :=
  seqw [encode (iq_scope q); encode (iq_gens q); encode (iq_boot q); encode (iq_incarnation q);
        encode (iq_now q); w_u64 attempts] (new_Writer 512).

(** src/authority/authority.cpp:44-72 FenceRegistry::issue (minting) *)
Definition mint_intent (q : IssueRequest) (r : FenceRegistry) : (Outcome * ReasonCode.t) + FenceIntent :=
  match checked_add int64_t (wall_ns (iq_now q)) (duration_ns (fence_ttl (reg_policy r))) with
  | None => inl (Invalid, ReasonCode.UnsupportedInput)
  | Some expires =>
      if expires <=? wall_ns (iq_now q) then inl (Invalid, ReasonCode.UnsupportedInput)
      else
        let w := identity_writer q (issue_attempts (stats_ r)) in
        if negb (ok_ w) then inl (Exhausted, ReasonCode.BudgetExhausted)
        else
          let id := fnv1a64 (buf_ w) in
          inr (MkIntent (MkId id) (MkId (mix64 id 0x5EED1234)) (iq_scope q) (iq_gens q) (iq_boot q)
                 (iq_incarnation q) (pol_version (reg_policy r)) (iq_provenance q) (iq_reason q)
                 (iq_now q) (MkWall expires))
  end.

(** src/authority/authority.cpp:17-89 FenceRegistry::issue *)
Definition issue (q : IssueRequest) (r : FenceRegistry)
  : Outcome * FenceId * ReasonCode.t * FenceRegistry :=
  let r := with_stats count_attempt r in
  if negb (issue_request_ok q) then (Invalid, MkId 0, ReasonCode.UnsupportedInput, r)
  else
    match open_duplicate (iq_scope q) (iq_gens q) r with
    | Some old => (Duplicate, fi_id (fr_intent old), ReasonCode.FenceIntentIssued, with_stats count_duplicate r)
    | None =>
        if max_fences (reg_policy r) <=? zlen (records_ r) then
          (Exhausted, MkId 0, ReasonCode.BudgetExhausted, with_stats count_capacity r)
        else
          match mint_intent q r with
          | inl (o, reason) => (o, MkId 0, reason, r)
          | inr intent =>
              match map_find (fi_id intent) (records_ r) with
              | Some _ => (Duplicate, MkId 0, ReasonCode.DuplicateEvidence, with_stats count_duplicate r)
              | None => (Ok, fi_id intent, ReasonCode.FenceIntentIssued,
                         with_stats count_issued (put_record (fi_id intent) (new_record intent) r))
              end
          end
    end.

(** [FenceIntent{}] *)
Definition nil_intent : FenceIntent :=
  MkIntent (MkId 0) (MkId 0) (MkScope ScopeKind.Path (MkId 0) (MkId 0) (MkId 0) 0 0)
    (MkGens (MkGen 0) (MkGen 0) (MkGen 0) (MkGen 0)) (MkId 0) (MkId 0) (MkId 0) Provenance.Synthetic
    ReasonCode.None (MkWall 0) (MkWall 0).

(** src/authority/authority.cpp:91-148 FenceRegistry::stage *)
Definition stage (q : IssueRequest) (r : FenceRegistry)
  : Outcome * FenceIntent * ReasonCode.t * FenceRegistry :=
  let r := with_stats count_attempt r in
  if negb (issue_request_ok q) then (Invalid, nil_intent, ReasonCode.UnsupportedInput, r)
  else
    match open_duplicate (iq_scope q) (iq_gens q) r with
    | Some _ => (Duplicate, nil_intent, ReasonCode.FenceIntentIssued, with_stats count_duplicate r)
    | None =>
        if max_fences (reg_policy r) <=? zlen (records_ r) then
          (Exhausted, nil_intent, ReasonCode.BudgetExhausted, with_stats count_capacity r)
        else
          match mint_intent q r with
          | inl (o, reason) => (o, nil_intent, reason, r)
          | inr intent => (Ok, intent, ReasonCode.None, r)
          end
    end.

(** src/authority/authority.cpp:150-168 FenceRegistry::commit_staged *)
Definition commit_staged (intent : FenceIntent) (r : FenceRegistry) : Outcome * FenceRegistry :=
  if negb (intent_valid intent) then (Invalid, r)
  else if bool_decide (is_Some (map_find (fi_id intent) (records_ r))) then (Duplicate, r)
  else
    match open_duplicate (fi_scope intent) (fi_gens intent) r with
    | Some _ => (Duplicate, r)
    | None =>
        if max_fences (reg_policy r) <=? zlen (records_ r) then (Exhausted, r)
        else (Ok, with_stats count_issued (put_record (fi_id intent) (new_record intent) r))
    end.

(** A record ended with [lifecycle] for [reason]. *)
Definition end_record (lifecycle : FenceLifecycle.t) (reason : ReasonCode.t) (x : FenceRecord) : FenceRecord :=
  MkFence (fr_intent x) lifecycle (fr_effect_verified x) (fr_ack_owner x) (fr_acked_at x)
    (fr_effect_owner x) (fr_effected_at x) reason.
Definition stamp_effect (now : WallNs) (x : FenceRecord) : FenceRecord :=
  MkFence (fr_intent x) (fr_lifecycle x) (fr_effect_verified x) (fr_ack_owner x) (fr_acked_at x)
    (fr_effect_owner x) now (fr_terminal_reason x).

Definition past_expiry (now : WallNs) (x : FenceRecord) : bool :=
  wall_ns (fi_expires_at (fr_intent x)) <=? wall_ns now.

Definition expire_record : FenceRecord -> FenceRecord :=
  end_record FenceLifecycle.Expired ReasonCode.FenceExpired.

(** Why a closed fence refuses a report. *)
Definition closed_reason (x : FenceRecord) : ReasonCode.t :=
  if fr_terminal_reason x != ReasonCode.None then fr_terminal_reason x else ReasonCode.FenceIntentRevoked.

Definition acknowledge_record (downstream : EvidenceSourceId) (now : WallNs) (x : FenceRecord) : FenceRecord :=
  MkFence (fr_intent x)
    (if fr_lifecycle x == FenceLifecycle.Intent then FenceLifecycle.Acknowledged else fr_lifecycle x)
    (fr_effect_verified x) downstream now (fr_effect_owner x) (fr_effected_at x) (fr_terminal_reason x).

(** src/authority/authority.cpp:170-201 FenceRegistry::acknowledge *)
Definition acknowledge (id : FenceId) (downstream : EvidenceSourceId) (now : WallNs) (r : FenceRegistry)
  : Outcome * ReasonCode.t * FenceRegistry :=
  match map_find id (records_ r) with
  | None => (NotFound, ReasonCode.PolicyRefused, with_stats count_unknown r)
  | Some x =>
      if negb (is_open x) then (Fenced, closed_reason x, r)
      else if past_expiry now x then
        (Expired, ReasonCode.FenceExpired,
         with_stats (count_closed ByExpiry) (put_record id (expire_record x) r))
      else
        (Ok, ReasonCode.FenceAcknowledged,
         with_stats (if fr_lifecycle x == FenceLifecycle.Intent then count_acknowledged else (fun s => s))
           (put_record id (acknowledge_record downstream now x) r))
  end.

Definition effect_record (downstream : EvidenceSourceId) (verified : bool) (now : WallNs) (x : FenceRecord)
  : FenceRecord :=
  MkFence (fr_intent x) FenceLifecycle.EffectReported verified (fr_ack_owner x) (fr_acked_at x)
    downstream now (fr_terminal_reason x).

(** src/authority/authority.cpp:203-234 FenceRegistry::report_effect *)
Definition report_effect (id : FenceId) (downstream : EvidenceSourceId) (verified : bool) (now : WallNs)
  (r : FenceRegistry) : Outcome * ReasonCode.t * FenceRegistry :=
  match map_find id (records_ r) with
  | None => (NotFound, ReasonCode.PolicyRefused, with_stats count_unknown r)
  | Some x =>
      if negb (is_open x) then (Fenced, closed_reason x, r)
      else if past_expiry now x then
        (Expired, ReasonCode.FenceExpired,
         with_stats (count_closed ByExpiry) (put_record id (expire_record x) r))
      else
        (Ok, if verified then ReasonCode.FenceEffectVerified else ReasonCode.FenceEffectUnverified,
         with_stats (count_effect verified) (put_record id (effect_record downstream verified now x) r))
  end.

(** src/authority/authority.cpp:236-250 FenceRegistry::revoke *)
Definition revoke (id : FenceId) (reason : ReasonCode.t) (now : WallNs) (r : FenceRegistry)
  : Outcome * FenceRegistry :=
  match map_find id (records_ r) with
  | None => (NotFound, with_stats count_unknown r)
  | Some x =>
      if negb (is_open x) then (Fenced, r)
      else
        (Ok, with_stats (count_closed ByRevocation)
               (put_record id (stamp_effect now (end_record FenceLifecycle.Revoked reason x)) r))
  end.

(** The body of the loops of [revalidate] and [fence_all]: [end_of] says how a record
    ends, and the loop rewrites the record, moves the counters and collects the id. *)
Fixpoint sweep (end_of : FenceRecord -> option (Ending * FenceRecord))
  (m : list (FenceId * FenceRecord)) (s : FenceStats)
  : list (FenceId * FenceRecord) * FenceStats * list FenceId :=
  match m with
  | [] => ([], s, [])
  | (id, x) :: m =>
      match end_of x with
      | None => let '(m, s, out) := sweep end_of m s in ((id, x) :: m, s, out)
      | Some (how, x') =>
          let '(m, s, out) := sweep end_of m (count_closed how s) in ((id, x') :: m, s, id :: out)
      end
  end.

Definition run_sweep (end_of : FenceRecord -> option (Ending * FenceRecord)) (r : FenceRegistry)
  : list FenceId * FenceRegistry :=
  let '(m, s, out) := sweep end_of (records_ r) (stats_ r) in
  (sort_by (key_lt (fun id => [id_value id])) out, MkRegistry (reg_policy r) m s).

(** How [revalidate] ends a record, lines 254-272. *)
Definition revalidation (now : WallNs) (current : GenerationVector) (x : FenceRecord)
  : option (Ending * FenceRecord) :=
  if negb (is_open x) then None
  else if past_expiry now x then Some (ByExpiry, expire_record x)
  else if fi_gens (fr_intent x) != current then
    Some (ByRevocation, end_record FenceLifecycle.Revoked ReasonCode.DependencyGenerationChanged x)
  else None.

(** src/authority/authority.cpp:252-275 FenceRegistry::revalidate *)
Definition revalidate (now : WallNs) (current : GenerationVector) : FenceRegistry -> list FenceId * FenceRegistry :=
  run_sweep (revalidation now current).

Definition restart_ending (reason : ReasonCode.t) (now : WallNs) (x : FenceRecord)
  : option (Ending * FenceRecord) :=
  if negb (is_open x) then None
  else Some (ByRestart, stamp_effect now (end_record FenceLifecycle.FencedByRestart reason x)).

(** src/authority/authority.cpp:277-291 FenceRegistry::fence_all *)
Definition fence_all (reason : ReasonCode.t) (now : WallNs) : FenceRegistry -> list FenceId * FenceRegistry :=
  run_sweep (restart_ending reason now).

(** src/authority/authority.cpp:293-296 FenceRegistry::find *)
Definition find_fence (id : FenceId) (r : FenceRegistry) : option FenceRecord := map_find id (records_ r).

(** src/authority/authority.cpp:298-303 FenceRegistry::open_for *)
Definition open_for (scope : Scope) (r : FenceRegistry) : option FenceRecord :=
  option_map snd (List.find (fun kv => is_open kv.2 && (fi_scope (fr_intent kv.2) == scope)) (records_ r)).

(** src/authority/authority.cpp:305-310 FenceRegistry::all *)
Definition all_fences (r : FenceRegistry) : list FenceRecord := map snd (records_ r).

(** ** Calls and histories *)

(** A call on the registry. *)
Inductive FenceOp :=
| OpIssue (q : IssueRequest)
| OpStage (q : IssueRequest)
| OpCommit (i : FenceIntent)
| OpAcknowledge (id : FenceId) (downstream : EvidenceSourceId) (now : WallNs)
| OpEffect (id : FenceId) (downstream : EvidenceSourceId) (verified : bool) (now : WallNs)
| OpRevoke (id : FenceId) (reason : ReasonCode.t) (now : WallNs)
| OpRevalidate (now : WallNs) (current : GenerationVector)
| OpFenceAll (reason : ReasonCode.t) (now : WallNs)
| OpClear.

Definition run_op (op : FenceOp) (r : FenceRegistry) : FenceRegistry :=
  match op with
  | OpIssue q => (issue q r).2
  | OpStage q => (stage q r).2
  | OpCommit i => (commit_staged i r).2
  | OpAcknowledge id o now => (acknowledge id o now r).2
  | OpEffect id o v now => (report_effect id o v now r).2
  | OpRevoke id reason now => (revoke id reason now r).2
  | OpRevalidate now current => (revalidate now current r).2
  | OpFenceAll reason now => (fence_all reason now r).2
  | OpClear => registry_clear r
  end.

(** The open fences a call drops without an ending. *)
Definition dropped (op : FenceOp) (r : FenceRegistry) : Z :=
  match op with OpClear => map_count is_open (records_ r) | _ => 0 end.

(** The registries a process can reach from an empty one, with the number of open fences
    that clears dropped on the way. *)
Inductive reachable (p : FencePolicy) : Z -> FenceRegistry -> Prop :=
| reachable_new : reachable p 0 (new_FenceRegistry p)
| reachable_step k r op : reachable p k r -> reachable p (k + dropped op r) (run_op op r).

(** ** The invariant *)

Definition intent_shape (i : FenceIntent) : Prop :=
  scope_valid (fi_scope i) = true /\ is_complete (fi_gens i) = true /\ id_nil (fi_boot i) = false /\
  id_nil (fi_incarnation i) = false /\ wall_ns (fi_issued_at i) < wall_ns (fi_expires_at i).

Record registry_inv (k : Z) (r : FenceRegistry) : Prop := {
  inv_wf : map_wf (records_ r);
  inv_bound : zlen (records_ r) <= Z.max 0 (max_fences (reg_policy r));
  inv_keys : map_all (fun id x => fi_id (fr_intent x) = id /\ intent_shape (fr_intent x)) (records_ r);
  inv_unique : forall id id' x x',
    map_find id (records_ r) = Some x -> map_find id' (records_ r) = Some x' ->
    is_open x = true -> is_open x' = true ->
    fi_scope (fr_intent x) = fi_scope (fr_intent x') -> fi_gens (fr_intent x) = fi_gens (fr_intent x') ->
    id = id';
  inv_open : n_open (stats_ r) = wrap 64 (map_count is_open (records_ r) + k);
  inv_issued : issued (stats_ r) =
    wrap 64 (n_open (stats_ r) + revoked (stats_ r) + expired (stats_ r) + fenced_by_restart (stats_ r));
}.

(** Counter updates that leave the balance of fences alone. *)
Definition neutral (f : FenceStats -> FenceStats) : Prop :=
  forall s, n_open (f s) = n_open s /\ issued (f s) = issued s /\ revoked (f s) = revoked s /\
    expired (f s) = expired s /\ fenced_by_restart (f s) = fenced_by_restart s.

Lemma inv_neutral {k} f r : neutral f -> registry_inv k r -> registry_inv k (with_stats f r).
Proof.
  intros Hf [H1 H2 H3 H4 H5 H6]. destruct (Hf (stats_ r)) as (E1 & E2 & E3 & E4 & E5).
  split; cbn [with_stats records_ stats_ reg_policy]; try done; congruence.
Qed.

Lemma open_duplicate_None scope gens r :
  open_duplicate scope gens r = None -> forall id x, map_find id (records_ r) = Some x ->
  is_open x = true -> fi_scope (fr_intent x) = scope -> fi_gens (fr_intent x) = gens -> False.
Proof.
  unfold open_duplicate. intros Hn id x Hf Ho <- <-.
  destruct (List.find _ _) eqn:E; [done |]. apply map_find_In in Hf.
  pose proof (find_none _ _ E _ Hf) as Hs. unfold same_subject in Hs. cbn [snd] in Hs.
  by rewrite Ho, !beq_refl in Hs.
Qed.

(** A fresh intent is published. *)
Lemma inv_publish {k} i r :
  registry_inv k r -> intent_shape i -> map_find (fi_id i) (records_ r) = None ->
  open_duplicate (fi_scope i) (fi_gens i) r = None -> zlen (records_ r) < max_fences (reg_policy r) ->
  registry_inv k (with_stats count_issued (put_record (fi_id i) (new_record i) r)).
Proof.
  intros [H1 H2 H3 H4 H5 H6] Hi Hf Hd Hb. pose proof (open_duplicate_None _ _ _ Hd) as Hno.
  split; cbn [with_stats put_record records_ stats_ reg_policy].
  - by apply map_wf_insert.
  - rewrite map_insert_size, Hf by done. lia.
  - apply map_all_insert; [done |]. by split.
  - intros id id' x x'. rewrite !map_find_insert.
    destruct (cmp id (fi_id i)) eqn:E, (cmp id' (fi_id i)) eqn:E';
      repeat match goal with H : cmp _ _ = Eq |- _ => apply cmp_eq in H as -> end; try done;
      try (intros [= <-] Hx Ho Ho' Hs Hg; exfalso; by apply (Hno id' x'));
      try (intros Hx [= <-] Ho Ho' Hs Hg; exfalso; by apply (Hno id x));
      by intros; apply (H4 id id' x x').
  - rewrite map_count_insert_new by done. cbn [count_issued n_open]. rewrite H5.
    change (Z.b2z (is_open (new_record i))) with 1. wrap_eq.
  - cbn [count_issued n_open issued revoked expired fenced_by_restart]. rewrite H6. wrap_eq.
Qed.

(** A record stays open under the same intent. *)
Lemma inv_update {k} f id x x' r :
  neutral f -> registry_inv k r -> map_find id (records_ r) = Some x -> is_open x = true ->
  is_open x' = true -> fr_intent x' = fr_intent x ->
  registry_inv k (with_stats f (put_record id x' r)).
Proof.
  intros Hf [H1 H2 H3 H4 H5 H6] Hx Ho Ho' Hi. apply inv_neutral; [done |].
  split; cbn [put_record records_ stats_ reg_policy].
  - by apply map_wf_insert.
  - rewrite map_insert_size, Hx by done. lia.
  - apply map_all_insert; [done |]. rewrite Hi. by apply H3.
  - intros i1 i2 x1 x2. rewrite !map_find_insert.
    destruct (cmp i1 id) eqn:E1, (cmp i2 id) eqn:E2;
      repeat match goal with H : cmp _ _ = Eq |- _ => apply cmp_eq in H as -> end; try done;
      try (intros [= <-] Hx2 _ O2; rewrite Hi; by apply (H4 id i2 x x2));
      try (intros Hx1 [= <-] O1 _; rewrite Hi; by apply (H4 i1 id x1 x));
      by apply H4.
  - rewrite (map_count_insert_old _ _ _ x) by done. rewrite Ho, Ho'. rewrite H5. f_equal. simpl. lia.
  - done.
Qed.

(** An open record is closed. *)
Lemma inv_close {k} how id x x' r :
  registry_inv k r -> map_find id (records_ r) = Some x -> is_open x = true ->
  is_open x' = false -> fr_intent x' = fr_intent x ->
  registry_inv k (with_stats (count_closed how) (put_record id x' r)).
Proof.
  intros [H1 H2 H3 H4 H5 H6] Hx Ho Ho' Hi.
  split; cbn [with_stats put_record records_ stats_ reg_policy].
  - by apply map_wf_insert.
  - rewrite map_insert_size, Hx by done. lia.
  - apply map_all_insert; [done |]. rewrite Hi. by apply H3.
  - intros i1 i2 x1 x2. rewrite !map_find_insert.
    destruct (cmp i1 id) eqn:E1, (cmp i2 id) eqn:E2; try (intros [= <-]; congruence);
      try (intros ? [= <-]; congruence); by apply H4.
  - rewrite (map_count_insert_old _ _ _ x) by done. rewrite Ho, Ho'. cbn [count_closed n_open].
    rewrite H5. simpl Z.b2z. wrap_eq.
  - cbn [count_closed n_open issued revoked expired fenced_by_restart]. rewrite H6. destruct how; wrap_eq.
Qed.

(** *** Sweeps *)

Definition swept (end_of : FenceRecord -> option (Ending * FenceRecord)) (x : FenceRecord) : FenceRecord :=
  match end_of x with Some (_, x') => x' | None => x end.

(** An ending closes an open record and keeps its intent. *)
Definition closes (end_of : FenceRecord -> option (Ending * FenceRecord)) : Prop :=
  forall x how x', end_of x = Some (how, x') ->
    is_open x = true /\ is_open x' = false /\ fr_intent x' = fr_intent x.

Lemma sweep_records end_of m s : (sweep end_of m s).1.1 = map_values (swept end_of) m.
Proof.
  revert s. induction m as [| [id x] m IH]; intros s; cbn [sweep map_values map]; [done |].
  unfold swept at 1. destruct (end_of x) as [[how x'] |].
  - specialize (IH (count_closed how s)). destruct (sweep end_of m _) as [[m' s'] out]. cbn [fst] in *. by rewrite IH.
  - specialize (IH s). destruct (sweep end_of m _) as [[m' s'] out]. cbn [fst] in *. by rewrite IH.
Qed.

Lemma sweep_ids end_of m s id :
  In id (sweep end_of m s).2 <-> exists x, In (id, x) m /\ end_of x <> None.
Proof.
  revert s. induction m as [| [id' x] m IH]; intros s; cbn [sweep].
  - split; [done |]. by intros (x & [] & _).
  - destruct (end_of x) as [[how x'] |] eqn:E.
    + specialize (IH (count_closed how s)). destruct (sweep end_of m _) as [[m' s'] out]. cbn [snd] in *.
      simpl. rewrite IH. split.
      * intros [<- | (y & Hy & Hn)]; [exists x; split; [by left | congruence] | exists y; split; [by right | done]].
      * intros (y & [[= <- <-] | Hy] & Hn); [by left | right; by exists y].
    + specialize (IH s). destruct (sweep end_of m _) as [[m' s'] out]. cbn [snd] in *. rewrite IH. split.
      * intros (y & Hy & Hn). exists y. split; [by right | done].
      * intros (y & [[= <- <-] | Hy] & Hn); [congruence | by exists y].
Qed.

(** The counters of a sweep balance the records it closes. *)
Lemma sweep_stats end_of m s :
  closes end_of ->
  let s' := (sweep end_of m s).1.2 in
  n_open s' = wrap 64 (n_open s - map_count is_open m + map_count is_open (map_values (swept end_of) m))
    \/ (forall id x, In (id, x) m -> end_of x = None) /\ s' = s.
Proof.
  intros Hc. revert s. induction m as [| [id x] m IH]; intros s; [by right |]. cbv zeta in *.
  cbn [sweep map_values map]. fold (map_values (swept end_of) m). rewrite !map_count_cons.
  unfold swept at 1. destruct (end_of x) as [[how x'] |] eqn:E.
  - destruct (Hc _ _ _ E) as (Ho & Ho' & _). rewrite Ho, Ho'.
    specialize (IH (count_closed how s)). destruct (sweep end_of m _) as [[m' s'] out]. cbn [fst snd] in *.
    left. destruct IH as [-> | [Hn ->]].
    + cbn [count_closed n_open Z.b2z]. wrap_eq.
    + assert (map_values (swept end_of) m = m) as ->.
      { clear -Hn. induction m as [| [i y] m IH]; [done |]. cbn [map_values map].
        unfold swept at 1. rewrite (Hn i y) by by left. f_equal. apply IH. intros j z Hz. apply (Hn j z). by right. }
      cbn [count_closed n_open Z.b2z]. wrap_eq.
  - specialize (IH s). destruct (sweep end_of m _) as [[m' s'] out]. cbn [fst snd] in *.
    destruct IH as [-> | [Hn ->]]; [left; f_equal; lia |].
    right. split; [| done]. intros i y [[= <- <-] | Hy]; [done | by apply (Hn i)].
Qed.

Lemma sweep_balance end_of m s :
  issued s = wrap 64 (n_open s + revoked s + expired s + fenced_by_restart s) ->
  let s' := (sweep end_of m s).1.2 in
  issued s' = wrap 64 (n_open s' + revoked s' + expired s' + fenced_by_restart s').
Proof.
  revert s. induction m as [| [id x] m IH]; intros s Hs; [done |]. cbv zeta in *. cbn [sweep].
  destruct (end_of x) as [[how x'] |].
  - specialize (IH (count_closed how s)). destruct (sweep end_of m _) as [[m' s'] out]. cbn [fst snd] in *.
    apply IH. cbn [count_closed n_open issued revoked expired fenced_by_restart]. rewrite Hs. destruct how; wrap_eq.
  - specialize (IH s Hs). by destruct (sweep end_of m s) as [[m' s'] out].
Qed.

Lemma zlen_map_values {V} (f : V -> V) (m : list (FenceId * V)) : zlen (map_values f m) = zlen m.
Proof. unfold zlen, map_values. by rewrite length_map. Qed.

Lemma run_sweep_eq end_of r :
  run_sweep end_of r =
  (sort_by (key_lt (fun id => [id_value id])) (sweep end_of (records_ r) (stats_ r)).2,
   MkRegistry (reg_policy r) (map_values (swept end_of) (records_ r)) (sweep end_of (records_ r) (stats_ r)).1.2).
Proof.
  unfold run_sweep. rewrite <- (sweep_records end_of (records_ r) (stats_ r)).
  by destruct (sweep end_of (records_ r) (stats_ r)) as [[m s] out].
Qed.

Lemma swept_keeps end_of x : closes end_of ->
  fr_intent (swept end_of x) = fr_intent x /\ (is_open (swept end_of x) = true -> swept end_of x = x).
Proof.
  intros Hc. unfold swept. destruct (end_of x) as [[how x'] |] eqn:E; [| done].
  destruct (Hc _ _ _ E) as (_ & Ho & Hi). split; [done | congruence].
Qed.

Lemma inv_sweep {k} end_of r : closes end_of -> registry_inv k r -> registry_inv k (run_sweep end_of r).2.
Proof.
  intros Hc [H1 H2 H3 H4 H5 H6]. rewrite run_sweep_eq. cbn [snd].
  split; cbn [records_ stats_ reg_policy].
  - by apply map_wf_values.
  - by rewrite zlen_map_values.
  - intros id x. rewrite map_find_values. destruct (map_find id (records_ r)) as [y |] eqn:E; [| done].
    intros [= <-]. rewrite (proj1 (swept_keeps end_of y Hc)). by apply H3.
  - intros id id' x x'. rewrite !map_find_values.
    destruct (map_find id (records_ r)) as [y |] eqn:E; [| done].
    destruct (map_find id' (records_ r)) as [y' |] eqn:E'; [| done].
    intros [= <-] [= <-] Ho Ho'. pose proof (proj2 (swept_keeps end_of y Hc) Ho) as Ey.
    pose proof (proj2 (swept_keeps end_of y' Hc) Ho') as Ey'. rewrite Ey in Ho |- *. rewrite Ey' in Ho' |- *.
    by apply (H4 id id' y y').
  - destruct (sweep_stats end_of (records_ r) (stats_ r) Hc) as [-> | [Hn ->]].
    + rewrite H5. pose proof (map_count_bounds is_open (records_ r)). wrap_eq.
    + rewrite H5. do 3 f_equal. clear -Hn. induction (records_ r) as [| [i y] m IH]; [done |]. cbn [map_values map].
      unfold swept at 1. rewrite (Hn i y) by by left. f_equal. apply IH. intros j z Hz. apply (Hn j z). by right.
  - by apply sweep_balance.
Qed.

Lemma is_open_end l reason x :
  l <> FenceLifecycle.Intent -> l <> FenceLifecycle.Acknowledged -> l <> FenceLifecycle.EffectReported ->
  is_open (end_record l reason x) = false.
Proof. intros H1 H2 H3. unfold is_open. cbn [end_record fr_lifecycle]. by rewrite !beq_ne. Qed.

Lemma revalidation_closes now current : closes (revalidation now current).
Proof.
  intros x how x'. unfold revalidation. destruct (is_open x) eqn:Ho; cbn [negb]; [| done].
  destruct (past_expiry now x); [by intros [= <- <-] |].
  destruct (_ != _); [by intros [= <- <-] | done].
Qed.

Lemma restart_closes reason now : closes (restart_ending reason now).
Proof.
  intros x how x'. unfold restart_ending. destruct (is_open x) eqn:Ho; cbn [negb]; [| done].
  by intros [= <- <-].
Qed.

(** *** Every call *)

Lemma mint_intent_shape q r i :
  issue_request_ok q = true -> mint_intent q r = inr i ->
  intent_shape i /\ fi_scope i = iq_scope q /\ fi_gens i = iq_gens q.
Proof.
  unfold issue_request_ok, mint_intent. intros Hq.
  destruct (checked_add _ _ _) as [e |]; [| done]. destruct (Z.leb_spec e (wall_ns (iq_now q))); [done |].
  generalize (identity_writer q (issue_attempts (stats_ r))) as w. intros w.
  destruct (negb (ok_ w)); [done |]. cbv zeta. generalize (fnv1a64 (buf_ w)) as a. intros a.
  generalize (mix64 a 0x5EED1234) as b. intros b [= <-]. bool_prop. split; [| done]. by repeat split.
Qed.

Lemma intent_valid_shape i : intent_valid i = true -> intent_shape i.
Proof. unfold intent_valid. intros H. bool_prop. by repeat split. Qed.

(** What a call may do to a record: keep its intent, never reopen or rewrite a closed one,
    never move backwards in the lifecycle. *)
Definition lifecycle_rank (l : FenceLifecycle.t) : Z :=
  match l with
  | FenceLifecycle.Intent => 0 | FenceLifecycle.Acknowledged => 1 | FenceLifecycle.EffectReported => 2
  | _ => 3
  end.

Definition progresses (x x' : FenceRecord) : Prop :=
  fr_intent x' = fr_intent x /\ (is_open x = false -> x' = x) /\
  lifecycle_rank (fr_lifecycle x) <= lifecycle_rank (fr_lifecycle x').

Lemma progresses_refl x : progresses x x.
Proof. repeat split. lia. Qed.

Lemma open_rank x : is_open x = true <-> lifecycle_rank (fr_lifecycle x) < 3.
Proof. unfold is_open. destruct (fr_lifecycle x); cbn; split; (done || lia). Qed.

Lemma rank_le x : lifecycle_rank (fr_lifecycle x) <= 3.
Proof. destruct (fr_lifecycle x); cbn; lia. Qed.

Definition persists (r r' : FenceRegistry) : Prop :=
  forall id x, map_find id (records_ r) = Some x ->
  exists x', map_find id (records_ r') = Some x' /\ progresses x x'.

Lemma persists_refl r r' : records_ r' = records_ r -> persists r r'.
Proof. intros E id x Hx. exists x. rewrite E. split; [done | apply progresses_refl]. Qed.

Lemma persists_new f id x r :
  map_find id (records_ r) = None -> persists r (with_stats f (put_record id x r)).
Proof.
  intros Hn id' x' Hx. exists x'. cbn [with_stats put_record records_]. rewrite map_find_insert.
  destruct (cmp id' id) eqn:E; [apply cmp_eq in E as ->; congruence | by split; [| apply progresses_refl] ..].
Qed.

Lemma persists_update f id x x' r :
  map_find id (records_ r) = Some x -> progresses x x' -> persists r (with_stats f (put_record id x' r)).
Proof.
  intros Hx Hp id' y Hy. cbn [with_stats put_record records_]. rewrite map_find_insert.
  destruct (cmp id' id) eqn:E; [| by exists y; split; [| apply progresses_refl] ..].
  apply cmp_eq in E as ->. exists x'. split; [done | congruence].
Qed.

Lemma closing_progresses x x' :
  is_open x = true -> is_open x' = false -> fr_intent x' = fr_intent x -> progresses x x'.
Proof.
  intros Ho Ho' Hi. split; [done |]. split; [congruence |]. apply open_rank in Ho.
  destruct (decide (lifecycle_rank (fr_lifecycle x') < 3)) as [Hl | Hl]; [apply open_rank in Hl; congruence | lia].
Qed.

Lemma persists_sweep end_of r : closes end_of -> persists r (run_sweep end_of r).2.
Proof.
  intros Hc id x Hx. rewrite run_sweep_eq. cbn [snd records_]. rewrite map_find_values, Hx.
  eexists. split; [done |]. unfold swept. destruct (end_of x) as [[how x'] |] eqn:E; [| apply progresses_refl].
  destruct (Hc _ _ _ E) as (? & ? & ?). by apply closing_progresses.
Qed.

Lemma acknowledge_open o now x : is_open x = true -> is_open (acknowledge_record o now x) = true.
Proof. unfold is_open, acknowledge_record. cbn [fr_lifecycle]. by destruct (fr_lifecycle x). Qed.

Lemma acknowledge_progresses o now x : is_open x = true -> progresses x (acknowledge_record o now x).
Proof.
  intros Ho. split; [done |]. split; [congruence |]. cbn [acknowledge_record fr_lifecycle].
  by destruct (fr_lifecycle x).
Qed.

Lemma effect_progresses o v now x : is_open x = true -> progresses x (effect_record o v now x).
Proof.
  intros Ho. split; [done |]. split; [congruence |]. apply open_rank in Ho. cbn [effect_record fr_lifecycle].
  cbn [lifecycle_rank]. lia.
Qed.

Ltac neutral_stats := intros ?; cbn; repeat split.

Lemma run_op_policy op r : reg_policy (run_op op r) = reg_policy r.
Proof.
  destruct op; cbn [run_op]; unfold issue, stage, commit_staged, acknowledge, report_effect, revoke, revalidate, fence_all;
    try (rewrite run_sweep_eq; done); cbv zeta;
    repeat first [ match goal with |- context [match ?x with _ => _ end] => destruct x end | done ].
Qed.

Lemma call_sound {k} op r :
  op <> OpClear -> registry_inv k r -> registry_inv k (run_op op r) /\ persists r (run_op op r).
Proof.
  intros Hop Hr.
  destruct op as [q | q | i | id o now | id o v now | id reason now | now current | reason now |]; cbn [run_op]; [.. | done].
  - unfold issue. set (r1 := with_stats count_attempt r).
    assert (registry_inv k r1) as H1 by (apply inv_neutral; [neutral_stats | done]).
    assert (forall f, neutral f -> registry_inv k (with_stats f r1) /\ persists r (with_stats f r1)) as Hn
      by (intros f Hf; split; [by apply inv_neutral | by apply persists_refl]).
    assert (registry_inv k r1 /\ persists r r1) as Hsame by (split; [done | by apply persists_refl]).
    destruct (issue_request_ok q) eqn:Eq; cbn [negb]; [| done].
    destruct (open_duplicate _ _ r1) eqn:Ed; [apply Hn; neutral_stats |].
    destruct (Z.leb_spec (max_fences (reg_policy r1)) (zlen (records_ r1))); [apply Hn; neutral_stats |].
    destruct (mint_intent q r1) as [[? ?] | i] eqn:Em; [done |].
    destruct (map_find (fi_id i) (records_ r1)) eqn:Ef; [apply Hn; neutral_stats |].
    destruct (mint_intent_shape q r1 i Eq Em) as (Hi & Hs & Hg).
    split; [apply inv_publish; try done; by rewrite Hs, Hg |]. by apply (persists_new _ _ _ r1).
  - unfold stage. set (r1 := with_stats count_attempt r).
    assert (registry_inv k r1) as H1 by (apply inv_neutral; [neutral_stats | done]).
    assert (forall f, neutral f -> registry_inv k (with_stats f r1) /\ persists r (with_stats f r1)) as Hn
      by (intros f Hf; split; [by apply inv_neutral | by apply persists_refl]).
    assert (registry_inv k r1 /\ persists r r1) as Hsame by (split; [done | by apply persists_refl]).
    destruct (negb _); [done |].
    destruct (open_duplicate _ _ r1); [apply Hn; neutral_stats |].
    destruct (_ <=? _); [apply Hn; neutral_stats |]. by destruct (mint_intent q r1) as [[? ?] | i].
  - unfold commit_staged. assert (registry_inv k r /\ persists r r) as Hsame by (split; [done | by apply persists_refl]).
    destruct (intent_valid i) eqn:Ei; cbn [negb]; [| done].
    destruct (bool_decide _) eqn:Ef; [done |]. destruct (open_duplicate _ _ r) eqn:Ed; [done |].
    destruct (Z.leb_spec (max_fences (reg_policy r)) (zlen (records_ r))); [done |].
    bool_prop. apply eq_None_not_Some in Ef.
    split; [apply inv_publish; try done; by apply intent_valid_shape |]. by apply persists_new.
  - unfold acknowledge. destruct (map_find id (records_ r)) as [x |] eqn:Ex;
      [| split; [apply inv_neutral; [neutral_stats | done] | by apply persists_refl]].
    destruct (is_open x) eqn:Ho; cbn [negb]; [| by split; [| apply persists_refl]].
    destruct (past_expiry now x).
    + split; [by apply (inv_close _ _ x) |]. apply (persists_update _ _ x); [done |]. by apply closing_progresses.
    + split; [| apply (persists_update _ _ x); [done | by apply acknowledge_progresses]].
      apply (inv_update _ _ x); try done; [| by apply acknowledge_open].
      destruct (_ == _); neutral_stats.
  - unfold report_effect. destruct (map_find id (records_ r)) as [x |] eqn:Ex;
      [| split; [apply inv_neutral; [neutral_stats | done] | by apply persists_refl]].
    destruct (is_open x) eqn:Ho; cbn [negb]; [| by split; [| apply persists_refl]].
    destruct (past_expiry now x).
    + split; [by apply (inv_close _ _ x) |]. apply (persists_update _ _ x); [done |]. by apply closing_progresses.
    + split; [| apply (persists_update _ _ x); [done | by apply effect_progresses]].
      by apply (inv_update _ _ x).
  - unfold revoke. destruct (map_find id (records_ r)) as [x |] eqn:Ex;
      [| split; [apply inv_neutral; [neutral_stats | done] | by apply persists_refl]].
    destruct (is_open x) eqn:Ho; cbn [negb]; [| by split; [| apply persists_refl]].
    split; [by apply (inv_close _ _ x) |]. apply (persists_update _ _ x); [done |]. by apply closing_progresses.
  - split; [apply inv_sweep | apply persists_sweep]; try done; apply revalidation_closes.
  - split; [apply inv_sweep | apply persists_sweep]; try done; apply restart_closes.
Qed.

Lemma inv_clear {k} r :
  registry_inv k r -> registry_inv (k + map_count is_open (records_ r)) (registry_clear r).
Proof.
  intros [H1 H2 H3 H4 H5 H6]. split; cbn [registry_clear records_ stats_ reg_policy]; try done.
  - rewrite zlen_nil. lia.
  - rewrite H5. f_equal. change (map_count is_open (@nil (FenceId * FenceRecord))) with 0. lia.
Qed.

Lemma run_op_sound {k} op r :
  registry_inv k r ->
  registry_inv (k + dropped op r) (run_op op r) /\ (op <> OpClear -> persists r (run_op op r)).
Proof.
  intros Hr. destruct op eqn:E; [.. | split; [by apply inv_clear | done]];
    rewrite <- E; (destruct (call_sound op r ltac:(by rewrite E) Hr) as [Hi Hp]);
    (split; [| by intros _]); subst op; cbn [dropped]; by rewrite Z.add_0_r.
Qed.

Lemma new_registry_inv p : registry_inv 0 (new_FenceRegistry p).
Proof. split; cbn; try done. rewrite zlen_nil. lia. Qed.

Lemma reachable_inv p k r : reachable p k r -> registry_inv k r /\ reg_policy r = p.
Proof.
  induction 1 as [| k r op Hr [IH1 IH2]]; [split; [apply new_registry_inv | done] |].
  split; [by apply run_op_sound | by rewrite run_op_policy].
Qed.

(** ** Fixtures *)

Definition fx_issue (inc : Z) : IssueRequest :=
  MkIssue fx_scope fx_gens (MkId 3) (MkId inc) Provenance.Synthetic ReasonCode.None fx_now.
Definition fx_registry : FenceRegistry := run_op (OpIssue (fx_issue 5)) (new_FenceRegistry default_policy).
Definition fx_fence_id : FenceId := (issue (fx_issue 5) (new_FenceRegistry default_policy)).1.1.2.

Lemma fx_registry_reachable : reachable default_policy 0 fx_registry.
Proof. exact (reachable_step _ 0 _ (OpIssue (fx_issue 5)) (reachable_new _)). Qed.

Definition run_ops (ops : list FenceOp) (r : FenceRegistry) : FenceRegistry := foldl (fun r op => run_op op r) r ops.

Lemma persists_trans r1 r2 r3 : persists r1 r2 -> persists r2 r3 -> persists r1 r3.
Proof.
  intros H1 H2 id x Hx. destruct (H1 id x Hx) as (y & Hy & P1 & P2 & P3).
  destruct (H2 id y Hy) as (z & Hz & Q1 & Q2 & Q3). exists z. split; [done |].
  split; [congruence |]. split; [| lia]. intros Ho. rewrite (P2 Ho) in *. auto.
Qed.

(** ** Properties *)

(** C22: in every reachable registry, clears included, the number of records respects
    [max_fences], at most one open fence exists per subject and generation vector, and the
    counters are exact: [issued] is the sum of [open] and the ended, and [open] counts the
    open records together with the [k] open fences that clears dropped; it is the number of
    open records where no clear dropped one. *)
Theorem fences_bounded_unique_accounted p k r :
  reachable p k r ->
  zlen (records_ r) <= Z.max 0 (max_fences p) /\
  (forall id id' x x',
     find_fence id r = Some x -> find_fence id' r = Some x' -> is_open x = true -> is_open x' = true ->
     fi_scope (fr_intent x) = fi_scope (fr_intent x') -> fi_gens (fr_intent x) = fi_gens (fr_intent x') ->
     id = id') /\
  n_open (stats_ r) = wrap 64 (map_count is_open (records_ r) + k) /\
  issued (stats_ r) = wrap 64 (n_open (stats_ r) + revoked (stats_ r) + expired (stats_ r) + fenced_by_restart (stats_ r)).
Proof.
  intros Hr. destruct (reachable_inv p k r Hr) as [[H1 H2 H3 H4 H5 H6] Hp]. rewrite Hp in H2.
  split; [done |]. split; [exact H4 | by split].
Qed.

Example fences_bounded_unique_accounted_witness :
  n_open (stats_ fx_registry) = 1 /\ zlen (records_ fx_registry) <= 1024 /\
  n_open (stats_ (run_op OpClear fx_registry)) = 1.
Proof.
  pose proof (fences_bounded_unique_accounted default_policy 0 fx_registry fx_registry_reachable) as (H1 & _ & H3 & _).
  pose proof (fences_bounded_unique_accounted default_policy _ _ (reachable_step _ _ _ OpClear fx_registry_reachable))
    as (_ & _ & H4 & _).
  split; [rewrite H3; vm_compute; reflexivity |]. split; [etransitivity; [exact H1 | vm_compute; discriminate] |].
  rewrite H4. vm_compute. reflexivity.
Defined.

(** C21: as long as the registry is not cleared, whatever calls follow, a fence keeps its
    identity and its intent, its lifecycle never moves backwards, and once it has ended
    (revoked, expired, fenced by restart) its record never changes again; a clear, which
    opening and closing the engine make, drops every record. *)
Theorem fence_history p k r ops id x :
  reachable p k r -> find_fence id r = Some x ->
  (~ In OpClear ops ->
   exists x', find_fence id (run_ops ops r) = Some x' /\ fr_intent x' = fr_intent x /\
     (is_open x = false -> x' = x) /\
     lifecycle_rank (fr_lifecycle x) <= lifecycle_rank (fr_lifecycle x')) /\
  (forall id', find_fence id' (run_ops (ops ++ [OpClear]) r) = None).
Proof.
  intros Hr Hx. split; [| intros id'; unfold run_ops; by rewrite foldl_app].
  intros Hn. assert (persists r (run_ops ops r)) as Hp; [| by apply Hp].
  destruct (reachable_inv p k r Hr) as [Hi _]. clear Hr Hx. revert k r Hi Hn.
  induction ops as [| op ops IH]; intros k r Hi Hn; [by apply persists_refl |].
  destruct (run_op_sound op r Hi) as [Hi' Hp]. eapply persists_trans; [apply Hp; intros ->; apply Hn; by left |].
  apply (IH _ (run_op op r) Hi'). intros H. apply Hn. by right.
Qed.

Example fence_history_witness :
  let revoked := run_op (OpRevoke fx_fence_id ReasonCode.FenceIntentRevoked fx_now) fx_registry in
  exists x x', find_fence fx_fence_id revoked = Some x /\
    find_fence fx_fence_id (run_ops [OpAcknowledge fx_fence_id (MkId 9) fx_now; OpEffect fx_fence_id (MkId 9) true fx_now] revoked) = Some x' /\
    x' = x.
Proof.
  cbv zeta. set (revoked := run_op (OpRevoke fx_fence_id ReasonCode.FenceIntentRevoked fx_now) fx_registry).
  assert (reachable default_policy 0 revoked) as Hr
    by exact (reachable_step _ 0 _ (OpRevoke fx_fence_id ReasonCode.FenceIntentRevoked fx_now) fx_registry_reachable).
  destruct (find_fence fx_fence_id revoked) as [x |] eqn:Ex; [| vm_compute in Ex; discriminate].
  destruct (fence_history default_policy 0 revoked
    [OpAcknowledge fx_fence_id (MkId 9) fx_now; OpEffect fx_fence_id (MkId 9) true fx_now] fx_fence_id x Hr Ex)
    as [H _]. destruct H as (x' & Hx' & _ & Heq & _); [intros [H | [H | []]]; discriminate H |].
  exists x, x'. split; [reflexivity |]. split; [exact Hx' |]. apply Heq.
  vm_compute in Ex. injection Ex as <-. vm_compute. reflexivity.
Defined.

Lemma revalidation_None now current x :
  revalidation now current x = None <->
  (is_open x = true -> past_expiry now x = false /\ fi_gens (fr_intent x) = current).
Proof.
  unfold revalidation. destruct (is_open x); cbn [negb]; [| done].
  destruct (past_expiry now x); [split; [done | intros H; by destruct (H eq_refl)] |].
  destruct (bool_decide _) eqn:E; cbn [negb]; bool_prop; split; try done. intros H. by destruct (H eq_refl).
Qed.

Lemma sorted_ids (l : list FenceId) :
  StronglySorted (fun a b : FenceId => id_value a <= id_value b) (sort_by (key_lt (fun id => [id_value id])) l).
Proof.
  pose proof (sort_by_sorted (key_lt (fun id : FenceId => [id_value id])) l) as Hs.
  induction Hs as [| a k Hk IH Ha]; constructor; [done |]. eapply Forall_impl; [exact Ha |].
  intros b. unfold key_lt. cbn [lex cmp_then]. destruct (Z.compare_spec (id_value b) (id_value a)); (done || lia).
Qed.

(** After [revalidate] every open fence is unexpired and bound to the current
    generation vector; the returned ids are, in ascending order, exactly the fences that
    were open and failed one of these two; the others are untouched. *)
Theorem revalidate_exact p k r now current :
  reachable p k r ->
  (forall id x, find_fence id (revalidate now current r).2 = Some x -> is_open x = true ->
     past_expiry now x = false /\ fi_gens (fr_intent x) = current /\ find_fence id r = Some x) /\
  (forall id, In id (revalidate now current r).1 <->
     exists x, find_fence id r = Some x /\ is_open x = true /\
       (past_expiry now x = true \/ fi_gens (fr_intent x) <> current)) /\
  StronglySorted (fun a b : FenceId => id_value a <= id_value b) (revalidate now current r).1.
Proof.
  intros Hr. destruct (reachable_inv p k r Hr) as [[Hwf _ _ _ _ _] _].
  unfold revalidate, find_fence. rewrite run_sweep_eq. cbn [fst snd records_].
  split; [| split; [| apply sorted_ids]].
  - intros id x. rewrite map_find_values. destruct (map_find id (records_ r)) as [y |] eqn:Ey; [| done].
    intros [= <-] Ho. pose proof (revalidation_closes now current) as Hc.
    assert (revalidation now current y = None) as Hn.
    { unfold swept in Ho. destruct (revalidation now current y) as [[how z] |] eqn:E; [| done].
      destruct (Hc _ _ _ E) as (_ & Hz & _). congruence. }
    rewrite (proj2 (swept_keeps _ y Hc) Ho) in Ho |- *.
    destruct (proj1 (revalidation_None now current y) Hn Ho). by split.
  - intros id. rewrite sort_by_In, sweep_ids. split.
    + intros (x & Hx & Hn). apply map_In_find in Hx; [| done]. exists x. split; [done |].
      rewrite revalidation_None in Hn. destruct (is_open x); [| exfalso; by apply Hn]. split; [done |].
      destruct (past_expiry now x); [by left | right]. intros Hg. apply Hn. by intros _.
    + intros (x & Hx & Ho & Hor). exists x. split; [by apply map_find_In |]. rewrite revalidation_None.
      intros Hall. destruct (Hall Ho) as [? ?]. destruct Hor; congruence.
Qed.

Example revalidate_exact_witness :
  In fx_fence_id (revalidate fx_now (MkGens (MkGen 2) (MkGen 1) (MkGen 1) (MkGen 1)) fx_registry).1.
Proof.
  refine (proj2 (proj1 (proj2 (revalidate_exact default_policy 0 fx_registry fx_now
    (MkGens (MkGen 2) (MkGen 1) (MkGen 1) (MkGen 1)) fx_registry_reachable)) fx_fence_id) _).
  destruct (find_fence fx_fence_id fx_registry) as [x |] eqn:Ex; [| vm_compute in Ex; discriminate].
  exists x. vm_compute in Ex. injection Ex as <-. split; [reflexivity |].
  split; [vm_compute; reflexivity | right; vm_compute; discriminate].
Defined.

(** An intent is issued only for a valid subject with no open fence under the same
    vector and with room in the registry; it is recorded open under its new identity and
    expires [fence_ttl] after its issue; a refusal leaves the records as they were. *)
Theorem issue_publishes_once p k r q :
  reachable p k r ->
  let '(o, id, _, r') := issue q r in
  (o <> Ok -> records_ r' = records_ r) /\
  (o = Ok ->
     issue_request_ok q = true /\ open_duplicate (iq_scope q) (iq_gens q) r = None /\
     zlen (records_ r) < max_fences p /\ find_fence id r = None /\
     (forall id', id' <> id -> find_fence id' r' = find_fence id' r) /\
     exists i, find_fence id r' = Some (new_record i) /\ fi_id i = id /\ fi_scope i = iq_scope q /\
       fi_gens i = iq_gens q /\ fi_boot i = iq_boot q /\ fi_incarnation i = iq_incarnation q /\
       Some (wall_ns (fi_expires_at i)) = checked_add int64_t (wall_ns (iq_now q)) (duration_ns (fence_ttl p))).
Proof.
  intros Hr. destruct (reachable_inv p k r Hr) as [_ <-]. unfold issue. set (r1 := with_stats count_attempt r).
  change (open_duplicate (iq_scope q) (iq_gens q) r1) with (open_duplicate (iq_scope q) (iq_gens q) r).
  change (reg_policy r1) with (reg_policy r). change (records_ r1) with (records_ r).
  destruct (issue_request_ok q) eqn:Eq; cbn [negb]; [| done].
  destruct (open_duplicate _ _ r) eqn:Ed; [done |].
  destruct (Z.leb_spec (max_fences (reg_policy r)) (zlen (records_ r))); [done |].
  destruct (mint_intent q r1) as [[o ?] | i] eqn:Em.
  { split; [done |]. intros ->. exfalso. unfold mint_intent in Em. destruct (checked_add _ _ _); [| done].
    destruct (_ <=? _); [done |]. cbv zeta in Em. by destruct (negb _). }
  destruct (map_find (fi_id i) (records_ r)) eqn:Ef; [done |].
  split; [done |]. intros _. split_and!; try done.
  - intros id' Hne. unfold find_fence. cbn [with_stats put_record records_]. by rewrite map_find_insert_ne.
  - exists i. unfold find_fence. cbn [with_stats put_record records_]. rewrite map_find_insert_eq.
    split; [done |]. revert Em. unfold mint_intent. change (reg_policy r1) with (reg_policy r).
    destruct (checked_add _ _ _) as [e |]; [| done]. destruct (_ <=? _); [done |].
    generalize (identity_writer q (issue_attempts (stats_ r1))) as w. intros w. destruct (negb (ok_ w)); [done |].
    cbv zeta. generalize (fnv1a64 (buf_ w)) as a. intros a. generalize (mix64 a 0x5EED1234) as b.
    by intros b [= <-].
Qed.

Example issue_publishes_once_witness :
  (issue (fx_issue 5) (new_FenceRegistry default_policy)).1.1.1 = Ok /\
  find_fence fx_fence_id (new_FenceRegistry default_policy) = None.
Proof.
  pose proof (issue_publishes_once default_policy 0 (new_FenceRegistry default_policy) (fx_issue 5)
    (reachable_new default_policy)) as H.
  unfold fx_fence_id. assert ((issue (fx_issue 5) (new_FenceRegistry default_policy)).1.1.1 = Ok) as Ho
    by (vm_compute; reflexivity).
  split; [exact Ho |].
  destruct (issue (fx_issue 5) (new_FenceRegistry default_policy)) as [[[o id] reason] r'].
  destruct H as [_ H]. destruct (H Ho) as (_ & _ & _ & Hn & _). exact Hn.
Defined.

(** The documented closure [issue_attempts == issued + duplicates_refused +
    capacity_refused] fails after one refusal of an invalid subject: the attempt is counted
    and no refusal counter moves. A staged intent that is never committed breaks it too. *)
Theorem invalid_attempt_unaccounted :
  let q := MkIssue (MkScope ScopeKind.Path (MkId 0) (MkId 0) (MkId 0) 0 0) fx_gens (MkId 3) (MkId 5)
             Provenance.Synthetic ReasonCode.None fx_now in
  let r := new_FenceRegistry default_policy in
  fence_accounting_closed (stats_ r) = true /\
  (issue q r).1.1.1 = Invalid /\ fence_accounting_closed (stats_ (issue q r).2) = false /\
  (stage (fx_issue 5) r).1.1.1 = Ok /\ fence_accounting_closed (stats_ (stage (fx_issue 5) r).2) = false.
Proof. vm_compute. repeat split. Qed.
