(* ===== verification/Authority.v ===== *)
(** * Restoration and decisions

    Models [evaluate_restoration], the [Decision] record with its validity test, its wire
    codec and its derived identity, from [include/blackhole/authority/authority.hpp] and
    [src/authority/authority.cpp]. *)
From Stdlib Require Import Strings.String Sorting.Permutation.
From S2P Require Import Prelude OrderedMap Sort Core Checked Codec Counted Hash Ids Domain Policy Fixtures.
From S2P Require Import Classifier Localizer Fence.
Local Open Scope string_scope.
Local Open Scope list_scope.
Local Open Scope Z_scope.

(** ** Restoration gate *)

(** include/blackhole/authority/authority.hpp:227-240 RestorationDecision *)
Record RestorationDecision := MkRestoration {
  rd_outcome : Outcome;
  rd_id : DecisionId;
  rd_authorized : bool;
  rd_reason : ReasonCode.t;
  rd_scope : Scope;
  rd_gens : GenerationVector;
  rd_sources : list SourceRef;
  rd_distinct_incarnations : Z;
  rd_success_attempts : Z;
  rd_had_open_fence : bool;
  rd_revoked_fence : FenceId;
  rd_decided_at : WallNs;
}.

(** [d.outcome], [d.authorized] and [d.reason], lines 325-363. *)
Definition restoration_verdict (diagnosis : Diagnosis) (policy : FencePolicy) : Outcome * bool * ReasonCode.t :=
  if (d_outcome diagnosis != Ok) || (classification diagnosis != Classification.Healthy) then
    match d_outcome diagnosis with
    | NoEvidence => (NoEvidence, false, ReasonCode.RestorationRefusedNoEvidence)
    | Stale => (Stale, false, ReasonCode.RestorationRefusedStale)
    | Conflict => (Conflict, false, ReasonCode.RestorationRefusedConflict)
    | _ => (Unknown, false, ReasonCode.RestorationRefusedInsufficient)
    end
  else if n_success_sources (census diagnosis) <? restore_min_sources policy then
    (Ok, false, ReasonCode.SourcesInsufficient)
  else if success_incarnations (census diagnosis) <? restore_min_incarnations policy then
    (Ok, false, ReasonCode.IncarnationsInsufficient)
  else if success_attempts (census diagnosis) <? restore_min_successes policy then
    (Ok, false, ReasonCode.AttemptsInsufficient)
  else (Ok, true, ReasonCode.RestorationCorroborated).

(** src/authority/authority.cpp:312-365 evaluate_restoration *)
Definition evaluate_restoration (diagnosis : Diagnosis) (policy : FencePolicy)
  (open_fence : option FenceRecord) (now : WallNs) : RestorationDecision :=
  let '(outcome, authorized, reason) := restoration_verdict diagnosis policy in
  MkRestoration outcome (MkId 0) authorized reason (d_scope diagnosis) (d_gens diagnosis)
    (success_sources diagnosis) (success_incarnations (census diagnosis))
    (success_attempts (census diagnosis)) (if open_fence is Some _ then true else false)
    (if open_fence is Some f then fi_id (fr_intent f) else MkId 0) now.

(** ** Codecs *)

(** src/authority/authority.cpp:397-409 encode(FenceIntent) *)
Definition encode_FenceIntent (v : FenceIntent) : Writer -> Writer :=
  seqw [encode (fi_id v);
        encode (fi_decision v);
        encode (fi_scope v);
        encode (fi_gens v);
        encode (fi_boot v);
        encode (fi_incarnation v);
        encode (fi_policy v);
        w_enum8 (fi_provenance v);
        w_enum16 (fi_reason v);
        encode (fi_issued_at v);
        encode (fi_expires_at v)].

(** src/authority/authority.cpp:411-444 decode(FenceIntent) *)
Definition decode_FenceIntent : Decoder FenceIntent :=
  fi_id_ ← decode (A := FenceId);
  fi_decision_ ← decode (A := DecisionId);
  fi_scope_ ← decode (A := Scope);
  fi_gens_ ← decode (A := GenerationVector);
  fi_boot_ ← decode (A := BootId);
  fi_incarnation_ ← decode (A := IncarnationId);
  fi_policy_ ← decode (A := PolicyVersion);
  fi_provenance_ ← r_enum8 (E := Provenance.t);
  fi_reason_ ← r_enum16 (E := ReasonCode.t);
  fi_issued_at_ ← decode (A := WallNs);
  fi_expires_at_ ← decode (A := WallNs);
  let v := MkIntent fi_id_ fi_decision_ fi_scope_ fi_gens_ fi_boot_ fi_incarnation_ fi_policy_ fi_provenance_ fi_reason_ fi_issued_at_ fi_expires_at_ in
  ensure (intent_valid v) Invalid ;; mret v.

Definition image_FenceIntent (v : FenceIntent) : list byte :=
  concat [image (fi_id v);
          image (fi_decision v);
          image (fi_scope v);
          image (fi_gens v);
          image (fi_boot v);
          image (fi_incarnation v);
          image (fi_policy v);
          le_bytes 1 (to_raw (fi_provenance v));
          le_bytes 2 (to_raw (fi_reason v));
          image (fi_issued_at v);
          image (fi_expires_at v)].

Definition valid_FenceIntent (v : FenceIntent) : Prop :=
  valid (fi_id v) /\
  valid (fi_decision v) /\
  valid (fi_scope v) /\
  valid (fi_gens v) /\
  valid (fi_boot v) /\
  valid (fi_incarnation v) /\
  valid (fi_policy v) /\
  valid (fi_issued_at v) /\
  valid (fi_expires_at v) /\
  intent_valid v = true.

#[export] Instance Codec_FenceIntent : Codec FenceIntent := {
  encode := encode_FenceIntent; decode := decode_FenceIntent; image := image_FenceIntent; valid := valid_FenceIntent;
}.

#[export] Instance CodecLaws_FenceIntent : CodecLaws FenceIntent.
Proof. codec_laws encode_FenceIntent decode_FenceIntent image_FenceIntent valid_FenceIntent. Qed.

#[export] Instance CanonicalCodec_FenceIntent : CanonicalCodec FenceIntent.
Proof. codec_canonical decode_FenceIntent image_FenceIntent valid_FenceIntent. Qed.

(** src/authority/authority.cpp:457-468 encode(AuthorityVector) *)
Definition encode_AuthorityVector (v : AuthorityVector) : Writer -> Writer :=
  seqw [w_enum8 (av_stage v);
        encode (av_decision v);
        encode (av_fence v);
        encode (av_gens v);
        encode (av_boot v);
        encode (av_incarnation v);
        encode (av_policy v);
        encode (av_issued_at v);
        encode (av_expires_at v);
        w_boolean (av_revoked v);
        w_enum16 (av_revoke_reason v);
        w_enum8 (av_provenance v)].

(** src/authority/authority.cpp:561-593 decode(AuthorityVector) *)
Definition decode_AuthorityVector : Decoder AuthorityVector :=
  av_stage_ ← r_enum8 (E := AuthorityStage.t);
  av_decision_ ← decode (A := DecisionId);
  av_fence_ ← decode (A := FenceId);
  av_gens_ ← decode (A := GenerationVector);
  av_boot_ ← decode (A := BootId);
  av_incarnation_ ← decode (A := IncarnationId);
  av_policy_ ← decode (A := PolicyVersion);
  av_issued_at_ ← decode (A := WallNs);
  av_expires_at_ ← decode (A := WallNs);
  av_revoked_ ← r_boolean;
  av_revoke_reason_ ← r_enum16 (E := ReasonCode.t);
  av_provenance_ ← r_enum8 (E := Provenance.t);
  mret (MkAuthority av_stage_ av_decision_ av_fence_ av_gens_ av_boot_ av_incarnation_ av_policy_ av_issued_at_ av_expires_at_ av_revoked_ av_revoke_reason_ av_provenance_).

Definition image_AuthorityVector (v : AuthorityVector) : list byte :=
  concat [le_bytes 1 (to_raw (av_stage v));
          image (av_decision v);
          image (av_fence v);
          image (av_gens v);
          image (av_boot v);
          image (av_incarnation v);
          image (av_policy v);
          image (av_issued_at v);
          image (av_expires_at v);
          le_bytes 1 (Z.b2z (av_revoked v));
          le_bytes 2 (to_raw (av_revoke_reason v));
          le_bytes 1 (to_raw (av_provenance v))].

Definition valid_AuthorityVector (v : AuthorityVector) : Prop :=
  valid (av_decision v) /\
  valid (av_fence v) /\
  valid (av_gens v) /\
  valid (av_boot v) /\
  valid (av_incarnation v) /\
  valid (av_policy v) /\
  valid (av_issued_at v) /\
  valid (av_expires_at v).

#[export] Instance Codec_AuthorityVector : Codec AuthorityVector := {
  encode := encode_AuthorityVector; decode := decode_AuthorityVector; image := image_AuthorityVector; valid := valid_AuthorityVector;
}.

#[export] Instance CodecLaws_AuthorityVector : CodecLaws AuthorityVector.
Proof. codec_laws encode_AuthorityVector decode_AuthorityVector image_AuthorityVector valid_AuthorityVector. Qed.

#[export] Instance CanonicalCodec_AuthorityVector : CanonicalCodec AuthorityVector.
Proof. codec_canonical decode_AuthorityVector image_AuthorityVector valid_AuthorityVector. Qed.

(** [u16] read, narrowed to [uint8_t] before the validity test and the cast, lines 635-639:
    the high byte is ignored. *)
Definition r_mismatch : Decoder GenMismatch.t :=
  raw ← r_u16;
  ensure (GenMismatch.is_valid (wrap 8 raw)) Invalid ;;
  mret (of_raw (wrap 8 raw)).

Lemma emits_mismatch (m : GenMismatch.t) : Emits (w_u16 (to_raw m)) (le_bytes 2 (to_raw m)).
Proof. apply emits_u16. Qed.

Lemma reads_mismatch (m : GenMismatch.t) : Reads r_mismatch (le_bytes 2 (to_raw m)) m.
Proof.
  unfold r_mismatch. eapply reads_bind_nil; [apply reads_u16; by destruct m |].
  apply reads_ensure; [by destruct m |]. assert (of_raw (wrap 8 (to_raw m)) = m) as -> by by destruct m. apply reads_ret.
Qed.

Lemma sticky_mismatch : Sticky r_mismatch.
Proof. apply sticky_bind, sticky_u16. Qed.

Lemma total_mismatch : Total r_mismatch.
Proof.
  apply total_bind; [apply total_u16 | intros]. apply total_bind; [by apply total_ensure | intros]. apply total_ret.
Qed.
#[export] Hint Resolve emits_mismatch reads_mismatch sticky_mismatch total_mismatch : codec_ext.

(** src/authority/authority.cpp:470-490 encode(EvidenceCensus) *)
Definition encode_EvidenceCensus (v : EvidenceCensus) : Writer -> Writer :=
  seqw [w_u32 (total v);
        w_u32 (fresh_current v);
        w_u32 (stale v);
        w_u32 (generation_mismatch v);
        w_u32 (quality_rejected v);
        w_u32 (invalid v);
        w_u32 (complete_failures v);
        w_u32 (clean_successes v);
        w_u32 (congestion_signals v);
        w_u32 (partition_signals v);
        w_u32 (withdrawals v);
        w_u32 (n_failure_sources v);
        w_u32 (failure_incarnations v);
        w_u32 (n_success_sources v);
        w_u32 (success_incarnations v);
        w_u64 (failure_attempts v);
        w_u64 (failure_losses v);
        w_u64 (success_attempts v);
        w_u32 (min_loss_ppm v);
        w_u32 (max_loss_ppm v);
        w_u16 (to_raw (mismatch v))].

(** src/authority/authority.cpp:595-639 decode(EvidenceCensus) *)
Definition decode_EvidenceCensus : Decoder EvidenceCensus :=
  total_ ← r_u32;
  fresh_current_ ← r_u32;
  stale_ ← r_u32;
  generation_mismatch_ ← r_u32;
  quality_rejected_ ← r_u32;
  invalid_ ← r_u32;
  complete_failures_ ← r_u32;
  clean_successes_ ← r_u32;
  congestion_signals_ ← r_u32;
  partition_signals_ ← r_u32;
  withdrawals_ ← r_u32;
  n_failure_sources_ ← r_u32;
  failure_incarnations_ ← r_u32;
  n_success_sources_ ← r_u32;
  success_incarnations_ ← r_u32;
  failure_attempts_ ← r_u64;
  failure_losses_ ← r_u64;
  success_attempts_ ← r_u64;
  min_loss_ppm_ ← r_u32;
  max_loss_ppm_ ← r_u32;
  mismatch_ ← r_mismatch;
  mret (MkCensus total_ fresh_current_ stale_ generation_mismatch_ quality_rejected_ invalid_ complete_failures_ clean_successes_ congestion_signals_ partition_signals_ withdrawals_ n_failure_sources_ failure_incarnations_ n_success_sources_ success_incarnations_ failure_attempts_ failure_losses_ success_attempts_ min_loss_ppm_ max_loss_ppm_ mismatch_).

Definition image_EvidenceCensus (v : EvidenceCensus) : list byte :=
  concat [le_bytes 4 (total v);
          le_bytes 4 (fresh_current v);
          le_bytes 4 (stale v);
          le_bytes 4 (generation_mismatch v);
          le_bytes 4 (quality_rejected v);
          le_bytes 4 (invalid v);
          le_bytes 4 (complete_failures v);
          le_bytes 4 (clean_successes v);
          le_bytes 4 (congestion_signals v);
          le_bytes 4 (partition_signals v);
          le_bytes 4 (withdrawals v);
          le_bytes 4 (n_failure_sources v);
          le_bytes 4 (failure_incarnations v);
          le_bytes 4 (n_success_sources v);
          le_bytes 4 (success_incarnations v);
          le_bytes 8 (failure_attempts v);
          le_bytes 8 (failure_losses v);
          le_bytes 8 (success_attempts v);
          le_bytes 4 (min_loss_ppm v);
          le_bytes 4 (max_loss_ppm v);
          le_bytes 2 (to_raw (mismatch v))].

Definition valid_EvidenceCensus (v : EvidenceCensus) : Prop :=
  in_u32 (total v) /\
  in_u32 (fresh_current v) /\
  in_u32 (stale v) /\
  in_u32 (generation_mismatch v) /\
  in_u32 (quality_rejected v) /\
  in_u32 (invalid v) /\
  in_u32 (complete_failures v) /\
  in_u32 (clean_successes v) /\
  in_u32 (congestion_signals v) /\
  in_u32 (partition_signals v) /\
  in_u32 (withdrawals v) /\
  in_u32 (n_failure_sources v) /\
  in_u32 (failure_incarnations v) /\
  in_u32 (n_success_sources v) /\
  in_u32 (success_incarnations v) /\
  in_u64 (failure_attempts v) /\
  in_u64 (failure_losses v) /\
  in_u64 (success_attempts v) /\
  in_u32 (min_loss_ppm v) /\
  in_u32 (max_loss_ppm v).

#[export] Instance Codec_EvidenceCensus : Codec EvidenceCensus := {
  encode := encode_EvidenceCensus; decode := decode_EvidenceCensus; image := image_EvidenceCensus; valid := valid_EvidenceCensus;
}.

#[export] Instance CodecLaws_EvidenceCensus : CodecLaws EvidenceCensus.
Proof. codec_laws encode_EvidenceCensus decode_EvidenceCensus image_EvidenceCensus valid_EvidenceCensus. Qed.

(** *** Reasons and elements *)

Definition w_reasons : list ReasonCode.t -> Writer -> Writer := w_counted (w_enum16 (E := ReasonCode.t)).
Definition r_reasons : Decoder (list ReasonCode.t) := r_counted (r_enum16 (E := ReasonCode.t)) 256 2.
Definition reasons_image : list ReasonCode.t -> list byte := counted (fun e => le_bytes 2 (to_raw e)).
Definition reasons_ok : list ReasonCode.t -> Prop := counted_ok (fun _ => True) 256.

Lemma emits_reasons l : reasons_ok l -> Emits (w_reasons l) (reasons_image l).
Proof. intros Hl. apply (emits_counted _ _ (fun _ => True) 256); [done | | done]. intros. by apply emits_enum16_item. Qed.
Lemma reads_reasons l : reasons_ok l -> Reads r_reasons (reasons_image l) l.
Proof.
  intros Hl. apply (reads_counted _ _ (fun _ => True)); [done | | | done].
  - intros. by apply reads_enum16_item.
  - intros. apply (le_bytes_size 2).
Qed.
Lemma accepts_reasons : Accepts r_reasons (fun l bs => reasons_ok l /\ bs = reasons_image l).
Proof. apply accepts_counted. apply accepts_enum16_item. Qed.
Lemma sticky_reasons : Sticky r_reasons. Proof. apply sticky_counted. Qed.
Lemma total_reasons : Total r_reasons. Proof. apply total_counted, total_enum16. Qed.

Definition w_elements : list Z -> Writer -> Writer := w_counted w_u32.
Definition r_elements : Decoder (list Z) := r_counted r_u32 kMaxLocalizationCandidates 4.
Definition elements_image : list Z -> list byte := counted (le_bytes 4).
Definition elements_ok : list Z -> Prop := counted_ok in_u32 kMaxLocalizationCandidates.

Lemma emits_elements l : elements_ok l -> Emits (w_elements l) (elements_image l).
Proof. intros Hl. apply (emits_counted _ _ in_u32 kMaxLocalizationCandidates); [done | | done]. apply emits_u32_item. Qed.
Lemma reads_elements l : elements_ok l -> Reads r_elements (elements_image l) l.
Proof.
  intros Hl. apply (reads_counted _ _ in_u32); [done | apply reads_u32 | | done]. intros. apply (le_bytes_size 4).
Qed.
Lemma accepts_elements : Accepts r_elements (fun l bs => elements_ok l /\ bs = elements_image l).
Proof. apply accepts_counted. apply accepts_u32. Qed.
Lemma sticky_elements : Sticky r_elements. Proof. apply sticky_counted. Qed.
Lemma total_elements : Total r_elements. Proof. apply total_counted, total_u32. Qed.

#[export] Hint Resolve emits_reasons reads_reasons accepts_reasons sticky_reasons total_reasons
  emits_elements reads_elements accepts_elements sticky_elements total_elements : codec_ext.

(** src/authority/authority.cpp:496-507 encode(LocalizationResult) *)
Definition encode_LocalizationResult (v : LocalizationResult) : Writer -> Writer :=
  seqw [w_enum8 (status v);
        w_elements (elements v);
        w_u32 (optimal_size v);
        w_boolean (optimality_proven v);
        w_boolean (uniqueness_proven v);
        w_boolean (solutions_truncated v);
        w_u32 (solutions_found v);
        w_u64 (search_nodes v);
        w_u32 (infeasible_witness v);
        w_boolean (has_infeasible_witness v);
        w_enum16 (reason v)].

(** src/authority/authority.cpp:651-688 decode(LocalizationResult) *)
Definition decode_LocalizationResult : Decoder LocalizationResult :=
  status_ ← r_enum8 (E := LocalizationStatus.t);
  elements_ ← r_elements;
  optimal_size_ ← r_u32;
  optimality_proven_ ← r_boolean;
  uniqueness_proven_ ← r_boolean;
  solutions_truncated_ ← r_boolean;
  solutions_found_ ← r_u32;
  search_nodes_ ← r_u64;
  infeasible_witness_ ← r_u32;
  has_infeasible_witness_ ← r_boolean;
  reason_ ← r_enum16 (E := ReasonCode.t);
  mret (MkResult status_ elements_ optimal_size_ optimality_proven_ uniqueness_proven_ solutions_truncated_ solutions_found_ search_nodes_ infeasible_witness_ has_infeasible_witness_ reason_).

Definition image_LocalizationResult (v : LocalizationResult) : list byte :=
  concat [le_bytes 1 (to_raw (status v));
          elements_image (elements v);
          le_bytes 4 (optimal_size v);
          le_bytes 1 (Z.b2z (optimality_proven v));
          le_bytes 1 (Z.b2z (uniqueness_proven v));
          le_bytes 1 (Z.b2z (solutions_truncated v));
          le_bytes 4 (solutions_found v);
          le_bytes 8 (search_nodes v);
          le_bytes 4 (infeasible_witness v);
          le_bytes 1 (Z.b2z (has_infeasible_witness v));
          le_bytes 2 (to_raw (reason v))].

Definition valid_LocalizationResult (v : LocalizationResult) : Prop :=
  elements_ok (elements v) /\
  in_u32 (optimal_size v) /\
  in_u32 (solutions_found v) /\
  in_u64 (search_nodes v) /\
  in_u32 (infeasible_witness v).

#[export] Instance Codec_LocalizationResult : Codec LocalizationResult := {
  encode := encode_LocalizationResult; decode := decode_LocalizationResult; image := image_LocalizationResult; valid := valid_LocalizationResult;
}.

#[export] Instance CodecLaws_LocalizationResult : CodecLaws LocalizationResult.
Proof. codec_laws encode_LocalizationResult decode_LocalizationResult image_LocalizationResult valid_LocalizationResult. Qed.

#[export] Instance CanonicalCodec_LocalizationResult : CanonicalCodec LocalizationResult.
Proof. codec_canonical decode_LocalizationResult image_LocalizationResult valid_LocalizationResult. Qed.

(** ** Decisions *)

(** include/blackhole/authority/authority.hpp:273-300 Decision *)
Record Decision := MkDecision {
  dc_id : DecisionId;
  dc_kind : DecisionKind.t;
  dc_outcome : Outcome;
  dc_scope : Scope;
  dc_gens : GenerationVector;
  dc_classification : Classification.t;
  dc_primary_reason : ReasonCode.t;
  dc_reasons : list ReasonCode.t;
  dc_authority : AuthorityVector;
  dc_census : EvidenceCensus;
  dc_corroborated : bool;
  dc_corroboration_reason : ReasonCode.t;
  dc_has_localization : bool;
  dc_localization : LocalizationResult;
  dc_has_intent : bool;
  dc_intent : FenceIntent;
  dc_provenance : Provenance.t;
  dc_policy : PolicyVersion;
  dc_boot : BootId;
  dc_incarnation : IncarnationId;
  dc_decided_at : WallNs;
}.

(** [LocalizationResult{}] *)
Definition nil_localization : LocalizationResult :=
  MkResult LocalizationStatus.InvalidInput [] 0 false false false 0 0 0 false ReasonCode.None.

(** src/authority/authority.cpp:367-382 Decision::is_valid; the enumerations hold by typing. *)
Definition decision_valid (d : Decision) : bool :=
  if id_nil (dc_id d) then false
  else if negb (scope_valid (dc_scope d)) then false
  else if negb (is_complete (dc_gens d)) then false
  else if dc_has_intent d && negb (intent_valid (dc_intent d)) then false
  else if dc_has_intent d && (fi_scope (dc_intent d) != dc_scope d) then false
  else if dc_has_intent d && (fi_gens (dc_intent d) != dc_gens d) then false
  else true.

(** src/authority/authority.cpp:446-518 encode(Decision) *)
Definition encode_Decision (v : Decision) : Writer -> Writer :=
  seqw [encode (dc_id v);
        w_enum16 (dc_kind v);
        w_enum8 (dc_outcome v);
        encode (dc_scope v);
        encode (dc_gens v);
        w_enum16 (dc_classification v);
        w_enum16 (dc_primary_reason v);
        w_reasons (dc_reasons v);
        encode (dc_authority v);
        encode (dc_census v);
        w_boolean (dc_corroborated v);
        w_enum16 (dc_corroboration_reason v);
        w_flagged (dc_has_localization v) (dc_localization v);
        w_flagged (dc_has_intent v) (dc_intent v);
        w_enum8 (dc_provenance v);
        encode (dc_policy v);
        encode (dc_boot v);
        encode (dc_incarnation v);
        encode (dc_decided_at v)].

(** src/authority/authority.cpp:520-715 decode(Decision) *)
Definition decode_Decision : Decoder Decision :=
  dc_id_ ← decode (A := DecisionId);
  dc_kind_ ← r_enum16 (E := DecisionKind.t);
  dc_outcome_ ← r_enum8 (E := Outcome);
  dc_scope_ ← decode (A := Scope);
  dc_gens_ ← decode (A := GenerationVector);
  dc_classification_ ← r_enum16 (E := Classification.t);
  dc_primary_reason_ ← r_enum16 (E := ReasonCode.t);
  dc_reasons_ ← r_reasons;
  dc_authority_ ← decode (A := AuthorityVector);
  dc_census_ ← decode (A := EvidenceCensus);
  dc_corroborated_ ← r_boolean;
  dc_corroboration_reason_ ← r_enum16 (E := ReasonCode.t);
  dc_loc_ ← r_flagged nil_localization;
  dc_int_ ← r_flagged nil_intent;
  dc_provenance_ ← r_enum8 (E := Provenance.t);
  dc_policy_ ← decode (A := PolicyVersion);
  dc_boot_ ← decode (A := BootId);
  dc_incarnation_ ← decode (A := IncarnationId);
  dc_decided_at_ ← decode (A := WallNs);
  let v := MkDecision dc_id_ dc_kind_ dc_outcome_ dc_scope_ dc_gens_ dc_classification_ dc_primary_reason_ dc_reasons_ dc_authority_ dc_census_ dc_corroborated_ dc_corroboration_reason_ dc_loc_.1 dc_loc_.2 dc_int_.1 dc_int_.2 dc_provenance_ dc_policy_ dc_boot_ dc_incarnation_ dc_decided_at_ in
  ensure (decision_valid v) Invalid ;; mret v.

Definition image_Decision (v : Decision) : list byte :=
  concat [image (dc_id v);
          le_bytes 2 (to_raw (dc_kind v));
          le_bytes 1 (to_raw (dc_outcome v));
          image (dc_scope v);
          image (dc_gens v);
          le_bytes 2 (to_raw (dc_classification v));
          le_bytes 2 (to_raw (dc_primary_reason v));
          reasons_image (dc_reasons v);
          image (dc_authority v);
          image (dc_census v);
          le_bytes 1 (Z.b2z (dc_corroborated v));
          le_bytes 2 (to_raw (dc_corroboration_reason v));
          flagged (dc_has_localization v) (dc_localization v);
          flagged (dc_has_intent v) (dc_intent v);
          le_bytes 1 (to_raw (dc_provenance v));
          image (dc_policy v);
          image (dc_boot v);
          image (dc_incarnation v);
          image (dc_decided_at v)].

Definition valid_Decision (v : Decision) : Prop :=
  valid (dc_id v) /\
  valid (dc_scope v) /\
  valid (dc_gens v) /\
  reasons_ok (dc_reasons v) /\
  valid (dc_authority v) /\
  valid (dc_census v) /\
  flagged_ok nil_localization (dc_has_localization v) (dc_localization v) /\
  flagged_ok nil_intent (dc_has_intent v) (dc_intent v) /\
  valid (dc_policy v) /\
  valid (dc_boot v) /\
  valid (dc_incarnation v) /\
  valid (dc_decided_at v) /\
  decision_valid v = true.

#[export] Instance Codec_Decision : Codec Decision := {
  encode := encode_Decision; decode := decode_Decision; image := image_Decision; valid := valid_Decision;
}.

#[export] Instance CodecLaws_Decision : CodecLaws Decision.
Proof. codec_laws encode_Decision decode_Decision image_Decision valid_Decision. Qed.

(** src/authority/authority.cpp:384-395 derive_decision_id *)
Definition derive_decision_id (d : Decision) : DecisionId :=
  let a := dc_authority d in
  let copy := MkDecision (MkId 0) (dc_kind d) (dc_outcome d) (dc_scope d) (dc_gens d) (dc_classification d)
    (dc_primary_reason d) (dc_reasons d)
    (MkAuthority (av_stage a) (MkId 0) (MkId 0) (av_gens a) (av_boot a) (av_incarnation a) (av_policy a)
       (av_issued_at a) (av_expires_at a) (av_revoked a) (av_revoke_reason a) (av_provenance a))
    (dc_census d) (dc_corroborated d) (dc_corroboration_reason d) (dc_has_localization d)
    (dc_localization d) (dc_has_intent d) (dc_intent d) (dc_provenance d) (dc_policy d) (dc_boot d)
    (dc_incarnation d) (dc_decided_at d) in
  let w := encode_Decision copy (new_Writer kDefaultMaxDocumentBytes) in
  if negb (ok_ w) then MkId 0 else MkId (fnv1a64 (buf_ w)).

(** ** What restoration needs *)

Lemma restoration_authorized d policy f now :
  rd_authorized (evaluate_restoration d policy f now) = true <->
  d_outcome d = Ok /\ classification d = Classification.Healthy /\
  restore_min_sources policy <= n_success_sources (census d) /\
  restore_min_incarnations policy <= success_incarnations (census d) /\
  restore_min_successes policy <= success_attempts (census d).
Proof.
  unfold evaluate_restoration, restoration_verdict.
  destruct (decide (d_outcome d = Ok)) as [Ho | Ho]; [rewrite Ho, beq_refl |
    rewrite beq_ne by done; cbn [negb orb]; split; [by destruct (d_outcome d) | by intros [? _]]].
  destruct (decide (classification d = Classification.Healthy)) as [Hc | Hc]; [rewrite Hc, beq_refl |
    rewrite beq_ne by done; cbn [negb orb]; split; [done | by intros (_ & ? & _)]].
  cbn [negb orb].
  destruct (Z.ltb_spec (n_success_sources (census d)) (restore_min_sources policy)); [split; [done | lia] |].
  destruct (Z.ltb_spec (success_incarnations (census d)) (restore_min_incarnations policy)); [split; [done | lia] |].
  destruct (Z.ltb_spec (success_attempts (census d)) (restore_min_successes policy)); [split; [done | lia] |].
  done.
Qed.

(** No usable observation speaks against delivery. *)
Definition undisputed (policy : FencePolicy) (req : ClassifyRequest) : Prop :=
  forall e, In e (req_evidence req) -> usable policy (req_current req) (req_now req) e = true ->
    e_kind e <> EvidenceKind.PartitionSignal /\ e_kind e <> EvidenceKind.CongestionSignal /\
    (is_loss_kind (e_kind e) = true -> complete_failure policy e = false /\ loss_ppm e <= 0).

Lemma rule_healthy policy req :
  rule policy (req_current req) (req_now req) (req_evidence req) = Classification.Healthy ->
  undisputed policy req.
Proof.
  unfold rule. set (l := req_evidence req). set (cur := req_current req). set (now := req_now req).
  repeat split_if; try done. intros _ e Hin Hu. fold cur now in Hu. rewrite existsb_false in *.
  repeat match goal with H : forall x, In x l -> _ = false |- _ => specialize (H e Hin) end.
  unfold usable_kind, usable_complete, usable_loss in *. rewrite Hu in *. cbn [andb] in *. bool_prop.
  split; [done |]. split; [done |]. intros Hk.
  split.
  - destruct Heqb5; [congruence | done].
  - destruct Heqb6; [congruence | by bool_prop].
Qed.

Lemma sources_of_nonempty p l : 1 <= zlen (sources_of p l) -> exists e, In e l /\ p e = true.
Proof.
  unfold sources_of. destruct (List.filter p l) as [| e k] eqn:E; [done |]. intros _.
  exists e. apply filter_In. rewrite E. by left.
Qed.

Lemma wrap_le w v : 0 <= w -> 0 <= v -> wrap w v <= v.
Proof. intros Hw Hv. apply Z.mod_le; [done |]. by apply Z.pow_pos_nonneg. Qed.

(** The attempts of the usable observations that report clean delivery. *)
Definition clean_attempts (policy : FencePolicy) (req : ClassifyRequest) : Z :=
  sum_of attempts (List.filter (usable_clean policy (req_current req) (req_now req)) (req_evidence req)).

Lemma clean_attempts_nonneg policy req : 0 <= clean_attempts policy req.
Proof.
  unfold clean_attempts. induction (req_evidence req) as [| e l IH]; [done |]. cbn [List.filter].
  destruct (usable_clean _ _ _ e) eqn:E; [| done]. change (0 <= attempts e + sum_of attempts (List.filter (usable_clean policy (req_current req) (req_now req)) l)).
  unfold usable_clean, usable_loss, clean_success in E. bool_prop. lia.
Qed.


Definition fx_restore_request : ClassifyRequest :=
  MkRequest fx_scope fx_gens fx_now (Some default_policy)
    [fx_evidence fx_scope 1 1 1 EvidenceKind.DeliverySuccess 64 0 0;
     fx_evidence fx_scope 2 2 1 EvidenceKind.DeliverySuccess 64 0 0].


(** ** Decisions on the wire *)

Definition fx_authority : AuthorityVector :=
  MkAuthority AuthorityStage.Observation (MkId 0) (MkId 0) fx_gens (MkId 3) (MkId 5) (MkId 1) fx_now
    (MkWall 0) false ReasonCode.None Provenance.Synthetic.
Definition fx_decision : Decision :=
  MkDecision (MkId 77) DecisionKind.Diagnosis Ok fx_scope fx_gens Classification.Blackhole ReasonCode.None
    [ReasonCode.None] fx_authority (census (classify fx_restore_request)) false ReasonCode.None
    false nil_localization false nil_intent Provenance.Synthetic (MkId 1) (MkId 3) (MkId 5) fx_now.

Ltac widths := repeat split; try (vm_compute; discriminate); try (vm_compute; reflexivity).

Lemma fx_decision_valid : valid fx_decision.
Proof.
  change (valid_Decision fx_decision).
  unfold valid_Decision. split_and!; try (vm_compute; reflexivity);
    try (unfold valid, Codec_Scope, valid_Scope; split_and!; widths); try by widths.
  by repeat constructor.
Qed.

(** C34: a decision that fits the format decodes from its own serialisation to the same
    decision, whatever its optional localization and intent. *)
Theorem decision_roundtrip max (d : Decision) bs :
  valid d -> 0 <= max < 2 ^ 64 -> encode_bounded max d = Some bs -> decode_all decode bs = Done d.
Proof. apply roundtrip_bounded. Qed.

Example decision_roundtrip_witness :
  exists bs, encode_bounded kDefaultMaxDocumentBytes fx_decision = Some bs /\ decode_all decode bs = Done fx_decision.
Proof.
  destruct (encode_bounded kDefaultMaxDocumentBytes fx_decision) as [bs |] eqn:E; [| vm_compute in E; discriminate].
  exists bs. split; [reflexivity |].
  apply (decision_roundtrip kDefaultMaxDocumentBytes); [exact fx_decision_valid | vm_compute; split; [discriminate | reflexivity] | exact E].
Defined.

(** The encoding of decisions is not canonical: the decoder narrows the stored
    generation mismatch to eight bits before it tests it, so two different documents decode
    to the same decision. *)
Theorem decision_not_canonical :
  exists a b, a <> b /\ decode_all (decode (A := Decision)) a = Done fx_decision /\
    decode_all (decode (A := Decision)) b = Done fx_decision.
Proof.
  exists (image_Decision fx_decision).
  exists (take 273 (image_Decision fx_decision) ++ [x01] ++ drop 274 (image_Decision fx_decision)).
  split; [vm_compute; discriminate | split; vm_compute; reflexivity].
Qed.
