(* ===== verification/Record.v ===== *)
(** * Durable record framing and payloads

    Models [include/blackhole/persist/record.hpp] and [src/persist/record.cpp]: the frame
    of a journal record (magic, version, type, sequence, length and the two checksums), the
    header decoder, the torn-prefix test, and the payload codecs. A byte span is a
    [list byte]; [get_le] reads a field at an offset. *)
From Stdlib Require Import Strings.String.
From S2P Require Import Prelude Core Checked Codec Hash Ids Domain Fence Authority.
Local Open Scope string_scope.
Local Open Scope list_scope.
Local Open Scope Z_scope.

Module RecordType.
(** include/blackhole/persist/record.hpp:43-56 RecordType *)
Inductive t :=
| Boot | PolicyCommit | DecisionCommit | FenceIntentCommit | FenceAckCommit
| FenceEffectCommit | FenceRevokeCommit | RestorationCommit | InterruptionCommit
| EvidenceLineageCommit | EpochAdvance | Checkpoint.

Definition raw (e : t) : Z :=
  match e with
  | Boot => 1 | PolicyCommit => 2 | DecisionCommit => 3 | FenceIntentCommit => 4
  | FenceAckCommit => 5 | FenceEffectCommit => 6 | FenceRevokeCommit => 7
  | RestorationCommit => 8 | InterruptionCommit => 9 | EvidenceLineageCommit => 10
  | EpochAdvance => 11 | Checkpoint => 12
  end.

Definition all : list t :=
  [Boot; PolicyCommit; DecisionCommit; FenceIntentCommit; FenceAckCommit; FenceEffectCommit;
   FenceRevokeCommit; RestorationCommit; InterruptionCommit; EvidenceLineageCommit;
   EpochAdvance; Checkpoint].

(** include/blackhole/persist/record.hpp:58-58 is_valid(RecordType) *)
Definition is_valid (raw : Z) : bool := (1 <=? raw) && (raw <=? 12).

(** include/blackhole/persist/record.hpp:60-76 to_string(RecordType) *)
Definition to_string (e : t) : string :=
  match e with
  | Boot => "Boot" | PolicyCommit => "PolicyCommit" | DecisionCommit => "DecisionCommit"
  | FenceIntentCommit => "FenceIntentCommit" | FenceAckCommit => "FenceAckCommit"
  | FenceEffectCommit => "FenceEffectCommit" | FenceRevokeCommit => "FenceRevokeCommit"
  | RestorationCommit => "RestorationCommit" | InterruptionCommit => "InterruptionCommit"
  | EvidenceLineageCommit => "EvidenceLineageCommit" | EpochAdvance => "EpochAdvance"
  | Checkpoint => "Checkpoint"
  end.
End RecordType.

#[export] Instance RawEnum_RecordType : RawEnum RecordType.t := {
  to_raw := RecordType.raw; of_raw := pick RecordType.raw RecordType.all RecordType.Boot;
  is_valid_raw := fun z => (0 <=? z) && RecordType.is_valid z;
}.
#[export] Hint Unfold RecordType.is_valid : enum.
#[export] Instance RawEnumLaws_RecordType : RawEnumLaws RecordType.t.
Proof. solve_enum 0 12%nat. Qed.
#[export] Instance RecordType_eq_dec : EqDecision RecordType.t :=
  eq_dec_by_inj RecordType.raw (to_raw_inj (E := RecordType.t)).

(** include/blackhole/persist/record.hpp:36 kJournalMagic *)
Definition kJournalMagic : Z := 0x4A474842.
(** include/blackhole/persist/record.hpp:37 kSnapshotMagic *)
Definition kSnapshotMagic : Z := 0x53474842.
(** include/blackhole/persist/record.hpp:38 kJournalHeaderSize *)
Definition kJournalHeaderSize : Z := 24.
(** include/blackhole/persist/record.hpp:39 kJournalTrailerSize *)
Definition kJournalTrailerSize : Z := 4.
(** include/blackhole/version.hpp:25 kFormatVersion *)
Definition kFormatVersion : Z := 1.

(** ** Frames *)

(** [get_u16], [get_u32] and [get_u64] at an offset; the caller checked the size.
    src/persist/record.cpp:20-40 get_u16, get_u32, get_u64 *)
Definition get_le (n : nat) (off : nat) (bs : list byte) : Z := le_value (take n (drop off bs)).

(** The header fields before the checksum, shared by journal records and snapshots.
    src/persist/record.cpp:46-54 encode_record (header) *)
Definition header_fields (magic kind seq len : Z) : list byte :=
  le_bytes 4 magic ++ le_bytes 2 kFormatVersion ++ le_bytes 2 kind ++ le_bytes 8 seq ++ le_bytes 4 len.

(** The header with its checksum. src/persist/record.cpp:55-56 encode_record (header_crc) *)
Definition frame_header (magic kind seq len : Z) : list byte :=
  let h := header_fields magic kind seq len in h ++ le_bytes 4 (crc32c h).

(** src/persist/record.cpp:44-69 encode_record *)
Definition encode_record (type : RecordType.t) (seq : RecordSequence) (payload : list byte) (w : Writer) : Writer :=
  let header := frame_header kJournalMagic (to_raw type) (seq_value seq) (zlen payload) in
  let body := w_raw payload (w_raw header (new_Writer (max_ w))) in
  if negb (ok_ body) then w
  else w_raw (le_bytes 4 (crc32c (buf_ body))) (w_raw payload (w_raw header w)).

(** include/blackhole/persist/record.hpp:83-89 RecordHeader *)
Record RecordHeader := MkHeader {
  rh_version : Z;
  rh_type : RecordType.t;
  rh_seq : RecordSequence;
  rh_payload_len : Z;
  rh_header_crc : Z;
}.

(** src/persist/record.cpp:71-90 decode_record_header *)
Definition decode_record_header (header : list byte) (max_payload : Z) : Outcome + RecordHeader :=
  if zlen header <? kJournalHeaderSize then inl Malformed
  else if negb (get_le 4 0 header =? kJournalMagic) then inl Corrupt
  else
    let version := get_le 2 4 header in
    if negb (version =? kFormatVersion) then inl Unsupported
    else
      let type := get_le 2 6 header in
      if negb (is_valid_raw (E := RecordType.t) type) then inl Invalid
      else
        let payload_len := get_le 4 16 header in
        if max_payload <? payload_len then inl Oversized
        else
          let header_crc := get_le 4 20 header in
          if negb (crc32c (take 20 header) =? header_crc) then inl Corrupt
          else inr (MkHeader version (of_raw type) (MkSeq (get_le 8 8 header)) payload_len header_crc).

(** The test of byte [i] of a torn header. src/persist/record.cpp:94-120 is_valid_record_prefix (loop body) *)
Definition prefix_byte_ok (bs : list byte) (max_payload : Z) (i : nat) : bool :=
  let b := nth i bs x00 in
  if Nat.ltb i 4 then b == byte_at kJournalMagic (Z.of_nat i)
  else if Nat.eqb i 4 then b == byte_at kFormatVersion 0
  else if Nat.eqb i 5 then b == byte_at kFormatVersion 1
  else if Nat.eqb i 19 then get_le 4 16 bs <=? max_payload
  else true.

(** src/persist/record.cpp:92-122 is_valid_record_prefix *)
Definition is_valid_record_prefix (bs : list byte) (max_payload : Z) : bool :=
  forallb (prefix_byte_ok bs max_payload) (seq 0 (Nat.min (length bs) 24)).

(** src/persist/record.cpp:124-129 is_all_zero *)
Definition is_all_zero (bs : list byte) : bool := forallb (fun b => b == x00) bs.

(** ** Payloads *)

(** include/blackhole/persist/record.hpp:107-117 BootPayload *)
Record BootPayload := MkBoot {
  bp_boot : BootId;
  bp_incarnation : IncarnationId;
  bp_epoch : CoordinatorEpoch;
  bp_started_at : WallNs;
  bp_boot_count : Z;
  bp_open_count : Z;
  bp_policy : PolicyVersion;
  bp_policy_fingerprint : Z;
  bp_provenance : Provenance.t;
}.

(** src/persist/record.cpp:131-141 encode(BootPayload) *)
Definition encode_BootPayload (v : BootPayload) : Writer -> Writer :=
  seqw [encode (bp_boot v);
        encode (bp_incarnation v);
        encode (bp_epoch v);
        encode (bp_started_at v);
        w_u64 (bp_boot_count v);
        w_u64 (bp_open_count v);
        encode (bp_policy v);
        w_u64 (bp_policy_fingerprint v);
        w_enum8 (bp_provenance v)].

(** src/persist/record.cpp:143-168 decode(BootPayload) *)
Definition decode_BootPayload : Decoder BootPayload :=
  bp_boot_ ← decode (A := BootId);
  bp_incarnation_ ← decode (A := IncarnationId);
  bp_epoch_ ← decode (A := CoordinatorEpoch);
  bp_started_at_ ← decode (A := WallNs);
  bp_boot_count_ ← r_u64;
  bp_open_count_ ← r_u64;
  bp_policy_ ← decode (A := PolicyVersion);
  bp_policy_fingerprint_ ← r_u64;
  bp_provenance_ ← r_enum8 (E := Provenance.t);
  mret (MkBoot bp_boot_ bp_incarnation_ bp_epoch_ bp_started_at_ bp_boot_count_ bp_open_count_ bp_policy_ bp_policy_fingerprint_ bp_provenance_).

Definition image_BootPayload (v : BootPayload) : list byte :=
  concat [image (bp_boot v);
          image (bp_incarnation v);
          image (bp_epoch v);
          image (bp_started_at v);
          le_bytes 8 (bp_boot_count v);
          le_bytes 8 (bp_open_count v);
          image (bp_policy v);
          le_bytes 8 (bp_policy_fingerprint v);
          le_bytes 1 (to_raw (bp_provenance v))].

Definition valid_BootPayload (v : BootPayload) : Prop :=
  valid (bp_boot v) /\
  valid (bp_incarnation v) /\
  valid (bp_epoch v) /\
  valid (bp_started_at v) /\
  in_u64 (bp_boot_count v) /\
  in_u64 (bp_open_count v) /\
  valid (bp_policy v) /\
  in_u64 (bp_policy_fingerprint v).

#[export] Instance Codec_BootPayload : Codec BootPayload := {
  encode := encode_BootPayload; decode := decode_BootPayload; image := image_BootPayload; valid := valid_BootPayload;
}.

#[export] Instance CodecLaws_BootPayload : CodecLaws BootPayload.
Proof. codec_laws encode_BootPayload decode_BootPayload image_BootPayload valid_BootPayload. Qed.

#[export] Instance CanonicalCodec_BootPayload : CanonicalCodec BootPayload.
Proof. codec_canonical decode_BootPayload image_BootPayload valid_BootPayload. Qed.

(** include/blackhole/persist/record.hpp:119-128 InterruptionPayload *)
Record InterruptionPayload := MkInterruption {
  ip_reason : ReasonCode.t;
  ip_fence : FenceId;
  ip_decision : DecisionId;
  ip_scope : Scope;
  ip_prior_epoch : CoordinatorEpoch;
  ip_prior_boot : BootId;
  ip_prior_incarnation : IncarnationId;
  ip_at : WallNs;
}.

(** src/persist/record.cpp:170-179 encode(InterruptionPayload) *)
Definition encode_InterruptionPayload (v : InterruptionPayload) : Writer -> Writer :=
  seqw [w_enum16 (ip_reason v);
        encode (ip_fence v);
        encode (ip_decision v);
        encode (ip_scope v);
        encode (ip_prior_epoch v);
        encode (ip_prior_boot v);
        encode (ip_prior_incarnation v);
        encode (ip_at v)].

(** src/persist/record.cpp:181-204 decode(InterruptionPayload) *)
Definition decode_InterruptionPayload : Decoder InterruptionPayload :=
  ip_reason_ ← r_enum16 (E := ReasonCode.t);
  ip_fence_ ← decode (A := FenceId);
  ip_decision_ ← decode (A := DecisionId);
  ip_scope_ ← decode (A := Scope);
  ip_prior_epoch_ ← decode (A := CoordinatorEpoch);
  ip_prior_boot_ ← decode (A := BootId);
  ip_prior_incarnation_ ← decode (A := IncarnationId);
  ip_at_ ← decode (A := WallNs);
  mret (MkInterruption ip_reason_ ip_fence_ ip_decision_ ip_scope_ ip_prior_epoch_ ip_prior_boot_ ip_prior_incarnation_ ip_at_).

Definition image_InterruptionPayload (v : InterruptionPayload) : list byte :=
  concat [le_bytes 2 (to_raw (ip_reason v));
          image (ip_fence v);
          image (ip_decision v);
          image (ip_scope v);
          image (ip_prior_epoch v);
          image (ip_prior_boot v);
          image (ip_prior_incarnation v);
          image (ip_at v)].

Definition valid_InterruptionPayload (v : InterruptionPayload) : Prop :=
  valid (ip_fence v) /\
  valid (ip_decision v) /\
  valid (ip_scope v) /\
  valid (ip_prior_epoch v) /\
  valid (ip_prior_boot v) /\
  valid (ip_prior_incarnation v) /\
  valid (ip_at v).

#[export] Instance Codec_InterruptionPayload : Codec InterruptionPayload := {
  encode := encode_InterruptionPayload; decode := decode_InterruptionPayload; image := image_InterruptionPayload; valid := valid_InterruptionPayload;
}.

#[export] Instance CodecLaws_InterruptionPayload : CodecLaws InterruptionPayload.
Proof. codec_laws encode_InterruptionPayload decode_InterruptionPayload image_InterruptionPayload valid_InterruptionPayload. Qed.

#[export] Instance CanonicalCodec_InterruptionPayload : CanonicalCodec InterruptionPayload.
Proof. codec_canonical decode_InterruptionPayload image_InterruptionPayload valid_InterruptionPayload. Qed.

(** The lifecycle is stored as a byte that every writer casts from the enumeration and the
    decoder validates. include/blackhole/persist/record.hpp:130-139 FenceStatePayload *)
Record FenceStatePayload := MkFenceState {
  fp_intent : FenceIntent;
  fp_lifecycle : FenceLifecycle.t;
  fp_effect_verified : bool;
  fp_ack_owner : EvidenceSourceId;
  fp_effect_owner : EvidenceSourceId;
  fp_acked_at : WallNs;
  fp_effected_at : WallNs;
  fp_terminal_reason : ReasonCode.t;
}.

(** src/persist/record.cpp:206-215 encode(FenceStatePayload) *)
Definition encode_FenceStatePayload (v : FenceStatePayload) : Writer -> Writer :=
  seqw [encode (fp_intent v);
        w_enum8 (fp_lifecycle v);
        w_boolean (fp_effect_verified v);
        encode (fp_ack_owner v);
        encode (fp_effect_owner v);
        encode (fp_acked_at v);
        encode (fp_effected_at v);
        w_enum16 (fp_terminal_reason v)].

(** src/persist/record.cpp:217-241 decode(FenceStatePayload) *)
Definition decode_FenceStatePayload : Decoder FenceStatePayload :=
  fp_intent_ ← decode (A := FenceIntent);
  fp_lifecycle_ ← r_enum8 (E := FenceLifecycle.t);
  fp_effect_verified_ ← r_boolean;
  fp_ack_owner_ ← decode (A := EvidenceSourceId);
  fp_effect_owner_ ← decode (A := EvidenceSourceId);
  fp_acked_at_ ← decode (A := WallNs);
  fp_effected_at_ ← decode (A := WallNs);
  fp_terminal_reason_ ← r_enum16 (E := ReasonCode.t);
  mret (MkFenceState fp_intent_ fp_lifecycle_ fp_effect_verified_ fp_ack_owner_ fp_effect_owner_ fp_acked_at_ fp_effected_at_ fp_terminal_reason_).

Definition image_FenceStatePayload (v : FenceStatePayload) : list byte :=
  concat [image (fp_intent v);
          le_bytes 1 (to_raw (fp_lifecycle v));
          le_bytes 1 (Z.b2z (fp_effect_verified v));
          image (fp_ack_owner v);
          image (fp_effect_owner v);
          image (fp_acked_at v);
          image (fp_effected_at v);
          le_bytes 2 (to_raw (fp_terminal_reason v))].

Definition valid_FenceStatePayload (v : FenceStatePayload) : Prop :=
  valid (fp_intent v) /\
  valid (fp_ack_owner v) /\
  valid (fp_effect_owner v) /\
  valid (fp_acked_at v) /\
  valid (fp_effected_at v).

#[export] Instance Codec_FenceStatePayload : Codec FenceStatePayload := {
  encode := encode_FenceStatePayload; decode := decode_FenceStatePayload; image := image_FenceStatePayload; valid := valid_FenceStatePayload;
}.

#[export] Instance CodecLaws_FenceStatePayload : CodecLaws FenceStatePayload.
Proof. codec_laws encode_FenceStatePayload decode_FenceStatePayload image_FenceStatePayload valid_FenceStatePayload. Qed.

#[export] Instance CanonicalCodec_FenceStatePayload : CanonicalCodec FenceStatePayload.
Proof. codec_canonical decode_FenceStatePayload image_FenceStatePayload valid_FenceStatePayload. Qed.

(** include/blackhole/persist/record.hpp:141-145 CheckpointPayload *)
Record CheckpointPayload := MkCheckpoint {
  cp_snapshot_seq : RecordSequence;
  cp_epoch : CoordinatorEpoch;
  cp_journal_generation : Z;
}.

(** src/persist/record.cpp:243-247 encode(CheckpointPayload) *)
Definition encode_CheckpointPayload (v : CheckpointPayload) : Writer -> Writer :=
  seqw [encode (cp_snapshot_seq v);
        encode (cp_epoch v);
        w_u64 (cp_journal_generation v)].

(** src/persist/record.cpp:249-259 decode(CheckpointPayload) *)
Definition decode_CheckpointPayload : Decoder CheckpointPayload :=
  cp_snapshot_seq_ ← decode (A := RecordSequence);
  cp_epoch_ ← decode (A := CoordinatorEpoch);
  cp_journal_generation_ ← r_u64;
  mret (MkCheckpoint cp_snapshot_seq_ cp_epoch_ cp_journal_generation_).

Definition image_CheckpointPayload (v : CheckpointPayload) : list byte :=
  concat [image (cp_snapshot_seq v);
          image (cp_epoch v);
          le_bytes 8 (cp_journal_generation v)].

Definition valid_CheckpointPayload (v : CheckpointPayload) : Prop :=
  valid (cp_snapshot_seq v) /\
  valid (cp_epoch v) /\
  in_u64 (cp_journal_generation v).

#[export] Instance Codec_CheckpointPayload : Codec CheckpointPayload := {
  encode := encode_CheckpointPayload; decode := decode_CheckpointPayload; image := image_CheckpointPayload; valid := valid_CheckpointPayload;
}.

#[export] Instance CodecLaws_CheckpointPayload : CodecLaws CheckpointPayload.
Proof. codec_laws encode_CheckpointPayload decode_CheckpointPayload image_CheckpointPayload valid_CheckpointPayload. Qed.

#[export] Instance CanonicalCodec_CheckpointPayload : CanonicalCodec CheckpointPayload.
Proof. codec_canonical decode_CheckpointPayload image_CheckpointPayload valid_CheckpointPayload. Qed.

(** ** Frames as byte images *)

Definition record_header (type : RecordType.t) (seq : RecordSequence) (payload : list byte) : list byte :=
  frame_header kJournalMagic (to_raw type) (seq_value seq) (zlen payload).

(** The bytes of a journal record. *)
Definition record_image (type : RecordType.t) (seq : RecordSequence) (payload : list byte) : list byte :=
  let body := record_header type seq payload ++ payload in body ++ le_bytes 4 (crc32c body).

Lemma length_header_fields magic kind seq len : length (header_fields magic kind seq len) = 20%nat.
Proof. unfold header_fields. by rewrite !length_app, !length_le_bytes. Qed.

Lemma length_frame_header magic kind seq len : length (frame_header magic kind seq len) = 24%nat.
Proof. unfold frame_header. by rewrite length_app, length_header_fields, length_le_bytes. Qed.

Lemma length_record_image type seq payload :
  length (record_image type seq payload) = (length payload + 28)%nat.
Proof.
  unfold record_image, record_header. rewrite !length_app, length_frame_header, length_le_bytes. lia.
Qed.

Lemma zlen_record_image type seq payload : zlen (record_image type seq payload) = 28 + zlen payload.
Proof. unfold zlen. rewrite length_record_image. lia. Qed.

(** Reading back a field of known offset. *)
Lemma get_le_app n a v b :
  0 <= v < 256 ^ Z.of_nat n -> get_le n (length a) (a ++ le_bytes n v ++ b) = v.
Proof.
  intros Hv. unfold get_le. rewrite drop_app_length.
  rewrite <- (length_le_bytes n v) at 1. rewrite take_app_length. by apply le_value_bytes_small.
Qed.

Lemma get_le_weaken n off bs tail :
  (off + n <= length bs)%nat -> get_le n off (bs ++ tail) = get_le n off bs.
Proof.
  intros Hl. unfold get_le. rewrite drop_app_le by lia. rewrite take_app_le by (rewrite length_drop; lia). done.
Qed.

(** A field determines the bytes it was read from. *)
Lemma get_le_bytes n off bs : (off + n <= length bs)%nat -> le_bytes n (get_le n off bs) = take n (drop off bs).
Proof.
  intros Hl. unfold get_le.
  assert (length (take n (drop off bs)) = n) as Hn by (rewrite length_take, length_drop; lia).
  rewrite <- Hn at 1. apply le_bytes_value.
Qed.

Lemma header_fields_get magic kind seq len tail :
  in_u32 magic -> in_u16 kind -> in_u64 seq -> in_u32 len ->
  let h := header_fields magic kind seq len ++ tail in
  get_le 4 0 h = magic /\ get_le 2 4 h = kFormatVersion /\ get_le 2 6 h = kind /\
  get_le 8 8 h = seq /\ get_le 4 16 h = len.
Proof.
  intros Hm Hk Hs Hl. unfold header_fields. cbn zeta. unfold in_u in *. rewrite <- !app_assoc.
  split_and!.
  - by apply (get_le_app 4 []).
  - by apply (get_le_app 2 (le_bytes 4 magic)).
  - rewrite app_assoc. by apply (get_le_app 2 (le_bytes 4 magic ++ le_bytes 2 kFormatVersion)).
  - rewrite (app_assoc (le_bytes 2 kFormatVersion)), app_assoc.
    by apply (get_le_app 8 (le_bytes 4 magic ++ le_bytes 2 kFormatVersion ++ le_bytes 2 kind)).
  - rewrite (app_assoc (le_bytes 2 kind)), (app_assoc (le_bytes 2 kFormatVersion)), app_assoc.
    by apply (get_le_app 4 (le_bytes 4 magic ++ le_bytes 2 kFormatVersion ++ le_bytes 2 kind ++ le_bytes 8 seq)).
Qed.

(** The fields of twenty bytes determine them. *)
Lemma header_fields_put bs :
  (20 <= length bs)%nat -> get_le 2 4 bs = kFormatVersion ->
  header_fields (get_le 4 0 bs) (get_le 2 6 bs) (get_le 8 8 bs) (get_le 4 16 bs) = take 20 bs.
Proof.
  intros Hl Hv. unfold header_fields. rewrite <- Hv. rewrite !get_le_bytes by lia.
  rewrite drop_0.
  replace (drop 16 bs) with (drop 8 (drop 8 bs)) by (rewrite drop_drop; done).
  replace (drop 8 bs) with (drop 2 (drop 6 bs)) by (rewrite drop_drop; done).
  replace (drop 6 bs) with (drop 2 (drop 4 bs)) by (rewrite drop_drop; done).
  assert (forall (l : list byte) n m, take n l ++ take m (drop n l) = take (n + m) l) as Ht.
  { intros l n m. rewrite <- (take_drop n (take (n + m) l)) . rewrite take_take, skipn_firstn_comm.
    f_equal; f_equal; lia. }
  by rewrite !Ht.
Qed.

Lemma record_type_u16 (t : RecordType.t) : in_u16 (to_raw t).
Proof. pose proof (to_raw_range t). unfold in_u. lia. Qed.

Lemma crc32c_u32 bs : in_u32 (crc32c bs).
Proof. apply crc32c_range. Qed.

(** Decoding a written header gives back its fields. *)
Lemma decode_header_written type seq len max :
  in_u64 (seq_value seq) -> 0 <= len <= max -> in_u32 max ->
  decode_record_header (frame_header kJournalMagic (to_raw type) (seq_value seq) len) max =
  inr (MkHeader kFormatVersion type seq len
         (crc32c (header_fields kJournalMagic (to_raw type) (seq_value seq) len))).
Proof.
  intros Hs Hl Hm. unfold decode_record_header, frame_header. cbn zeta.
  set (f := header_fields kJournalMagic (to_raw type) (seq_value seq) len).
  assert (in_u32 len) as Hlen by (unfold in_u in *; lia).
  pose proof (header_fields_get kJournalMagic (to_raw type) (seq_value seq) len (le_bytes 4 (crc32c f))
                ltac:(done) (record_type_u16 type) Hs Hlen) as (H1 & H2 & H3 & H4 & H5).
  fold f in H1, H2, H3, H4, H5.
  assert (get_le 4 20 (f ++ le_bytes 4 (crc32c f)) = crc32c f) as H6.
  { pose proof (crc32c_u32 f). rewrite <- (app_nil_r (f ++ _)), <- app_assoc.
    rewrite <- (length_header_fields kJournalMagic (to_raw type) (seq_value seq) len). by apply get_le_app. }
  rewrite H1, H2, H3, H4, H5, H6. rewrite zlen_app, zlen_le_bytes. unfold zlen at 1.
  unfold f at 1. rewrite length_header_fields, valid_to_raw, !Z.eqb_refl. cbn [negb].
  destruct (Z.ltb_spec max len); [lia |].
  rewrite of_to_raw. by destruct seq.
Qed.

(** Whatever header the decoder accepts is the written one. *)
Lemma decode_header_accepts bs max h :
  decode_record_header bs max = inr h ->
  take 24 bs = frame_header kJournalMagic (to_raw (rh_type h)) (seq_value (rh_seq h)) (rh_payload_len h) /\
  (24 <= length bs)%nat /\ rh_payload_len h <= max /\ in_u32 (rh_payload_len h) /\ in_u64 (seq_value (rh_seq h)).
Proof.
  unfold decode_record_header, kJournalHeaderSize, zlen. cbn zeta.
  destruct (Z.ltb_spec (Z.of_nat (length bs)) 24); [done |].
  destruct (Z.eqb_spec (get_le 4 0 bs) kJournalMagic) as [Hm |]; [| done]. cbn [negb].
  destruct (Z.eqb_spec (get_le 2 4 bs) kFormatVersion) as [Hv |]; [| done]. cbn [negb].
  destruct (is_valid_raw (E := RecordType.t) (get_le 2 6 bs)) eqn:Ht; [| done]. cbn [negb].
  destruct (Z.ltb_spec max (get_le 4 16 bs)); [done |].
  destruct (Z.eqb_spec (crc32c (take 20 bs)) (get_le 4 20 bs)) as [Hc |]; [| done]. cbn [negb].
  pose proof (to_of_raw (E := RecordType.t) _ Ht) as Hty. revert Hty.
  generalize (of_raw (E := RecordType.t) (get_le 2 6 bs)). intros ty Hty [= <-].
  cbn [rh_type rh_seq rh_payload_len seq_value].
  assert (forall n off, (off + n <= length bs)%nat -> 0 <= get_le n off bs < 256 ^ Z.of_nat n) as Hr.
  { intros n off Ho. unfold get_le. pose proof (le_value_range (take n (drop off bs))) as Hx.
    unfold zlen in Hx. rewrite length_take, length_drop in Hx.
    by replace (Nat.min n (length bs - off)) with n in Hx by lia. }
  split_and!; [| lia | done | exact (Hr 4%nat 16%nat ltac:(lia)) | exact (Hr 8%nat 8%nat ltac:(lia))].
  unfold frame_header. cbn zeta. rewrite Hty.
  pose proof (header_fields_put bs ltac:(lia) Hv) as Hp. rewrite Hm in Hp. rewrite Hp.
  rewrite Hc, get_le_bytes by lia.
  rewrite <- (take_drop 20 (take 24 bs)), take_take, skipn_firstn_comm. done.
Qed.

(** Appending what fits. *)
Lemma put_fits b bs max :
  zlen bs + zlen b <= max -> max < 2 ^ 64 -> put b (MkWriter bs max true) = MkWriter (bs ++ b) max true.
Proof.
  intros Hb Hm. pose proof (zlen_nonneg b). pose proof (zlen_nonneg bs).
  rewrite put_eq by (cbn [buf_ max_]; lia). cbn [ok_ max_ buf_ negb].
  by destruct (Z.ltb_spec max (zlen bs + zlen b)); [lia |].
Qed.

Lemma encode_record_image type seq payload max :
  28 + zlen payload <= max < 2 ^ 64 ->
  encode_record type seq payload (new_Writer max) = MkWriter (record_image type seq payload) max true.
Proof.
  intros Hm. pose proof (zlen_nonneg payload).
  unfold encode_record, w_raw. cbn zeta. fold (record_header type seq payload).
  set (h := record_header type seq payload).
  assert (zlen h = 24) as Hh by (unfold zlen, h, record_header; by rewrite length_frame_header).
  change (max_ (new_Writer max)) with max. change (new_Writer max) with (MkWriter [] max true).
  rewrite !put_fits by (rewrite ?zlen_app, ?zlen_nil; lia). cbn [ok_ negb buf_ app].
  rewrite put_fits by (rewrite ?zlen_app, ?zlen_le_bytes; lia).
  unfold record_image. fold h. done.
Qed.
