(* ===== verification/Journal.v ===== *)
(** * The append-only journal

    Models [include/blackhole/persist/journal.hpp] and [src/persist/journal.cpp] over a
    small model of the files the store owns. A fallible call of the C library takes the
    next entry of [faults]: [None] or an exhausted list is success, [Some k] a failure
    after [k] of the bytes at hand took effect. [fwrite] appends to the stream's buffer,
    [fflush] with [fsync] moves the buffer to the file. *)
From Stdlib Require Import Strings.String.
From S2P Require Import Prelude Core Checked Codec Hash Ids Domain Fence Authority Record.
Local Open Scope string_scope.
Local Open Scope list_scope.
Local Open Scope Z_scope.

(** ** Files *)

(** The regular files of a state root; [None] is an absent file. *)
Record Disk := MkDisk {
  journal_file : option (list byte);
  snapshot_file : option (list byte);
  staging_file : option (list byte);
  faults : list (option nat);
}.

Definition set_journal (f : option (list byte)) (d : Disk) : Disk :=
  MkDisk f (snapshot_file d) (staging_file d) (faults d).
Definition set_snapshot (f : option (list byte)) (d : Disk) : Disk :=
  MkDisk (journal_file d) f (staging_file d) (faults d).
Definition set_staging (f : option (list byte)) (d : Disk) : Disk :=
  MkDisk (journal_file d) (snapshot_file d) f (faults d).

(** The verdict on the next fallible call. *)
Definition fault (d : Disk) : option nat * Disk :=
  match faults d with
  | [] => (None, d)
  | f :: fs => (f, MkDisk (journal_file d) (snapshot_file d) (staging_file d) fs)
  end.

(** [file_size(path)]: 0 when absent. src/persist/journal.cpp:238-243 file_size *)
Definition file_size (f : option (list byte)) : Z := match f with Some bs => zlen bs | None => 0 end.

(** src/persist/journal.cpp:31-50 read_whole_file *)
Definition read_whole_file (max_bytes : Z) (d : Disk) : (Outcome + list byte) * Disk :=
  match fault d with
  | (Some _, d) => (inl NotFound, d)
  | (None, d) =>
      match journal_file d with
      | None => (inl NotFound, d)
      | Some data =>
          if max_bytes <? zlen data then (inl Oversized, d)
          else
            match fault d with
            | (Some _, d) => (inl NotFound, d)
            | (None, d) =>
                match fault d with
                | (Some _, d) => (inl Corrupt, d)
                | (None, d) => (inr data, d)
                end
            end
      end
  end.

(** ** The writer *)

(** [stream]: the file is open, with the bytes not yet flushed.
    include/blackhole/persist/journal.hpp:46-69 JournalWriter *)
Record JournalWriter := MkJournal {
  stream : option (list byte);
  bytes_ : Z;
  pending_ : Z;
}.

Definition new_JournalWriter : JournalWriter := MkJournal None 0 0.

(** Flush and sync: the buffer left behind, whether the call succeeded, and the file.
    src/persist/journal.cpp:22-29 flush_and_sync *)
Definition flush_and_sync (buffered : list byte) (d : Disk) : list byte * bool * Disk :=
  match fault d with
  | (None, d) => ([], true, set_journal (Some (default [] (journal_file d) ++ buffered)) d)
  | (Some k, d) =>
      (drop k buffered, false, set_journal (Some (default [] (journal_file d) ++ take k buffered)) d)
  end.

(** [fclose] flushes what is left. src/persist/journal.cpp:96-103 JournalWriter::close *)
Definition journal_close (j : JournalWriter) (d : Disk) : Outcome * JournalWriter * Disk :=
  match stream j with
  | None => (Ok, j, d)
  | Some buffered =>
      let '(kept, ok, d) := flush_and_sync buffered d in
      let '(_, rc, d) := flush_and_sync kept d in
      (if ok && rc then Ok else Rejected, MkJournal None (bytes_ j) 0, d)
  end.

(** src/persist/journal.cpp:66-74 JournalWriter::open_append *)
Definition open_append (truncate : bool) (j : JournalWriter) (d : Disk) : Outcome * JournalWriter * Disk :=
  let '(_, j, d) := journal_close j d in
  match fault d with
  | (Some _, d) => (Unavailable, MkJournal None (bytes_ j) (pending_ j), d)
  | (None, d) =>
      let data := if truncate then [] else default [] (journal_file d) in
      let d := set_journal (Some data) d in
      (Ok, MkJournal (Some []) (if truncate then 0 else file_size (journal_file d)) 0, d)
  end.

(** src/persist/journal.cpp:76-87 JournalWriter::append *)
Definition journal_append (type : RecordType.t) (seq : RecordSequence) (payload : list byte)
  (j : JournalWriter) (d : Disk) : Outcome * JournalWriter * Disk :=
  match stream j with
  | None => (Invalid, j, d)
  | Some buffered =>
      let w := encode_record type seq payload
                 (new_Writer (zlen payload + kJournalHeaderSize + kJournalTrailerSize)) in
      if negb (ok_ w) then (Exhausted, j, d)
      else
        match fault d with
        | (Some k, d) => (Rejected, MkJournal (Some (buffered ++ take k (buf_ w))) (bytes_ j) (pending_ j), d)
        | (None, d) =>
            (Ok, MkJournal (Some (buffered ++ buf_ w)) (u64_add (bytes_ j) (zlen (buf_ w)))
                   (u64_add (pending_ j) (zlen (buf_ w))), d)
        end
  end.

(** src/persist/journal.cpp:89-94 JournalWriter::commit *)
Definition journal_commit (j : JournalWriter) (d : Disk) : Outcome * JournalWriter * Disk :=
  match stream j with
  | None => (Invalid, j, d)
  | Some buffered =>
      let '(kept, ok, d) := flush_and_sync buffered d in
      if negb ok then (Rejected, MkJournal (Some kept) (bytes_ j) (pending_ j), d)
      else (Ok, MkJournal (Some kept) (bytes_ j) 0, d)
  end.

(** ** The scanner *)

(** include/blackhole/persist/journal.hpp:28-39 JournalScanReport *)
Record JournalScanReport := MkReport {
  jr_outcome : Outcome;
  jr_records : Z;
  jr_valid_bytes : Z;
  jr_tail_bytes : Z;
  jr_torn_tail : bool;
  jr_zero_tail : bool;
  jr_last_seq : RecordSequence;
  jr_detail : string;
}.

Definition new_report : JournalScanReport := MkReport Ok 0 0 0 false false (MkSeq 0) "".

(** [report.outcome = o; report.detail = why; return o;] *)
Definition scan_refuse (o : Outcome) (why : string) (r : JournalScanReport) : JournalScanReport :=
  MkReport o (jr_records r) (jr_valid_bytes r) (jr_tail_bytes r) (jr_torn_tail r) (jr_zero_tail r)
    (jr_last_seq r) why.

Definition scan_tail_bytes (n : Z) (r : JournalScanReport) : JournalScanReport :=
  MkReport (jr_outcome r) (jr_records r) (jr_valid_bytes r) n (jr_torn_tail r) (jr_zero_tail r)
    (jr_last_seq r) (jr_detail r).

Definition scan_zero_tail (n : Z) (r : JournalScanReport) : JournalScanReport :=
  MkReport Ok (jr_records r) (jr_valid_bytes r) n (jr_torn_tail r) true (jr_last_seq r)
    "all-zero preallocated tail".

Definition scan_torn_tail (n : Z) (r : JournalScanReport) : JournalScanReport :=
  MkReport Ok (jr_records r) (jr_valid_bytes r) n true (jr_zero_tail r) (jr_last_seq r)
    "torn tail recovered".

Definition scan_finished (r : JournalScanReport) : JournalScanReport :=
  MkReport Ok (jr_records r) (jr_valid_bytes r) (jr_tail_bytes r) (jr_torn_tail r) (jr_zero_tail r)
    (jr_last_seq r) (if String.eqb (jr_detail r) "" then "journal scanned" else jr_detail r).

(** [++records; valid_bytes = pos; last_seq = seq;] *)
Definition scan_count (seq : RecordSequence) (need : Z) (r : JournalScanReport) : JournalScanReport :=
  MkReport (jr_outcome r) (jr_records r + 1) (jr_valid_bytes r + need) (jr_tail_bytes r)
    (jr_torn_tail r) (jr_zero_tail r) seq (jr_detail r).

Section Scan.
(** The visitor: its state and its method. include/blackhole/persist/journal.hpp:18-26 RecordVisitor *)
Context {S : Type} (visit : RecordType.t -> RecordSequence -> list byte -> S -> Outcome * S).
Context (max_payload max_records : Z).

(** One iteration on the unread bytes [data]: stop with a report, or go on behind a record.
    src/persist/journal.cpp:125-216 scan_journal (loop body) *)
Definition scan_step (data : list byte) (expected : RecordSequence) (r : JournalScanReport) (s : S)
  : (JournalScanReport * S) + (list byte * RecordSequence * JournalScanReport * S) :=
  let remaining := zlen data in
  if remaining =? 0 then inl (scan_finished r, s)
  else if remaining <? kJournalHeaderSize then
    if is_all_zero data then inl (scan_zero_tail remaining r, s)
    else if negb (is_valid_record_prefix data max_payload) then
      inl (scan_refuse Corrupt "trailing bytes are not a valid record prefix" (scan_tail_bytes remaining r), s)
    else inl (scan_torn_tail remaining r, s)
  else
    let header := take 24 data in
    if negb (get_le 4 0 header =? kJournalMagic) then
      if is_all_zero data then inl (scan_zero_tail remaining r, s)
      else inl (scan_refuse Corrupt "bad record magic" r, s)
    else
      match decode_record_header header max_payload with
      | inl o => inl (scan_refuse o "record header rejected" r, s)
      | inr rh =>
          if rh_seq rh != expected then
            inl (scan_refuse Corrupt "record sequence regression or gap" r, s)
          else
            let need := kJournalHeaderSize + rh_payload_len rh + kJournalTrailerSize in
            if remaining <? need then
              if negb (is_valid_record_prefix (take 24 data) max_payload) then
                inl (scan_refuse Corrupt "truncated record with inconsistent header" r, s)
              else inl (scan_torn_tail remaining r, s)
            else
              let body := take (Z.to_nat (kJournalHeaderSize + rh_payload_len rh)) data in
              let stored_crc := get_le 4 (Z.to_nat (kJournalHeaderSize + rh_payload_len rh)) data in
              if negb (crc32c body =? stored_crc) then
                inl (scan_refuse Corrupt "record integrity check failed" r, s)
              else if max_records <=? jr_records r then
                inl (scan_refuse Exhausted "journal record bound exceeded" r, s)
              else
                match visit (rh_type rh) (rh_seq rh) (drop 24 body) s with
                | (Ok, s) =>
                    inr (drop (Z.to_nat need) data, MkSeq (wrap 64 (seq_value (rh_seq rh) + 1)),
                         scan_count (rh_seq rh) need r, s)
                | (o, s) => inl (scan_refuse o "record payload rejected during replay" r, s)
                end
      end.

(** src/persist/journal.cpp:122-222 scan_journal (loop); every record takes at least 28
    bytes, so the number of bytes is fuel enough. *)
Fixpoint scan_loop (fuel : nat) (data : list byte) (expected : RecordSequence) (r : JournalScanReport) (s : S)
  : JournalScanReport * S :=
  match fuel with
  | O => (scan_finished r, s)
  | Datatypes.S fuel =>
      match scan_step data expected r s with
      | inl done => done
      | inr (data, expected, r, s) => scan_loop fuel data expected r s
      end
  end.

Definition scan_bytes (data : list byte) (first_seq : RecordSequence) (s : S) : JournalScanReport * S :=
  scan_loop (Datatypes.S (length data)) data
    (MkSeq (if seq_value first_seq =? 0 then 1 else seq_value first_seq)) new_report s.

(** src/persist/journal.cpp:105-222 scan_journal *)
Definition scan_journal (max_bytes : Z) (first_seq : RecordSequence) (s : S) (d : Disk)
  : JournalScanReport * S * Disk :=
  match journal_file d with
  | None => (scan_refuse Ok "journal absent" new_report, s, d)
  | Some _ =>
      match read_whole_file max_bytes d with
      | (inl o, d) => (scan_refuse o "journal unreadable or oversized" new_report, s, d)
      | (inr data, d) => let '(r, s) := scan_bytes data first_seq s in (r, s, d)
      end
  end.
End Scan.

(** src/persist/journal.cpp:224-236 truncate_file *)
Definition truncate_journal (size : Z) (d : Disk) : Outcome * Disk :=
  match journal_file d with
  | None => (NotFound, d)
  | Some data =>
      match fault d with
      | (Some _, d) => (Rejected, d)
      | (None, d) =>
          (Ok, set_journal (Some (take (Z.to_nat size) data ++ replicate (Z.to_nat size - length data) x00)) d)
      end
  end.
