(* ===== verification/JournalSpec.v ===== *)
(** * What the journal scanner recovers

    A journal is the concatenation of the images of its records with consecutive
    sequence numbers. The scanner replays exactly the records of such a file, recovers every
    prefix of it (a crash may cut the file anywhere), and accepts nothing else. *)
From Stdlib Require Import Strings.String.
From S2P Require Import Prelude Core Checked Codec Hash Ids Domain Fence Authority Record Journal.
Local Open Scope string_scope.
Local Open Scope list_scope.
Local Open Scope Z_scope.

(** A record: its type and its payload. *)
Abbreviation Entry := (RecordType.t * list byte)%type.

(** The bytes of consecutive records from sequence number [n]. *)
Fixpoint journal_image (n : Z) (es : list Entry) : list byte :=
  match es with
  | [] => []
  | (t, p) :: es => record_image t (MkSeq n) p ++ journal_image (n + 1) es
  end.

(** Records small enough for the scanner. *)
Definition entries_ok (max_payload : Z) (es : list Entry) : Prop :=
  Forall (fun e => zlen e.2 <= max_payload) es.

Lemma journal_image_app n es fs :
  journal_image n (es ++ fs) = journal_image n es ++ journal_image (n + zlen es) fs.
Proof.
  revert n. induction es as [| [t p] es IH]; intros n; cbn [journal_image app].
  - by rewrite zlen_nil, Z.add_0_r.
  - rewrite IH, zlen_cons, app_assoc. by replace (n + (1 + zlen es)) with (n + 1 + zlen es) by lia.
Qed.

(** The first byte of a record is not zero. *)
Lemma record_image_head t n p : exists tl, record_image t n p = x42 :: tl.
Proof.
  unfold record_image, record_header, frame_header, header_fields.
  change (le_bytes 4 kJournalMagic) with [x42; x48; x47; x4a]. cbn zeta. cbn [app]. eauto.
Qed.

Section Steps.
Context {St : Type} (visit : RecordType.t -> RecordSequence -> list byte -> St -> Outcome * St).
Context (max_payload max_records : Z) (Hmax : in_u32 max_payload).

(** Apply the visitor to consecutive records, up to the first refusal. *)
Fixpoint replay (n : Z) (es : list Entry) (s : St) : Outcome * St :=
  match es with
  | [] => (Ok, s)
  | (t, p) :: es =>
      match visit t (MkSeq n) p s with
      | (Ok, s) => replay (n + 1) es s
      | r => r
      end
  end.

Lemma replay_app n es fs s :
  replay n (es ++ fs) s =
  match replay n es s with (Ok, s) => replay (n + zlen es) fs s | r => r end.
Proof.
  revert n s. induction es as [| [t p] es IH]; intros n s; cbn [replay app].
  - by rewrite zlen_nil, Z.add_0_r.
  - destruct (visit t (MkSeq n) p s) as [o s']. destruct o; try done.
    rewrite IH, zlen_cons. by replace (n + (1 + zlen es)) with (n + 1 + zlen es) by lia.
Qed.

Lemma zlen_take_le {A} (n : nat) (l : list A) : (n <= length l)%nat -> zlen (take n l) = Z.of_nat n.
Proof. intros Hl. unfold zlen. rewrite length_take. lia. Qed.

Lemma take_record_header t n p tail : take 24 (record_image t n p ++ tail) = record_header t n p.
Proof.
  unfold record_image. cbn zeta. rewrite <- !app_assoc. rewrite take_app_le by (by unfold record_header; rewrite length_frame_header).
  apply take_ge. unfold record_header. by rewrite length_frame_header.
Qed.

Lemma header_magic t n p tail : get_le 4 0 (record_header t n p ++ tail) = kJournalMagic.
Proof.
  unfold record_header, frame_header, header_fields. cbn zeta. rewrite <- !app_assoc.
  apply (get_le_app 4 []). done.
Qed.

(** One whole record in front of the scanner. *)
Lemma scan_step_record t n p tail r s :
  in_u64 n -> zlen p <= max_payload ->
  scan_step visit max_payload max_records (record_image t (MkSeq n) p ++ tail) (MkSeq n) r s =
  if max_records <=? jr_records r then inl (scan_refuse Exhausted "journal record bound exceeded" r, s)
  else
    match visit t (MkSeq n) p s with
    | (Ok, s) => inr (tail, MkSeq (wrap 64 (n + 1)), scan_count (MkSeq n) (28 + zlen p) r, s)
    | (o, s) => inl (scan_refuse o "record payload rejected during replay" r, s)
    end.
Proof.
  intros Hn Hp. pose proof (zlen_nonneg p). pose proof (zlen_nonneg tail).
  unfold scan_step. cbn zeta. rewrite take_record_header.
  rewrite <- (app_nil_r (record_header _ _ _)) at 1. rewrite header_magic, Z.eqb_refl. cbn [negb].
  rewrite zlen_app, zlen_record_image.
  destruct (Z.eqb_spec (28 + zlen p + zlen tail) 0); [lia |].
  unfold kJournalHeaderSize, kJournalTrailerSize. destruct (Z.ltb_spec (28 + zlen p + zlen tail) 24); [lia |].
  unfold record_header. rewrite decode_header_written by (done || lia). cbn [rh_seq rh_payload_len rh_type].
  rewrite beq_refl. cbn [negb].
  destruct (Z.ltb_spec (28 + zlen p + zlen tail) (24 + zlen p + 4)); [lia |].
  replace (Z.to_nat (24 + zlen p)) with (length (record_header t (MkSeq n) p ++ p))
    by (rewrite length_app; unfold record_header, zlen; rewrite length_frame_header; lia).
  assert (record_image t (MkSeq n) p ++ tail =
          (record_header t (MkSeq n) p ++ p) ++ le_bytes 4 (crc32c (record_header t (MkSeq n) p ++ p)) ++ tail) as ->
    by (unfold record_image; cbn zeta; by rewrite <- !app_assoc).
  set (b := record_header t (MkSeq n) p ++ p).
  rewrite take_app_length, get_le_app by apply crc32c_u32. rewrite Z.eqb_refl. cbn [negb].
  replace (drop 24 b) with p.
  2:{ unfold b. rewrite drop_app_ge by (unfold record_header; by rewrite length_frame_header).
      unfold record_header. by rewrite length_frame_header. }
  replace (drop (Z.to_nat (24 + zlen p + 4)) (b ++ le_bytes 4 (crc32c b) ++ tail)) with tail.
  2:{ rewrite app_assoc, drop_app_ge.
      - rewrite length_app, length_le_bytes. unfold b. rewrite length_app. unfold record_header.
        rewrite length_frame_header. unfold zlen.
        by replace (Z.to_nat (24 + Z.of_nat (length p) + 4) - (24 + length p + 4))%nat with 0%nat by lia.
      - rewrite length_app, length_le_bytes. unfold b. rewrite length_app. unfold record_header.
        rewrite length_frame_header. unfold zlen. lia. }
  by replace (24 + zlen p + 4) with (28 + zlen p) by lia.
Qed.
(** Whatever the scanner steps over is a whole record of the expected sequence. *)
Lemma scan_step_inv data n r s data' n' r' s' :
  scan_step visit max_payload max_records data (MkSeq n) r s = inr (data', n', r', s') ->
  exists t p, data = record_image t (MkSeq n) p ++ data' /\ zlen p <= max_payload /\ in_u64 n /\
    jr_records r < max_records /\ visit t (MkSeq n) p s = (Ok, s') /\
    n' = MkSeq (wrap 64 (n + 1)) /\ r' = scan_count (MkSeq n) (28 + zlen p) r.
Proof.
  unfold scan_step. cbn zeta.
  destruct (zlen data =? 0); [done |].
  destruct (zlen data <? kJournalHeaderSize); [by repeat split_if |].
  destruct (negb (get_le 4 0 (take 24 data) =? kJournalMagic)); [by repeat split_if |].
  destruct (decode_record_header (take 24 data) max_payload) as [o | h] eqn:Eh; [done |].
  destruct (rh_seq h != MkSeq n) eqn:Es; [done |]. bool_prop.
  destruct (Z.ltb_spec (zlen data) (kJournalHeaderSize + rh_payload_len h + kJournalTrailerSize)) as [| Hn];
    [by repeat split_if |].
  unfold kJournalHeaderSize, kJournalTrailerSize in *.
  apply decode_header_accepts in Eh as (Eh & Hl & Hp & Hu & Hs). rewrite take_take in Eh.
  set (len := rh_payload_len h) in *. unfold in_u in Hu.
  set (b := take (Z.to_nat (24 + len)) data).
  destruct (Z.eqb_spec (crc32c b) (get_le 4 (Z.to_nat (24 + len)) data)) as [Hc |]; [| done]. cbn [negb].
  destruct (Z.leb_spec max_records (jr_records r)); [done |].
  destruct (visit (rh_type h) (rh_seq h) (drop 24 b) s) as [o s1] eqn:Ev. destruct o; try done.
  rewrite Es in *. intros [= <- <- <- <-]. exists (rh_type h), (drop 24 b).
  assert (zlen (drop 24 b) = len) as Hlen.
  { unfold b, zlen in *. rewrite length_drop, length_take. lia. }
  rewrite Hlen. split_and!; try done; [| by replace (24 + len + 4) with (28 + len) by lia].
  unfold record_image, record_header. cbn zeta. rewrite Hlen, <- Eh.
  replace (take (Nat.min 24 24) data) with (take 24 b)
    by (unfold b; rewrite take_take; f_equal; lia).
  rewrite take_drop, Hc. rewrite get_le_bytes by (unfold zlen in *; lia).
  replace (Z.to_nat (24 + len + 4)) with (Z.to_nat (24 + len) + 4)%nat by lia.
  unfold b. rewrite <- drop_drop, <- app_assoc, !take_drop. done.
Qed.

(** A torn record: a proper, nonempty prefix of a record image. *)
Lemma prefix_ok data more t n p :
  in_u64 n -> data ++ more = record_image t (MkSeq n) p -> zlen p <= max_payload ->
  is_valid_record_prefix data max_payload = true.
Proof.
  intros Hn E Hp. unfold is_valid_record_prefix. apply forallb_forall. intros i Hi.
  apply in_seq in Hi. assert (i < length data /\ i < 24)%nat as [Hd Hi24] by lia.
  assert (nth i data x00 = nth i (record_image t (MkSeq n) p) x00) as Hnth.
  { rewrite <- E. by rewrite app_nth1. }
  assert (forall k, (k < 6)%nat -> nth k (record_image t (MkSeq n) p) x00 =
    nth k (le_bytes 4 kJournalMagic ++ le_bytes 2 kFormatVersion) x00) as Hhead.
  { intros k Hk. unfold record_image, record_header, frame_header, header_fields. cbn zeta.
    rewrite <- !app_assoc. rewrite (app_assoc (le_bytes 4 kJournalMagic)).
    apply app_nth1. by rewrite length_app, !length_le_bytes. }
  unfold prefix_byte_ok. rewrite Hnth.
  destruct (Nat.ltb_spec i 4).
  { rewrite Hhead by lia. do 4 (destruct i as [| i]; [vm_compute; reflexivity |]). lia. }
  destruct (Nat.eqb_spec i 4); [subst i; rewrite Hhead by lia; vm_compute; reflexivity |].
  destruct (Nat.eqb_spec i 5); [subst i; rewrite Hhead by lia; vm_compute; reflexivity |].
  destruct (Nat.eqb_spec i 19); [| done]. subst i. apply Z.leb_le.
  rewrite <- (get_le_weaken 4 16 data more) by lia. rewrite E. unfold record_image, record_header. cbn zeta.
  unfold frame_header. rewrite <- !app_assoc. pose proof (zlen_nonneg p). unfold in_u in Hmax.
  edestruct header_fields_get as (_ & _ & _ & _ & ->);
    [done | apply record_type_u16 | exact Hn | unfold in_u; lia | done].
Qed.
Lemma scan_step_torn data more t n p r s :
  in_u64 n -> zlen p <= max_payload -> data ++ more = record_image t (MkSeq n) p ->
  data <> [] -> more <> [] ->
  scan_step visit max_payload max_records data (MkSeq n) r s = inl (scan_torn_tail (zlen data) r, s).
Proof.
  intros Hn Hp E Hd Hm. pose proof (prefix_ok data more t n p Hn E Hp) as Hpre.
  assert (is_all_zero data = false) as Hz.
  { destruct (record_image_head t (MkSeq n) p) as (tl & Ht). rewrite Ht in E.
    destruct data as [| b data]; [done |]. injection E as -> _. done. }
  pose proof (f_equal length E) as Hlen. rewrite length_app, length_record_image in Hlen.
  assert (0 < length data /\ 0 < length more)%nat as [Hd' Hm'] by (destruct data, more; simpl; try done; lia).
  unfold scan_step. cbn zeta. unfold kJournalHeaderSize, kJournalTrailerSize, zlen in *.
  destruct (Z.eqb_spec (Z.of_nat (length data)) 0); [lia |].
  destruct (Z.ltb_spec (Z.of_nat (length data)) 24); [by rewrite Hz, Hpre |].
  assert (take 24 data = record_header t (MkSeq n) p) as Hh.
  { rewrite <- (take_record_header t (MkSeq n) p []), app_nil_r, <- E. rewrite take_app_le by lia. done. }
  assert (is_valid_record_prefix (take 24 data) max_payload = true) as Hpre24.
  { apply (prefix_ok (take 24 data) (drop 24 data ++ more) t n p Hn); [| done].
    by rewrite app_assoc, take_drop. }
  rewrite Hpre24, Hh. rewrite <- (app_nil_r (record_header _ _ _)) at 1. rewrite header_magic, Z.eqb_refl.
  cbn [negb]. pose proof (zlen_nonneg p) as Hp0. unfold record_header, zlen in *.
  rewrite decode_header_written by (done || lia). cbn [rh_seq rh_payload_len].
  rewrite beq_refl. cbn [negb].
  destruct (Z.ltb_spec (Z.of_nat (length data)) (24 + Z.of_nat (length p) + 4)); [done | lia].
Qed.
(** The report after the records [es] from [n]. *)
Definition counted_report (n : Z) (es : list Entry) (r : JournalScanReport) : JournalScanReport :=
  MkReport (jr_outcome r) (jr_records r + zlen es) (jr_valid_bytes r + zlen (journal_image n es))
    (jr_tail_bytes r) (jr_torn_tail r) (jr_zero_tail r)
    (match es with [] => jr_last_seq r | _ => MkSeq (n + zlen es - 1) end) (jr_detail r).

Lemma counted_report_cons n t p es r :
  counted_report (n + 1) es (scan_count (MkSeq n) (28 + zlen p) r) = counted_report n ((t, p) :: es) r.
Proof.
  unfold counted_report, scan_count. cbn [jr_outcome jr_records jr_valid_bytes jr_tail_bytes jr_torn_tail
    jr_zero_tail jr_last_seq jr_detail journal_image].
  rewrite zlen_cons, zlen_app, zlen_record_image. f_equal; try lia.
  destruct es as [| e es]; [| f_equal; lia]. rewrite zlen_nil. f_equal. lia.
Qed.

(** Whole records are replayed one after the other. *)
Lemma scan_loop_records fuel n es tail r s s' :
  0 <= n -> n + zlen es < 2 ^ 64 -> entries_ok max_payload es ->
  jr_records r + zlen es <= max_records -> replay n es s = (Ok, s') ->
  scan_loop visit max_payload max_records (length es + fuel) (journal_image n es ++ tail) (MkSeq n) r s =
  scan_loop visit max_payload max_records fuel tail (MkSeq (n + zlen es)) (counted_report n es r) s'.
Proof.
  intros Hn Hb Hok. revert n r s Hn Hb. induction Hok as [| [t p] es Hp Hok IH]; intros n r s Hn Hb Hm Hr.
  - cbn in Hr. injection Hr as ->. unfold counted_report. cbn [length Nat.add journal_image app].
    rewrite !zlen_nil, !Z.add_0_r. by destruct r.
  - cbn [replay] in Hr. rewrite zlen_cons in *. pose proof (zlen_nonneg es).
    destruct (visit t (MkSeq n) p s) as [o s1] eqn:Ev. destruct o; try done.
    cbn [length Nat.add journal_image scan_loop]. rewrite <- app_assoc.
    rewrite scan_step_record by (done || (unfold in_u; lia)). rewrite Ev.
    destruct (Z.leb_spec max_records (jr_records r)); [lia |].
    rewrite wrap_small by (unfold in_u; lia).
    rewrite (IH (n + 1) _ s1) by (done || lia || (cbn [scan_count jr_records]; lia)).
    rewrite (counted_report_cons n t p es r). by replace (n + 1 + zlen es) with (n + (1 + zlen es)) by lia.
Qed.

(** A prefix of a journal holds whole records and a piece of the next one. *)
Lemma journal_prefix n es P Q :
  P ++ Q = journal_image n es ->
  exists k tl, (k <= length es)%nat /\ P = journal_image n (take k es) ++ tl /\
    (tl = [] \/ exists t p more, es !! k = Some (t, p) /\
      tl ++ more = record_image t (MkSeq (n + Z.of_nat k)) p /\ tl <> [] /\ more <> []).
Proof.
  revert n P. induction es as [| [t p] es IH]; intros n P E; cbn [journal_image] in E.
  - apply app_eq_nil in E as [-> ->]. exists 0%nat, []. auto.
  - destruct (decide (length (record_image t (MkSeq n) p) <= length P)%nat) as [Hl | Hl].
    + apply app_eq_app in E as [more [[-> E] | [E1 E2]]].
      * destruct (IH (n + 1) more (eq_sym E)) as (k & tl & Hk & -> & Htl).
        exists (S k), tl. cbn [take journal_image length lookup list_lookup]. split; [lia |].
        split; [by rewrite app_assoc |]. destruct Htl as [-> | (t' & p' & m' & H1 & H2 & H3)]; [by left |].
        right. exists t', p', m'. split; [done |]. split; [| done].
        rewrite H2. do 2 f_equal. lia.
      * assert (more = []) as -> by (apply (f_equal length) in E1; rewrite length_app in E1; destruct more; [done | simpl in *; lia]).
        rewrite app_nil_r in E1. rewrite <- E1 in *.
        exists 1%nat, []. cbn [take journal_image length]. split; [lia |].
        split; [| by left]. rewrite take_0. cbn [journal_image]. by rewrite !app_nil_r.
    + destruct (decide (P = [])) as [-> | Hne].
      { exists 0%nat, []. split; [lia |]. split; [done | by left]. }
      apply app_eq_app in E as [more [[E1 _] | [E1 E2]]].
      * apply (f_equal length) in E1. rewrite length_app in E1. lia.
      * exists 0%nat, P. split; [lia |]. split; [done |]. right. exists t, p, more.
        split; [done |]. rewrite Z.add_0_r. split; [by rewrite E1 |]. split; [done |].
        intros ->. rewrite app_nil_r in E1. rewrite E1 in Hl. lia.
Qed.
(** The number of records of a prefix never exceeds its number of bytes. *)
Lemma journal_image_length n es : (length es <= length (journal_image n es))%nat.
Proof.
  revert n. induction es as [| [t p] es IH]; intros n; [done |]. cbn [journal_image length].
  rewrite length_app, length_record_image. specialize (IH (n + 1)). lia.
Qed.

Lemma scan_bytes_records n es tail s s' :
  1 <= n -> n + zlen es < 2 ^ 64 -> entries_ok max_payload es -> zlen es <= max_records ->
  replay n es s = (Ok, s') ->
  exists fuel,
    scan_bytes visit max_payload max_records (journal_image n es ++ tail) (MkSeq n) s =
    scan_loop visit max_payload max_records (Datatypes.S fuel) tail (MkSeq (n + zlen es))
      (counted_report n es new_report) s'.
Proof.
  intros Hn Hb Hok Hm Hr. unfold scan_bytes. cbn [seq_value].
  destruct (Z.eqb_spec n 0); [lia |]. pose proof (journal_image_length n es).
  exists (length (journal_image n es ++ tail) - length es)%nat.
  rewrite <- (scan_loop_records _ n es tail new_report s s') by (done || lia || (cbn; lia)).
  f_equal. rewrite length_app. lia.
Qed.

Lemma entries_ok_take k es : entries_ok max_payload es -> entries_ok max_payload (take k es).
Proof. apply Forall_take. Qed.

Lemma replay_take n es s s' k :
  replay n es s = (Ok, s') -> exists s1, replay n (take k es) s = (Ok, s1).
Proof.
  rewrite <- (take_drop k es) at 1. rewrite replay_app.
  destruct (replay n (take k es) s) as [o s1]. destruct o; try done. eauto.
Qed.

(** A journal cut at any byte is scanned up to its last whole record. *)
Lemma scan_prefix n es P Q s s_end :
  1 <= n -> n + zlen es < 2 ^ 64 -> entries_ok max_payload es -> zlen es <= max_records ->
  replay n es s = (Ok, s_end) -> P ++ Q = journal_image n es ->
  exists k s1 tl,
    (k <= length es)%nat /\ replay n (take k es) s = (Ok, s1) /\ P = journal_image n (take k es) ++ tl /\
    ((k < length es)%nat -> zlen P < zlen (journal_image n (take (1 + k) es))) /\
    scan_bytes visit max_payload max_records P (MkSeq n) s =
    (MkReport Ok (Z.of_nat k) (zlen (journal_image n (take k es))) (zlen tl)
       (negb (zlen tl =? 0)) false (if (k =? 0)%nat then MkSeq 0 else MkSeq (n + Z.of_nat k - 1))
       (if zlen tl =? 0 then "journal scanned" else "torn tail recovered"), s1).
Proof.
  intros Hn Hb Hok Hm Hr E. pose proof (journal_prefix n es P Q E) as (k & tl & Hk & -> & Htl).
  destruct (replay_take n es s s_end k Hr) as (s1 & H1). exists k, s1, tl.
  assert (zlen (take k es) = Z.of_nat k) as Hlk by (unfold zlen; rewrite length_take; lia).
  assert (zlen (take k es) <= zlen es) as Hle by (unfold zlen; rewrite length_take; lia).
  split_and!; try done.
  - intros Hlt. destruct (lookup_lt_is_Some_2 es k Hlt) as ([t p] & Ht).
    replace (1 + k)%nat with (S k) by lia. rewrite (take_S_r es k (t, p) Ht), journal_image_app, !zlen_app, Hlk.
    cbn [journal_image]. rewrite app_nil_r, zlen_record_image.
    destruct Htl as [-> | (t' & p' & more & Hl & Et & _ & Hmore)].
    + rewrite zlen_nil. pose proof (zlen_nonneg p). lia.
    + rewrite Ht in Hl. injection Hl as <- <-. apply (f_equal zlen) in Et.
      rewrite zlen_app, zlen_record_image in Et. destruct more; [done |]. rewrite zlen_cons in Et.
      pose proof (zlen_nonneg more). lia.
  - edestruct (scan_bytes_records n (take k es) tl s s1) as (fuel & ->);
      [done | lia | by apply entries_ok_take | lia | done |].
    rewrite Hlk. cbn [scan_loop].
    assert (counted_report n (take k es) new_report =
      MkReport Ok (Z.of_nat k) (zlen (journal_image n (take k es))) 0 false false
        (if (k =? 0)%nat then MkSeq 0 else MkSeq (n + Z.of_nat k - 1)) "") as ->.
    { unfold counted_report, new_report. cbn [jr_outcome jr_records jr_valid_bytes
        jr_tail_bytes jr_torn_tail jr_zero_tail jr_last_seq jr_detail]. rewrite Hlk.
      f_equal. destruct k; [done |]. destruct es; [simpl in Hk; lia | done]. }
    destruct Htl as [-> | (t & p & more & Hl & Et & Hne & Hmore)].
    + reflexivity.
    + assert (zlen p <= max_payload) as Hp.
      { unfold entries_ok in Hok. rewrite Forall_lookup in Hok. exact (Hok k (t, p) Hl). }
      rewrite (scan_step_torn tl more t (n + Z.of_nat k) p) by
        (done || (unfold in_u, zlen in *; lia)).
      destruct (Z.eqb_spec (zlen tl) 0) as [Hz |]; [destruct tl; [done | rewrite zlen_cons in Hz; pose proof (zlen_nonneg tl); lia] |].
      done.
Qed.
(** What may follow the last record of an accepted file. *)
Definition tail_ok (tail : list byte) (r : JournalScanReport) : Prop :=
  jr_tail_bytes r = zlen tail /\
  (tail = [] \/ is_all_zero tail = true /\ jr_zero_tail r = true \/
   is_valid_record_prefix (take 24 tail) max_payload = true /\ jr_torn_tail r = true).

Lemma decode_header_refuses bs o : decode_record_header bs max_payload = inl o -> o <> Ok.
Proof. unfold decode_record_header. cbn zeta. repeat split_if; congruence. Qed.

Lemma scan_step_stop data n r s r' s' :
  jr_tail_bytes r = 0 ->
  scan_step visit max_payload max_records data n r s = inl (r', s') -> jr_outcome r' = Ok ->
  s' = s /\ jr_records r' = jr_records r /\ jr_valid_bytes r' = jr_valid_bytes r /\ tail_ok data r'.
Proof.
  intros Ht. unfold scan_step, tail_ok. cbn zeta.
  destruct (Z.eqb_spec (zlen data) 0) as [H0 |].
  { intros [= <- <-] _. split_and!; try done; [by rewrite H0 |].
    left. destruct data; [done | rewrite zlen_cons in H0; pose proof (zlen_nonneg data); lia]. }
  destruct (Z.ltb_spec (zlen data) kJournalHeaderSize).
  { destruct (is_all_zero data) eqn:Hz; [intros [= <- <-] _; split_and!; auto |].
    destruct (is_valid_record_prefix data max_payload) eqn:Hp; cbn [negb]; intros [= <- <-]; [intros _ | done].
    split_and!; auto. do 2 right. split; [| done].
    rewrite take_ge; [done |]. unfold kJournalHeaderSize, zlen in *. lia. }
  destruct (negb (get_le 4 0 (take 24 data) =? kJournalMagic)).
  { destruct (is_all_zero data) eqn:Hz; intros [= <- <-]; [intros _; split_and!; auto | done]. }
  destruct (decode_record_header (take 24 data) max_payload) as [o | h] eqn:Eh.
  { intros [= <- <-] Ho. cbn in Ho. by apply decode_header_refuses in Eh. }
  destruct (rh_seq h != n); [by intros [= <- <-] |].
  destruct (zlen data <? _).
  { destruct (is_valid_record_prefix (take 24 data) max_payload) eqn:Hp; cbn [negb]; intros [= <- <-]; [| done].
    intros _. split_and!; auto. }
  destruct (negb (crc32c _ =? _)); [by intros [= <- <-] |].
  destruct (max_records <=? jr_records r); [by intros [= <- <-] |].
  destruct (visit _ _ _ s) as [o s1]. destruct o; intros [= <- <-]; done.
Qed.

Lemma scan_loop_accepts fuel data n r s r' s' :
  (length data < fuel)%nat -> 0 <= n -> n + zlen data < 2 ^ 64 -> jr_tail_bytes r = 0 ->
  scan_loop visit max_payload max_records fuel data (MkSeq n) r s = (r', s') -> jr_outcome r' = Ok ->
  exists es tail, data = journal_image n es ++ tail /\ entries_ok max_payload es /\
    replay n es s = (Ok, s') /\ jr_records r' = jr_records r + zlen es /\
    (es <> [] -> jr_records r + zlen es <= max_records) /\
    jr_valid_bytes r' = jr_valid_bytes r + zlen (journal_image n es) /\ tail_ok tail r'.
Proof.
  revert data n r s. induction fuel as [| fuel IH]; intros data n r s Hf Hn Hb Ht; [lia |].
  cbn [scan_loop]. destruct (scan_step visit max_payload max_records data (MkSeq n) r s)
    as [[r1 s1] | [[[data1 n1] r1] s1]] eqn:Es.
  - intros [= <- <-] Ho. apply scan_step_stop in Es as (-> & Hr & Hv & Htl); [| done | done].
    exists [], data. cbn [journal_image app replay]. rewrite zlen_nil, Z.add_0_r.
    split_and!; try done; [by constructor | by rewrite zlen_nil, Z.add_0_r].
  - apply scan_step_inv in Es as (t & p & -> & Hp & _ & Hm & Hv & -> & ->).
    rewrite length_app, length_record_image in Hf. rewrite zlen_app, zlen_record_image in Hb.
    pose proof (zlen_nonneg p). pose proof (zlen_nonneg data1).
    rewrite wrap_small by (unfold in_u; lia). intros E Ho.
    apply IH in E as (es & tail & -> & Hok & Hr & Hc & Hmax' & Hvb & Htl); try done; try lia.
    cbn [scan_count jr_records jr_valid_bytes] in *.
    exists ((t, p) :: es), tail. cbn [journal_image replay]. rewrite Hv, <- app_assoc.
    rewrite zlen_cons, zlen_app, zlen_record_image. split_and!; try done; try lia.
    + by constructor.
    + intros _. destruct es as [| e es]; [rewrite zlen_nil; lia |]. specialize (Hmax' ltac:(done)). lia.
Qed.

(** A damaged payload is always detected. *)
Lemma scan_step_damaged t n a x y b tail r s :
  in_u64 n -> zlen (a ++ x ++ b) <= max_payload ->
  (length x <= 4)%nat -> length x = length y -> x <> y ->
  scan_step visit max_payload max_records
    (record_header t (MkSeq n) (a ++ x ++ b) ++ (a ++ y ++ b) ++
     le_bytes 4 (crc32c (record_header t (MkSeq n) (a ++ x ++ b) ++ a ++ x ++ b)) ++ tail) (MkSeq n) r s =
  inl (scan_refuse Corrupt "record integrity check failed" r, s).
Proof.
  intros Hn Hp Hx Hxy Hne. set (h := record_header t (MkSeq n) (a ++ x ++ b)).
  assert (length h = 24%nat) as Hh by apply length_frame_header.
  assert (length (a ++ y ++ b) = length (a ++ x ++ b)) as Hlen by (rewrite !length_app; lia).
  pose proof (zlen_nonneg (a ++ x ++ b)). pose proof (zlen_nonneg tail).
  assert (get_le 4 0 h = kJournalMagic) as Hm by (rewrite <- (app_nil_r h); apply header_magic).
  assert (decode_record_header h max_payload =
    inr (MkHeader kFormatVersion t (MkSeq n) (zlen (a ++ x ++ b))
           (crc32c (header_fields kJournalMagic (to_raw t) n (zlen (a ++ x ++ b)))))) as Hd
    by (apply (decode_header_written t (MkSeq n)); done || lia).
  set (len := zlen (a ++ x ++ b)) in *. set (data := h ++ _).
  assert (zlen data = 28 + len + zlen tail) as Hz.
  { unfold data, len, zlen. rewrite !length_app, length_le_bytes, Hh. lia. }
  assert (take 24 data = h) as Hk by (unfold data; rewrite take_app_le by lia; apply take_ge; lia).
  unfold scan_step. cbn zeta. rewrite Hk, Hm, Hz, Z.eqb_refl, Hd. cbn [negb rh_seq rh_payload_len rh_type].
  unfold kJournalHeaderSize, kJournalTrailerSize. rewrite beq_refl. cbn [negb].
  destruct (Z.eqb_spec (28 + len + zlen tail) 0); [lia |].
  destruct (Z.ltb_spec (28 + len + zlen tail) 24); [lia |].
  destruct (Z.ltb_spec (28 + len + zlen tail) (24 + len + 4)); [lia |].
  replace (Z.to_nat (24 + len)) with (length (h ++ a ++ y ++ b))
    by (rewrite (length_app h), Hh, Hlen; unfold len, zlen; lia).
  assert (data = (h ++ a ++ y ++ b) ++ le_bytes 4 (crc32c (h ++ a ++ x ++ b)) ++ tail) as ->
    by (unfold data; by rewrite <- !app_assoc).
  rewrite take_app_length, get_le_app by apply crc32c_u32.
  destruct (Z.eqb_spec (crc32c (h ++ a ++ y ++ b)) (crc32c (h ++ a ++ x ++ b))) as [E |]; [| done].
  exfalso. apply Hne, (crc32c_burst (h ++ a) x y b Hx Hxy). rewrite <- !app_assoc. done.
Qed.
End Steps.

(** ** Claims *)

(** A disk that reads without faults. *)
Lemma scan_journal_read {St} (visit : RecordType.t -> RecordSequence -> list byte -> St -> Outcome * St)
  max_payload max_records max_bytes n s d P :
  journal_file d = Some P -> faults d = [] -> zlen P <= max_bytes ->
  scan_journal visit max_payload max_records max_bytes n s d =
  let '(r, s) := scan_bytes visit max_payload max_records P n s in (r, s, d).
Proof.
  intros Hj Hf Hl. unfold scan_journal, read_whole_file, fault. rewrite Hj, Hf. rewrite Hj.
  destruct (Z.ltb_spec max_bytes (zlen P)); [lia |]. rewrite !Hf. done.
Qed.

(** The visitor that records what it is shown. *)
Definition collect (t : RecordType.t) (n : RecordSequence) (p : list byte) (acc : list Entry) : Outcome * list Entry :=
  (Ok, acc ++ [(t, p)]).

Definition fx_entries : list Entry :=
  [(RecordType.Boot, [x01; x02; x03]); (RecordType.DecisionCommit, []); (RecordType.Checkpoint, [x00; x00])].
Definition fx_disk (bs : list byte) : Disk := MkDisk (Some bs) None None [].

(** However a crash cuts a journal, the scan succeeds: it replays exactly the records
    whose bytes are all there, no fewer, in order, and reports their length and a torn
    tail for the rest. *)
Theorem journal_survives_crash {St} (visit : RecordType.t -> RecordSequence -> list byte -> St -> Outcome * St)
  max_payload max_records max_bytes n es P Q s s_end d :
  in_u32 max_payload -> 1 <= n -> n + zlen es < 2 ^ 64 ->
  entries_ok max_payload es -> zlen es <= max_records ->
  replay visit n es s = (Ok, s_end) -> P ++ Q = journal_image n es ->
  journal_file d = Some P -> faults d = [] -> zlen P <= max_bytes ->
  exists k s1,
    (k <= length es)%nat /\ replay visit n (take k es) s = (Ok, s1) /\
    ((k < length es)%nat -> zlen P < zlen (journal_image n (take (1 + k) es))) /\
    let '(r, s', _) := scan_journal visit max_payload max_records max_bytes (MkSeq n) s d in
    s' = s1 /\ jr_outcome r = Ok /\ jr_records r = Z.of_nat k /\
    jr_valid_bytes r = zlen (journal_image n (take k es)) /\
    jr_valid_bytes r + jr_tail_bytes r = zlen P /\
    jr_torn_tail r = (jr_valid_bytes r <? zlen P) /\ jr_zero_tail r = false.
Proof.
  intros Hm Hn Hb Hok Hmr Hr E Hj Hf Hl.
  destruct (scan_prefix visit max_payload max_records Hm n es P Q s s_end Hn Hb Hok Hmr Hr E)
    as (k & s1 & tl & Hk & Hk1 & HP & Hmax & Hs).
  exists k, s1. rewrite (scan_journal_read _ _ _ _ _ _ _ P Hj Hf Hl), Hs.
  cbn [jr_outcome jr_records jr_valid_bytes jr_tail_bytes jr_torn_tail jr_zero_tail].
  assert (zlen P = zlen (journal_image n (take k es)) + zlen tl) as Hz by (by rewrite HP, zlen_app).
  pose proof (zlen_nonneg tl). split_and!; done || lia.
Qed.

Example journal_survives_crash_witness :
  exists k s1, (k <= 3)%nat /\
    let '(r, s', _) := scan_journal collect 64 10 1000 (MkSeq 1) []
                         (fx_disk (take 70 (journal_image 1 fx_entries))) in
    s' = s1 /\ jr_outcome r = Ok /\ jr_records r = Z.of_nat k.
Proof.
  pose proof (journal_survives_crash collect 64 10 1000 1 fx_entries
    (take 70 (journal_image 1 fx_entries)) (drop 70 (journal_image 1 fx_entries)) [] fx_entries
    (fx_disk (take 70 (journal_image 1 fx_entries)))) as H.
  destruct H as (k & s1 & Hk & _ & _ & H).
  - split; [discriminate | reflexivity].
  - discriminate.
  - reflexivity.
  - repeat constructor; discriminate.
  - discriminate.
  - reflexivity.
  - apply take_drop.
  - reflexivity.
  - reflexivity.
  - vm_compute. discriminate.
  - exists k, s1. split; [exact Hk |].
    destruct (scan_journal collect 64 10 1000 (MkSeq 1) []
                (fx_disk (take 70 (journal_image 1 fx_entries)))) as [[r s'] d'].
    destruct H as (H1 & H2 & H3 & _). auto.
Defined.

(** C23: the scan accepts nothing but journals: when it succeeds, the file is the image of
    consecutive records, all replayed, within the bounds on sizes and count, followed by
    nothing, by zeros only, or by bytes that begin like a record header. *)
Theorem scan_accepts_only_journals {St} (visit : RecordType.t -> RecordSequence -> list byte -> St -> Outcome * St)
  max_payload max_records max_bytes n s d bs :
  1 <= n -> n + zlen bs < 2 ^ 64 -> journal_file d = Some bs ->
  let '(r, s', _) := scan_journal visit max_payload max_records max_bytes (MkSeq n) s d in
  jr_outcome r = Ok ->
  zlen bs <= max_bytes /\
  exists es tail, bs = journal_image n es ++ tail /\ entries_ok max_payload es /\
    replay visit n es s = (Ok, s') /\ jr_records r = zlen es /\ (es <> [] -> zlen es <= max_records) /\
    jr_valid_bytes r = zlen (journal_image n es) /\ tail_ok max_payload tail r.
Proof.
  intros Hn Hb Hj. unfold scan_journal, read_whole_file. rewrite Hj.
  assert (forall d f d', fault d = (f, d') -> journal_file d' = journal_file d) as Hf.
  { intros d0 f d'. unfold fault. by destruct (faults d0); intros [= <- <-]. }
  destruct (fault d) as [[k |] d1] eqn:F1; [done |]. apply Hf in F1. rewrite F1, Hj.
  destruct (Z.ltb_spec max_bytes (zlen bs)); [done |].
  destruct (fault d1) as [[k |] d2] eqn:F2; [done |]. destruct (fault d2) as [[k |] d3]; [done |].
  destruct (scan_bytes visit max_payload max_records bs (MkSeq n) s) as [r s'] eqn:Es. intros Ho.
  split; [done |]. unfold scan_bytes in Es. cbn [seq_value] in Es.
  destruct (Z.eqb_spec n 0); [lia |].
  apply scan_loop_accepts in Es as (es & tail & H1 & H2 & H3 & H4 & H5 & H6 & H7); try done; try lia.
  exists es, tail. cbn [new_report jr_records jr_valid_bytes] in *. rewrite Z.add_0_l in *. auto 10.
Qed.

Example scan_accepts_only_journals_witness :
  let '(r, s', _) := scan_journal collect 64 10 1000 (MkSeq 1) [] (fx_disk (journal_image 1 fx_entries)) in
  jr_outcome r = Ok ->
  exists es tail, journal_image 1 fx_entries = journal_image 1 es ++ tail /\ replay collect 1 es [] = (Ok, s').
Proof.
  pose proof (scan_accepts_only_journals collect 64 10 1000 1 [] (fx_disk (journal_image 1 fx_entries))
    (journal_image 1 fx_entries) ltac:(discriminate) ltac:(vm_compute; reflexivity) eq_refl) as H.
  destruct (scan_journal collect 64 10 1000 (MkSeq 1) [] (fx_disk (journal_image 1 fx_entries))) as [[r s'] d'].
  intros Ho. destruct (H Ho) as (_ & es & tail & H1 & _ & H2 & _). eauto.
Defined.

(** Damage of up to four consecutive bytes inside a payload is never replayed: the scan
    stops with [Corrupt] at that record, behind the intact ones. *)
Theorem damaged_payload_refused {St} (visit : RecordType.t -> RecordSequence -> list byte -> St -> Outcome * St)
  max_payload max_records n es t a x y b tail s s1 :
  in_u32 max_payload -> 1 <= n -> n + zlen es < 2 ^ 64 ->
  entries_ok max_payload es -> zlen (a ++ x ++ b) <= max_payload -> zlen es <= max_records ->
  (length x <= 4)%nat -> length x = length y -> x <> y ->
  replay visit n es s = (Ok, s1) ->
  let m := MkSeq (n + zlen es) in
  let damaged := record_header t m (a ++ x ++ b) ++ (a ++ y ++ b) ++
                 le_bytes 4 (crc32c (record_header t m (a ++ x ++ b) ++ a ++ x ++ b)) in
  let '(r, s') := scan_bytes visit max_payload max_records (journal_image n es ++ damaged ++ tail) (MkSeq n) s in
  jr_outcome r = Corrupt /\ s' = s1 /\ jr_records r = zlen es.
Proof.
  intros Hm Hn Hb Hok Hp Hmr Hx Hxy Hne Hr m damaged.
  destruct (scan_bytes_records visit max_payload max_records Hm n es (damaged ++ tail) s s1 Hn Hb Hok Hmr Hr)
    as (fuel & ->).
  pose proof (zlen_nonneg es). cbn [scan_loop]. unfold damaged, m. rewrite <- !(app_assoc _ _ tail).
  rewrite (scan_step_damaged visit max_payload max_records Hm t (n + zlen es) a x y b tail)
    by (first [exact Hp | exact Hx | exact Hxy | exact Hne | unfold in_u; lia]).
  cbn [scan_refuse counted_report jr_outcome jr_records new_report]. split_and!; [done | done | lia].
Qed.

Example damaged_payload_refused_witness :
  let '(r, s') := scan_bytes collect 64 10
    (journal_image 1 fx_entries ++
     (record_header RecordType.Boot (MkSeq 4) [x01; x02] ++ [x01; x03] ++
      le_bytes 4 (crc32c (record_header RecordType.Boot (MkSeq 4) [x01; x02] ++ [x01; x02]))) ++ [])
    (MkSeq 1) [] in
  jr_outcome r = Corrupt /\ s' = fx_entries /\ jr_records r = 3.
Proof.
  pose proof (damaged_payload_refused collect 64 10 1 fx_entries RecordType.Boot [x01] [x02] [x03] [] [] []
    fx_entries) as H.
  apply H.
  - split; [discriminate | reflexivity].
  - discriminate.
  - reflexivity.
  - repeat constructor; discriminate.
  - discriminate.
  - discriminate.
  - simpl. lia.
  - reflexivity.
  - discriminate.
  - reflexivity.
Defined.
