(* ===== verification/Snapshot.v ===== *)
(** * The transactional snapshot

    Models [include/blackhole/persist/snapshot.hpp] and [src/persist/snapshot.cpp] on the
    files of [Journal]: the framed image of a payload, the reader with every refusal, and
    the replacement protocol (write and sync a staging file, then rename it). The result of
    the directory sync is ignored by the program and does not appear. *)
From Stdlib Require Import Strings.String.
From S2P Require Import Prelude Core Checked Codec Hash Ids Domain Fence Authority Record Journal.
Local Open Scope string_scope.
Local Open Scope list_scope.
Local Open Scope Z_scope.

(** include/blackhole/persist/record.hpp:40 kSnapshotHeaderSize *)
Definition kSnapshotHeaderSize : Z := 24.
(** include/blackhole/persist/record.hpp:41 kSnapshotTrailerSize *)
Definition kSnapshotTrailerSize : Z := 4.
(** include/blackhole/persist/snapshot.hpp:32 kSnapshotKindLineage *)
Definition kSnapshotKindLineage : Z := 1.

(** [remove_file(tmp)], its result ignored. src/persist/snapshot.cpp:69 clean_staging *)
Definition clean_staging (d : Disk) : Disk :=
  match fault d with
  | (None, d) => set_staging None d
  | (Some _, d) => d
  end.

(** The bytes of a snapshot, or nothing when they do not fit the writer.
    src/persist/snapshot.cpp:74-93 write_snapshot_atomic (image) *)
Definition snapshot_bytes (seq : RecordSequence) (payload : list byte) : option (list byte) :=
  let w := new_Writer (zlen payload + kSnapshotHeaderSize + kSnapshotTrailerSize) in
  let header := frame_header kSnapshotMagic kSnapshotKindLineage (seq_value seq) (zlen payload) in
  let w := w_raw payload (w_raw header w) in
  if negb (ok_ w) then None
  else
    let w := w_raw (le_bytes 4 (crc32c (buf_ w))) w in
    if negb (ok_ w) then None else Some (buf_ w).

(** Open, write, flush, sync and close the staging file.
    src/persist/snapshot.cpp:95-107 write_snapshot_atomic (staging) *)
Definition stage_bytes (bs : list byte) (d : Disk) : option bool * Disk :=
  match fault d with
  | (Some _, d) => (None, d)
  | (None, d) =>
      let '(written, d) := fault d in
      let '(flushed, d) := if written is None then fault d else (None, d) in
      let '(synced, d) := if written is None then if flushed is None then fault d else (None, d) else (None, d) in
      let '(closed, d) := fault d in
      let k := match written, flushed, closed with
               | Some k, _, _ | None, Some k, _ => k
               | None, None, _ => length bs
               end in
      (Some (match written, flushed, synced, closed with None, None, None, None => true | _, _, _, _ => false end),
       set_staging (Some (take k bs)) d)
  end.

(** src/persist/snapshot.cpp:71-117 write_snapshot_atomic *)
Definition write_snapshot_atomic (seq : RecordSequence) (payload : list byte) (d : Disk) : Outcome * Disk :=
  match snapshot_bytes seq payload with
  | None => (Exhausted, d)
  | Some bs =>
      match stage_bytes bs d with
      | (None, d) => (Unavailable, d)
      | (Some false, d) => (Rejected, clean_staging d)
      | (Some true, d) =>
          match fault d with
          | (Some _, d) => (Rejected, clean_staging d)
          | (None, d) => (Ok, set_staging None (set_snapshot (staging_file d) d))
          end
      end
  end.

(** include/blackhole/persist/snapshot.hpp:34-40 SnapshotReadResult *)
Record SnapshotReadResult := MkSnapshot {
  sn_present : bool;
  sn_outcome : Outcome;
  sn_seq : RecordSequence;
  sn_payload : list byte;
  sn_detail : string;
}.

Definition snapshot_refused (o : Outcome) (why : string) : SnapshotReadResult := MkSnapshot true o (MkSeq 0) [] why.

(** The checks on the bytes of a snapshot file. src/persist/snapshot.cpp:161-207 read_snapshot (content) *)
Definition parse_snapshot (data : list byte) (max_payload : Z) : SnapshotReadResult :=
  let min_size := kSnapshotHeaderSize + kSnapshotTrailerSize in
  if negb (get_le 4 0 data =? kSnapshotMagic) then snapshot_refused Corrupt "snapshot magic mismatch"
  else if negb (get_le 2 4 data =? kFormatVersion) then
    snapshot_refused Unsupported "unsupported snapshot version"
  else if negb (get_le 2 6 data =? kSnapshotKindLineage) then
    snapshot_refused Unsupported "unsupported snapshot kind"
  else
    let len := get_le 4 16 data in
    if max_payload <? len then
      snapshot_refused Oversized "snapshot payload exceeds the configured bound"
    else if negb (len + min_size =? zlen data) then
      snapshot_refused Corrupt "snapshot length disagrees with its size"
    else if negb (crc32c (take 20 data) =? get_le 4 20 data) then
      snapshot_refused Corrupt "snapshot header integrity check failed"
    else
      let payload_end := Z.to_nat (kSnapshotHeaderSize + len) in
      if negb (crc32c (take payload_end data) =? get_le 4 payload_end data) then
        snapshot_refused Corrupt "snapshot payload integrity check failed"
      else
        MkSnapshot true Ok (MkSeq (get_le 8 8 data)) (drop 24 (take payload_end data)) "snapshot loaded".

(** src/persist/snapshot.cpp:119-208 read_snapshot *)
Definition read_snapshot (max_payload : Z) (d : Disk) : SnapshotReadResult * Disk :=
  match snapshot_file d with
  | None => (MkSnapshot false Ok (MkSeq 0) [] "snapshot absent", d)
  | Some data =>
      match fault d with
      | (Some _, d) => (snapshot_refused NotFound "snapshot unreadable", d)
      | (None, d) =>
          let min_size := kSnapshotHeaderSize + kSnapshotTrailerSize in
          if zlen data <? min_size then (snapshot_refused Corrupt "snapshot shorter than its header", d)
          else if max_payload + min_size <? zlen data then
            (snapshot_refused Oversized "snapshot exceeds the configured bound", d)
          else
            match fault d with
            | (Some _, d) => (snapshot_refused Unavailable "snapshot open failed", d)
            | (None, d) =>
                match fault d with
                | (Some _, d) => (snapshot_refused Corrupt "short read", d)
                | (None, d) => (parse_snapshot data max_payload, d)
                end
            end
      end
  end.

(** ** Replacement and recovery *)

(** The bytes of a snapshot. *)
Definition snapshot_image (seq : RecordSequence) (payload : list byte) : list byte :=
  let body := frame_header kSnapshotMagic kSnapshotKindLineage (seq_value seq) (zlen payload) ++ payload in
  body ++ le_bytes 4 (crc32c body).

Lemma zlen_snapshot_image seq payload : zlen (snapshot_image seq payload) = 28 + zlen payload.
Proof.
  unfold snapshot_image, zlen. cbn zeta. rewrite !length_app, length_frame_header, length_le_bytes. lia.
Qed.

Lemma snapshot_bytes_image seq payload :
  zlen payload < 2 ^ 63 -> snapshot_bytes seq payload = Some (snapshot_image seq payload).
Proof.
  intros Hp. pose proof (zlen_nonneg payload).
  unfold snapshot_bytes, snapshot_image, w_raw, kSnapshotHeaderSize, kSnapshotTrailerSize. cbn zeta.
  set (h := frame_header _ _ _ _).
  assert (zlen h = 24) as Hh by (unfold zlen, h; by rewrite length_frame_header).
  set (max := zlen payload + 24 + 4). change (new_Writer max) with (MkWriter [] max true).
  rewrite (put_fits h), (put_fits payload) by
    (unfold max; rewrite ?zlen_app, ?zlen_nil; lia).
  cbn [ok_ negb buf_ app].
  rewrite put_fits by (unfold max; rewrite ?zlen_app, ?zlen_le_bytes; lia).
  done.
Qed.

Lemma parse_snapshot_image seq payload max :
  in_u64 (seq_value seq) -> zlen payload <= max -> in_u32 max ->
  parse_snapshot (snapshot_image seq payload) max = MkSnapshot true Ok seq payload "snapshot loaded".
Proof.
  intros Hs Hp Hm. pose proof (zlen_nonneg payload) as Hp0. unfold in_u in Hm.
  set (f := header_fields kSnapshotMagic kSnapshotKindLineage (seq_value seq) (zlen payload)).
  assert (length f = 20%nat) as Hf by apply length_header_fields.
  assert (exists tl, snapshot_image seq payload = f ++ tl) as [tl Htl]
    by (unfold snapshot_image, frame_header; cbn zeta; rewrite <- !app_assoc; eauto).
  pose proof (header_fields_get kSnapshotMagic kSnapshotKindLineage (seq_value seq) (zlen payload) tl
    ltac:(done) ltac:(done) Hs ltac:(unfold in_u; lia)) as (H1 & H2 & H3 & H4 & H5).
  fold f in H1, H2, H3, H4, H5. rewrite <- Htl in *. set (img := snapshot_image seq payload) in *.
  set (h := frame_header kSnapshotMagic kSnapshotKindLineage (seq_value seq) (zlen payload)).
  assert (length h = 24%nat) as Hh by apply length_frame_header.
  assert (img = f ++ le_bytes 4 (crc32c f) ++ payload ++ le_bytes 4 (crc32c (h ++ payload))) as E1
    by (unfold img, snapshot_image, h, frame_header; cbn zeta; by rewrite <- !app_assoc).
  assert (img = (h ++ payload) ++ le_bytes 4 (crc32c (h ++ payload)) ++ []) as E2
    by (rewrite app_nil_r; unfold img, snapshot_image; cbn zeta; done).
  assert (take 20 img = f /\ get_le 4 20 img = crc32c f) as [T1 G1].
  { rewrite E1, <- Hf. split; [by rewrite take_app_length |]. apply get_le_app, crc32c_u32. }
  assert (Z.to_nat (kSnapshotHeaderSize + zlen payload) = length (h ++ payload)) as Hn
    by (rewrite length_app, Hh; unfold kSnapshotHeaderSize, zlen; lia).
  assert (take (length (h ++ payload)) img = h ++ payload) as T2 by (rewrite E2; apply take_app_length).
  assert (get_le 4 (length (h ++ payload)) img = crc32c (h ++ payload)) as G2
    by (rewrite E2; apply get_le_app, crc32c_u32).
  unfold parse_snapshot. cbn zeta. rewrite H1, H2, H3, H4, H5, T1, G1, Hn, T2, G2, !Z.eqb_refl. cbn [negb].
  destruct (Z.ltb_spec max (zlen payload)); [lia |].
  unfold img. rewrite zlen_snapshot_image. unfold kSnapshotHeaderSize, kSnapshotTrailerSize.
  destruct (Z.eqb_spec (zlen payload + (24 + 4)) (28 + zlen payload)); [| lia]. cbn [negb].
  assert (drop 24 (h ++ payload) = payload) as -> by (rewrite <- Hh; apply drop_app_length).
  by destruct seq.
Qed.

Lemma staging_fields f d : snapshot_file (set_staging f d) = snapshot_file d.
Proof. done. Qed.

Lemma fault_files d f d' :
  fault d = (f, d') ->
  journal_file d' = journal_file d /\ snapshot_file d' = snapshot_file d /\ staging_file d' = staging_file d.
Proof. unfold fault. by destruct (faults d); intros [= <- <-]. Qed.

Lemma stage_bytes_files bs d ok d' :
  stage_bytes bs d = (ok, d') ->
  journal_file d' = journal_file d /\ snapshot_file d' = snapshot_file d /\
  (ok = Some true -> staging_file d' = Some bs).
Proof.
  unfold stage_bytes. destruct (fault d) as [[k |] d1] eqn:F1; apply fault_files in F1 as (J1 & S1 & _);
    [by intros [= <- <-] |].
  destruct (fault d1) as [w d2] eqn:F2. apply fault_files in F2 as (J2 & S2 & _).
  destruct (match w with None => fault d2 | Some _ => (None, d2) end) as [fl d3] eqn:F3.
  assert (journal_file d3 = journal_file d2 /\ snapshot_file d3 = snapshot_file d2) as [J3 S3].
  { destruct w; [by injection F3 as _ <- |]. by apply fault_files in F3 as (? & ? & _). }
  destruct (match w with None => match fl with None => fault d3 | Some _ => (None, d3) end | Some _ => (None, d3) end)
    as [sy d4] eqn:F4.
  assert (journal_file d4 = journal_file d3 /\ snapshot_file d4 = snapshot_file d3) as [J4 S4].
  { destruct w; [by injection F4 as _ <- |]. destruct fl; [by injection F4 as _ <- |].
    by apply fault_files in F4 as (? & ? & _). }
  destruct (fault d4) as [cl d5] eqn:F5. apply fault_files in F5 as (J5 & S5 & _).
  intros [= <- <-]. cbn [set_staging journal_file snapshot_file staging_file]. split_and!; try congruence.
  destruct w, fl, sy, cl; try done. intros _. by rewrite take_ge.
Qed.

Lemma clean_staging_files d :
  journal_file (clean_staging d) = journal_file d /\ snapshot_file (clean_staging d) = snapshot_file d.
Proof.
  unfold clean_staging. destruct (fault d) as [[k |] d1] eqn:F; by apply fault_files in F as (? & ? & _).
Qed.

(** C27: replacing the snapshot is atomic whatever calls fail: the snapshot file is the old
    one when the replacement reports a failure and the complete new one when it reports
    success, and the journal is not touched. *)
Theorem snapshot_replace_atomic seq payload d :
  zlen payload < 2 ^ 63 ->
  let '(o, d') := write_snapshot_atomic seq payload d in
  journal_file d' = journal_file d /\
  snapshot_file d' = if o == Ok then Some (snapshot_image seq payload) else snapshot_file d.
Proof.
  intros Hp. unfold write_snapshot_atomic. rewrite snapshot_bytes_image by done.
  generalize (snapshot_image seq payload). intros img.
  destruct (stage_bytes img d) as [[[|] |] d1] eqn:E; apply stage_bytes_files in E as (J & Sn & St).
  - destruct (fault d1) as [[k |] d2] eqn:F; apply fault_files in F as (J2 & S2 & T2).
    + destruct (clean_staging_files d2) as [-> ->]. enum_eval. split; congruence.
    + enum_eval. cbn [set_staging set_snapshot journal_file snapshot_file]. rewrite T2, St by done.
      split; [congruence | done].
  - destruct (clean_staging_files d1) as [-> ->]. enum_eval. split; congruence.
  - enum_eval. split; congruence.
Qed.

Example snapshot_replace_atomic_witness :
  snapshot_file (write_snapshot_atomic (MkSeq 7) [x01; x02] (MkDisk None (Some [x00]) None [None; Some 1%nat])).2
  = Some [x00].
Proof.
  pose proof (snapshot_replace_atomic (MkSeq 7) [x01; x02] (MkDisk None (Some [x00]) None [None; Some 1%nat])
    ltac:(vm_compute; reflexivity)) as H.
  destruct (write_snapshot_atomic (MkSeq 7) [x01; x02] (MkDisk None (Some [x00]) None [None; Some 1%nat]))
    as [o d'] eqn:E. destruct H as [_ H]. cbn [snd]. rewrite H.
  assert (o = Rejected) as -> by (change o with (o, d').1; rewrite <- E; vm_compute; reflexivity).
  reflexivity.
Defined.

Lemma read_snapshot_image seq payload max d :
  in_u64 (seq_value seq) -> zlen payload <= max -> in_u32 max ->
  snapshot_file d = Some (snapshot_image seq payload) -> faults d = [] ->
  read_snapshot max d = (MkSnapshot true Ok seq payload "snapshot loaded", d).
Proof.
  intros Hs Hp Hm Hd Hf. pose proof (zlen_nonneg payload). unfold read_snapshot, fault. rewrite Hd, !Hf.
  rewrite zlen_snapshot_image. unfold kSnapshotHeaderSize, kSnapshotTrailerSize.
  destruct (Z.ltb_spec (28 + zlen payload) (24 + 4)); [lia |].
  destruct (Z.ltb_spec (max + (24 + 4)) (28 + zlen payload)); [lia |].
  by rewrite parse_snapshot_image.
Qed.

(** A snapshot reads back as it was written: the sequence number and the payload,
    unless the payload is larger than the reader admits. *)
Theorem snapshot_roundtrip seq payload max d :
  in_u64 (seq_value seq) -> zlen payload <= max -> in_u32 max ->
  snapshot_file d = Some (snapshot_image seq payload) -> faults d = [] ->
  (read_snapshot max d).1 = MkSnapshot true Ok seq payload "snapshot loaded".
Proof. intros. by rewrite (read_snapshot_image seq payload). Qed.

Example snapshot_roundtrip_witness :
  (read_snapshot 64 (MkDisk None (Some (snapshot_image (MkSeq 7) [x01; x02])) None [])).1
  = MkSnapshot true Ok (MkSeq 7) [x01; x02] "snapshot loaded".
Proof.
  apply (snapshot_roundtrip (MkSeq 7) [x01; x02]);
    [split; [discriminate | reflexivity] | discriminate | split; [discriminate | reflexivity]
    | reflexivity | reflexivity].
Defined.
