(* ===== verification/Durable.v ===== *)
(** * Durable state

    The records that [include/blackhole/persist/store.hpp] declares and the codecs of
    [src/persist/store.cpp]: one lineage entry, and the whole durable state that a snapshot
    carries. *)
From Stdlib Require Import Strings.String.
From S2P Require Import Prelude Core Checked Codec Counted Hash Ids Domain Policy Fence Authority Record.
Local Open Scope string_scope.
Local Open Scope list_scope.
Local Open Scope Z_scope.

(** [root] selects the directory whose files a [Disk] models.
    include/blackhole/persist/store.hpp:18-26 StoreConfig *)
Record StoreConfig := MkStoreConfig {
  max_record_payload : Z;
  st_max_journal_bytes : Z;
  st_max_journal_records : Z;
  max_snapshot_payload : Z;
  st_max_lineage_records : Z;
  max_prior_fences : Z;
}.

(** include/blackhole/persist/store.hpp:18-26 StoreConfig (defaults) *)
Definition default_config : StoreConfig := MkStoreConfig (2 ^ 16) (64 * 1024 * 1024) 65536 (4 * 2 ^ 20) 4096 1024.

(** include/blackhole/persist/store.hpp:30-44 LineageEntry *)
Record LineageEntry := MkLineage {
  ln_type : RecordType.t;
  ln_seq : RecordSequence;
  ln_at : WallNs;
  ln_decision : DecisionId;
  ln_fence : FenceId;
  ln_scope : Scope;
  ln_gens : GenerationVector;
  ln_outcome : Outcome;
  ln_classification : Classification.t;
  ln_reason : ReasonCode.t;
  ln_boot : BootId;
  ln_incarnation : IncarnationId;
  ln_from_prior : bool;
}.

(** src/persist/store.cpp:15-29 encode(LineageEntry) *)
Definition encode_LineageEntry (v : LineageEntry) : Writer -> Writer :=
  seqw [w_enum16 (ln_type v);
        encode (ln_seq v);
        encode (ln_at v);
        encode (ln_decision v);
        encode (ln_fence v);
        encode (ln_scope v);
        encode (ln_gens v);
        w_enum8 (ln_outcome v);
        w_enum16 (ln_classification v);
        w_enum16 (ln_reason v);
        encode (ln_boot v);
        encode (ln_incarnation v);
        w_boolean (ln_from_prior v)].

(** src/persist/store.cpp:31-73 decode(LineageEntry) *)
Definition decode_LineageEntry : Decoder LineageEntry :=
  ln_type_ ← r_enum16 (E := RecordType.t);
  ln_seq_ ← decode (A := RecordSequence);
  ln_at_ ← decode (A := WallNs);
  ln_decision_ ← decode (A := DecisionId);
  ln_fence_ ← decode (A := FenceId);
  ln_scope_ ← decode (A := Scope);
  ln_gens_ ← decode (A := GenerationVector);
  ln_outcome_ ← r_enum8 (E := Outcome);
  ln_classification_ ← r_enum16 (E := Classification.t);
  ln_reason_ ← r_enum16 (E := ReasonCode.t);
  ln_boot_ ← decode (A := BootId);
  ln_incarnation_ ← decode (A := IncarnationId);
  ln_from_prior_ ← r_boolean;
  mret (MkLineage ln_type_ ln_seq_ ln_at_ ln_decision_ ln_fence_ ln_scope_ ln_gens_ ln_outcome_ ln_classification_ ln_reason_ ln_boot_ ln_incarnation_ ln_from_prior_).

Definition image_LineageEntry (v : LineageEntry) : list byte :=
  concat [le_bytes 2 (to_raw (ln_type v));
          image (ln_seq v);
          image (ln_at v);
          image (ln_decision v);
          image (ln_fence v);
          image (ln_scope v);
          image (ln_gens v);
          le_bytes 1 (to_raw (ln_outcome v));
          le_bytes 2 (to_raw (ln_classification v));
          le_bytes 2 (to_raw (ln_reason v));
          image (ln_boot v);
          image (ln_incarnation v);
          le_bytes 1 (Z.b2z (ln_from_prior v))].

Definition valid_LineageEntry (v : LineageEntry) : Prop :=
  valid (ln_seq v) /\
  valid (ln_at v) /\
  valid (ln_decision v) /\
  valid (ln_fence v) /\
  valid (ln_scope v) /\
  valid (ln_gens v) /\
  valid (ln_boot v) /\
  valid (ln_incarnation v).

#[export] Instance Codec_LineageEntry : Codec LineageEntry := {
  encode := encode_LineageEntry; decode := decode_LineageEntry; image := image_LineageEntry; valid := valid_LineageEntry;
}.

#[export] Instance CodecLaws_LineageEntry : CodecLaws LineageEntry.
Proof. codec_laws encode_LineageEntry decode_LineageEntry image_LineageEntry valid_LineageEntry. Qed.

#[export] Instance CanonicalCodec_LineageEntry : CanonicalCodec LineageEntry.
Proof. codec_canonical decode_LineageEntry image_LineageEntry valid_LineageEntry. Qed.

(** include/blackhole/persist/store.hpp:71-88 DurableState *)
Record DurableState := MkDurable {
  ds_format_version : Z;
  ds_snapshot_seq : RecordSequence;
  ds_epoch : CoordinatorEpoch;
  ds_boot_count : Z;
  ds_open_count : Z;
  ds_policy : PolicyVersion;
  ds_policy_fingerprint : Z;
  ds_last_boot : BootId;
  ds_last_incarnation : IncarnationId;
  ds_total_decisions : Z;
  ds_total_fences : Z;
  ds_total_interruptions : Z;
  ds_lineage_seen : Z;
  ds_lineage_dropped : Z;
  ds_lineage : list LineageEntry;
  ds_fences : list FenceStatePayload;
}.

(** The format version, refused as [Unsupported] before anything else is read, lines 100-102. *)
Definition r_version : Decoder Z :=
  v ← r_u16; ensure (v =? kFormatVersion) Unsupported ;; mret v.

Lemma emits_version v : v = kFormatVersion -> Emits (w_u16 v) (le_bytes 2 v).
Proof. intros _. apply emits_u16. Qed.
Lemma reads_version v : v = kFormatVersion -> Reads r_version (le_bytes 2 v) v.
Proof.
  intros ->. unfold r_version. eapply reads_bind_nil; [by apply reads_u16 |].
  apply reads_ensure; [done | apply reads_ret].
Qed.
Lemma accepts_version : Accepts r_version (fun v bs => v = kFormatVersion /\ bs = le_bytes 2 v).
Proof.
  unfold r_version. eapply accepts_bind; [apply accepts_u16 |]. intros v b [Hv ->].
  apply accepts_ensure. intros He. apply accepts_ret. bool_prop. by rewrite app_nil_r.
Qed.
Lemma sticky_version : Sticky r_version. Proof. apply sticky_bind, sticky_u16. Qed.
Lemma total_version : Total r_version.
Proof.
  apply total_bind; [apply total_u16 | intros]. apply total_bind; [by apply total_ensure | intros]. apply total_ret.
Qed.

(** At most 2^20 entries of at least 32 bytes, and as many fences of at least 8 bytes. *)
Lemma lineage_size (e : LineageEntry) : valid e -> 32 <= zlen (image e).
Proof.
  intros _. cbn [image Codec_LineageEntry]. unfold image_LineageEntry. cbn [concat].
  rewrite !zlen_app. change (zlen (image (ln_seq e))) with 8. change (zlen (image (ln_at e))) with 8.
  change (zlen (image (ln_decision e))) with 8. change (zlen (image (ln_fence e))) with 8.
  pose proof (zlen_nonneg (image (ln_scope e))). pose proof (zlen_nonneg (image (ln_gens e))).
  pose proof (zlen_nonneg (image (ln_boot e))). pose proof (zlen_nonneg (image (ln_incarnation e))).
  rewrite !zlen_le_bytes, zlen_nil. lia.
Qed.

Lemma fence_state_size (f : FenceStatePayload) : valid f -> 8 <= zlen (image f).
Proof.
  intros _. cbn [image Codec_FenceStatePayload]. unfold image_FenceStatePayload. cbn [concat].
  rewrite !zlen_app. change (zlen (image (fp_acked_at f))) with 8.
  pose proof (zlen_nonneg (image (fp_intent f))). pose proof (zlen_nonneg (image (fp_ack_owner f))).
  pose proof (zlen_nonneg (image (fp_effect_owner f))). pose proof (zlen_nonneg (image (fp_effected_at f))).
  rewrite !zlen_le_bytes, zlen_nil. lia.
Qed.

(** src/persist/store.cpp:132-132 decode(DurableState) (bound on the counts) *)
Definition kMaxDurableItems : Z := 2 ^ 20.

Lemma durable_items : in_u32 kMaxDurableItems.
Proof. unfold in_u, kMaxDurableItems. lia. Qed.

Definition r_lineage : Decoder (list LineageEntry) := r_counted decode kMaxDurableItems 32.
Definition r_fences : Decoder (list FenceStatePayload) := r_counted decode kMaxDurableItems 8.

Lemma emits_lineage l :
  counted_ok valid kMaxDurableItems l -> Emits (w_counted (encode (A := LineageEntry)) l) (counted image l).
Proof. apply emits_counted_codec, durable_items. Qed.
Lemma reads_lineage l : counted_ok valid kMaxDurableItems l -> Reads r_lineage (counted image l) l.
Proof. apply reads_counted_codec; [exact durable_items | exact lineage_size]. Qed.
Lemma accepts_lineage : Accepts r_lineage (fun l bs => counted_ok valid kMaxDurableItems l /\ bs = counted image l).
Proof. apply accepts_counted_codec; exact _. Qed.
Lemma sticky_lineage : Sticky r_lineage. Proof. apply sticky_counted. Qed.
Lemma total_lineage : Total r_lineage. Proof. apply total_counted_codec. Qed.
Lemma emits_fences l :
  counted_ok valid kMaxDurableItems l -> Emits (w_counted (encode (A := FenceStatePayload)) l) (counted image l).
Proof. apply emits_counted_codec, durable_items. Qed.
Lemma reads_fences l : counted_ok valid kMaxDurableItems l -> Reads r_fences (counted image l) l.
Proof. apply reads_counted_codec; [exact durable_items | exact fence_state_size]. Qed.
Lemma accepts_fences : Accepts r_fences (fun l bs => counted_ok valid kMaxDurableItems l /\ bs = counted image l).
Proof. apply accepts_counted_codec; exact _. Qed.
Lemma sticky_fences : Sticky r_fences. Proof. apply sticky_counted. Qed.
Lemma total_fences : Total r_fences. Proof. apply total_counted_codec. Qed.

#[export] Hint Resolve emits_version reads_version accepts_version sticky_version total_version
  emits_lineage reads_lineage accepts_lineage sticky_lineage total_lineage
  emits_fences reads_fences accepts_fences sticky_fences total_fences : codec_ext.

(** src/persist/store.cpp:77-96 encode(DurableState) *)
Definition encode_DurableState (v : DurableState) : Writer -> Writer :=
  seqw [w_u16 (ds_format_version v);
        encode (ds_snapshot_seq v);
        encode (ds_epoch v);
        w_u64 (ds_boot_count v);
        w_u64 (ds_open_count v);
        encode (ds_policy v);
        w_u64 (ds_policy_fingerprint v);
        encode (ds_last_boot v);
        encode (ds_last_incarnation v);
        w_u64 (ds_total_decisions v);
        w_u64 (ds_total_fences v);
        w_u64 (ds_total_interruptions v);
        w_u64 (ds_lineage_seen v);
        w_u64 (ds_lineage_dropped v);
        w_counted encode (ds_lineage v);
        w_counted encode (ds_fences v)].

(** src/persist/store.cpp:98-155 decode(DurableState) *)
Definition decode_DurableState : Decoder DurableState :=
  ds_format_version_ ← r_version;
  ds_snapshot_seq_ ← decode (A := RecordSequence);
  ds_epoch_ ← decode (A := CoordinatorEpoch);
  ds_boot_count_ ← r_u64;
  ds_open_count_ ← r_u64;
  ds_policy_ ← decode (A := PolicyVersion);
  ds_policy_fingerprint_ ← r_u64;
  ds_last_boot_ ← decode (A := BootId);
  ds_last_incarnation_ ← decode (A := IncarnationId);
  ds_total_decisions_ ← r_u64;
  ds_total_fences_ ← r_u64;
  ds_total_interruptions_ ← r_u64;
  ds_lineage_seen_ ← r_u64;
  ds_lineage_dropped_ ← r_u64;
  ds_lineage_ ← r_lineage;
  ds_fences_ ← r_fences;
  mret (MkDurable ds_format_version_ ds_snapshot_seq_ ds_epoch_ ds_boot_count_ ds_open_count_ ds_policy_ ds_policy_fingerprint_ ds_last_boot_ ds_last_incarnation_ ds_total_decisions_ ds_total_fences_ ds_total_interruptions_ ds_lineage_seen_ ds_lineage_dropped_ ds_lineage_ ds_fences_).

Definition image_DurableState (v : DurableState) : list byte :=
  concat [le_bytes 2 (ds_format_version v);
          image (ds_snapshot_seq v);
          image (ds_epoch v);
          le_bytes 8 (ds_boot_count v);
          le_bytes 8 (ds_open_count v);
          image (ds_policy v);
          le_bytes 8 (ds_policy_fingerprint v);
          image (ds_last_boot v);
          image (ds_last_incarnation v);
          le_bytes 8 (ds_total_decisions v);
          le_bytes 8 (ds_total_fences v);
          le_bytes 8 (ds_total_interruptions v);
          le_bytes 8 (ds_lineage_seen v);
          le_bytes 8 (ds_lineage_dropped v);
          counted image (ds_lineage v);
          counted image (ds_fences v)].

Definition valid_DurableState (v : DurableState) : Prop :=
  ds_format_version v = kFormatVersion /\
  valid (ds_snapshot_seq v) /\
  valid (ds_epoch v) /\
  in_u64 (ds_boot_count v) /\
  in_u64 (ds_open_count v) /\
  valid (ds_policy v) /\
  in_u64 (ds_policy_fingerprint v) /\
  valid (ds_last_boot v) /\
  valid (ds_last_incarnation v) /\
  in_u64 (ds_total_decisions v) /\
  in_u64 (ds_total_fences v) /\
  in_u64 (ds_total_interruptions v) /\
  in_u64 (ds_lineage_seen v) /\
  in_u64 (ds_lineage_dropped v) /\
  counted_ok valid kMaxDurableItems (ds_lineage v) /\
  counted_ok valid kMaxDurableItems (ds_fences v).

#[export] Instance Codec_DurableState : Codec DurableState := {
  encode := encode_DurableState; decode := decode_DurableState; image := image_DurableState; valid := valid_DurableState;
}.

#[export] Instance CodecLaws_DurableState : CodecLaws DurableState.
Proof. codec_laws encode_DurableState decode_DurableState image_DurableState valid_DurableState. Qed.

#[export] Instance CanonicalCodec_DurableState : CanonicalCodec DurableState.
Proof. codec_canonical decode_DurableState image_DurableState valid_DurableState. Qed.

