(* ===== verification/Store.v ===== *)
(** * The durable store

    Models [src/persist/store.cpp]: opening (snapshot, journal replay, tail recovery, new
    boot record, fencing of prior intents), the committing operations (append, flush, sync,
    publish) and the checkpoint. The state is the [Store] object with the files of its
    directory; an operation is a computation in the state monad [StoreM], and [TRY] is the
    early return on an outcome that is not [Ok]. *)
From Stdlib Require Import Strings.String.
From S2P Require Import Prelude Core Checked Codec Counted Hash Ids Domain Policy Fence Authority.
From S2P Require Import Record Journal Snapshot Durable.
Local Open Scope string_scope.
Local Open Scope list_scope.
Local Open Scope Z_scope.

(** ** Durable state and its updates *)

(** [GenerationVector{}] and [DurableState{}] *)
Definition nil_gens : GenerationVector := MkGens (MkGen 0) (MkGen 0) (MkGen 0) (MkGen 0).
Definition new_DurableState : DurableState :=
  MkDurable kFormatVersion (MkSeq 0) (MkGen 0) 0 0 (MkId 0) 0 (MkId 0) (MkId 0) 0 0 0 0 0 [] [].

Definition set_boot_counts (epoch : CoordinatorEpoch) (boots opens : Z) (s : DurableState) : DurableState :=
  MkDurable (ds_format_version s) (ds_snapshot_seq s) epoch boots opens (ds_policy s)
    (ds_policy_fingerprint s) (ds_last_boot s) (ds_last_incarnation s) (ds_total_decisions s)
    (ds_total_fences s) (ds_total_interruptions s) (ds_lineage_seen s) (ds_lineage_dropped s)
    (ds_lineage s) (ds_fences s).
Definition set_epoch (epoch : CoordinatorEpoch) (s : DurableState) : DurableState :=
  set_boot_counts epoch (ds_boot_count s) (ds_open_count s) s.
Definition set_policy (p : PolicyVersion) (fingerprint : Z) (s : DurableState) : DurableState :=
  MkDurable (ds_format_version s) (ds_snapshot_seq s) (ds_epoch s) (ds_boot_count s) (ds_open_count s) p
    fingerprint (ds_last_boot s) (ds_last_incarnation s) (ds_total_decisions s)
    (ds_total_fences s) (ds_total_interruptions s) (ds_lineage_seen s) (ds_lineage_dropped s)
    (ds_lineage s) (ds_fences s).
Definition set_last_boot (b : BootId) (i : IncarnationId) (s : DurableState) : DurableState :=
  MkDurable (ds_format_version s) (ds_snapshot_seq s) (ds_epoch s) (ds_boot_count s) (ds_open_count s)
    (ds_policy s) (ds_policy_fingerprint s) b i (ds_total_decisions s)
    (ds_total_fences s) (ds_total_interruptions s) (ds_lineage_seen s) (ds_lineage_dropped s)
    (ds_lineage s) (ds_fences s).
Definition set_totals (decisions fences interruptions : Z) (s : DurableState) : DurableState :=
  MkDurable (ds_format_version s) (ds_snapshot_seq s) (ds_epoch s) (ds_boot_count s) (ds_open_count s)
    (ds_policy s) (ds_policy_fingerprint s) (ds_last_boot s) (ds_last_incarnation s) decisions
    fences interruptions (ds_lineage_seen s) (ds_lineage_dropped s) (ds_lineage s) (ds_fences s).
Definition count_decision (s : DurableState) : DurableState :=
  set_totals (incr (ds_total_decisions s)) (ds_total_fences s) (ds_total_interruptions s) s.
Definition count_fence (s : DurableState) : DurableState :=
  set_totals (ds_total_decisions s) (incr (ds_total_fences s)) (ds_total_interruptions s) s.
Definition count_interruption (s : DurableState) : DurableState :=
  set_totals (ds_total_decisions s) (ds_total_fences s) (incr (ds_total_interruptions s)) s.
Definition set_lineage (seen dropped : Z) (l : list LineageEntry) (s : DurableState) : DurableState :=
  MkDurable (ds_format_version s) (ds_snapshot_seq s) (ds_epoch s) (ds_boot_count s) (ds_open_count s)
    (ds_policy s) (ds_policy_fingerprint s) (ds_last_boot s) (ds_last_incarnation s) (ds_total_decisions s)
    (ds_total_fences s) (ds_total_interruptions s) seen dropped l (ds_fences s).
Definition set_fences (l : list FenceStatePayload) (s : DurableState) : DurableState :=
  MkDurable (ds_format_version s) (ds_snapshot_seq s) (ds_epoch s) (ds_boot_count s) (ds_open_count s)
    (ds_policy s) (ds_policy_fingerprint s) (ds_last_boot s) (ds_last_incarnation s) (ds_total_decisions s)
    (ds_total_fences s) (ds_total_interruptions s) (ds_lineage_seen s) (ds_lineage_dropped s)
    (ds_lineage s) l.
Definition set_snapshot_seq (q : RecordSequence) (s : DurableState) : DurableState :=
  MkDurable (ds_format_version s) q (ds_epoch s) (ds_boot_count s) (ds_open_count s)
    (ds_policy s) (ds_policy_fingerprint s) (ds_last_boot s) (ds_last_incarnation s) (ds_total_decisions s)
    (ds_total_fences s) (ds_total_interruptions s) (ds_lineage_seen s) (ds_lineage_dropped s)
    (ds_lineage s) (ds_fences s).

(** The oldest entry leaves when the lineage is full. src/persist/store.cpp:508-515 Store::push_lineage *)
Definition push_lineage (c : StoreConfig) (e : LineageEntry) (s : DurableState) : DurableState :=
  if st_max_lineage_records c <=? zlen (ds_lineage s) then
    set_lineage (incr (ds_lineage_seen s)) (incr (ds_lineage_dropped s)) (drop 1 (ds_lineage s) ++ [e]) s
  else set_lineage (incr (ds_lineage_seen s)) (ds_lineage_dropped s) (ds_lineage s ++ [e]) s.

(** include/blackhole/persist/store.hpp:125-128 Store::lineage_accounting_closed *)
Definition lineage_accounting_closed (s : DurableState) : bool :=
  ds_lineage_seen s =? u64_add (zlen (ds_lineage s)) (ds_lineage_dropped s).

(** The lineage entry of a decision. src/persist/store.cpp:552-564 Store::commit_decision (entry) *)
Definition decision_entry (type : RecordType.t) (seq : RecordSequence) (d : Decision) : LineageEntry :=
  MkLineage type seq (dc_decided_at d) (dc_id d) (if dc_has_intent d then fi_id (dc_intent d) else MkId 0)
    (dc_scope d) (dc_gens d) (dc_outcome d) (dc_classification d) (dc_primary_reason d) (dc_boot d)
    (dc_incarnation d) false.

(** src/persist/store.cpp:585-596 Store::commit_fence_state (entry) *)
Definition fence_entry (type : RecordType.t) (seq : RecordSequence) (f : FenceStatePayload) : LineageEntry :=
  let i := fp_intent f in
  MkLineage type seq (fi_issued_at i) (fi_decision i) (fi_id i) (fi_scope i) (fi_gens i) Ok
    Classification.NoEvidence
    (if fp_terminal_reason f != ReasonCode.None then fp_terminal_reason f else fi_reason i)
    (fi_boot i) (fi_incarnation i) false.

(** src/persist/store.cpp:609-624 Store::commit_interruption (entry) *)
Definition interruption_entry (seq : RecordSequence) (p : InterruptionPayload) : LineageEntry :=
  MkLineage RecordType.InterruptionCommit seq (ip_at p) (ip_decision p) (ip_fence p) (ip_scope p)
    (MkGens (MkGen 0) (MkGen 0) (MkGen 0) (ip_prior_epoch p)) Interrupted Classification.Unknown (ip_reason p)
    (ip_prior_boot p) (ip_prior_incarnation p) true.

(** [std::find_if] by intent identity, and the update of what it finds.
    src/persist/store.cpp:576-584 Store::commit_fence_state (update) *)
Definition find_fence_state (id : FenceId) (l : list FenceStatePayload) : option FenceStatePayload :=
  List.find (fun x => fi_id (fp_intent x) == id) l.
Fixpoint replace_fence_state (f : FenceStatePayload) (l : list FenceStatePayload) : list FenceStatePayload :=
  match l with
  | [] => []
  | x :: l => if fi_id (fp_intent x) == fi_id (fp_intent f) then f :: l else x :: replace_fence_state f l
  end.

(** ** Replay of one record *)

(** Decode a whole payload or return its refusal. *)
Definition with_payload {A B} `{Codec A} (payload : list byte) (s : B) (k : A -> Outcome * B) : Outcome * B :=
  match decode_all decode payload with
  | Refuse o => (o, s)
  | Done a => k a
  end.

(** The state and [last_seq_]. *)
Definition Replayed_ : Type := DurableState * RecordSequence.

(** src/persist/store.cpp:369-506 Store::apply_record *)
Definition apply_record (c : StoreConfig) (type : RecordType.t) (seq : RecordSequence) (payload : list byte)
  (st : Replayed_) : Outcome * Replayed_ :=
  let s := st.1 in
  let done s := (Ok, (s, seq)) in
  match type with
  | RecordType.Boot =>
      with_payload payload st (fun p : BootPayload =>
        if (gen_value (bp_epoch p) <=? gen_value (ds_epoch s)) && negb (gen_value (ds_epoch s) =? 0) then
          (Corrupt, st)
        else
          done (set_last_boot (bp_boot p) (bp_incarnation p)
                  (set_policy (bp_policy p) (ds_policy_fingerprint s)
                     (set_boot_counts (bp_epoch p) (bp_boot_count p) (bp_open_count p) s))))
  | RecordType.PolicyCommit =>
      with_payload payload st (fun p : FencePolicy => done (set_policy (pol_version p) (policy_fingerprint p) s))
  | RecordType.Checkpoint =>
      with_payload payload st (fun p : CheckpointPayload =>
        if seq_value seq <? seq_value (cp_snapshot_seq p) then (Corrupt, st) else done s)
  | RecordType.DecisionCommit | RecordType.RestorationCommit | RecordType.EvidenceLineageCommit =>
      with_payload payload st (fun d : Decision =>
        let s := push_lineage c (decision_entry type seq d) s in
        done (if type == RecordType.DecisionCommit then count_decision s else s))
  | RecordType.FenceIntentCommit | RecordType.FenceAckCommit | RecordType.FenceEffectCommit
  | RecordType.FenceRevokeCommit =>
      with_payload payload st (fun f : FenceStatePayload =>
        let put l :=
          let s := set_fences l s in
          let s := if type == RecordType.FenceIntentCommit then count_fence s else s in
          done (push_lineage c (fence_entry type seq f) s) in
        match find_fence_state (fi_id (fp_intent f)) (ds_fences s) with
        | None =>
            if max_prior_fences c <=? zlen (ds_fences s) then (Exhausted, st) else put (ds_fences s ++ [f])
        | Some _ => put (replace_fence_state f (ds_fences s))
        end)
  | RecordType.InterruptionCommit =>
      with_payload payload st (fun p : InterruptionPayload =>
        done (push_lineage c (interruption_entry seq p) (count_interruption s)))
  | RecordType.EpochAdvance =>
      with_payload payload st (fun e : CoordinatorEpoch =>
        if gen_value e <=? gen_value (ds_epoch s) then (Corrupt, st) else done (set_epoch e s))
  end.

(** Records folded into the snapshot are skipped.
    src/persist/store.cpp:157-177 Store::ReplayVisitor *)
Definition replay_visit (c : StoreConfig) (snapshot_seq : RecordSequence) (type : RecordType.t)
  (seq : RecordSequence) (payload : list byte) (st : Replayed_) : Outcome * Replayed_ :=
  if seq_value seq <=? seq_value snapshot_seq then (Ok, st) else apply_record c type seq payload st.

(** ** The store object *)

(** include/blackhole/persist/store.hpp:46-63 OpenReport *)
Record OpenReport := MkOpen {
  or_outcome : Outcome;
  or_boot : BootId;
  or_incarnation : IncarnationId;
  or_epoch : CoordinatorEpoch;
  or_boot_count : Z;
  or_open_count : Z;
  or_records_replayed : Z;
  or_reclaimed_tail_bytes : Z;
  or_fenced_prior_fences : Z;
  or_prior_lineage_entries : Z;
  or_snapshot_present : bool;
  or_torn_tail_recovered : bool;
  or_zero_tail_observed : bool;
  or_restart_detected : bool;
  or_policy_restored : bool;
  or_detail : string;
}.

Definition new_OpenReport : OpenReport :=
  MkOpen Ok (MkId 0) (MkId 0) (MkGen 0) 0 0 0 0 0 0 false false false false false "".

(** include/blackhole/persist/store.hpp:94-151 Store *)
Record Store := MkStore {
  config_ : StoreConfig;
  st_policy : FencePolicy;
  journal_ : JournalWriter;
  state_ : DurableState;
  report_ : OpenReport;
  boot_ : BootId;
  incarnation_ : IncarnationId;
  last_seq_ : RecordSequence;
  opened_ : bool;
  journal_bytes_ : Z;
}.

(** src/persist/store.cpp:179-183 Store::Store *)
Definition new_Store (config : StoreConfig) (policy : FencePolicy) : Store :=
  MkStore config policy new_JournalWriter new_DurableState new_OpenReport (MkId 0) (MkId 0) (MkSeq 0) false 0.

Definition with_journal (j : JournalWriter) (t : Store) : Store :=
  MkStore (config_ t) (st_policy t) j (state_ t) (report_ t) (boot_ t) (incarnation_ t) (last_seq_ t)
    (opened_ t) (journal_bytes_ t).
Definition with_state (f : DurableState -> DurableState) (t : Store) : Store :=
  MkStore (config_ t) (st_policy t) (journal_ t) (f (state_ t)) (report_ t) (boot_ t) (incarnation_ t)
    (last_seq_ t) (opened_ t) (journal_bytes_ t).
Definition with_report (f : OpenReport -> OpenReport) (t : Store) : Store :=
  MkStore (config_ t) (st_policy t) (journal_ t) (state_ t) (f (report_ t)) (boot_ t) (incarnation_ t)
    (last_seq_ t) (opened_ t) (journal_bytes_ t).
Definition with_identity (b : BootId) (i : IncarnationId) (t : Store) : Store :=
  MkStore (config_ t) (st_policy t) (journal_ t) (state_ t) (report_ t) b i (last_seq_ t) (opened_ t)
    (journal_bytes_ t).
Definition with_position (seq : RecordSequence) (bytes : Z) (t : Store) : Store :=
  MkStore (config_ t) (st_policy t) (journal_ t) (state_ t) (report_ t) (boot_ t) (incarnation_ t) seq
    (opened_ t) bytes.
Definition with_opened (b : bool) (t : Store) : Store :=
  MkStore (config_ t) (st_policy t) (journal_ t) (state_ t) (report_ t) (boot_ t) (incarnation_ t)
    (last_seq_ t) b (journal_bytes_ t).

(** ** The monad of store operations *)

Definition World : Type := Store * Disk.
Definition StoreM (A : Type) : Type := World -> A * World.

#[export] Instance StoreM_ret : MRet StoreM := fun A a w => (a, w).
#[export] Instance StoreM_bind : MBind StoreM := fun A B k m w => let '(a, w) := m w in k a w.

(** [const Outcome o = m; if (!is_affirmative(o)) return o; k] *)
Notation "'TRY' m ;; k" := (mbind (fun o => if is_affirmative o then k else mret o) m)
  (at level 100, m at next level, k at level 200, right associativity) : bhg_scope.

Definition get_store : StoreM Store := fun w => (w.1, w).
Definition modify (f : Store -> Store) : StoreM unit := fun w => (tt, (f w.1, w.2)).
Definition on_disk {A} (f : Disk -> A * Disk) : StoreM A := fun w => let '(a, d) := f w.2 in (a, (w.1, d)).
Definition on_journal (f : JournalWriter -> Disk -> Outcome * JournalWriter * Disk) : StoreM Outcome := fun w =>
  let '(o, j, d) := f (journal_ w.1) w.2 in (o, (with_journal j w.1, d)).

(** ** Committing *)

(** The new sequence number is returned through [out_seq], which is [last_seq_] afterwards.
    src/persist/store.cpp:517-530 Store::append_commit *)
Definition append_commit (type : RecordType.t) (payload : list byte) : StoreM Outcome :=
  t ← get_store;
  if negb (opened_ t) then mret Invalid
  else if st_max_journal_bytes (config_ t) <=? journal_bytes_ t then mret Exhausted
  else
    let seq := MkSeq (wrap 64 (seq_value (last_seq_ t) + 1)) in
    TRY on_journal (journal_append type seq payload) ;;
    TRY on_journal journal_commit ;;
    modify (fun t => with_position seq (bytes_ (journal_ t)) t) ;;
    mret Ok.

(** [Writer w(max); encode(w, a); if (!w.ok()) return Exhausted; append_commit(type, w.span(), seq)] *)
Definition commit_value {A} `{Codec A} (max : Z) (type : RecordType.t) (a : A) : StoreM Outcome :=
  match encode_bounded max a with
  | None => mret Exhausted
  | Some bs => append_commit type bs
  end.

Definition push_entry (e : RecordSequence -> LineageEntry) : StoreM unit :=
  modify (fun t => with_state (push_lineage (config_ t) (e (last_seq_ t))) t).

(** src/persist/store.cpp:532-542 Store::commit_policy *)
Definition commit_policy (policy : FencePolicy) : StoreM Outcome :=
  TRY commit_value 1024 RecordType.PolicyCommit policy ;;
  modify (with_state (set_policy (pol_version policy) (policy_fingerprint policy))) ;;
  mret Ok.

(** src/persist/store.cpp:544-567 Store::commit_decision *)
Definition commit_decision (d : Decision) : StoreM Outcome :=
  TRY commit_value kDefaultMaxDocumentBytes RecordType.DecisionCommit d ;;
  modify (with_state count_decision) ;;
  push_entry (fun seq => decision_entry RecordType.DecisionCommit seq d) ;;
  mret Ok.

(** src/persist/store.cpp:569-599 Store::commit_fence_state *)
Definition commit_fence_state (type : RecordType.t) (f : FenceStatePayload) : StoreM Outcome :=
  TRY commit_value 1024 type f ;;
  t ← get_store;
  let fences := ds_fences (state_ t) in
  match find_fence_state (fi_id (fp_intent f)) fences with
  | None =>
      if max_prior_fences (config_ t) <=? zlen fences then mret Exhausted
      else
        modify (with_state (fun s =>
          let s := set_fences (fences ++ [f]) s in
          if type == RecordType.FenceIntentCommit then count_fence s else s)) ;;
        push_entry (fun seq => fence_entry type seq f) ;;
        mret Ok
  | Some _ =>
      modify (with_state (set_fences (replace_fence_state f fences))) ;;
      push_entry (fun seq => fence_entry type seq f) ;;
      mret Ok
  end.

(** src/persist/store.cpp:601-627 Store::commit_interruption *)
Definition commit_interruption (p : InterruptionPayload) : StoreM Outcome :=
  TRY commit_value 512 RecordType.InterruptionCommit p ;;
  modify (with_state count_interruption) ;;
  push_entry (fun seq => interruption_entry seq p) ;;
  mret Ok.

(** src/persist/store.cpp:667-671 Store::close *)
Definition store_close : StoreM Outcome :=
  o ← on_journal journal_close;
  modify (with_opened false) ;;
  mret o.

(** src/persist/store.cpp:629-665 Store::checkpoint, Store::build_snapshot_state *)
Definition checkpoint : StoreM Outcome :=
  t ← get_store;
  if negb (opened_ t) then mret Invalid
  else
    let snap := set_snapshot_seq (last_seq_ t) (state_ t) in
    match encode_bounded (max_snapshot_payload (config_ t)) snap with
    | None => mret Exhausted
    | Some bs =>
        TRY on_disk (write_snapshot_atomic (ds_snapshot_seq snap) bs) ;;
        TRY on_journal journal_close ;;
        TRY on_journal (open_append true) ;;
        modify (with_position (ds_snapshot_seq snap) 0) ;;
        commit_value 128 RecordType.Checkpoint
          (MkCheckpoint (ds_snapshot_seq snap) (ds_epoch (state_ t)) 0)
    end.

(** ** Opening *)

(** [report_.outcome = o; report_.detail = why; return o;] *)
Definition open_refuse (o : Outcome) (why : string) : StoreM Outcome :=
  modify (with_report (fun r =>
    MkOpen o (or_boot r) (or_incarnation r) (or_epoch r) (or_boot_count r) (or_open_count r)
      (or_records_replayed r) (or_reclaimed_tail_bytes r) (or_fenced_prior_fences r)
      (or_prior_lineage_entries r) (or_snapshot_present r) (or_torn_tail_recovered r)
      (or_zero_tail_observed r) (or_restart_detected r) (or_policy_restored r) why)) ;;
  mret o.

(** Run [m]; on a refusal record it under [why]. *)
Notation "'TRYR' m 'ELSE' why ;; k" :=
  (mbind (fun o => if is_affirmative o then k else open_refuse o why) m)
  (at level 100, m at next level, why at next level, k at level 200, right associativity) : bhg_scope.

(** The snapshot is decoded into the state. src/persist/store.cpp:202-233 Store::open (snapshot) *)
Definition load_snapshot : StoreM Outcome :=
  t ← get_store;
  snap ← on_disk (read_snapshot (max_snapshot_payload (config_ t)));
  if negb (sn_present snap) then mret Ok
  else
    modify (with_report (fun r =>
      MkOpen (or_outcome r) (or_boot r) (or_incarnation r) (or_epoch r) (or_boot_count r) (or_open_count r)
        (or_records_replayed r) (or_reclaimed_tail_bytes r) (or_fenced_prior_fences r)
        (or_prior_lineage_entries r) true (or_torn_tail_recovered r)
        (or_zero_tail_observed r) (or_restart_detected r) (or_policy_restored r) (or_detail r))) ;;
    if negb (is_affirmative (sn_outcome snap)) then
      open_refuse (sn_outcome snap) ("snapshot rejected: " ++ sn_detail snap)%string
    else
      match decode (A := DurableState) (new_Reader (sn_payload snap)) with
      | (Refuse o, _) => open_refuse o "snapshot payload rejected"
      | (Done s, r) =>
          modify (with_state (fun _ => s)) ;;
          match r_finish r with
          | (Refuse o, _) => open_refuse o "trailing bytes after snapshot payload"
          | (Done _, _) =>
              if ds_snapshot_seq s != sn_seq snap then
                open_refuse Corrupt "snapshot sequence disagrees with its payload"
              else if st_max_lineage_records (config_ t) <? zlen (ds_lineage s) then
                open_refuse Oversized "snapshot lineage exceeds the configured bound"
              else mret Ok
          end
      end.

(** The journal is replayed into the state and a torn tail reclaimed.
    src/persist/store.cpp:235-262 Store::open (journal) *)
Definition replay_journal : StoreM Outcome :=
  modify (fun t => with_position (ds_snapshot_seq (state_ t)) (journal_bytes_ t) t) ;;
  t ← get_store;
  let c := config_ t in
  let snapshot_seq := ds_snapshot_seq (state_ t) in
  '(scan, st) ← on_disk (fun d =>
    scan_journal (replay_visit c snapshot_seq) (max_record_payload c) (st_max_journal_records c)
      (st_max_journal_bytes c) (MkSeq (wrap 64 (seq_value snapshot_seq + 1))) (state_ t, last_seq_ t) d);
  modify (fun t => with_position st.2 (journal_bytes_ t) (with_state (fun _ => st.1) t)) ;;
  if negb (is_affirmative (jr_outcome scan)) then
    open_refuse (jr_outcome scan) ("journal rejected: " ++ jr_detail scan)%string
  else
    modify (with_report (fun r =>
      MkOpen (or_outcome r) (or_boot r) (or_incarnation r) (or_epoch r) (or_boot_count r) (or_open_count r)
        (jr_records scan) (or_reclaimed_tail_bytes r) (or_fenced_prior_fences r)
        (or_prior_lineage_entries r) (or_snapshot_present r) (jr_torn_tail scan)
        (jr_zero_tail scan) (or_restart_detected r) (or_policy_restored r) (or_detail r))) ;;
    TRYR (if jr_torn_tail scan then on_disk (truncate_journal (jr_valid_bytes scan)) else mret Ok)
      ELSE "torn tail could not be reclaimed" ;;
    modify (fun t => with_report (fun r =>
      MkOpen (or_outcome r) (or_boot r) (or_incarnation r) (or_epoch r) (or_boot_count r) (or_open_count r)
        (or_records_replayed r) (if jr_torn_tail scan then jr_tail_bytes scan else or_reclaimed_tail_bytes r)
        (or_fenced_prior_fences r) (or_prior_lineage_entries r) (or_snapshot_present r)
        (or_torn_tail_recovered r) (or_zero_tail_observed r)
        ((0 <? jr_records scan) || or_snapshot_present r)
        (ds_policy_fingerprint (state_ t) =? policy_fingerprint (st_policy t)) (or_detail r)) t) ;;
    mret Ok.

(** The new incarnation: counters, epoch, identities from the next two nonces; the prior
    lineage is marked. src/persist/store.cpp:264-281 Store::open (incarnation) *)
Definition advance_incarnation (nonce1 nonce2 : Z) : StoreM Outcome :=
  modify (with_state (fun s =>
    set_boot_counts (gen_next (ds_epoch s)) (incr (ds_boot_count s))
      (incr (ds_open_count s)) s)) ;;
  modify (with_identity (MkId nonce1) (MkId nonce2)) ;;
  if (nonce1 =? 0) || (nonce2 =? 0) then
    open_refuse Unavailable "nonce source produced a nil identity"
  else
    modify (fun t => with_report (fun r =>
      MkOpen (or_outcome r) (boot_ t) (incarnation_ t) (ds_epoch (state_ t)) (ds_boot_count (state_ t))
        (ds_open_count (state_ t)) (or_records_replayed r) (or_reclaimed_tail_bytes r)
        (or_fenced_prior_fences r) (zlen (ds_lineage (state_ t))) (or_snapshot_present r)
        (or_torn_tail_recovered r) (or_zero_tail_observed r) (or_restart_detected r)
        (or_policy_restored r) (or_detail r)) t) ;;
    modify (with_state (fun s =>
      set_lineage (ds_lineage_seen s) (ds_lineage_dropped s)
        (map (fun e => MkLineage (ln_type e) (ln_seq e) (ln_at e) (ln_decision e) (ln_fence e) (ln_scope e)
                (ln_gens e) (ln_outcome e) (ln_classification e) (ln_reason e) (ln_boot e)
                (ln_incarnation e) true) (ds_lineage s)) s)) ;;
    mret Ok.

(** src/persist/store.cpp:292-301 Store::open (boot record) *)
Definition boot_payload (now : WallNs) (label : Provenance.t) (t : Store) : BootPayload :=
  MkBoot (boot_ t) (incarnation_ t) (ds_epoch (state_ t)) now (ds_boot_count (state_ t))
    (ds_open_count (state_ t)) (pol_version (st_policy t)) (policy_fingerprint (st_policy t)) label.

(** Open the journal for appending, commit the boot record and, when it changed, the policy.
    src/persist/store.cpp:283-328 Store::open (boot) *)
Definition commit_boot (now : WallNs) (label : Provenance.t) : StoreM Outcome :=
  TRYR on_journal (open_append false) ELSE "journal not openable for append" ;;
  bytes ← on_disk (fun d => (file_size (journal_file d), d));
  modify (fun t => with_opened true (with_position (last_seq_ t) bytes t)) ;;
  t ← get_store;
  match encode_bounded 256 (boot_payload now label t) with
  | None => open_refuse Exhausted "boot record not encodable"
  | Some bs =>
      TRYR append_commit RecordType.Boot bs ELSE "boot record not durable" ;;
      if or_policy_restored (report_ t) then mret Ok
      else
        TRYR commit_policy (st_policy t) ELSE "policy commit failed" ;;
        mret Ok
  end.

(** src/persist/store.cpp:333-335 Store::open (open lifecycles) *)
Definition open_lifecycle (l : FenceLifecycle.t) : bool :=
  (l == FenceLifecycle.Intent) || (l == FenceLifecycle.Acknowledged) || (l == FenceLifecycle.EffectReported).

(** src/persist/store.cpp:338-339 Store::open (fenced) *)
Definition fenced_by_open (f : FenceStatePayload) : FenceStatePayload :=
  MkFenceState (fp_intent f) FenceLifecycle.FencedByRestart (fp_effect_verified f) (fp_ack_owner f)
    (fp_effect_owner f) (fp_acked_at f) (fp_effected_at f) ReasonCode.RestartFencedPriorAuthority.

(** src/persist/store.cpp:340-348 Store::open (interruption) *)
Definition interruption_of (now : WallNs) (f : FenceStatePayload) : InterruptionPayload :=
  let i := fp_intent f in
  MkInterruption ReasonCode.RestartFencedPriorAuthority (fi_id i) (fi_decision i) (fi_scope i)
    (gv_epoch (fi_gens i)) (fi_boot i) (fi_incarnation i) now.

(** The loop over the fences: [todo] are the indices left; an entry is updated in place
    before its records are committed. src/persist/store.cpp:330-362 Store::open (fencing) *)
Fixpoint fence_prior (now : WallNs) (todo : list nat) (fenced : Z) : StoreM (Outcome * Z) :=
  match todo with
  | [] => mret (Ok, fenced)
  | i :: todo =>
      t ← get_store;
      match ds_fences (state_ t) !! i with
      | None => fence_prior now todo fenced
      | Some f =>
          if negb (open_lifecycle (fp_lifecycle f)) then fence_prior now todo fenced
          else
            modify (with_state (fun s => set_fences (<[i := fenced_by_open f]> (ds_fences s)) s)) ;;
            o ← commit_interruption (interruption_of now f);
            if negb (is_affirmative o) then
              o ← open_refuse o "interruption record not durable"; mret (o, fenced)
            else
              o ← commit_fence_state RecordType.FenceRevokeCommit (fenced_by_open f);
              if negb (is_affirmative o) then
                o ← open_refuse o "fence revoke record not durable"; mret (o, fenced)
              else fence_prior now todo (incr fenced)
      end
  end.

(** src/persist/store.cpp:187-367 Store::open *)
Definition store_open (nonce1 nonce2 : Z) (now : WallNs) (label : Provenance.t) : StoreM Outcome :=
  modify (with_report (fun _ => new_OpenReport)) ;;
  t ← get_store;
  if opened_ t then mret Invalid
  else
    made ← on_disk fault;
    if made is Some _ then open_refuse Rejected "state root not creatable"
    else
      on_disk (fun d => (tt, clean_staging d)) ;;
      TRY load_snapshot ;;
      TRY replay_journal ;;
      TRY advance_incarnation nonce1 nonce2 ;;
      TRY commit_boot now label ;;
      t ← get_store;
      '(o, fenced) ← fence_prior now (seq 0 (length (ds_fences (state_ t)))) 0;
      if negb (is_affirmative o) then mret o
      else
        modify (with_report (fun r =>
          MkOpen Ok (or_boot r) (or_incarnation r) (or_epoch r) (or_boot_count r) (or_open_count r)
            (or_records_replayed r) (or_reclaimed_tail_bytes r) fenced (or_prior_lineage_entries r)
            (or_snapshot_present r) (or_torn_tail_recovered r) (or_zero_tail_observed r)
            (or_restart_detected r) (or_policy_restored r) "store open")) ;;
        mret Ok.
