(* ===== verification/StoreSpec.v ===== *)
(** * What the store promises

    The abstract contract of the store is its journal: a list of records whose replay
    through [apply_record] is the durable state. Every commit appends one record and moves
    the live state exactly as the replay of that record does, so a crash loses at most the
    records whose bytes were not synced and reopening rebuilds the rest. *)
From Stdlib Require Import Strings.String Setoid Morphisms.
From S2P Require Import Prelude Core Checked Codec Counted Hash Ids Domain Policy Fixtures Fence Authority.
From S2P Require Import Record Journal JournalSpec Snapshot Durable Store.
Local Open Scope string_scope.
Local Open Scope list_scope.
Local Open Scope Z_scope.

(** ** Commits *)

(** An open store whose journal file holds [J] and nothing is buffered. *)
Record ready (J : list byte) (w : World) : Prop := {
  ready_opened : opened_ w.1 = true;
  ready_stream : stream (journal_ w.1) = Some [];
  ready_faults : faults w.2 = [];
  ready_file : journal_file w.2 = Some J;
}.

(** The world after one durable record. *)
Definition appended (type : RecordType.t) (payload : list byte) (w : World) : World :=
  let t := w.1 in
  let seq := MkSeq (wrap 64 (seq_value (last_seq_ t) + 1)) in
  let img := record_image type seq payload in
  let j := MkJournal (Some []) (u64_add (bytes_ (journal_ t)) (zlen img)) 0 in
  (with_position seq (bytes_ j) (with_journal j t),
   set_journal (Some (default [] (journal_file w.2) ++ img)) w.2).

Lemma append_commit_ready J type payload w :
  ready J w -> zlen payload < 2 ^ 63 ->
  append_commit type payload w =
  if st_max_journal_bytes (config_ w.1) <=? journal_bytes_ w.1 then (Exhausted, w)
  else (Ok, appended type payload w).
Proof.
  intros [Ho Hs Hf Hj] Hp. pose proof (zlen_nonneg payload).
  destruct w as [t d]. cbn [fst snd] in *. unfold append_commit, mbind, StoreM_bind, get_store. cbn [fst snd].
  rewrite Ho. cbn [negb]. destruct (_ <=? _); [done |].
  unfold on_journal, journal_append. cbn [fst snd]. rewrite Hs.
  rewrite encode_record_image by (unfold kJournalHeaderSize, kJournalTrailerSize; lia).
  unfold fault. rewrite Hf. cbn [ok_ negb buf_ app is_affirmative].
  change (is_affirmative Ok) with true. cbn match.
  unfold journal_commit, flush_and_sync, fault. cbn [with_journal journal_ stream fst snd].
  rewrite Hf. cbn [negb]. change (is_affirmative Ok) with true. cbn match.
  unfold modify, appended. cbn [fst snd]. reflexivity.
Qed.

Lemma ready_appended J type payload w :
  ready J w -> ready (J ++ record_image type (MkSeq (wrap 64 (seq_value (last_seq_ w.1) + 1))) payload)
                 (appended type payload w).
Proof. intros [Ho Hs Hf Hj]. unfold appended. rewrite Hj. by split. Qed.

(** A commit of one of the kinds the engine uses. *)
Inductive Commit :=
| CPolicy (p : FencePolicy)
| CDecision (d : Decision)
| CFence (type : RecordType.t) (f : FenceStatePayload)
| CInterruption (p : InterruptionPayload).

Definition commit_op (c : Commit) : StoreM Outcome :=
  match c with
  | CPolicy p => commit_policy p
  | CDecision d => commit_decision d
  | CFence type f => commit_fence_state type f
  | CInterruption p => commit_interruption p
  end.

(** The record a commit writes. *)
Definition commit_entry (c : Commit) : Entry :=
  match c with
  | CPolicy p => (RecordType.PolicyCommit, image p)
  | CDecision d => (RecordType.DecisionCommit, image d)
  | CFence type f => (type, image f)
  | CInterruption p => (RecordType.InterruptionCommit, image p)
  end.

Definition fence_type (t : RecordType.t) : bool :=
  match t with
  | RecordType.FenceIntentCommit | RecordType.FenceAckCommit | RecordType.FenceEffectCommit
  | RecordType.FenceRevokeCommit => true
  | _ => false
  end.

(** The payload is one the decoder of the record accepts, and a fence is committed as a
    fence. *)
Definition commit_valid (c : Commit) : Prop :=
  match c with
  | CPolicy p => valid p
  | CDecision d => valid d
  | CFence type f => valid f /\ fence_type type = true
  | CInterruption p => valid p
  end.

(** An intent record of a fence that is already recorded: the live state does not count it,
    the replay of the record does. *)
Definition repeats (s : DurableState) (c : Commit) : nat :=
  match c with
  | CFence RecordType.FenceIntentCommit f =>
      match find_fence_state (fi_id (fp_intent f)) (ds_fences s) with Some _ => 1 | None => 0 end
  | _ => 0
  end%nat.

(** The state with [n] more fences counted. *)
Definition recount (n : nat) (s : DurableState) : DurableState := Nat.iter n count_fence s.

Lemma encode_bounded_Some {A} `{CodecLaws A} max (a : A) bs :
  valid a -> 0 <= max < 2 ^ 63 -> encode_bounded max a = Some bs -> bs = image a /\ zlen (image a) < 2 ^ 63.
Proof.
  intros Ha Hm. rewrite encode_bounded_spec by (done || lia).
  destruct (Z.leb_spec (zlen (image a)) max); [| done]. intros [= <-]. split; [done | lia].
Qed.

(** A bounded value committed to a ready store. *)
Lemma commit_value_ready {A} `{CodecLaws A} J max type (a : A) w w' :
  ready J w -> valid a -> 0 <= max < 2 ^ 63 ->
  commit_value max type a w = (Ok, w') -> w' = appended type (image a) w.
Proof.
  intros Hr Ha Hm. unfold commit_value. destruct (encode_bounded max a) as [bs |] eqn:E; [| done].
  apply encode_bounded_Some in E as [-> Hl]; try done. rewrite (append_commit_ready J) by done.
  destruct (_ <=? _); [done | by intros [= <-]].
Qed.

(** ** The part of the state that is authoritative

    Two states agree when they differ only in what every boot rewrites: the format version,
    the snapshot position, the policy version, the last boot and incarnation, and the marks
    on the lineage entries of earlier boots. *)

Definition unmarked (e : LineageEntry) : LineageEntry :=
  MkLineage (ln_type e) (ln_seq e) (ln_at e) (ln_decision e) (ln_fence e) (ln_scope e) (ln_gens e)
    (ln_outcome e) (ln_classification e) (ln_reason e) (ln_boot e) (ln_incarnation e) false.

Definition authoritative (s : DurableState) :=
  (ds_epoch s, ds_boot_count s, ds_open_count s, ds_policy_fingerprint s,
   (ds_total_decisions s, ds_total_fences s, ds_total_interruptions s),
   (ds_lineage_seen s, ds_lineage_dropped s), map unmarked (ds_lineage s), ds_fences s).

Definition durable_equiv (a b : DurableState) : Prop := authoritative a = authoritative b.

#[export] Instance durable_equiv_equivalence : Equivalence durable_equiv.
Proof. split; [by intros a | by intros a b | intros a b c; unfold durable_equiv; congruence]. Qed.

(** Outcomes, positions and equivalent states. *)
Definition replayed_equiv (a b : Outcome * Replayed_) : Prop :=
  a.1 = b.1 /\ durable_equiv a.2.1 b.2.1 /\ a.2.2 = b.2.2.

Lemma durable_equiv_zlen a b : durable_equiv a b -> zlen (ds_lineage a) = zlen (ds_lineage b).
Proof.
  intros [= _ _ _ _ _ _ _ _ _ E _]. unfold zlen. apply (f_equal length) in E. rewrite !length_map in E. by rewrite E.
Qed.

(** Two equivalent states, field by field. *)
Ltac equiv_fields H := revert H; unfold durable_equiv, authoritative; intros [= ? ? ? ? ? ? ? ? ? ? ?].

#[export] Instance push_lineage_proper c e : Proper (durable_equiv ==> durable_equiv) (push_lineage c e).
Proof.
  intros a b H. pose proof (durable_equiv_zlen a b H) as El. unfold push_lineage. rewrite El. equiv_fields H.
  destruct (_ <=? _); unfold durable_equiv, authoritative; cbn; rewrite !map_app, <- ?skipn_map; congruence.
Qed.

Ltac equiv_set := intros a b H; equiv_fields H; unfold durable_equiv, authoritative; cbn; congruence.

#[export] Instance set_boot_counts_proper e n m : Proper (durable_equiv ==> durable_equiv) (set_boot_counts e n m).
Proof. equiv_set. Qed.
#[export] Instance set_epoch_proper e : Proper (durable_equiv ==> durable_equiv) (set_epoch e).
Proof. equiv_set. Qed.
#[export] Instance set_policy_proper p f : Proper (durable_equiv ==> durable_equiv) (set_policy p f).
Proof. equiv_set. Qed.
#[export] Instance set_last_boot_proper p f : Proper (durable_equiv ==> durable_equiv) (set_last_boot p f).
Proof. equiv_set. Qed.
#[export] Instance count_decision_proper : Proper (durable_equiv ==> durable_equiv) count_decision.
Proof. equiv_set. Qed.
#[export] Instance count_fence_proper : Proper (durable_equiv ==> durable_equiv) count_fence.
Proof. equiv_set. Qed.
#[export] Instance recount_proper n : Proper (durable_equiv ==> durable_equiv) (recount n).
Proof. intros a b H. induction n as [| n IH]; [exact H |]. cbn. by rewrite IH. Qed.
#[export] Instance count_interruption_proper : Proper (durable_equiv ==> durable_equiv) count_interruption.
Proof. equiv_set. Qed.
#[export] Instance set_fences_proper l : Proper (durable_equiv ==> durable_equiv) (set_fences l).
Proof. equiv_set. Qed.

Lemma replayed_equiv_ok a b q : durable_equiv a b -> replayed_equiv (Ok, (a, q)) (Ok, (b, q)).
Proof. intros H. by split. Qed.

Lemma with_payload_equiv {A} `{Codec A} payload (x y : Replayed_) (k1 k2 : A -> Outcome * Replayed_) :
  replayed_equiv (Ok, x) (Ok, y) -> (forall a, replayed_equiv (k1 a) (k2 a)) ->
  replayed_equiv (with_payload payload x k1) (with_payload payload y k2).
Proof.
  intros Hxy Hk. unfold with_payload. destruct (decode_all decode payload); [apply Hk |].
  destruct Hxy as (_ & H1 & H2). by split.
Qed.

(** Replay does not see the difference. *)
Lemma apply_record_equiv c t q p a b q0 :
  durable_equiv a b -> replayed_equiv (apply_record c t q p (a, q0)) (apply_record c t q p (b, q0)).
Proof.
  intros H. assert (ds_epoch a = ds_epoch b) as Ee by (by equiv_fields H).
  assert (ds_fences a = ds_fences b) as Ef by (by equiv_fields H).
  assert (ds_policy_fingerprint a = ds_policy_fingerprint b) as Ep by (by equiv_fields H).
  pose proof (replayed_equiv_ok a b q0 H) as Hq.
  unfold apply_record; destruct t; cbn [fst snd]; apply with_payload_equiv; try done; intros v;
    rewrite ?Ee, ?Ef, ?Ep; repeat case_match; try done; try (by destruct Hq as (_ & ? & ?); split);
    apply replayed_equiv_ok; by rewrite H.
Qed.

Lemma replay_equiv c k n es a b q :
  durable_equiv a b -> replayed_equiv (replay (replay_visit c k) n es (a, q)) (replay (replay_visit c k) n es (b, q)).
Proof.
  revert n a b q. induction es as [| [t p] es IH]; intros n a b q H; cbn [replay].
  - by apply replayed_equiv_ok.
  - unfold replay_visit at 1 3. destruct (_ <=? _); [by apply IH |].
    pose proof (apply_record_equiv c t (MkSeq n) p a b q H) as (E & Es & Eq).
    destruct (apply_record c t _ p (a, q)) as [o [a1 q1]], (apply_record c t _ p (b, q)) as [o' [b1 q2]].
    cbn [fst snd] in *. subst o' q2. destruct o; try (by split). by apply IH.
Qed.

(** *** The counter of fences *)

Lemma recount_recount n m s : recount n (recount m s) = recount (n + m) s.
Proof. unfold recount. by rewrite Nat.iter_add. Qed.

(** A replay step, a counter further on. *)
Definition recounted (n : nat) (r : Outcome * Replayed_) : Outcome * Replayed_ :=
  (r.1, (recount n r.2.1, r.2.2)).

Lemma with_payload_count {A} `{Codec A} payload (st : Replayed_) n (k1 k2 : A -> Outcome * Replayed_) :
  (forall a, k2 a = recounted n (k1 a)) ->
  with_payload payload (recount n st.1, st.2) k2 = recounted n (with_payload payload st k1).
Proof. intros Hk. unfold with_payload. destruct (decode_all decode payload); [apply Hk | done]. Qed.

Lemma push_lineage_count c e s : push_lineage c e (count_fence s) = count_fence (push_lineage c e s).
Proof. unfold push_lineage. cbn. by destruct (_ <=? _). Qed.

Lemma set_fences_count l s : set_fences l (count_fence s) = count_fence (set_fences l s).
Proof. reflexivity. Qed.
Lemma count_interruption_count s : count_interruption (count_fence s) = count_fence (count_interruption s).
Proof. reflexivity. Qed.
Lemma count_decision_count s : count_decision (count_fence s) = count_fence (count_decision s).
Proof. reflexivity. Qed.
Lemma set_policy_count p f s : set_policy p f (count_fence s) = count_fence (set_policy p f s).
Proof. reflexivity. Qed.
Lemma set_last_boot_count b i s : set_last_boot b i (count_fence s) = count_fence (set_last_boot b i s).
Proof. reflexivity. Qed.
Lemma set_boot_counts_count e b o s : set_boot_counts e b o (count_fence s) = count_fence (set_boot_counts e b o s).
Proof. reflexivity. Qed.
Lemma set_epoch_count e s : set_epoch e (count_fence s) = count_fence (set_epoch e s).
Proof. reflexivity. Qed.
Lemma count_fence_fields s :
  ds_epoch (count_fence s) = ds_epoch s /\ ds_fences (count_fence s) = ds_fences s /\
  ds_policy_fingerprint (count_fence s) = ds_policy_fingerprint s.
Proof. done. Qed.

(** Replay does not read the counter of fences. *)
Lemma apply_record_count c t q p s q0 :
  apply_record c t q p (count_fence s, q0) = recounted 1 (apply_record c t q p (s, q0)).
Proof.
  destruct (count_fence_fields s) as (Ee & Ef & Ep).
  unfold apply_record; destruct t; cbn [fst snd];
    apply (with_payload_count p (s, q0) 1); intros v; cbn zeta;
    rewrite ?Ee, ?Ef, ?Ep, ?set_fences_count, ?count_interruption_count, ?push_lineage_count, ?count_decision_count,
      ?set_boot_counts_count, ?set_policy_count, ?set_last_boot_count, ?set_epoch_count;
    repeat case_match; unfold recounted, recount; cbn [fst snd Nat.iter nat_rect];
    rewrite ?push_lineage_count; done.
Qed.

Lemma apply_record_recount c t q p n s q0 :
  apply_record c t q p (recount n s, q0) = recounted n (apply_record c t q p (s, q0)).
Proof.
  induction n as [| n IH].
  - unfold recounted. cbn [recount Nat.iter nat_rect]. by destruct (apply_record c t q p (s, q0)) as [o [s1 q1]].
  - change (recount (S n) s) with (count_fence (recount n s)). rewrite apply_record_count, IH. reflexivity.
Qed.

(** ** A commit is the replay of its record *)

(** The journal file holds the records [es] behind the base state [s0], and the live state is
    their replay but for [n] repeated intents. *)
Record journaled_but (n : nat) (s0 : DurableState) (es : list Entry) (w : World) : Prop := {
  jn_ready : ready (journal_image (seq_value (ds_snapshot_seq s0) + 1) es) w;
  jn_seq : last_seq_ w.1 = MkSeq (seq_value (ds_snapshot_seq s0) + zlen es);
  jn_replay : replayed_equiv
    (replay (replay_visit (config_ w.1) (ds_snapshot_seq s0)) (seq_value (ds_snapshot_seq s0) + 1) es
       (s0, ds_snapshot_seq s0)) (Ok, (recount n (state_ w.1), last_seq_ w.1));
}.

Abbreviation journaled := (journaled_but 0).

(** The next sequence number of a store. *)
Definition next_seq (t : Store) : RecordSequence := MkSeq (wrap 64 (seq_value (last_seq_ t) + 1)).

Lemma replay_visit_new c k t n p st : seq_value k < n -> replay_visit c k t (MkSeq n) p st = apply_record c t (MkSeq n) p st.
Proof. intros H. unfold replay_visit. cbn [seq_value]. by destruct (Z.leb_spec n (seq_value k)); [lia |]. Qed.

(** Appending one more record whose replay is known. *)
Lemma journaled_step r n s0 es e w w' :
  journaled_but n s0 es w -> 0 <= seq_value (ds_snapshot_seq s0) ->
  seq_value (ds_snapshot_seq s0) + zlen es + 1 < 2 ^ 64 ->
  config_ w'.1 = config_ w.1 -> last_seq_ w'.1 = next_seq w.1 ->
  ready (journal_image (seq_value (ds_snapshot_seq s0) + 1) es ++ record_image e.1 (next_seq w.1) e.2) w' ->
  replayed_equiv (apply_record (config_ w.1) e.1 (next_seq w.1) e.2 (state_ w.1, last_seq_ w.1))
    (Ok, (recount r (state_ w'.1), next_seq w.1)) ->
  journaled_but (n + r) s0 (es ++ [e]) w'.
Proof.
  intros [Hr Hs Hp] H0 Hb Hc Hl Hr' Ha. destruct e as [t p]. cbn [fst snd] in *. pose proof (zlen_nonneg es).
  assert (next_seq w.1 = MkSeq (seq_value (ds_snapshot_seq s0) + 1 + zlen es)) as En.
  { unfold next_seq. rewrite Hs. cbn [seq_value]. rewrite wrap_small by (unfold in_u; lia). f_equal. lia. }
  rewrite En in *. split.
  - rewrite journal_image_app. cbn [journal_image]. by rewrite app_nil_r.
  - rewrite Hl, zlen_app, zlen_cons, zlen_nil. f_equal. lia.
  - rewrite Hc, replay_app. destruct (replay _ _ es _) as [o [s1 q1]]. destruct Hp as (Eo & Es & Eq).
    cbn [fst snd] in Eo, Es, Eq. subst o q1. cbn [replay]. rewrite replay_visit_new by lia.
    pose proof (apply_record_equiv (config_ w.1) t (MkSeq (seq_value (ds_snapshot_seq s0) + 1 + zlen es)) p _ _ (last_seq_ w.1) Es)
      as (E1 & E2 & E3).
    rewrite apply_record_recount in E1, E2, E3. unfold recounted in E1, E2, E3. cbn [fst snd] in E1, E2, E3.
    destruct Ha as (A1 & A2 & A3). rewrite <- E1 in A1. rewrite <- E3 in A3. cbn [fst snd] in A2.
    rewrite A2, recount_recount in E2.
    destruct (apply_record _ t _ p (s1, _)) as [o2 [s2 q2]]. cbn [fst snd] in *. subst o2 q2. by split.
Qed.

(** [TRY] continues only after [Ok]. *)
Lemma TRY_Ok (m k : StoreM Outcome) w w' :
  (TRY m ;; k) w = (Ok, w') -> exists w1, m w = (Ok, w1) /\ k w1 = (Ok, w').
Proof.
  unfold mbind, StoreM_bind. destruct (m w) as [o w1]. destruct (is_affirmative o) eqn:E.
  - apply is_affirmative_Ok in E as ->. eauto.
  - intros [= -> ->]. discriminate E.
Qed.

Lemma with_payload_image {A B} `{CodecLaws A} (a : A) (s : B) k : valid a -> with_payload (image a) s k = k a.
Proof. intros Ha. unfold with_payload. by rewrite decode_all_image. Qed.

(** The replay of each kind of record. *)
Lemma apply_policy_record c q p s q0 :
  valid p ->
  apply_record c RecordType.PolicyCommit q (image p) (s, q0) =
  (Ok, (set_policy (pol_version p) (policy_fingerprint p) s, q)).
Proof. intros Hp. unfold apply_record. cbn [fst snd]. rewrite with_payload_image by exact Hp. reflexivity. Qed.

Lemma push_lineage_counted c e s : push_lineage c e (count_decision s) = count_decision (push_lineage c e s).
Proof. unfold push_lineage. cbn. by destruct (_ <=? _). Qed.

Lemma apply_decision_record c q d s q0 :
  valid d ->
  apply_record c RecordType.DecisionCommit q (image d) (s, q0) =
  (Ok, (push_lineage c (decision_entry RecordType.DecisionCommit q d) (count_decision s), q)).
Proof.
  intros Hp. unfold apply_record. cbn [fst snd]. rewrite with_payload_image by exact Hp.
  rewrite push_lineage_counted. reflexivity.
Qed.

Lemma apply_interruption_record c q p s q0 :
  valid p ->
  apply_record c RecordType.InterruptionCommit q (image p) (s, q0) =
  (Ok, (push_lineage c (interruption_entry q p) (count_interruption s), q)).
Proof. intros Hp. unfold apply_record. cbn [fst snd]. rewrite with_payload_image by exact Hp. reflexivity. Qed.


Lemma apply_fence_record c type q (f : FenceStatePayload) s q0 :
  fence_type type = true -> valid f ->
  apply_record c type q (image f) (s, q0) =
  let put l :=
    let s := set_fences l s in
    let s := if type == RecordType.FenceIntentCommit then count_fence s else s in
    (Ok, (push_lineage c (fence_entry type q f) s, q)) in
  match find_fence_state (fi_id (fp_intent f)) (ds_fences s) with
  | None => if max_prior_fences c <=? zlen (ds_fences s) then (Exhausted, (s, q0)) else put (ds_fences s ++ [f])
  | Some _ => put (replace_fence_state f (ds_fences s))
  end.
Proof. intros Ht Hf. destruct type; try discriminate; unfold apply_record; by rewrite with_payload_image. Qed.

(** A record of a known fence, and the record that introduces a fence. *)
Definition fence_replaced (c : StoreConfig) (type : RecordType.t) (q : RecordSequence) (f : FenceStatePayload)
  (l : list FenceStatePayload) (s : DurableState) : DurableState :=
  push_lineage c (fence_entry type q f) (set_fences (replace_fence_state f l) s).
Definition fence_added (c : StoreConfig) (type : RecordType.t) (q : RecordSequence) (f : FenceStatePayload)
  (l : list FenceStatePayload) (s : DurableState) : DurableState :=
  push_lineage c (fence_entry type q f)
    (let s := set_fences (l ++ [f]) s in if type == RecordType.FenceIntentCommit then count_fence s else s).

Lemma apply_fence_replaced c type q f g s q0 :
  fence_type type = true -> valid f ->
  find_fence_state (fi_id (fp_intent f)) (ds_fences s) = Some g ->
  apply_record c type q (image f) (s, q0) =
  (Ok, (recount (repeats s (CFence type f)) (fence_replaced c type q f (ds_fences s) s), q)).
Proof.
  intros Ht Hf E. rewrite apply_fence_record, E by done. cbn zeta. unfold fence_replaced, repeats. rewrite E.
  destruct type; try discriminate; enum_eval; rewrite ?push_lineage_count; reflexivity.
Qed.

Lemma apply_fence_added c type q f s q0 :
  fence_type type = true -> valid f ->
  find_fence_state (fi_id (fp_intent f)) (ds_fences s) = None -> zlen (ds_fences s) < max_prior_fences c ->
  apply_record c type q (image f) (s, q0) = (Ok, (fence_added c type q f (ds_fences s) s, q)).
Proof.
  intros Ht Hf E Hm. rewrite apply_fence_record, E by done. cbn zeta.
  destruct (Z.leb_spec (max_prior_fences c) (zlen (ds_fences s))); [lia | reflexivity].
Qed.

(** The state update that follows the record. *)
Definition updated (f : DurableState -> DurableState) (w : World) : World := (with_state f w.1, w.2).

Lemma ready_updated J f w : ready J w -> ready J (updated f w).
Proof. by intros [? ? ? ?]. Qed.

(** A world with one more record than [w]. *)
Record extended (J : list byte) (type : RecordType.t) (payload : list byte) (w w1 : World) : Prop := {
  ex_ready : ready (J ++ record_image type (next_seq w.1) payload) w1;
  ex_config : config_ w1.1 = config_ w.1;
  ex_seq : last_seq_ w1.1 = next_seq w.1;
  ex_state : state_ w1.1 = state_ w.1;
}.

Lemma commit_value_extended {A} `{CodecLaws A} J max type (a : A) w w' :
  ready J w -> valid a -> 0 <= max < 2 ^ 63 ->
  commit_value max type a w = (Ok, w') -> extended J type (image a) w w'.
Proof.
  intros Hr Ha Hm E. rewrite (commit_value_ready J max type a w w' Hr Ha Hm E).
  split; [by apply ready_appended | reflexivity | reflexivity | reflexivity].
Qed.

(** What a commit does to a ready store: the record is appended and the state moves as its
    replay does, but for [r] fences counted. *)
Definition refines (r : nat) (J : list byte) (e : Entry) (w w' : World) : Prop :=
  config_ w'.1 = config_ w.1 /\ last_seq_ w'.1 = next_seq w.1 /\
  ready (J ++ record_image e.1 (next_seq w.1) e.2) w' /\
  apply_record (config_ w.1) e.1 (next_seq w.1) e.2 (state_ w.1, last_seq_ w.1) = (Ok, (recount r (state_ w'.1), next_seq w.1)).

Lemma refines_updated r J e w w1 f :
  extended J e.1 e.2 w w1 ->
  apply_record (config_ w.1) e.1 (next_seq w.1) e.2 (state_ w.1, last_seq_ w.1)
  = (Ok, (recount r (f (state_ w.1)), next_seq w.1)) ->
  refines r J e w (updated f w1).
Proof.
  intros [Hr Hc Hs Ht] Ha. unfold refines. rewrite Ha. split; [exact Hc |]. split; [exact Hs |].
  split; [by apply ready_updated | by cbn; rewrite Ht].
Qed.

Lemma commit_value_outcome {A} `{CodecLaws A} J max type (a : A) w :
  ready J w -> valid a -> 0 <= max < 2 ^ 63 ->
  commit_value max type a w =
  if (zlen (image a) <=? max) && (journal_bytes_ w.1 <? st_max_journal_bytes (config_ w.1))
  then (Ok, appended type (image a) w) else (Exhausted, w).
Proof.
  intros Hr Ha Hm. unfold commit_value. rewrite encode_bounded_spec by (done || lia).
  destruct (Z.leb_spec (zlen (image a)) max); [| done]. cbn [andb].
  rewrite (append_commit_ready J) by (done || lia).
  destruct (Z.leb_spec (st_max_journal_bytes (config_ w.1)) (journal_bytes_ w.1)),
    (Z.ltb_spec (journal_bytes_ w.1) (st_max_journal_bytes (config_ w.1))); done || lia.
Qed.

(** The record is already accounted for: the kernel need not evaluate its encoding. *)
#[local] Opaque commit_value append_commit.

Lemma commit_policy_refines J p w w' :
  ready J w -> valid p -> commit_policy p w = (Ok, w') -> refines 0 J (RecordType.PolicyCommit, image p) w w'.
Proof.
  intros Hr Hp Hc. unfold commit_policy in Hc. apply TRY_Ok in Hc as (w1 & H1 & Hc).
  apply (commit_value_extended J) in H1; [| done | done | lia].
  assert (w' = updated (set_policy (pol_version p) (policy_fingerprint p)) w1) as -> by (by injection Hc as <-).
  apply refines_updated; [exact H1 |]. cbn [fst snd]. by apply apply_policy_record.
Qed.

Lemma commit_decision_refines J d w w' :
  ready J w -> valid d -> commit_decision d w = (Ok, w') -> refines 0 J (RecordType.DecisionCommit, image d) w w'.
Proof.
  intros Hr Hp Hc. unfold commit_decision in Hc. apply TRY_Ok in Hc as (w1 & H1 & Hc).
  apply (commit_value_extended J) in H1; [| done | done | unfold kDefaultMaxDocumentBytes; lia].
  assert (w' = updated (fun s => push_lineage (config_ w1.1)
    (decision_entry RecordType.DecisionCommit (last_seq_ w1.1) d) (count_decision s)) w1) as -> by (by injection Hc as <-).
  apply refines_updated; [exact H1 |]. cbn [fst snd].
  rewrite (ex_config _ _ _ _ _ H1), (ex_seq _ _ _ _ _ H1). by apply apply_decision_record.
Qed.

Lemma commit_interruption_refines J p w w' :
  ready J w -> valid p -> commit_interruption p w = (Ok, w') -> refines 0 J (RecordType.InterruptionCommit, image p) w w'.
Proof.
  intros Hr Hp Hc. unfold commit_interruption in Hc. apply TRY_Ok in Hc as (w1 & H1 & Hc).
  apply (commit_value_extended J) in H1; [| done | done | lia].
  assert (w' = updated (fun s => push_lineage (config_ w1.1)
    (interruption_entry (last_seq_ w1.1) p) (count_interruption s)) w1) as -> by (by injection Hc as <-).
  apply refines_updated; [exact H1 |]. cbn [fst snd].
  rewrite (ex_config _ _ _ _ _ H1), (ex_seq _ _ _ _ _ H1). by apply apply_interruption_record.
Qed.

Lemma commit_fence_refines J type f w w' :
  ready J w -> commit_valid (CFence type f) -> commit_fence_state type f w = (Ok, w') ->
  refines (repeats (state_ w.1) (CFence type f)) J (type, image f) w w'.
Proof.
  intros Hr (Hf & Ht) Hc. unfold commit_fence_state in Hc. apply TRY_Ok in Hc as (w1 & H1 & Hc).
  apply (commit_value_extended J) in H1; [| done | done | lia]. pose proof H1 as [_ X2 X3 X4].
  unfold mbind, StoreM_bind, get_store in Hc. cbn [fst snd] in Hc. rewrite X2, X4 in Hc.
  destruct (find_fence_state _ _) eqn:Ef.
  - assert (w' = updated (fence_replaced (config_ w1.1) type (last_seq_ w1.1) f (ds_fences (state_ w.1))) w1) as ->
      by (by injection Hc as <-).
    apply refines_updated; [exact H1 |]. cbn [fst snd]. rewrite X2, X3.
    by apply (apply_fence_replaced _ _ _ _ f0).
  - destruct (Z.leb_spec (max_prior_fences (config_ w.1)) (zlen (ds_fences (state_ w.1)))); [discriminate Hc |].
    assert (w' = updated (fence_added (config_ w1.1) type (last_seq_ w1.1) f (ds_fences (state_ w.1))) w1) as ->
      by (by injection Hc as <-).
    apply refines_updated; [exact H1 |]. cbn [fst snd]. rewrite X2, X3.
    assert (repeats (state_ w.1) (CFence type f) = 0%nat) as -> by (unfold repeats; rewrite Ef; by destruct type).
    by apply apply_fence_added.
Qed.

(** The bound on the payload that each committing operation passes to its writer. *)
Definition commit_limit (c : Commit) : Z :=
  match c with
  | CDecision _ => kDefaultMaxDocumentBytes
  | CPolicy _ | CFence _ _ => 1024
  | CInterruption _ => 512
  end.

(** The state has room for the fence of the commit. *)
Definition fence_room (t : Store) (c : Commit) : bool :=
  match c with
  | CFence _ f =>
      match find_fence_state (fi_id (fp_intent f)) (ds_fences (state_ t)) with
      | Some _ => true
      | None => zlen (ds_fences (state_ t)) <? max_prior_fences (config_ t)
      end
  | _ => true
  end.

Definition commit_room (t : Store) (c : Commit) : bool :=
  (zlen (commit_entry c).2 <=? commit_limit c) && (journal_bytes_ t <? st_max_journal_bytes (config_ t)).

(** [TRY] on a committed value whose outcome is known. *)
Lemma TRY_commit (b : bool) (m k : StoreM Outcome) w w1 :
  m w = (if b then (Ok, w1) else (Exhausted, w)) ->
  (TRY m ;; k) w = if b then k w1 else (Exhausted, w).
Proof. intros E. unfold mbind, StoreM_bind. rewrite E. by destruct b. Qed.

Lemma commit_op_outcome J c w :
  ready J w -> commit_valid c ->
  if commit_room w.1 c then
    exists w', commit_op c w = ((if fence_room w.1 c then Ok else Exhausted), w') else commit_op c w = (Exhausted, w).
Proof.
  intros Hr Hv. assert (0 <= 1024 < 2 ^ 63) as H1 by lia. assert (0 <= 512 < 2 ^ 63) as H2 by lia.
  assert (0 <= kDefaultMaxDocumentBytes < 2 ^ 63) as H3 by (unfold kDefaultMaxDocumentBytes; lia).
  destruct c as [p | d | type f | p]; cbn [commit_op commit_valid] in *; unfold commit_room; cbn [commit_entry commit_limit snd].
  - unfold commit_policy. rewrite (TRY_commit _ _ _ _ _ (commit_value_outcome J 1024 _ p w Hr Hv H1)).
    destruct (_ && _); [by eexists | done].
  - unfold commit_decision.
    rewrite (TRY_commit _ _ _ _ _ (commit_value_outcome J _ _ d w Hr Hv H3)).
    destruct (_ && _); [by eexists | done].
  - unfold commit_fence_state.
    rewrite (TRY_commit _ _ _ _ _ (commit_value_outcome J 1024 _ f w Hr (proj1 Hv) H1)).
    destruct (_ && _); [| done]. cbn [fence_room].
    unfold mbind, StoreM_bind, get_store. cbn [fst snd appended with_position with_journal state_ config_].
    destruct (find_fence_state _ _); [by eexists |].
    destruct (Z.leb_spec (max_prior_fences (config_ w.1)) (zlen (ds_fences (state_ w.1)))),
      (Z.ltb_spec (zlen (ds_fences (state_ w.1))) (max_prior_fences (config_ w.1))); try lia; by eexists.
  - unfold commit_interruption. rewrite (TRY_commit _ _ _ _ _ (commit_value_outcome J 512 _ p w Hr Hv H2)).
    destruct (_ && _); [by eexists | done].
Qed.

Lemma commit_op_refines J c w w' :
  ready J w -> commit_valid c -> commit_op c w = (Ok, w') ->
  refines (repeats (state_ w.1) c) J (commit_entry c) w w'.
Proof.
  destruct c as [p | d | type f | p]; cbn [commit_op commit_entry].
  - apply commit_policy_refines.
  - apply commit_decision_refines.
  - apply commit_fence_refines.
  - apply commit_interruption_refines.
Qed.

Lemma refines_journaled r n s0 es e w w' :
  journaled_but n s0 es w -> 0 <= seq_value (ds_snapshot_seq s0) ->
  seq_value (ds_snapshot_seq s0) + zlen es + 1 < 2 ^ 64 ->
  refines r (journal_image (seq_value (ds_snapshot_seq s0) + 1) es) e w w' -> journaled_but (n + r) s0 (es ++ [e]) w'.
Proof.
  intros Hj H0 Hb (H1 & H2 & H3 & H4). apply (journaled_step r n s0 es e w w'); try assumption. by rewrite H4.
Qed.

(** Commits that all succeed, in order, with the number of repeated intents among them. *)
Inductive committed : nat -> list Commit -> World -> World -> Prop :=
| committed_nil w : committed 0 [] w w
| committed_cons n c cs w w1 w2 :
    commit_valid c -> commit_op c w = (Ok, w1) -> committed n cs w1 w2 ->
    committed (repeats (state_ w.1) c + n) (c :: cs) w w2.

Lemma committed_journaled cs n k s0 es w w' :
  0 <= seq_value (ds_snapshot_seq s0) -> seq_value (ds_snapshot_seq s0) + zlen (es ++ map commit_entry cs) < 2 ^ 64 ->
  journaled_but k s0 es w -> committed n cs w w' ->
  journaled_but (k + n) s0 (es ++ map commit_entry cs) w' /\ config_ w'.1 = config_ w.1.
Proof.
  intros H0 Hb Hj Hc. revert k es Hb Hj. induction Hc as [w | n c cs w w1 w2 Hv Hc _ IH]; intros k es Hb Hj.
  - by rewrite Nat.add_0_r, app_nil_r.
  - cbn [map] in *. rewrite cons_middle, app_assoc in Hb |- *.
    pose proof (commit_op_refines _ c w w1 (jn_ready _ _ _ _ Hj) Hv Hc) as Hr.
    assert (seq_value (ds_snapshot_seq s0) + zlen es + 1 < 2 ^ 64) as Hb1.
    { revert Hb. rewrite !zlen_app, zlen_cons, zlen_nil. pose proof (zlen_nonneg (map commit_entry cs)). lia. }
    destruct (IH _ (es ++ [commit_entry c]) Hb (refines_journaled _ _ _ _ _ _ _ Hj H0 Hb1 Hr)) as (H1 & H2).
    rewrite Nat.add_assoc. split; [exact H1 |]. rewrite H2. apply Hr.
Qed.

Lemma committed_take k n cs w w' :
  committed n cs w w' -> exists m wk, committed m (take k cs) w wk.
Proof.
  intros H. revert k. induction H as [w | n c cs w w1 w2 Hv Hc _ IH]; intros k.
  - exists 0%nat, w. rewrite take_nil. constructor.
  - destruct k as [| k]; [exists 0%nat, w; constructor |]. destruct (IH k) as (m & wk & Hk).
    eexists _, wk. by econstructor.
Qed.

(** The disk whose journal is cut in the middle of the records behind [es]. *)
Lemma crash_recovers_prefix cs n s0 es w w' P Q :
  0 <= seq_value (ds_snapshot_seq s0) ->
  1 + seq_value (ds_snapshot_seq s0) + zlen (es ++ map commit_entry cs) < 2 ^ 64 ->
  in_u32 (max_record_payload (config_ w.1)) ->
  entries_ok (max_record_payload (config_ w.1)) (es ++ map commit_entry cs) ->
  zlen (es ++ map commit_entry cs) <= st_max_journal_records (config_ w.1) ->
  journaled s0 es w -> committed n cs w w' ->
  (journal_image (seq_value (ds_snapshot_seq s0) + 1) es ++ P) ++ Q =
    journal_image (seq_value (ds_snapshot_seq s0) + 1) (es ++ map commit_entry cs) ->
  let c := config_ w.1 in
  exists k m wk,
    (k <= length cs)%nat /\ committed m (take k cs) w wk /\ (Q = [] -> k = length cs) /\
    let '(r, (s, q)) := scan_bytes (replay_visit c (ds_snapshot_seq s0)) (max_record_payload c)
      (st_max_journal_records c) (journal_image (seq_value (ds_snapshot_seq s0) + 1) es ++ P)
      (MkSeq (seq_value (ds_snapshot_seq s0) + 1)) (s0, ds_snapshot_seq s0) in
    jr_outcome r = Ok /\ durable_equiv s (recount m (state_ wk.1)) /\ q = last_seq_ wk.1.
Proof.
  intros H0 Hb Hm Hok Hr Hj Hc E. cbn zeta.
  destruct (committed_journaled cs n 0 s0 es w w' H0 ltac:(lia) Hj Hc) as [[_ _ Hall] Hcfg]. rewrite Hcfg in Hall.
  destruct (replay _ _ (es ++ _) _) as [o [s_end q_end]] eqn:Er. destruct Hall as (Eo & _). cbn in Eo. subst o.
  edestruct (scan_prefix (replay_visit (config_ w.1) (ds_snapshot_seq s0)) (max_record_payload (config_ w.1))
    (st_max_journal_records (config_ w.1)) Hm) as (k & [s1 q1] & tl & Hk & Hk1 & HP & Hmax & Hs);
    [| | exact Hok | exact Hr | exact Er | exact E |]; [lia.. |].
  rewrite Hs.
  assert (length es <= k)%nat as Hge.
  { destruct (Nat.le_gt_cases (length es) k) as [| Hlt]; [done | exfalso].
    rewrite length_app in Hmax. specialize (Hmax ltac:(lia)).
    rewrite take_app_le in Hmax by lia. revert Hmax. rewrite zlen_app.
    rewrite <- (take_drop (1 + k) es) at 1. rewrite journal_image_app, zlen_app.
    pose proof (zlen_nonneg P). match goal with |- context [zlen ?a + zlen ?b + zlen P] => pose proof (zlen_nonneg b) end. lia. }
  destruct (committed_take (k - length es) n cs w w' Hc) as (m & wk & Hwk).
  exists (k - length es)%nat, m, wk. rewrite length_app, length_map in Hk.
  split; [lia |]. split; [exact Hwk |]. split.
  { intros ->. rewrite app_nil_r in E. destruct (Nat.eq_dec k (length (es ++ map commit_entry cs))) as [-> | Hne].
    - rewrite length_app, length_map. lia.
    - exfalso. specialize (Hmax ltac:(rewrite length_app, length_map in *; lia)). rewrite E in Hmax.
      rewrite <- (take_drop (1 + k) (es ++ map commit_entry cs)) in Hmax at 1.
      rewrite journal_image_app, zlen_app in Hmax.
      match type of Hmax with _ + ?b < _ => assert (0 <= b) by apply zlen_nonneg end. lia. }
  rewrite take_app, (take_ge es) in Hk1 by lia. rewrite <- fmap_take in Hk1.
  assert (seq_value (ds_snapshot_seq s0) + zlen (es ++ map commit_entry (take (k - length es) cs)) < 2 ^ 64) as Hb2.
  { revert Hb. rewrite !zlen_app. unfold zlen. rewrite !length_map, length_take. lia. }
  destruct (committed_journaled _ m 0 s0 es w wk H0 Hb2 Hj Hwk) as [[_ _ Hfin] Hck].
  rewrite Hck in Hfin. change (fmap commit_entry) with (map commit_entry) in Hk1. rewrite Hk1 in Hfin.
  destruct Hfin as (_ & F2 & F3). split; [reflexivity |]. split; [exact F2 | exact F3].
Qed.

(** ** The lineage *)

Section Bounded.
(** [push_lineage] erases the front of a full lineage, which needs a bound of at least one. *)
Context (c : StoreConfig) (Hlin : 1 <= st_max_lineage_records c).

(** Every entry ever pushed is either retained or counted as dropped, the retained entries
    and fences stay within their bounds and no fence is recorded twice. *)
Record bounded_state (s : DurableState) : Prop := {
  bs_closed : lineage_accounting_closed s = true;
  bs_lineage : zlen (ds_lineage s) <= st_max_lineage_records c;
  bs_fences : zlen (ds_fences s) <= Z.max 0 (max_prior_fences c);
  bs_unique : NoDup (map (fun f => fi_id (fp_intent f)) (ds_fences s));
}.

(** Updates that leave the lineage and the fences alone. *)
Lemma bounded_state_same s s' :
  bounded_state s ->
  (ds_lineage_seen s', ds_lineage_dropped s', ds_lineage s', ds_fences s') =
  (ds_lineage_seen s, ds_lineage_dropped s, ds_lineage s, ds_fences s) -> bounded_state s'.
Proof.
  intros [H1 H2 H3 H4] [= E1 E2 E3 E4]. split; rewrite ?E3, ?E4; try assumption.
  revert H1. unfold lineage_accounting_closed. by rewrite E1, E2, E3.
Qed.

Lemma push_lineage_bounded e s : bounded_state s -> bounded_state (push_lineage c e s).
Proof.
  intros [H1 H2 H3 H4]. unfold lineage_accounting_closed in H1. apply Z.eqb_eq in H1.
  unfold push_lineage. destruct (Z.leb_spec (st_max_lineage_records c) (zlen (ds_lineage s))).
  - destruct (ds_lineage s) as [| x l] eqn:El; [rewrite zlen_nil in *; lia |]. rewrite zlen_cons in *.
    split; [| | exact H3 | exact H4].
    + unfold lineage_accounting_closed. cbn [set_lineage ds_lineage_seen ds_lineage ds_lineage_dropped drop].
      apply Z.eqb_eq. rewrite drop_0, H1, zlen_app, zlen_cons, zlen_nil. unfold incr, u64_add. wrap_eq.
    + cbn [set_lineage ds_lineage drop]. rewrite drop_0, zlen_app, zlen_cons, zlen_nil. lia.
  - split; [| | exact H3 | exact H4].
    + unfold lineage_accounting_closed. cbn [set_lineage ds_lineage_seen ds_lineage ds_lineage_dropped].
      apply Z.eqb_eq. rewrite H1, zlen_app, zlen_cons, zlen_nil. unfold incr, u64_add. wrap_eq.
    + cbn [set_lineage ds_lineage]. rewrite zlen_app, zlen_cons, zlen_nil. lia.
Qed.

Lemma find_fence_state_None id l :
  find_fence_state id l = None -> id ∉ map (fun f => fi_id (fp_intent f)) l.
Proof.
  intros H Hin. apply list_elem_of_fmap in Hin as (f & -> & Hin).
  eapply find_none in H; [| by apply list_elem_of_In]. cbn in H. by rewrite beq_refl in H.
Qed.

Lemma replace_fence_ids f l :
  map (fun f => fi_id (fp_intent f)) (replace_fence_state f l) = map (fun f => fi_id (fp_intent f)) l.
Proof.
  induction l as [| x l IH]; [done |]. cbn [replace_fence_state].
  destruct (bool_decide_reflect (fi_id (fp_intent x) = fi_id (fp_intent f))) as [E |]; cbn [map]; congruence.
Qed.

Lemma replace_fence_zlen f l : zlen (replace_fence_state f l) = zlen l.
Proof. unfold zlen. rewrite <- (length_map (fun f => fi_id (fp_intent f))), replace_fence_ids. by rewrite length_map. Qed.

Lemma set_fences_replaced f s : bounded_state s -> bounded_state (set_fences (replace_fence_state f (ds_fences s)) s).
Proof.
  intros [H1 H2 H3 H4]. split; [exact H1 | exact H2 | |]; cbn [set_fences ds_fences].
  - by rewrite replace_fence_zlen.
  - by rewrite replace_fence_ids.
Qed.

Lemma set_fences_added f s :
  bounded_state s -> find_fence_state (fi_id (fp_intent f)) (ds_fences s) = None ->
  zlen (ds_fences s) < max_prior_fences c -> bounded_state (set_fences (ds_fences s ++ [f]) s).
Proof.
  intros [H1 H2 H3 H4] Hn Hz. split; [exact H1 | exact H2 | |]; cbn [set_fences ds_fences].
  - rewrite zlen_app, zlen_cons, zlen_nil. lia.
  - rewrite map_app. apply NoDup_app. split; [exact H4 |]. split; [| repeat constructor; set_solver].
    intros x Hx Hx'. apply list_elem_of_singleton in Hx' as ->. by apply find_fence_state_None in Hn.
Qed.

Lemma with_payload_bounded {A} `{Codec A} payload (s : Replayed_) k :
  bounded_state s.1 -> (forall a : A, bounded_state (k a).2.1) -> bounded_state (with_payload payload s k).2.1.
Proof. intros Hs Hk. unfold with_payload. by destruct (decode_all decode payload). Qed.

(** Case analysis on the tests of a record whose updates keep [bounded_state]. *)
Ltac bounded_cases Hs :=
  repeat match goal with |- context [if ?b then _ else _] => destruct b end; cbn [fst snd];
  try exact Hs; try apply push_lineage_bounded;
  try (eapply bounded_state_same; [exact Hs | reflexivity]).

Lemma apply_fence_bounded t q p st :
  fence_type t = true -> bounded_state st.1 -> bounded_state (apply_record c t q p st).2.1.
Proof.
  intros Ht Hs. destruct (decode_all (decode (A := FenceStatePayload)) p) as [f | o] eqn:Ed.
  - pose proof Ed as Hv. apply decode_all_canonical in Hv as [Hv ->]. destruct st as [s q0]. cbn [fst] in Hs.
    rewrite apply_fence_record by done. cbn zeta.
    destruct (find_fence_state (fi_id (fp_intent f)) (ds_fences s)) eqn:Ef.
    + apply push_lineage_bounded. pose proof (set_fences_replaced f s Hs) as Hb.
      destruct (t == _); [by apply (bounded_state_same _ _ Hb) | exact Hb].
    + destruct (Z.leb_spec (max_prior_fences c) (zlen (ds_fences s))) as [| Hz]; [exact Hs |].
      apply push_lineage_bounded. pose proof (set_fences_added f s Hs Ef Hz) as Hb.
      destruct (t == _); [by apply (bounded_state_same _ _ Hb) | exact Hb].
  - destruct t; try discriminate; unfold apply_record, with_payload; rewrite Ed; exact Hs.
Qed.

Lemma apply_record_bounded t q p st : bounded_state st.1 -> bounded_state (apply_record c t q p st).2.1.
Proof.
  intros Hs. destruct (fence_type t) eqn:Ht; [by apply apply_fence_bounded |].
  assert (forall e, bounded_state (push_lineage c e st.1)) as Hp by (intros e; by apply push_lineage_bounded).
  destruct t; try discriminate; apply with_payload_bounded; try exact Hs; intros v; cbn beta zeta.
  all: first
    [ solve [bounded_cases Hs]
    | enum_eval; cbn [fst snd]; first [apply Hp | eapply bounded_state_same; [apply Hp | reflexivity]] ].
Qed.

Lemma replay_bounded n es st k : bounded_state st.1 -> bounded_state (replay (replay_visit c k) n es st).2.1.
Proof.
  revert n st. induction es as [| [t p] es IH]; intros n st Hs; cbn [replay]; [exact Hs |].
  assert (bounded_state (replay_visit c k t (MkSeq n) p st).2.1) as H1.
  { unfold replay_visit. destruct (_ <=? _); [exact Hs | by apply apply_record_bounded]. }
  destruct (replay_visit c k t _ p st) as [o st1]. destruct o; try exact H1. by apply IH.
Qed.
End Bounded.

(** ** Fixtures *)

(** An open store with an empty journal. *)
Definition fx_store : Store :=
  with_opened true (with_journal (MkJournal (Some []) 0 0) (new_Store default_config default_policy)).
Definition fx_world : World := (fx_store, fx_disk []).
Definition fx_fence (l : FenceLifecycle.t) : FenceStatePayload :=
  MkFenceState (MkIntent (MkId 9) (MkId 77) fx_scope fx_gens (MkId 3) (MkId 5) (MkId 1) Provenance.Synthetic
    ReasonCode.None fx_now (MkWall 2000000)) l false (MkId 0) (MkId 0) (MkWall 0) (MkWall 0) ReasonCode.None.
Definition fx_commits : list Commit :=
  [CDecision fx_decision; CFence RecordType.FenceIntentCommit (fx_fence FenceLifecycle.Intent);
   CFence RecordType.FenceRevokeCommit (fx_fence FenceLifecycle.Revoked)].

Lemma fx_fence_valid l : valid (fx_fence l).
Proof.
  change (valid_FenceStatePayload (fx_fence l)). unfold valid_FenceStatePayload. split_and!; by widths.
Qed.

Lemma fx_world_journaled : journaled new_DurableState [] fx_world.
Proof. split; [by split | reflexivity | by split]. Qed.

Lemma commit_op_run c w : (commit_op c w).1 = Ok -> commit_op c w = (Ok, (commit_op c w).2).
Proof. destruct (commit_op c w) as [o w']. cbn. by intros ->. Qed.

Lemma committed_new n c cs w w1 w2 :
  commit_op c w = (Ok, w1) -> repeats (state_ w.1) c = 0%nat -> commit_valid c -> committed n cs w1 w2 ->
  committed n (c :: cs) w w2.
Proof. intros H1 E H2 H3. pose proof (committed_cons n c cs w w1 w2 H2 H1 H3) as H. by rewrite E in H. Qed.

Lemma fx_committed : exists w', committed 0 fx_commits fx_world w'.
Proof.
  eexists. unfold fx_commits.
  eapply committed_new; [apply commit_op_run; vm_compute; reflexivity | vm_compute; reflexivity | exact fx_decision_valid |].
  eapply committed_new; [apply commit_op_run; vm_compute; reflexivity | vm_compute; reflexivity | by split; [apply fx_fence_valid |] |].
  eapply committed_new; [apply commit_op_run; vm_compute; reflexivity | vm_compute; reflexivity | by split; [apply fx_fence_valid |] |].
  constructor.
Qed.

(** ** Claims *)

(** C4: refinement: the journal is the abstract state. When every commit of a sequence
    succeeds and carries a payload its decoder accepts, the journal file is the image of the
    old records and one record per commit, and replaying it from the base state gives the
    live state of the store, up to what each boot rewrites and with [n] more fences counted
    in total, where [n] is the number of intent commits that named a fence already recorded.
    With none of those it is exactly the live state. *)
Theorem commit_refines_replay cs n s0 es w w' :
  0 <= seq_value (ds_snapshot_seq s0) -> seq_value (ds_snapshot_seq s0) + zlen (es ++ map commit_entry cs) < 2 ^ 64 ->
  journaled s0 es w -> committed n cs w w' ->
  journal_file w'.2 = Some (journal_image (seq_value (ds_snapshot_seq s0) + 1) (es ++ map commit_entry cs)) /\
  replayed_equiv
    (replay (replay_visit (config_ w.1) (ds_snapshot_seq s0)) (seq_value (ds_snapshot_seq s0) + 1)
       (es ++ map commit_entry cs) (s0, ds_snapshot_seq s0))
    (Ok, (recount n (state_ w'.1), last_seq_ w'.1)).
Proof.
  intros H0 Hb Hj Hc. destruct (committed_journaled cs n 0 s0 es w w' H0 Hb Hj Hc) as [[Hr _ Hp] Hcfg].
  rewrite Hcfg in Hp. split; [apply Hr | exact Hp].
Qed.

Example commit_refines_replay_witness :
  exists w', committed 0 fx_commits fx_world w' /\
    journal_file w'.2 = Some (journal_image 1 ([] ++ map commit_entry fx_commits)).
Proof.
  destruct fx_committed as (w' & Hc). exists w'. split; [exact Hc |].
  refine (proj1 (commit_refines_replay fx_commits 0 new_DurableState [] fx_world w' _ _ fx_world_journaled Hc)).
  - discriminate.
  - reflexivity.
Defined.

(** The two counters of fences part after an intent is committed twice: the store counts one
    fence, the replay of its journal two. *)
Theorem repeated_intent_counted_twice :
  let commit := commit_op (CFence RecordType.FenceIntentCommit (fx_fence FenceLifecycle.Intent)) in
  let w := (commit (commit fx_world).2).2 in
  (commit fx_world).1 = Ok /\ (commit (commit fx_world).2).1 = Ok /\ ds_total_fences (state_ w.1) = 1 /\
  ds_total_fences (scan_journal (replay_visit default_config (MkSeq 0)) (2 ^ 16) 65536 100000
    (MkSeq 1) (new_DurableState, MkSeq 0) w.2).1.2.1 = 2.
Proof. vm_compute. split_and!; reflexivity. Qed.

(** C5: a crash in the middle of a sequence of commits, leaving the journal cut at any byte
    behind the records that were there before, loses a suffix of the commits and nothing
    else: the scan of what is left succeeds and rebuilds the position and the state after
    the first [k] commits (the state as in C4), all of them when nothing is cut. This holds
    within the bounds of the scan, which the commits do not enforce: every payload is at
    most [max_record_payload] long, the journal holds at most [max_journal_records] records,
    and what is left of it is no longer than the [max_bytes] the scan accepts. *)
Theorem crash_keeps_committed cs n s0 es w w' P Q d max_bytes :
  0 <= seq_value (ds_snapshot_seq s0) ->
  1 + seq_value (ds_snapshot_seq s0) + zlen (es ++ map commit_entry cs) < 2 ^ 64 ->
  in_u32 (max_record_payload (config_ w.1)) ->
  entries_ok (max_record_payload (config_ w.1)) (es ++ map commit_entry cs) ->
  zlen (es ++ map commit_entry cs) <= st_max_journal_records (config_ w.1) ->
  journaled s0 es w -> committed n cs w w' ->
  journal_image (seq_value (ds_snapshot_seq s0) + 1) es ++ P ++ Q =
    journal_image (seq_value (ds_snapshot_seq s0) + 1) (es ++ map commit_entry cs) ->
  journal_file d = Some (journal_image (seq_value (ds_snapshot_seq s0) + 1) es ++ P) -> faults d = [] ->
  zlen (journal_image (seq_value (ds_snapshot_seq s0) + 1) es ++ P) <= max_bytes ->
  exists k m wk,
    (k <= length cs)%nat /\ committed m (take k cs) w wk /\ (Q = [] -> k = length cs) /\
    let '(r, (s, q), _) := scan_journal (replay_visit (config_ w.1) (ds_snapshot_seq s0))
      (max_record_payload (config_ w.1)) (st_max_journal_records (config_ w.1)) max_bytes
      (MkSeq (seq_value (ds_snapshot_seq s0) + 1)) (s0, ds_snapshot_seq s0) d in
    jr_outcome r = Ok /\ durable_equiv s (recount m (state_ wk.1)) /\ q = last_seq_ wk.1.
Proof.
  intros H0 Hb Hm Hok Hr Hj Hc E Hd Hf Hl. rewrite app_assoc in E.
  destruct (crash_recovers_prefix cs n s0 es w w' P Q H0 Hb Hm Hok Hr Hj Hc E) as (k & m & wk & H1 & H2 & H3 & H4).
  exists k, m, wk. split; [exact H1 |]. split; [exact H2 |]. split; [exact H3 |].
  rewrite (scan_journal_read _ _ _ _ _ _ _ _ Hd Hf Hl).
  destruct (scan_bytes _ _ _ _ _ _) as [r [s q]]. exact H4.
Qed.

Example crash_keeps_committed_witness :
  let cut := take 500 (journal_image 1 (map commit_entry fx_commits)) in
  exists k m wk, (k <= 3)%nat /\ committed m (take k fx_commits) fx_world wk /\
    let '(r, (s, q), _) := scan_journal (replay_visit default_config (MkSeq 0)) (2 ^ 16) 65536 100000
      (MkSeq 1) (new_DurableState, MkSeq 0) (fx_disk cut) in
    jr_outcome r = Ok /\ durable_equiv s (recount m (state_ wk.1)) /\ q = last_seq_ wk.1.
Proof.
  cbn zeta. destruct fx_committed as (w' & Hc).
  destruct (crash_keeps_committed fx_commits 0 new_DurableState [] fx_world w'
    (take 500 (journal_image 1 (map commit_entry fx_commits)))
    (drop 500 (journal_image 1 (map commit_entry fx_commits)))
    (fx_disk (take 500 (journal_image 1 (map commit_entry fx_commits)))) 100000) as (k & m & wk & H1 & H2 & _ & H4).
  - discriminate.
  - reflexivity.
  - split; [discriminate | reflexivity].
  - unfold entries_ok. repeat constructor; vm_compute; discriminate.
  - discriminate.
  - exact fx_world_journaled.
  - exact Hc.
  - exact (take_drop 500 (journal_image 1 (map commit_entry fx_commits))).
  - reflexivity.
  - reflexivity.
  - vm_compute. discriminate.
  - exists k, m, wk. split; [exact H1 |]. split; [exact H2 | exact H4].
Defined.

(** C40: the outcome of a commit on a store without faults: [Ok] exactly when the payload
    fits its writer, the journal has not reached its bound and the state has room for the
    fence; every other commit is [Exhausted], and unless only the room was missing it
    changes neither the store nor its files. *)
Theorem commit_outcome J c w :
  ready J w -> commit_valid c ->
  let '(o, w') := commit_op c w in
  o = (if commit_room w.1 c && fence_room w.1 c then Ok else Exhausted) /\
  (commit_room w.1 c = false -> w' = w).
Proof.
  intros Hr Hv. pose proof (commit_op_outcome J c w Hr Hv) as H.
  destruct (commit_room w.1 c).
  - destruct H as (w' & ->). by split.
  - rewrite H. by split.
Qed.

Example commit_outcome_witness :
  ready [] fx_world /\ (commit_op (CDecision fx_decision) fx_world).1 = Ok.
Proof.
  split; [exact (jn_ready _ _ _ _ fx_world_journaled) |].
  pose proof (commit_outcome [] (CDecision fx_decision) fx_world (jn_ready _ _ _ _ fx_world_journaled)
    fx_decision_valid) as H.
  destruct (commit_op (CDecision fx_decision) fx_world) as [o w']. destruct H as (H & _). cbn [fst].
  rewrite H. vm_compute. reflexivity.
Defined.

(** The replay of any records, accepted or not, keeps the lineage accounted for (every
    entry pushed is retained or counted as dropped), the lineage and the fences within
    their bounds, and every fence recorded once. *)
Theorem replay_keeps_bounds c k n es :
  1 <= st_max_lineage_records c ->
  let s := (replay (replay_visit c k) n es (new_DurableState, k)).2.1 in
  lineage_accounting_closed s = true /\ zlen (ds_lineage s) <= st_max_lineage_records c /\
  zlen (ds_fences s) <= Z.max 0 (max_prior_fences c) /\
  NoDup (map (fun f => fi_id (fp_intent f)) (ds_fences s)).
Proof.
  intros Hl. destruct (replay_bounded c Hl n es (new_DurableState, k) k) as [H1 H2 H3 H4]; [| done].
  split; [reflexivity | cbn; unfold zlen; cbn; lia | cbn; unfold zlen; cbn; lia | constructor].
Qed.

Example replay_keeps_bounds_witness :
  let s := (replay (replay_visit default_config (MkSeq 0)) 1 (map commit_entry fx_commits)
              (new_DurableState, MkSeq 0)).2.1 in
  lineage_accounting_closed s = true /\ zlen (ds_fences s) <= 1024.
Proof.
  destruct (replay_keeps_bounds default_config (MkSeq 0) 1 (map commit_entry fx_commits)) as (H1 & _ & H3 & _);
    [discriminate |].
  split; [exact H1 | exact H3].
Defined.
