(* ===== verification/Recovery.v ===== *)
(** * Opening a store after a crash

    [store_open] on a directory that a crash may have cut anywhere: the snapshot and the
    whole records of the journal are read back, the new incarnation gets its boot record and
    its epoch, and every fence that was still open is closed and recorded. *)
From Stdlib Require Import Strings.String.
From S2P Require Import Prelude Core Checked Codec Counted Hash Ids Domain Policy Fixtures Fence Authority.
From S2P Require Import Record Journal JournalSpec Snapshot Durable Store StoreSpec.
Local Open Scope string_scope.
Local Open Scope list_scope.
Local Open Scope Z_scope.

(** ** What a stage leaves alone *)

(** The fields of a store that the stages of opening depend on; the report is not one. *)
Definition view (t : Store) :=
  (config_ t, st_policy t, journal_ t, state_ t, last_seq_ t, opened_ t, journal_bytes_ t).

(** The snapshot file holds the base state: none for a store that never checkpointed. *)
Definition base_file (c : StoreConfig) (s0 : DurableState) (f : option (list byte)) : Prop :=
  match f with
  | None => s0 = new_DurableState
  | Some bs =>
      bs = snapshot_image (ds_snapshot_seq s0) (image s0) /\ valid s0 /\
      zlen (image s0) <= max_snapshot_payload c /\ in_u32 (max_snapshot_payload c) /\
      zlen (ds_lineage s0) <= st_max_lineage_records c
  end.

Lemma decode_snapshot (s : DurableState) :
  valid s -> exists r r', decode (A := DurableState) (new_Reader (image s)) = (Done s, r) /\ r_finish r = (Done tt, r').
Proof.
  intros Hs. pose proof (decode_all_image s Hs) as H. unfold decode_all, mbind, Decoder_bind in H.
  destruct (decode _) as [[s' | o] r] eqn:E; [| done].
  destruct (r_finish r) as [[[] | o] r'] eqn:F; [| done]. cbn in H. injection H as ->. eauto.
Qed.

Lemma load_snapshot_base c p j s0 t d :
  view t = (c, p, j, new_DurableState, MkSeq 0, false, 0) -> faults d = [] -> base_file c s0 (snapshot_file d) ->
  exists t', load_snapshot (t, d) = (Ok, (t', d)) /\ view t' = (c, p, j, s0, MkSeq 0, false, 0).
Proof.
  intros Hv Hf Hb. unfold view in Hv. injection Hv as Hc Hp Hj Hs Hl Ho Hy.
  unfold load_snapshot, mbind, StoreM_bind, get_store, on_disk. cbn [fst snd]. rewrite Hc.
  destruct (snapshot_file d) as [bs |] eqn:Hd.
  - destruct Hb as (-> & Hv & Hz & Hm & Hl').
    assert (in_u64 (seq_value (ds_snapshot_seq s0))) as Hq by (by destruct Hv as (_ & Hq & _)).
    rewrite (read_snapshot_image _ _ _ d Hq Hz Hm Hd Hf). cbn [sn_present negb modify fst snd sn_outcome sn_payload sn_seq].
    change (is_affirmative Ok) with true. cbn match.
    destruct (decode_snapshot s0 Hv) as (r & r' & E1 & E2). rewrite E1. cbn [negb fst snd]. rewrite E2.
    rewrite beq_refl. cbn [negb]. destruct (Z.ltb_spec (st_max_lineage_records c) (zlen (ds_lineage s0))); [lia |].
    eexists. split; [reflexivity |]. unfold view. cbn. by rewrite Hc, Hp, Hj, Hl, Ho, Hy.
  - cbn in Hb. subst s0. unfold read_snapshot. rewrite Hd. cbn [sn_present negb]. eexists. split; [reflexivity |].
    unfold view. by rewrite Hc, Hp, Hj, Hs, Hl, Ho, Hy.
Qed.

(** The first sequence number of the journal behind a base state. *)
Definition first_seq (s0 : DurableState) : Z := seq_value (ds_snapshot_seq s0) + 1.

(** The replay of records behind a base state. *)
Definition replay_from (c : StoreConfig) (s0 : DurableState) (es : list Entry) : Outcome * Replayed_ :=
  replay (replay_visit c (ds_snapshot_seq s0)) (first_seq s0) es (s0, ds_snapshot_seq s0).

(** What a crash may leave of a journal that the configuration admits. *)
Record crashed (c : StoreConfig) (s0 : DurableState) (es : list Entry) (P : list byte) : Prop := {
  cr_seq : 0 <= seq_value (ds_snapshot_seq s0);
  cr_width : first_seq s0 + zlen es < 2 ^ 64;
  cr_payload : in_u32 (max_record_payload c);
  cr_entries : entries_ok (max_record_payload c) es;
  cr_records : zlen es <= st_max_journal_records c;
  cr_bytes : zlen P <= st_max_journal_bytes c;
  cr_replay : (replay_from c s0 es).1 = Ok;
  cr_prefix : exists Q, P ++ Q = journal_image (first_seq s0) es;
}.

(** The number of whole records in [P] and the state they lead to. *)
Definition whole_records (c : StoreConfig) (s0 : DurableState) (es : list Entry) (P : list byte) (k : nat)
  (s1 : DurableState) (q1 : RecordSequence) : Prop :=
  (k <= length es)%nat /\ replay_from c s0 (take k es) = (Ok, (s1, q1)) /\
  zlen (journal_image (first_seq s0) (take k es)) <= zlen P /\
  ((k < length es)%nat -> zlen P < zlen (journal_image (first_seq s0) (take (1 + k) es))).

Lemma scan_crashed c s0 es P d :
  crashed c s0 es P -> faults d = [] -> default [] (journal_file d) = P ->
  exists k s1 q1 r,
    whole_records c s0 es P k s1 q1 /\
    scan_journal (replay_visit c (ds_snapshot_seq s0)) (max_record_payload c) (st_max_journal_records c)
      (st_max_journal_bytes c) (MkSeq (wrap 64 (seq_value (ds_snapshot_seq s0) + 1))) (s0, ds_snapshot_seq s0) d =
    (r, (s1, q1), d) /\
    jr_outcome r = Ok /\ take (Z.to_nat (jr_valid_bytes r)) P = journal_image (first_seq s0) (take k es) /\
    0 <= jr_valid_bytes r <= zlen P /\ jr_torn_tail r = (jr_valid_bytes r <? zlen P).
Proof.
  intros [H0 Hw Hm Hok Hr Hb He (Q & E)] Hf Hd. pose proof (zlen_nonneg es).
  rewrite wrap_small by (unfold in_u, first_seq in *; lia).
  destruct (replay_from c s0 es) as [o se] eqn:Er. cbn in He. subst o.
  destruct (journal_file d) as [bs |] eqn:Hj; cbn in Hd.
  - subst bs. rewrite (scan_journal_read _ _ _ _ _ _ _ P Hj Hf Hb).
    destruct (scan_prefix (replay_visit c (ds_snapshot_seq s0)) (max_record_payload c) (st_max_journal_records c) Hm
      (first_seq s0) es P Q (s0, ds_snapshot_seq s0) se) as (k & [s1 q1] & tl & Hk & H1 & HP & Hmax & Hs);
      [unfold first_seq; lia | done | done | done | exact Er | exact E |].
    exists k, s1, q1. eexists. change (seq_value (ds_snapshot_seq s0) + 1) with (first_seq s0). rewrite Hs.
    assert (zlen P = zlen (journal_image (first_seq s0) (take k es)) + zlen tl) as Hz by (by rewrite HP, zlen_app).
    pose proof (zlen_nonneg tl). pose proof (zlen_nonneg (journal_image (first_seq s0) (take k es))).
    split; [split; [exact Hk |]; split; [exact H1 |]; split; [lia | exact Hmax] |].
    split; [reflexivity |]. cbn [jr_outcome jr_valid_bytes jr_torn_tail].
    split; [reflexivity |]. split; [| split; [lia |]].
    + rewrite HP at 1. unfold zlen. rewrite Nat2Z.id. apply take_app_length.
    + rewrite Hz. destruct (Z.eqb_spec (zlen tl) 0), (Z.ltb_spec (zlen (journal_image (first_seq s0) (take k es)))
        (zlen (journal_image (first_seq s0) (take k es)) + zlen tl)); done || lia.
  - subst P. exists 0%nat, s0, (ds_snapshot_seq s0). unfold scan_journal. rewrite Hj. eexists.
    split; [split; [lia |]; split; [reflexivity |]; split; [done |] |].
    + intros Hl. rewrite zlen_nil. destruct es as [| [t p] es]; [cbn in Hl; lia |]. change (take (1 + 0) ((t, p) :: es)) with [(t, p)].
      cbn [journal_image]. rewrite app_nil_r, zlen_record_image.
      pose proof (zlen_nonneg p). lia.
    + split; [reflexivity |]. by split_and!.
Qed.

Lemma replay_journal_crashed c p j s0 es P t d :
  crashed c s0 es P -> view t = (c, p, j, s0, MkSeq 0, false, 0) -> faults d = [] ->
  default [] (journal_file d) = P ->
  exists k s1 q1 t' d',
    whole_records c s0 es P k s1 q1 /\ replay_journal (t, d) = (Ok, (t', d')) /\
    view t' = (c, p, j, s1, q1, false, 0) /\
    or_policy_restored (report_ t') = (ds_policy_fingerprint s1 =? policy_fingerprint p) /\
    default [] (journal_file d') = journal_image (first_seq s0) (take k es) /\
    snapshot_file d' = snapshot_file d /\ faults d' = [].
Proof.
  intros Hcr Hv Hf Hd. unfold view in Hv. injection Hv as Hc Hp Hj Hs Hl Ho Hy.
  destruct (scan_crashed c s0 es P d Hcr Hf Hd) as (k & s1 & q1 & r & Hk & Hscan & Hok & Hval & Hrange & Htorn).
  exists k, s1, q1.
  unfold replay_journal, mbind, StoreM_bind, modify, get_store, on_disk.
  cbn [fst snd with_position config_ state_ last_seq_]. rewrite Hc, Hs, Hscan. cbn [fst snd]. rewrite Hok.
  change (is_affirmative Ok) with true. cbn [negb]. cbn match.
  rewrite Htorn. destruct (jr_valid_bytes r <? zlen P) eqn:Ht.
  - apply Z.ltb_lt in Ht. destruct (journal_file d) as [bs |] eqn:Hbs.
    2:{ cbn in Hd. subst P. rewrite zlen_nil in *. lia. }
    cbn in Hd. subst bs. unfold truncate_journal, fault. cbn [fst snd]. rewrite Hbs, Hf.
    change (is_affirmative Ok) with true. cbn match. do 2 eexists. split; [exact Hk |]. split; [reflexivity |].
    split; [unfold view; cbn; by rewrite Hc, Hp, Hj, Ho, Hy |].
    split; [cbn; by rewrite Hp |]. split; [| by split].
    cbn. rewrite Hval. replace (Z.to_nat (jr_valid_bytes r) - length P)%nat with 0%nat by (unfold zlen in *; lia).
    apply app_nil_r.
  - apply Z.ltb_ge in Ht. unfold mret, StoreM_ret. change (is_affirmative Ok) with true. cbn match.
    do 2 eexists. split; [exact Hk |]. split; [reflexivity |].
    split; [unfold view; cbn; by rewrite Hc, Hp, Hj, Ho, Hy |].
    split; [cbn; by rewrite Hp |]. split; [| by split].
    rewrite <- Hval, take_ge by (unfold zlen in *; lia). exact Hd.
Qed.

(** ** What opening needs of the state it reads *)

(** The values a boot writes back fit the format, and no fence is recorded twice. *)
Record sound_state (s : DurableState) : Prop := {
  so_epoch : valid (ds_epoch s);
  so_boots : in_u64 (ds_boot_count s);
  so_opens : in_u64 (ds_open_count s);
  so_fences : Forall valid (ds_fences s);
  so_unique : NoDup (map (fun f => fi_id (fp_intent f)) (ds_fences s));
}.

(** The fields [sound_state] reads. *)
Definition sound_view (s : DurableState) := (ds_epoch s, ds_boot_count s, ds_open_count s, ds_fences s).

Lemma sound_state_same s s' : sound_state s -> sound_view s' = sound_view s -> sound_state s'.
Proof. intros [H1 H2 H3 H4 H5] [= E1 E2 E3 E4]. split; by rewrite ?E1, ?E2, ?E3, ?E4. Qed.

Lemma push_lineage_view c e s : sound_view (push_lineage c e s) = sound_view s.
Proof. unfold push_lineage. by destruct (_ <=? _). Qed.

Lemma sound_set_fences l s :
  sound_state s -> Forall valid l -> NoDup (map (fun f => fi_id (fp_intent f)) l) -> sound_state (set_fences l s).
Proof. intros [H1 H2 H3 _ _] H4 H5. by split. Qed.

Lemma Forall_replace_fence P f l : P f -> Forall P l -> Forall P (replace_fence_state f l).
Proof.
  intros Hf. induction 1 as [| x l Hx Hl IH]; cbn [replace_fence_state]; [constructor |].
  destruct (_ == _); by constructor.
Qed.

Lemma apply_fence_sound c t q p st :
  fence_type t = true -> sound_state st.1 -> sound_state (apply_record c t q p st).2.1.
Proof.
  intros Ht Hs. destruct (decode_all (decode (A := FenceStatePayload)) p) as [f | o] eqn:Ed.
  2:{ destruct t; try discriminate; unfold apply_record, with_payload; rewrite Ed; exact Hs. }
  apply decode_all_canonical in Ed as [Hv ->]. destruct st as [s q0]. cbn [fst] in Hs.
  rewrite apply_fence_record by done. cbn zeta. pose proof Hs as [_ _ _ Hf Hn].
  destruct (find_fence_state (fi_id (fp_intent f)) (ds_fences s)) eqn:Ef.
  - eapply sound_state_same; [apply (sound_set_fences (replace_fence_state f (ds_fences s)) s Hs) |].
    + by apply Forall_replace_fence.
    + by rewrite replace_fence_ids.
    + cbn [fst snd]. rewrite push_lineage_view. by destruct (t == _).
  - destruct (_ <=? _); [exact Hs |].
    eapply sound_state_same; [apply (sound_set_fences (ds_fences s ++ [f]) s Hs) |].
    + apply Forall_app. split; [exact Hf | by constructor].
    + rewrite map_app. apply NoDup_app. split; [exact Hn |]. split; [| repeat constructor; set_solver].
      intros x Hx Hx'. apply list_elem_of_singleton in Hx' as ->. by apply find_fence_state_None in Ef.
    + cbn [fst snd]. rewrite push_lineage_view. by destruct (t == _).
Qed.

Lemma with_payload_sound {A} `{CodecLaws A, !CanonicalCodec A} payload (st : Replayed_) k :
  sound_state st.1 -> (forall a : A, valid a -> sound_state (k a).2.1) -> sound_state (with_payload payload st k).2.1.
Proof.
  intros Hs Hk. unfold with_payload. destruct (decode_all decode payload) eqn:E; [| exact Hs].
  apply decode_all_canonical in E as [Hv _]. by apply Hk.
Qed.

Lemma apply_record_sound c t q p st : sound_state st.1 -> sound_state (apply_record c t q p st).2.1.
Proof.
  intros Hs. destruct (fence_type t) eqn:Ht; [by apply apply_fence_sound |].
  assert (forall e, sound_state (push_lineage c e st.1)) as Hp
    by (intros e; eapply sound_state_same; [exact Hs | apply push_lineage_view]).
  destruct t; try discriminate; unfold apply_record;
    try (unfold with_payload; destruct (decode_all _ _); [| exact Hs]; enum_eval; cbn [fst snd];
         eapply sound_state_same; [exact Hs |];
         first [apply push_lineage_view | etransitivity; [| apply (push_lineage_view c)]; reflexivity
               | by rewrite push_lineage_view]).
  - apply with_payload_sound; [exact Hs |]. intros v Hv. destruct (_ && _); [exact Hs |].
    destruct Hs as [_ _ _ H4 H5], Hv as (_ & _ & H1 & _ & H2 & H3 & _). by split.
  - apply with_payload_sound; [exact Hs |]. intros v _. eapply sound_state_same; [exact Hs | reflexivity].
  - apply with_payload_sound; [exact Hs |]. intros v Hv. destruct (_ <=? _); [exact Hs |].
    destruct Hs as [_ H2 H3 H4 H5]. by split.
  - apply with_payload_sound; [exact Hs |]. intros v _. destruct (_ <? _); [exact Hs | exact Hs].
Qed.

Lemma replay_sound c es st k n :
  sound_state st.1 -> sound_state (replay (replay_visit c k) n es st).2.1.
Proof.
  revert n st. induction es as [| [t p] es IH]; intros n st Hs; cbn [replay]; [exact Hs |].
  assert (sound_state (replay_visit c k t (MkSeq n) p st).2.1) as H1.
  { unfold replay_visit. destruct (_ <=? _); [exact Hs | by apply apply_record_sound]. }
  destruct (replay_visit c k t _ p st) as [o st1]. destruct o; try exact H1. by apply IH.
Qed.

(** ** The new incarnation *)

Definition marked (e : LineageEntry) : LineageEntry :=
  MkLineage (ln_type e) (ln_seq e) (ln_at e) (ln_decision e) (ln_fence e) (ln_scope e) (ln_gens e)
    (ln_outcome e) (ln_classification e) (ln_reason e) (ln_boot e) (ln_incarnation e) true.

(** The state of the incarnation that opens the store. *)
Definition advanced (s : DurableState) : DurableState :=
  let s := set_boot_counts (gen_next (ds_epoch s)) (incr (ds_boot_count s)) (incr (ds_open_count s)) s in
  set_lineage (ds_lineage_seen s) (ds_lineage_dropped s) (map marked (ds_lineage s)) s.

Lemma advanced_equiv s :
  durable_equiv (advanced s) (set_boot_counts (gen_next (ds_epoch s)) (incr (ds_boot_count s)) (incr (ds_open_count s)) s).
Proof. unfold durable_equiv, authoritative. cbn. by rewrite map_map. Qed.

Lemma advanced_sound s : sound_state s -> sound_state (advanced s).
Proof. intros [H1 H2 H3 H4 H5]. split; cbn; [apply incr_range.. | exact H4 | exact H5]. Qed.

Lemma advance_incarnation_ok c p j s1 q1 t d n1 n2 :
  view t = (c, p, j, s1, q1, false, 0) -> n1 <> 0 -> n2 <> 0 ->
  exists t', advance_incarnation n1 n2 (t, d) = (Ok, (t', d)) /\
    view t' = (c, p, j, advanced s1, q1, false, 0) /\ boot_ t' = MkId n1 /\ incarnation_ t' = MkId n2 /\
    or_policy_restored (report_ t') = or_policy_restored (report_ t).
Proof.
  intros Hv H1 H2. unfold view in Hv. injection Hv as Hc Hp Hj Hs Hl Ho Hy.
  unfold advance_incarnation, mbind, StoreM_bind, modify. cbn [fst snd].
  destruct (Z.eqb_spec n1 0); [done |]. destruct (Z.eqb_spec n2 0); [done |]. cbn [orb].
  eexists. split; [reflexivity |]. split; [| by split_and!].
  unfold view. cbn. by rewrite Hc, Hp, Hj, Hs, Hl, Ho, Hy.
Qed.

(** The boot record of the incarnation replays to its state. *)
Lemma apply_boot_record c q p s q0 :
  valid p -> gen_value (ds_epoch s) < gen_value (bp_epoch p) ->
  apply_record c RecordType.Boot q (image p) (s, q0) =
  (Ok, (set_last_boot (bp_boot p) (bp_incarnation p)
          (set_policy (bp_policy p) (ds_policy_fingerprint s)
             (set_boot_counts (bp_epoch p) (bp_boot_count p) (bp_open_count p) s)), q)).
Proof.
  intros Hp He. unfold apply_record. cbn [fst snd]. rewrite with_payload_image by exact Hp.
  destruct (Z.leb_spec (gen_value (bp_epoch p)) (gen_value (ds_epoch s))); [lia | reflexivity].
Qed.

(** Records of fixed size. *)
Lemma zlen_concat (l : list (list byte)) : zlen (concat l) = foldr (fun x n => zlen x + n) 0 l.
Proof. induction l as [| x l IH]; [done |]. cbn [concat foldr]. by rewrite zlen_app, IH. Qed.

Lemma zlen_id_image {T} (x : StrongId T) : zlen (image x) = 8.
Proof. apply zlen_le_bytes. Qed.
Lemma zlen_gen_image {T} (x : Generation T) : zlen (image x) = 8.
Proof. apply zlen_le_bytes. Qed.
Lemma zlen_wall_image (x : WallNs) : zlen (image x) = 8.
Proof. apply zlen_le_bytes. Qed.
Lemma zlen_duration_image (x : DurationNs) : zlen (image x) = 8.
Proof. apply zlen_le_bytes. Qed.

Create Rewrite HintDb image_size.
#[local] Hint Rewrite @zlen_id_image @zlen_gen_image zlen_wall_image zlen_duration_image zlen_le_bytes : image_size.

(** The size of a record is the sum of the sizes of its fields. *)
Ltac image_size f := match goal with |- zlen (image ?v) = _ => change (image v) with (f v) end;
  unfold f; rewrite zlen_concat; cbn [foldr]; autorewrite with image_size; reflexivity.

Lemma zlen_scope_image (s : Scope) : zlen (image s) = 34.
Proof. image_size image_Scope. Qed.
Lemma zlen_gens_image (g : GenerationVector) : zlen (image g) = 32.
Proof. image_size image_GenerationVector. Qed.
#[local] Hint Rewrite zlen_scope_image zlen_gens_image : image_size.

Lemma zlen_intent_image (i : FenceIntent) : zlen (image i) = 125.
Proof. image_size image_FenceIntent. Qed.
#[local] Hint Rewrite zlen_intent_image : image_size.

Lemma zlen_boot_image (p : BootPayload) : zlen (image p) = 65.
Proof. image_size image_BootPayload. Qed.
Lemma zlen_interruption_image (p : InterruptionPayload) : zlen (image p) = 84.
Proof. image_size image_InterruptionPayload. Qed.
Lemma zlen_fence_state_image (f : FenceStatePayload) : zlen (image f) = 161.
Proof. image_size image_FenceStatePayload. Qed.
Lemma zlen_policy_image (p : FencePolicy) : zlen (image p) = 166.
Proof. image_size image_FencePolicy. Qed.

(** A refused payload is never [Ok]. *)
Lemma decode_all_refuses {A} `{CodecLaws A} bs o : decode_all (decode (A := A)) bs = Refuse o -> o <> Ok.
Proof.
  unfold decode_all, mbind, Decoder_bind. pose proof (decode_total (A := A) (new_Reader bs)) as Ht.
  destruct (decode (new_Reader bs)) as [[a | o'] r]; [| cbn [fst]; intros H1; inversion H1; subst; apply Ht].
  unfold r_finish. destruct (err_ r != Ok) eqn:E.
  - cbn [fst]. intros H1. inversion H1. subst. by apply negb_true_iff, bool_decide_eq_false in E.
  - destruct (Nat.eqb _ _); [discriminate |]. unfold reader_fail. cbn [fst].
    destruct (bool_decide_reflect (err_ r = Ok)); intros H1; injection H1 as <-; done.
Qed.

Lemma with_payload_Ok {A B} `{CodecLaws A} payload (s : B) (k : A -> Outcome * B) x :
  with_payload payload s k = (Ok, x) -> exists a, decode_all decode payload = Done a /\ k a = (Ok, x).
Proof.
  unfold with_payload. destruct (decode_all decode payload) as [a | o] eqn:E; [by eauto |].
  intros [= -> _]. by apply decode_all_refuses in E.
Qed.

(** The position after a replay. *)
Lemma apply_record_position c t q p st s' q' : apply_record c t q p st = (Ok, (s', q')) -> q' = q.
Proof.
  intros H. destruct t; apply with_payload_Ok in H as (v & _ & H); cbn zeta in H;
    try destruct (find_fence_state _ _);
    repeat match goal with H : context [if ?b then _ else _] |- _ => destruct b end;
    inversion H; reflexivity.
Qed.

Lemma replay_position c s0 es s1 q1 :
  replay_from c s0 es = (Ok, (s1, q1)) -> q1 = MkSeq (seq_value (ds_snapshot_seq s0) + zlen es).
Proof.
  unfold replay_from. destruct es as [| [t p] es' _] using rev_ind.
  - intros [= _ <-]. rewrite zlen_nil, Z.add_0_r. by destruct (ds_snapshot_seq s0).
  - rewrite replay_app. destruct (replay _ _ es' _) as [o st]. destruct o; try discriminate.
    cbn [replay]. pose proof (zlen_nonneg es').
    rewrite replay_visit_new by (unfold first_seq; lia). destruct (apply_record _ t _ p st) as [o [s q]] eqn:E.
    destruct o; try discriminate. intros [= <- <-]. apply apply_record_position in E as ->.
    rewrite zlen_app, zlen_cons, zlen_nil. unfold first_seq. f_equal. lia.
Qed.

(** ** The boot record *)

(** A store whose journal can take no more records. *)
Definition journal_full (t : Store) : Prop := st_max_journal_bytes (config_ t) <= journal_bytes_ t.

(** The outcome of a stage that commits: it succeeds with [P], or the journal is full. *)
Definition commits_or_full (P : World -> Prop) (r : Outcome * World) : Prop :=
  (r.1 = Ok /\ P r.2) \/ (r.1 = Exhausted /\ journal_full r.2.1).

Lemma TRYR_or_full (P : World -> Prop) why (m : StoreM Outcome) w :
  commits_or_full P (m w) -> commits_or_full P ((TRYR m ELSE why ;; mret Ok) w).
Proof.
  unfold mbind, StoreM_bind. destruct (m w) as [o w']. intros [[E H] | [E H]]; cbn [fst snd] in E, H; subst o.
  - by left.
  - by right.
Qed.

Lemma append_commit_or_full J type payload w :
  ready J w -> zlen payload < 2 ^ 63 ->
  commits_or_full (fun w' => extended J type payload w w') (append_commit type payload w).
Proof.
  intros Hr Hp. rewrite (append_commit_ready J) by done. destruct (Z.leb_spec (st_max_journal_bytes (config_ w.1)) (journal_bytes_ w.1)).
  - by right.
  - left. split; [done |]. by split; [apply ready_appended |..].
Qed.

Lemma commit_policy_or_full J p w :
  ready J w -> valid p ->
  commits_or_full (fun w' => refines 0 J (RecordType.PolicyCommit, image p) w w' /\
    state_ w'.1 = set_policy (pol_version p) (policy_fingerprint p) (state_ w.1)) (commit_policy p w).
Proof.
  intros Hr Hp. pose proof (commit_policy_refines J p w) as Href.
  assert (0 <= 1024 < 2 ^ 63) as H1 by lia.
  pose proof (commit_value_outcome J 1024 RecordType.PolicyCommit p w Hr Hp H1) as Ho. rewrite zlen_policy_image in Ho.
  change (166 <=? 1024) with true in Ho. cbn [andb] in Ho.
  unfold commit_policy in *. rewrite (TRY_commit _ _ _ _ _ Ho) in *.
  destruct (Z.ltb_spec (journal_bytes_ w.1) (st_max_journal_bytes (config_ w.1))).
  - left. split; [reflexivity |]. split; [by apply Href | reflexivity].
  - right. split; [reflexivity |]. cbn [fst snd]. unfold journal_full. lia.
Qed.

(** The writer opened on the recovered journal. *)
Lemma open_append_ready t d J :
  journal_ t = new_JournalWriter -> faults d = [] -> default [] (journal_file d) = J ->
  exists j, on_journal (open_append false) (t, d) = (Ok, (with_journal j t, set_journal (Some J) d)) /\ stream j = Some [].
Proof.
  intros Hj Hf Hd. unfold on_journal, open_append, journal_close, fault. cbn [fst snd]. rewrite Hj. cbn [stream new_JournalWriter].
  rewrite Hf, Hd. eexists. split; [reflexivity |]. reflexivity.
Qed.

(** The records of a boot as [b], [i] behind the recovered state [s1]: the boot record with the
    identity, the epoch and the counts of the new incarnation, and the policy when the
    recovered one was another. *)
Definition boot_records (b : BootId) (i : IncarnationId) (now : WallNs) (label : Provenance.t) (p : FencePolicy)
  (s1 : DurableState) : list Entry :=
  (RecordType.Boot,
   image (MkBoot b i (ds_epoch (advanced s1)) now (ds_boot_count (advanced s1)) (ds_open_count (advanced s1))
     (pol_version p) (policy_fingerprint p) label)) ::
  (if ds_policy_fingerprint s1 =? policy_fingerprint p then [] else [(RecordType.PolicyCommit, image p)]).

Lemma boot_records_length b i now label p s1 : zlen (boot_records b i now label p s1) <= 2.
Proof. unfold boot_records. destruct (_ =? _); rewrite zlen_cons; [change (1 + 0 <= 2) | change (1 + 1 <= 2)]; lia. Qed.

(** What the new incarnation finds when its boot record is durable. *)
Record booted (c : StoreConfig) (p : FencePolicy) (s0 : DurableState) (es bs : list Entry) (s1 : DurableState)
  (w : World) : Prop := {
  bo_records : journaled s0 (es ++ bs) w;
  bo_config : config_ w.1 = c;
  bo_state : sound_view (state_ w.1) = sound_view (advanced s1);
  bo_policy : ds_policy_fingerprint (state_ w.1) = policy_fingerprint p;
}.

Lemma policy_fingerprint_range p : in_u64 (policy_fingerprint p).
Proof. unfold policy_fingerprint. destruct (negb _); [by unfold in_u | apply fnv1a64_range]. Qed.

Lemma boot_payload_valid p now label t :
  st_policy t = p -> valid (pol_version p) -> sound_state (state_ t) -> valid now ->
  valid (boot_ t) -> valid (incarnation_ t) -> valid (boot_payload now label t).
Proof.
  intros Hp Hv [H1 H2 H3 _ _] Hn Hb Hi. unfold boot_payload. rewrite Hp.
  split; [exact Hb |]. split; [exact Hi |]. split; [exact H1 |]. split; [exact Hn |]. split; [exact H2 |].
  split; [exact H3 |]. split; [exact Hv | apply policy_fingerprint_range].
Qed.

(** The boot record leads from the recovered state to the state of the new incarnation. *)
Lemma boot_journaled s0 es s1 payload w w' :
  replay_from (config_ w.1) s0 es = (Ok, (s1, last_seq_ w.1)) -> 0 <= seq_value (ds_snapshot_seq s0) ->
  first_seq s0 + zlen es < 2 ^ 64 -> ready (journal_image (first_seq s0) es) w ->
  state_ w.1 = advanced s1 -> gen_value (ds_epoch s1) + 1 < 2 ^ 64 -> sound_state s1 ->
  valid payload -> bp_epoch payload = ds_epoch (advanced s1) ->
  bp_boot_count payload = ds_boot_count (advanced s1) -> bp_open_count payload = ds_open_count (advanced s1) ->
  extended (journal_image (first_seq s0) es) RecordType.Boot (image payload) w w' ->
  journaled s0 (es ++ [(RecordType.Boot, image payload)]) w'.
Proof.
  intros Hr H0 Hb Hw Hs He Hso Hv E1 E2 E3 [X1 X2 X3 X4].
  apply (journaled_step 0 0 s0 es (RecordType.Boot, image payload) (updated (fun _ => s1) w) w'); cbn [fst snd updated].
  - split; [by apply ready_updated | cbn; by apply (replay_position (config_ w.1) s0 es s1) |].
    cbn. unfold replay_from in Hr. unfold first_seq in Hr. rewrite Hr. by split.
  - exact H0.
  - unfold first_seq in Hb. lia.
  - exact X2.
  - exact X3.
  - exact X1.
  - change (next_seq (with_state (fun _ => s1) w.1)) with (next_seq w.1).
    cbn [with_state config_ state_ last_seq_ fst snd]. rewrite apply_boot_record; [| exact Hv |].
    + rewrite X4, Hs, E1, E2, E3. split; [reflexivity |]. split; [| reflexivity].
      cbn [fst snd]. symmetry. etransitivity; [apply advanced_equiv |]. reflexivity.
    + rewrite E1. cbn. unfold incr, u64_add. rewrite wrap_small; [lia |].
      destruct Hso as [Hx _ _ _ _]. unfold valid in Hx. cbn in Hx. unfold in_u in *. lia.
Qed.

Lemma encode_boot p : valid p -> encode_bounded 256 p = Some (image (A := BootPayload) p).
Proof. intros Hv. rewrite encode_bounded_spec by (done || lia). by rewrite zlen_boot_image. Qed.

#[local] Opaque append_commit commit_policy.

Lemma commit_boot_booted c p s0 es s1 q1 t d now label :
  replay_from c s0 es = (Ok, (s1, q1)) -> 0 <= seq_value (ds_snapshot_seq s0) ->
  first_seq s0 + zlen es + 2 < 2 ^ 64 -> sound_state s1 -> gen_value (ds_epoch s1) + 1 < 2 ^ 64 ->
  valid p -> valid now -> valid (boot_ t) -> valid (incarnation_ t) ->
  view t = (c, p, new_JournalWriter, advanced s1, q1, false, 0) ->
  or_policy_restored (report_ t) = (ds_policy_fingerprint s1 =? policy_fingerprint p) ->
  default [] (journal_file d) = journal_image (first_seq s0) es -> faults d = [] ->
  commits_or_full (booted c p s0 es (boot_records (boot_ t) (incarnation_ t) now label p s1) s1) (commit_boot now label (t, d)).
Proof.
  intros Hr H0 Hb Hso He Hp Hn Hbt Hin Hv Hrest Hd Hf. unfold view in Hv. injection Hv as Hc Hpol Hj Hs Hl Ho Hy.
  destruct (open_append_ready t d _ Hj Hf Hd) as (j & Hopen & Hstr).
  unfold commit_boot, mbind, StoreM_bind. rewrite Hopen. change (is_affirmative Ok) with true. cbn match.
  unfold on_disk, modify, get_store. cbn [fst snd].
  match goal with |- context [boot_payload now label ?t] => set (t1 := t) end.
  set (d1 := set_journal (Some (journal_image (first_seq s0) es)) d).
  assert (ready (journal_image (first_seq s0) es) (t1, d1)) as Hready by (by split).
  assert (valid (boot_payload now label t1)) as Hbp.
  { apply (boot_payload_valid p); try assumption; [apply Hp |]. change (state_ t1) with (state_ t). rewrite Hs.
    by apply advanced_sound. }
  rewrite encode_boot by exact Hbp.
  destruct (append_commit_or_full _ RecordType.Boot (image (boot_payload now label t1)) (t1, d1) Hready) as [[E1 X] | [E1 X]];
    [rewrite zlen_boot_image; lia | |].
  all: destruct (append_commit _ _ (t1, d1)) as [o w2]; cbn [fst snd] in E1, X; subst o.
  2:{ change (is_affirmative Exhausted) with false. right. by split. }
  change (is_affirmative Ok) with true. cbn match.
  assert (journaled s0 (es ++ [(RecordType.Boot, image (boot_payload now label t1))]) w2) as Hj2.
  { apply (boot_journaled s0 es s1 _ (t1, d1)); try assumption; cbn [fst snd]; try reflexivity; try lia.
    - change (config_ t1) with (config_ t). change (last_seq_ t1) with (last_seq_ t). rewrite Hc, Hl. exact Hr.
    - change (ds_epoch (state_ t) = ds_epoch (advanced s1)). by rewrite Hs.
    - change (ds_boot_count (state_ t) = ds_boot_count (advanced s1)). by rewrite Hs.
    - change (ds_open_count (state_ t) = ds_open_count (advanced s1)). by rewrite Hs. }
  assert (boot_payload now label t1 =
    MkBoot (boot_ t) (incarnation_ t) (ds_epoch (advanced s1)) now (ds_boot_count (advanced s1)) (ds_open_count (advanced s1))
      (pol_version p) (policy_fingerprint p) label) as Hpay.
  { unfold boot_payload. change (state_ t1) with (state_ t). change (st_policy t1) with (st_policy t). by rewrite Hs, Hpol. }
  unfold boot_records. rewrite <- Hpay.
  assert (state_ w2.1 = advanced s1) as Hs2 by (rewrite (ex_state _ _ _ _ _ X); exact Hs).
  assert (config_ w2.1 = c) as Hc2 by (rewrite (ex_config _ _ _ _ _ X); exact Hc).
  change (or_policy_restored (report_ t1)) with (or_policy_restored (report_ t)). rewrite Hrest.
  destruct (Z.eqb_spec (ds_policy_fingerprint s1) (policy_fingerprint p)) as [Hfp | Hfp].
  - left. split; [reflexivity |]. match goal with |- booted _ _ _ _ ?bs _ _ => change (booted c p s0 es bs s1 w2) end.
    split; [exact Hj2 | exact Hc2 | by rewrite Hs2 | by rewrite Hs2].
  - change (st_policy t1) with (st_policy t). rewrite Hpol. cbv beta.
    destruct (commit_policy_or_full _ p w2 (jn_ready _ _ _ _ Hj2) Hp) as [[E2 [Y Ys]] | [E2 Y]];
      destruct (commit_policy p w2) as [o w3]; cbn [fst snd] in E2, Y; subst o.
    + left. split; [reflexivity |]. match goal with |- booted _ _ _ _ ?bs _ _ => change (booted c p s0 es bs s1 w3) end. cbn [fst snd] in Ys.
      assert (seq_value (ds_snapshot_seq s0) + zlen (es ++ [(RecordType.Boot, image (boot_payload now label t1))]) + 1 < 2 ^ 64)
        as Hb2 by (rewrite zlen_app, zlen_cons, zlen_nil; unfold first_seq in Hb; lia).
      pose proof (refines_journaled 0 0 _ _ _ _ _ Hj2 H0 Hb2 Y) as Hj3. rewrite <- app_assoc in Hj3.
      split; [exact Hj3 | rewrite (proj1 Y); exact Hc2 | by rewrite Ys, Hs2 | by rewrite Ys].
    + right. by split.
Qed.

(** ** Closing the prior fences *)

Definition fence_open (f : FenceStatePayload) : bool := open_lifecycle (fp_lifecycle f).

(** What opening makes of a recorded fence. *)
Definition fence_closed (f : FenceStatePayload) : FenceStatePayload :=
  if fence_open f then fenced_by_open f else f.

Lemma fence_closed_valid f : valid f -> valid (fenced_by_open f).
Proof. intros (H1 & H2 & H3 & H4 & H5). by split. Qed.

Lemma interruption_valid now f : valid f -> valid now -> valid (interruption_of now f).
Proof.
  intros (Hi & _) Hn. unfold valid in Hi. cbn in Hi.
  destruct Hi as (H1 & H2 & H3 & H4 & H5 & H6 & H7). unfold interruption_of.
  split; [exact H1 |]. split; [exact H2 |]. split; [exact H3 |]. split; [apply H4 |].
  split; [exact H5 |]. split; [exact H6 | exact Hn].
Qed.

Lemma push_set_fences c e l s : push_lineage c e (set_fences l s) = set_fences l (push_lineage c e s).
Proof. unfold push_lineage. cbn. by destruct (_ <=? _). Qed.

Lemma set_fences_self s : set_fences (ds_fences s) s = s.
Proof. by destruct s. Qed.

Lemma id_lookup (L : list FenceStatePayload) i f :
  L !! i = Some f -> map (fun f => fi_id (fp_intent f)) L !! i = Some (fi_id (fp_intent f)).
Proof. intros Hi. etransitivity; [apply list_lookup_fmap | by rewrite Hi]. Qed.

Lemma replace_fence_lookup (L : list FenceStatePayload) i f g :
  NoDup (map (fun f => fi_id (fp_intent f)) L) -> L !! i = Some f -> fp_intent g = fp_intent f ->
  replace_fence_state g L = <[i := g]> L.
Proof.
  intros Hn Hi Hg. revert i Hn Hi. induction L as [| x L IH]; intros i Hn Hi; [done |].
  cbn [map] in Hn. apply NoDup_cons in Hn as [Hx Hn]. cbn [replace_fence_state]. rewrite Hg.
  destruct i as [| i]; cbn in Hi.
  - injection Hi as ->. by rewrite beq_refl.
  - rewrite beq_ne.
    + cbn. f_equal. by apply IH.
    + intros E. apply Hx. rewrite E. apply list_elem_of_lookup. exists i. by apply id_lookup.
Qed.

Lemma find_fence_lookup (L : list FenceStatePayload) i f :
  NoDup (map (fun f => fi_id (fp_intent f)) L) -> L !! i = Some f ->
  find_fence_state (fi_id (fp_intent f)) L = Some f.
Proof.
  intros Hn Hi. revert i Hn Hi. induction L as [| x L IH]; intros i Hn Hi; [done |].
  cbn [map] in Hn. apply NoDup_cons in Hn as [Hx Hn]. unfold find_fence_state. cbn [List.find].
  destruct i as [| i]; cbn in Hi.
  - injection Hi as ->. by rewrite beq_refl.
  - rewrite beq_ne; [by apply (IH i) |].
    intros E. apply Hx. rewrite E. apply list_elem_of_lookup. exists i. by apply id_lookup.
Qed.

Lemma insert_ids (L : list FenceStatePayload) i f g :
  L !! i = Some f -> fp_intent g = fp_intent f ->
  map (fun f => fi_id (fp_intent f)) (<[i := g]> L) = map (fun f => fi_id (fp_intent f)) L.
Proof.
  intros Hi Hg. etransitivity; [apply list_fmap_insert |]. apply list_insert_id. rewrite Hg. by apply id_lookup.
Qed.

(** The two records of a closed fence. *)
Lemma commit_interruption_or_full J p w :
  ready J w -> valid p ->
  commits_or_full (refines 0 J (RecordType.InterruptionCommit, image p) w) (commit_interruption p w).
Proof.
  intros Hr Hp. pose proof (commit_op_outcome J (CInterruption p) w Hr Hp) as H.
  pose proof (commit_interruption_refines J p w) as Href.
  unfold commit_room in H. cbn [commit_entry snd commit_limit commit_op fence_room] in H. rewrite zlen_interruption_image in H.
  change (84 <=? 512) with true in H. cbn [andb] in H.
  destruct (Z.ltb_spec (journal_bytes_ w.1) (st_max_journal_bytes (config_ w.1))).
  - destruct H as (w' & E). rewrite E in *. left. split; [reflexivity |]. by apply Href.
  - rewrite H. right. split; [reflexivity |]. unfold journal_full. cbn [fst snd]. lia.
Qed.

Lemma commit_revoke_or_full J f g w :
  ready J w -> valid f -> find_fence_state (fi_id (fp_intent f)) (ds_fences (state_ w.1)) = Some g ->
  commits_or_full (refines 0 J (RecordType.FenceRevokeCommit, image f) w) (commit_fence_state RecordType.FenceRevokeCommit f w).
Proof.
  intros Hr Hf Hg.
  assert (commit_valid (CFence RecordType.FenceRevokeCommit f)) as Hv by (by split).
  pose proof (commit_op_outcome J _ w Hr Hv) as H.
  pose proof (commit_fence_refines J RecordType.FenceRevokeCommit f w) as Href.
  unfold commit_room in H. cbn [commit_entry snd commit_limit commit_op fence_room] in H.
  rewrite zlen_fence_state_image, Hg in H. change (161 <=? 1024) with true in H. cbn [andb] in H.
  destruct (Z.ltb_spec (journal_bytes_ w.1) (st_max_journal_bytes (config_ w.1))).
  - destruct H as (w' & E). rewrite E in *. left. split; [reflexivity |]. by apply Href.
  - rewrite H. right. split; [reflexivity |]. unfold journal_full. cbn [fst snd]. lia.
Qed.

#[local] Opaque commit_interruption commit_fence_state.

(** One open fence: the state is updated in place, then the two records are committed. [s1]
    is the state the records alone lead to. *)
Lemma close_fence_interruption s0 es w l p :
  journaled s0 es w -> 0 <= seq_value (ds_snapshot_seq s0) -> first_seq s0 + zlen es < 2 ^ 64 -> valid p ->
  commits_or_full
    (fun wb => exists s1,
       journaled s0 (es ++ [(RecordType.InterruptionCommit, image p)]) (updated (fun _ => s1) wb) /\
       state_ wb.1 = set_fences l s1 /\ config_ wb.1 = config_ w.1 /\ sound_view s1 = sound_view (state_ w.1) /\
       ds_policy_fingerprint s1 = ds_policy_fingerprint (state_ w.1))
    (commit_interruption p (updated (set_fences l) w)).
Proof.
  intros Hj H0 Hb Hp. set (wa := updated (set_fences l) w).
  pose proof (ready_updated _ (set_fences l) w (jn_ready _ _ _ _ Hj)) as Hra. fold wa in Hra.
  destruct (commit_interruption_or_full _ p wa Hra Hp) as [[E1 X] | [E1 X]]; [left | right; exact (conj E1 X)].
  split; [exact E1 |]. destruct (commit_interruption p wa) as [o wb]. cbn [fst snd] in E1, X |- *. subst o.
  destruct X as (X1 & X2 & X3 & X4). cbn [fst snd] in X3, X4.
  rewrite apply_interruption_record in X4 by exact Hp. injection X4 as X4.
  exists (push_lineage (config_ w.1) (interruption_entry (next_seq w.1) p) (count_interruption (state_ w.1))).
  split; [| split; [| split; [exact X1 |]]].
  - apply (refines_journaled 0 0 _ _ _ w); [exact Hj | exact H0 | unfold first_seq in Hb; lia |].
    split; [exact X1 |]. split; [exact X2 |]. split; [by apply ready_updated |].
    cbn [fst snd]. rewrite apply_interruption_record by exact Hp. reflexivity.
  - rewrite <- X4. exact (push_set_fences _ _ l (count_interruption (state_ w.1))).
  - split; [exact (push_lineage_view _ _ (count_interruption (state_ w.1))) |].
    unfold push_lineage. by destruct (_ <=? _).
Qed.

Lemma close_fence_revoke s0 es w s1 i f g :
  journaled s0 es (updated (fun _ => s1) w) -> state_ w.1 = set_fences (<[i := g]> (ds_fences s1)) s1 ->
  0 <= seq_value (ds_snapshot_seq s0) -> first_seq s0 + zlen es < 2 ^ 64 -> sound_state s1 ->
  ds_fences s1 !! i = Some f -> fp_intent g = fp_intent f -> valid g ->
  commits_or_full
    (fun wc =>
       journaled s0 (es ++ [(RecordType.FenceRevokeCommit, image g)]) wc /\ config_ wc.1 = config_ w.1 /\
       ds_fences (state_ wc.1) = <[i := g]> (ds_fences s1) /\ sound_state (state_ wc.1) /\
       ds_epoch (state_ wc.1) = ds_epoch s1 /\ ds_policy_fingerprint (state_ wc.1) = ds_policy_fingerprint s1)
    (commit_fence_state RecordType.FenceRevokeCommit g w).
Proof.
  intros Hj Hs H0 Hb Hso Hi Hg Hv. set (L := ds_fences s1) in *. pose proof (so_unique _ Hso) as Hu. fold L in Hu.
  assert (<[i := g]> L !! i = Some g) as Hig by (apply list_lookup_insert_eq; by eapply lookup_lt_Some).
  assert (find_fence_state (fi_id (fp_intent g)) (ds_fences (state_ w.1)) = Some g) as Hfb
    by (rewrite Hs; apply (find_fence_lookup (<[i := g]> L) i); [by rewrite (insert_ids L i f g) | exact Hig]).
  assert (ready (journal_image (seq_value (ds_snapshot_seq s0) + 1) es) w) as Hr by (by destruct (jn_ready _ _ _ _ Hj)).
  destruct (commit_revoke_or_full _ g g w Hr Hv Hfb) as [[E2 Y] | [E2 Y]]; [left | right; exact (conj E2 Y)].
  split; [exact E2 |]. destruct (commit_fence_state _ g w) as [o wc]. cbn [fst snd] in E2, Y |- *. subst o.
  destruct Y as (Y1 & Y2 & Y3 & Y4). cbn [fst snd] in Y3, Y4.
  assert (apply_record (config_ w.1) RecordType.FenceRevokeCommit (next_seq w.1) (image g) (s1, last_seq_ w.1) =
          (Ok, (state_ wc.1, next_seq w.1))) as Ha.
  { rewrite (apply_fence_replaced _ _ _ g g) in Y4 by done. cbn [repeats recount Nat.iter nat_rect] in Y4. injection Y4 as <-.
    rewrite (apply_fence_replaced _ _ _ g f); [| done | done | rewrite Hg; by apply (find_fence_lookup _ i)].
    unfold fence_replaced. rewrite Hs. cbn [ds_fences set_fences]. fold L.
    rewrite (replace_fence_lookup L i f g), (replace_fence_lookup (<[i := g]> L) i g g), list_insert_insert_eq;
      [reflexivity | by rewrite (insert_ids L i f g) | exact Hig | reflexivity | exact Hu | exact Hi | exact Hg]. }
  split; [| split; [exact Y1 |]].
  - apply (refines_journaled 0 0 s0 es _ (updated (fun _ => s1) w)); [exact Hj | exact H0 | unfold first_seq in Hb; lia |].
    split; [exact Y1 |]. split; [exact Y2 |]. split; [exact Y3 | exact Ha].
  - pose proof (apply_record_sound (config_ w.1) RecordType.FenceRevokeCommit (next_seq w.1) (image g) (s1, last_seq_ w.1) Hso) as Hs'.
    rewrite Ha in Hs'. cbn [fst snd] in Hs'.
    rewrite (apply_fence_replaced _ _ _ g f) in Ha; [| done | done | rewrite Hg; by apply (find_fence_lookup _ i)].
    injection Ha as Ha. pose proof (push_lineage_view (config_ w.1) (fence_entry RecordType.FenceRevokeCommit (next_seq w.1) g)
      (set_fences (replace_fence_state g (ds_fences s1)) s1)) as Hq. unfold fence_replaced in Ha. rewrite Ha in Hq.
    injection Hq as Q1 _ _ Q4. split; [by rewrite Q4; apply (replace_fence_lookup L i f g) |].
    split; [exact Hs' |]. split; [exact Q1 |]. rewrite <- Ha. unfold push_lineage. by destruct (_ <=? _).
Qed.

(** The records that close the open ones of [l]: the interruption and the revocation of each,
    in their order. *)
Definition closing_records (now : WallNs) (l : list FenceStatePayload) : list Entry :=
  flat_map (fun f =>
    if fence_open f then
      [(RecordType.InterruptionCommit, image (interruption_of now f)); (RecordType.FenceRevokeCommit, image (fenced_by_open f))]
    else []) l.

(** The world after the fences from [i] on are closed. *)
Record closed_from (now : WallNs) (i : nat) (s0 : DurableState) (es : list Entry) (w w' : World) : Prop := {
  cl_records : journaled s0 (es ++ closing_records now (drop i (ds_fences (state_ w.1)))) w';
  cl_config : config_ w'.1 = config_ w.1;
  cl_fences : ds_fences (state_ w'.1) =
    take i (ds_fences (state_ w.1)) ++ map fence_closed (drop i (ds_fences (state_ w.1)));
  cl_epoch : ds_epoch (state_ w'.1) = ds_epoch (state_ w.1);
  cl_sound : sound_state (state_ w'.1);
  cl_policy : ds_policy_fingerprint (state_ w'.1) = ds_policy_fingerprint (state_ w.1);
}.

(** The outcome of the loop and its world. *)
Definition loop_result (r : Outcome * Z * World) : Outcome * World := (r.1.1, r.2).

Lemma closed_from_end now i s0 es w :
  journaled s0 es w -> sound_state (state_ w.1) -> (length (ds_fences (state_ w.1)) <= i)%nat -> closed_from now i s0 es w w.
Proof.
  intros Hj Hs Hi. split; try reflexivity; [| | exact Hs].
  - rewrite drop_ge by lia. by rewrite app_nil_r.
  - rewrite take_ge, drop_ge by lia. by rewrite app_nil_r.
Qed.

(** A fence that is already closed is passed over. *)
Lemma closed_from_skip now i s0 es w w' f :
  ds_fences (state_ w.1) !! i = Some f -> fence_open f = false ->
  closed_from now (S i) s0 es w w' -> closed_from now i s0 es w w'.
Proof.
  intros Hi Ho [H1 H2 H3 H4 H5 H6].
  split; rewrite ?(drop_S _ f i Hi); try assumption.
  - unfold closing_records. cbn [flat_map]. by rewrite Ho.
  - rewrite H3, (take_S_r _ i f Hi), <- app_assoc. cbn [map app]. unfold fence_closed at 2. by rewrite Ho.
Qed.

(** A fence that was open is closed with its two records. *)
Lemma closed_from_step now i s0 es w w1 w' f :
  ds_fences (state_ w.1) !! i = Some f -> fence_open f = true ->
  config_ w1.1 = config_ w.1 ->
  ds_fences (state_ w1.1) = <[i := fenced_by_open f]> (ds_fences (state_ w.1)) ->
  ds_epoch (state_ w1.1) = ds_epoch (state_ w.1) ->
  ds_policy_fingerprint (state_ w1.1) = ds_policy_fingerprint (state_ w.1) ->
  closed_from now (S i) s0 (es ++ closing_records now [f]) w1 w' -> closed_from now i s0 es w w'.
Proof.
  intros Hi Ho Hc Hf Hep Hpo [H1 H2 H3 H4 H5 H6].
  pose proof (lookup_lt_Some _ _ _ Hi) as Hlt.
  assert (drop (S i) (ds_fences (state_ w1.1)) = drop (S i) (ds_fences (state_ w.1))) as Ed
    by (rewrite Hf; apply drop_insert_lt; lia).
  assert (take (S i) (ds_fences (state_ w1.1)) = take i (ds_fences (state_ w.1)) ++ [fenced_by_open f]) as Et.
  { rewrite Hf. rewrite (take_S_r _ i (fenced_by_open f)); [| by apply list_lookup_insert_eq].
    rewrite take_insert_ge by lia. reflexivity. }
  rewrite Ed in H1. rewrite Ed, Et in H3. split; rewrite ?(drop_S _ f i Hi); try congruence; try exact H5.
  - rewrite <- app_assoc in H1. unfold closing_records in *. cbn [flat_map] in *. by rewrite app_nil_r in H1.
  - rewrite H3, <- app_assoc. cbn [map app]. unfold fence_closed at 2. by rewrite Ho.
Qed.

Lemma fence_prior_closed now n i s0 es w fenced :
  journaled s0 es w -> 0 <= seq_value (ds_snapshot_seq s0) -> sound_state (state_ w.1) -> valid now ->
  (i + n)%nat = length (ds_fences (state_ w.1)) -> first_seq s0 + zlen es + 2 * Z.of_nat n < 2 ^ 64 ->
  commits_or_full (closed_from now i s0 es w) (loop_result (fence_prior now (seq i n) fenced w)).
Proof.
  revert i es w fenced. induction n as [| n IH]; intros i es w fenced Hj H0 Hso Hn Hl Hb.
  - left. split; [reflexivity |]. change (closed_from now i s0 es w w). apply closed_from_end; [exact Hj | exact Hso | lia].
  - destruct (lookup_lt_is_Some_2 (ds_fences (state_ w.1)) i) as (f & Hi); [lia |].
    cbn [seq fence_prior]. unfold mbind at 1, StoreM_bind at 1, get_store. cbn [fst snd]. rewrite Hi.
    change (open_lifecycle (fp_lifecycle f)) with (fence_open f). destruct (fence_open f) eqn:Ho; cbn [negb].
    2:{ destruct (IH (S i) es w fenced Hj H0 Hso Hn ltac:(lia) ltac:(lia)) as [[E1 X] | [E1 X]];
          [left | right; exact (conj E1 X)]. split; [exact E1 |]. by apply (closed_from_skip _ _ _ _ _ _ f). }
    set (g := fenced_by_open f) in *. set (p := interruption_of now f).
    assert (valid f) as Hf by (pose proof (so_fences _ Hso) as Hall; by apply (Forall_lookup_1 _ _ _ _ Hall Hi)).
    pose proof (interruption_valid now f Hf Hn) as Hp. fold p in Hp.
    unfold mbind, StoreM_bind, modify. cbn [fst snd].
    change (with_state (fun s => set_fences (<[i := g]> (ds_fences s)) s) w.1, w.2)
      with (updated (set_fences (<[i := g]> (ds_fences (state_ w.1)))) w).
    destruct (close_fence_interruption s0 es w (<[i := g]> (ds_fences (state_ w.1))) p Hj H0 ltac:(lia) Hp)
      as [[E1 X] | [E1 X]]; destruct (commit_interruption p _) as [o wb]; cbn [fst snd] in E1, X; subst o.
    2:{ right. exact (conj eq_refl X). }
    destruct X as (s1 & X1 & X2 & X3 & X4 & X5). change (is_affirmative Ok) with true. cbn [negb].
    injection X4 as V1 V2 V3 V4. rewrite <- V4 in X2, Hi.
    assert (sound_state s1) as Hs1 by (eapply sound_state_same; [exact Hso | unfold sound_view; congruence]).
    destruct (close_fence_revoke s0 _ wb s1 i f g X1 X2 H0) as [[E2 Y] | [E2 Y]];
      [rewrite zlen_app, zlen_cons, zlen_nil; lia | exact Hs1 | exact Hi | reflexivity | by apply fence_closed_valid | |];
      destruct (commit_fence_state _ g wb) as [o wc]; cbn [fst snd] in E2, Y; subst o.
    2:{ right. exact (conj eq_refl Y). }
    destruct Y as (Y1 & Y2 & Y3 & Y4 & Y5 & Y6). change (is_affirmative Ok) with true. cbn [negb].
    rewrite <- app_assoc in Y1. rewrite V4 in Hi, Y3. cbn [app] in Y1.
    assert (closing_records now [f] = [(RecordType.InterruptionCommit, image p); (RecordType.FenceRevokeCommit, image g)]) as Hes1
      by (unfold closing_records; cbn [flat_map]; by rewrite Ho).
    rewrite <- Hes1 in Y1.
    destruct (IH (S i) (es ++ closing_records now [f]) wc (incr fenced) Y1 H0 Y4 Hn) as [[E3 Z] | [E3 Z]];
      [rewrite Y3, length_insert; lia | rewrite zlen_app, Hes1, !zlen_cons, zlen_nil; lia | left | right; exact (conj E3 Z)].
    split; [exact E3 |]. by apply (closed_from_step now i s0 es w wc _ f); try congruence.
Qed.

(** ** Opening *)

(** What an open as [n1], [n2] leaves behind: the recovered records, those of the boot and those
    that close the fences that were open, and a state whose fences are the recovered ones,
    closed. *)
Record reopened (c : StoreConfig) (p : FencePolicy) (n1 n2 : Z) (now : WallNs) (label : Provenance.t)
  (s0 : DurableState) (es : list Entry) (s1 : DurableState) (w : World) : Prop := {
  ro_records : journaled s0
    (es ++ boot_records (MkId n1) (MkId n2) now label p s1 ++ closing_records now (ds_fences s1)) w;
  ro_config : config_ w.1 = c;
  ro_fences : ds_fences (state_ w.1) = map fence_closed (ds_fences s1);
  ro_closed : Forall (fun f => fence_open f = false) (ds_fences (state_ w.1));
  ro_epoch : gen_value (ds_epoch (state_ w.1)) = gen_value (ds_epoch s1) + 1;
  ro_policy : ds_policy_fingerprint (state_ w.1) = policy_fingerprint p;
}.

Lemma fences_closed l : Forall (fun f => fence_open f = false) (map fence_closed l).
Proof.
  apply Forall_fmap, Forall_true. intros f. cbn. unfold fence_closed. by destruct (fence_open f) eqn:E.
Qed.

Lemma booted_fenced c p n1 n2 now label s0 es s1 w w' :
  let bs := boot_records (MkId n1) (MkId n2) now label p s1 in
  sound_state s1 -> gen_value (ds_epoch s1) + 1 < 2 ^ 64 -> booted c p s0 es bs s1 w ->
  closed_from now 0 s0 (es ++ bs) w w' -> reopened c p n1 n2 now label s0 es s1 w'.
Proof.
  intros bs Hs He [_ B2 B3 B4] [C1 C2 C3 C4 _ C6]. injection B3 as V1 V2 V3 V4.
  assert (ds_fences (state_ w'.1) = map fence_closed (ds_fences s1)) as Hf by (rewrite C3, V4; reflexivity).
  split; [| congruence | exact Hf | rewrite Hf; apply fences_closed | | congruence].
  - rewrite drop_0, V4, <- app_assoc in C1. exact C1.
  - rewrite C4, V1. cbn. unfold incr, u64_add. apply wrap_small.
    destruct Hs as [Hx _ _ _ _]. unfold valid in Hx. cbn in Hx. unfold in_u in *. lia.
Qed.

Lemma reopened_report c p n1 n2 now label s0 es s1 f w :
  reopened c p n1 n2 now label s0 es s1 w -> reopened c p n1 n2 now label s0 es s1 (with_report f w.1, w.2).
Proof.
  intros [[[H1 H2 H3 H4] H5 H6] R2 R3 R4 R5 R6].
  split; [| exact R2 | exact R3 | exact R4 | exact R5 | exact R6].
  split; [split; [exact H1 | exact H2 | exact H3 | exact H4] | exact H5 | exact H6].
Qed.

#[local] Opaque load_snapshot replay_journal advance_incarnation commit_boot fence_prior.

Lemma store_open_recovers c p s0 es P d n1 n2 now label :
  crashed c s0 es P -> sound_state s0 -> base_file c s0 (snapshot_file d) -> faults d = [] ->
  default [] (journal_file d) = P -> valid p -> valid now -> in_u64 n1 -> in_u64 n2 -> n1 <> 0 -> n2 <> 0 ->
  exists k s1 q1, whole_records c s0 es P k s1 q1 /\
    (gen_value (ds_epoch s1) + 1 < 2 ^ 64 -> first_seq s0 + zlen es + 2 + 2 * zlen (ds_fences s1) < 2 ^ 64 ->
     commits_or_full (reopened c p n1 n2 now label s0 (take k es) s1) (store_open n1 n2 now label (new_Store c p, d))).
Proof.
  intros Hcr Hs0 Hbase Hf Hd Hp Hn Hn1 Hn2 H1 H2.
  unfold store_open, mbind, StoreM_bind, modify, get_store, on_disk, fault. cbn [fst snd with_report new_Store opened_]. rewrite Hf.
  cbn [fst snd]. unfold clean_staging, fault. rewrite Hf. cbn [fst snd].
  set (t0 := with_report (fun _ => new_OpenReport) (new_Store c p)). set (d0 := set_staging None d).
  destruct (load_snapshot_base c p new_JournalWriter s0 t0 d0) as (t1 & L1 & L2); [done | exact Hf | exact Hbase |].
  destruct (replay_journal_crashed c p new_JournalWriter s0 es P t1 d0 Hcr L2) as (k & s1 & q1 & t2 & d2 & R1 & R2 & R3 & R4 & R5 & R6 & R7);
    [exact Hf | exact Hd |].
  exists k, s1, q1. split; [exact R1 |]. intros He Hw.
  destruct (advance_incarnation_ok c p new_JournalWriter s1 q1 t2 d2 n1 n2 R3 H1 H2) as (t3 & A1 & A2 & A3 & A4 & A5).
  pose proof (cr_seq _ _ _ _ Hcr) as H0.
  assert (sound_state s1) as Hs1.
  { destruct R1 as (_ & Hr & _). pose proof (replay_sound c (take k es) (s0, ds_snapshot_seq s0) (ds_snapshot_seq s0) (first_seq s0) Hs0) as Hx.
    unfold replay_from in Hr. rewrite Hr in Hx. exact Hx. }
  assert (zlen (take k es) <= zlen es) as Hk by (unfold zlen; rewrite length_take; lia).
  pose proof (zlen_nonneg (ds_fences s1)) as Hz.
  destruct (commit_boot_booted c p s0 (take k es) s1 q1 t3 d2 now label) as [[E B] | [E B]]; try assumption;
    [apply R1 | lia | by rewrite A3 | by rewrite A4 | by rewrite A5 | |].
  all: rewrite L1; change (is_affirmative Ok) with true; cbn beta match; rewrite R2; change (is_affirmative Ok) with true;
    cbn beta match; rewrite A1; change (is_affirmative Ok) with true; cbn beta match;
    destruct (commit_boot now label (t3, d2)) as [o w4]; cbn [fst snd] in E, B; subst o.
  2:{ right. exact (conj eq_refl B). }
  change (is_affirmative Ok) with true. cbn beta match. rewrite A3, A4 in B. set (fs := boot_records (MkId n1) (MkId n2) now label p s1) in *.
  pose proof (boot_records_length (MkId n1) (MkId n2) now label p s1) as B1. fold fs in B1.
  pose proof B as [Bj _ B3 _].
  pose proof (sound_state_same _ _ (advanced_sound _ Hs1) B3) as Hs4. injection B3 as V1 V2 V3 V4.
  change (ds_fences (advanced s1)) with (ds_fences s1) in V4.
  pose proof (fence_prior_closed now (length (ds_fences (state_ w4.1))) 0 s0 (take k es ++ fs) w4 0 Bj H0 Hs4 Hn eq_refl) as HF.
  destruct HF as [[E2 F] | [E2 F]]; [rewrite V4, zlen_app; unfold zlen in *; lia | |];
    destruct (fence_prior now _ 0 w4) as [[o fenced] w5]; unfold loop_result in E2, F; cbn [fst snd] in E2, F; subst o.
  - left. split; [reflexivity |]. apply reopened_report. by apply (booted_fenced c p n1 n2 now label s0 (take k es) s1 w4 w5).
  - right. exact (conj eq_refl F).
Qed.

(** ** Checkpoints *)

Lemma write_snapshot_ok seq payload d :
  faults d = [] -> zlen payload < 2 ^ 63 ->
  write_snapshot_atomic seq payload d = (Ok, set_staging None (set_snapshot (Some (snapshot_image seq payload)) d)).
Proof.
  intros Hf Hp. unfold write_snapshot_atomic. rewrite snapshot_bytes_image by done.
  generalize (snapshot_image seq payload). intros img. destruct d as [a b e fs]. cbn in Hf. subst fs.
  unfold stage_bytes, fault, set_staging, set_snapshot. cbn [faults journal_file snapshot_file staging_file].
  by rewrite take_ge.
Qed.

(** The journal emptied by a checkpoint. *)
Lemma truncate_ready J t d :
  ready J (t, d) ->
  exists j1 j2 d1 d2, on_journal journal_close (t, d) = (Ok, (with_journal j1 t, d1)) /\
    on_journal (open_append true) (with_journal j1 t, d1) = (Ok, (with_journal j2 t, d2)) /\
    stream j2 = Some [] /\ journal_file d2 = Some [] /\ faults d2 = [] /\ snapshot_file d2 = snapshot_file d.
Proof.
  intros [_ Hs Hf Hj]. cbn [fst snd] in *. destruct t as [a b j st r bo i q o y], d as [f1 f2 f3 fs]. cbn in Hs, Hf, Hj. subst fs f1.
  unfold on_journal, journal_close. cbn [fst snd journal_]. rewrite Hs.
  do 4 eexists. split; [reflexivity |]. split; [reflexivity |]. by split_and!.
Qed.

(** The state a checkpoint folds the journal into. *)
Definition folded (t : Store) : DurableState := set_snapshot_seq (last_seq_ t) (state_ t).

Lemma apply_checkpoint_record c q p s q0 :
  valid p -> seq_value (cp_snapshot_seq p) <= seq_value q ->
  apply_record c RecordType.Checkpoint q (image p) (s, q0) = (Ok, (s, q)).
Proof.
  intros Hp Hq. unfold apply_record. cbn [fst snd]. rewrite with_payload_image by exact Hp.
  destruct (Z.ltb_spec (seq_value q) (seq_value (cp_snapshot_seq p))); [lia | reflexivity].
Qed.

Lemma zlen_checkpoint_image (p : CheckpointPayload) : zlen (image p) = 24.
Proof.
  change (image p) with (image_CheckpointPayload p). unfold image_CheckpointPayload. rewrite zlen_concat. cbn [foldr].
  rewrite zlen_gen_image, !zlen_le_bytes. reflexivity.
Qed.

#[local] Opaque write_snapshot_atomic journal_close open_append.

(** A checkpoint on a disk without faults. *)
Lemma checkpoint_run J w :
  ready J w -> valid (folded w.1) -> 0 <= max_snapshot_payload (config_ w.1) < 2 ^ 63 ->
  seq_value (last_seq_ w.1) + 1 < 2 ^ 64 -> zlen (image (folded w.1)) <= max_snapshot_payload (config_ w.1) ->
  0 < st_max_journal_bytes (config_ w.1) ->
  (checkpoint w).1 = Ok /\ journaled (folded w.1) [(RecordType.Checkpoint,
      image (MkCheckpoint (last_seq_ w.1) (ds_epoch (state_ w.1)) 0))] (checkpoint w).2 /\
  config_ (checkpoint w).2.1 = config_ w.1 /\ state_ (checkpoint w).2.1 = state_ w.1 /\
  snapshot_file (checkpoint w).2.2 = Some (snapshot_image (last_seq_ w.1) (image (folded w.1))).
Proof.
  intros Hr Hv Hm Hq Hz Hb. destruct w as [t d]. cbn [fst snd] in *. pose proof Hr as [Ho Hs Hf Hj]. cbn [fst snd] in *.
  unfold checkpoint, mbind, StoreM_bind, get_store, on_disk, modify. cbn [fst snd]. rewrite Ho. cbn [negb].
  fold (folded t). rewrite encode_bounded_spec by (done || lia).
  destruct (Z.leb_spec (zlen (image (folded t))) (max_snapshot_payload (config_ t))); [| lia].
  change (ds_snapshot_seq (folded t)) with (last_seq_ t).
  cbn [fst snd]. rewrite write_snapshot_ok by (done || lia). change (is_affirmative Ok) with true. cbn beta match.
  set (d1 := set_staging None (set_snapshot _ d)).
  assert (ready J (t, d1)) as Hr1 by (split; [exact Ho | exact Hs | exact Hf | exact Hj]).
  destruct (truncate_ready J t d1 Hr1) as (j1 & j2 & d2 & d3 & E1 & E2 & E3 & E4 & E5 & E6).
  rewrite E1. change (is_affirmative Ok) with true. cbn beta match. rewrite E2. change (is_affirmative Ok) with true.
  cbn beta match. cbn [fst snd]. set (p := MkCheckpoint (last_seq_ t) (ds_epoch (state_ t)) 0).
  set (t2 := with_position (last_seq_ t) 0 (with_journal j2 t)).
  assert (ready [] (t2, d3)) as Hr2 by (split; [exact Ho | exact E3 | exact E5 | exact E4]).
  assert (in_u64 (seq_value (last_seq_ t)) /\ valid (ds_epoch (state_ t))) as [Hl He] by (by destruct Hv as (_ & H1 & H2 & _)).
  assert (valid p) as Hp by (split; [exact Hl |]; split; [exact He | by unfold in_u]).
  assert (0 <= 128 < 2 ^ 63) as H128 by lia.
  rewrite (commit_value_outcome [] 128 RecordType.Checkpoint p (t2, d3) Hr2 Hp H128), zlen_checkpoint_image.
  change (24 <=? 128) with true. cbn [andb fst]. change (journal_bytes_ t2) with 0. change (config_ t2) with (config_ t).
  destruct (Z.ltb_spec 0 (st_max_journal_bytes (config_ t))); [| lia]. cbn [fst snd].
  split; [reflexivity |]. split; [| split; [reflexivity | split; [reflexivity | exact E6]]].
  apply (refines_journaled 0 0 (folded t) [] _ (t2, d3)).
  - split; [exact Hr2 | | by split]. cbn. rewrite Z.add_0_r. by destruct (last_seq_ t).
  - change (0 <= seq_value (last_seq_ t)). unfold in_u in Hl. lia.
  - rewrite zlen_nil. change (seq_value (last_seq_ t) + 0 + 1 < 2 ^ 64). lia.
  - split; [reflexivity |]. split; [reflexivity |]. split; [apply (ready_appended [] _ _ (t2, d3)); exact Hr2 |].
    cbn [fst snd]. rewrite apply_checkpoint_record; [reflexivity | exact Hp |].
    unfold next_seq. cbn. unfold in_u in Hl. rewrite wrap_small by (unfold in_u; lia). lia.
Qed.

(** ** Fixtures *)

Definition fx_records : list Entry := map commit_entry fx_commits.
Definition fx_cut : list byte := take 500 (journal_image 1 fx_records).

Lemma fx_crashed : crashed default_config new_DurableState fx_records fx_cut.
Proof.
  split; try (vm_compute; discriminate); try (vm_compute; reflexivity).
  - split; [discriminate | reflexivity].
  - unfold entries_ok, fx_records. repeat constructor; vm_compute; discriminate.
  - exists (drop 500 (journal_image 1 fx_records)). exact (take_drop 500 (journal_image 1 fx_records)).
Qed.

Lemma new_state_sound : sound_state new_DurableState.
Proof. split; try (split; [discriminate | reflexivity]); constructor. Qed.

Lemma default_policy_valid : valid default_policy.
Proof.
  change (valid_FencePolicy default_policy). unfold valid_FencePolicy. split_and!; by widths.
Qed.

Definition fresh_store (d : Disk) : World := (new_Store default_config default_policy, d).
Definition first_open : World := (store_open 11 12 fx_now Provenance.Synthetic (fresh_store (MkDisk None None None []))).2.
Definition reopen (w : World) : Outcome * World := store_open 13 14 fx_now Provenance.Synthetic w.

(** ** Claims *)

(** C1: opening recovers from a crash at any byte. On a directory whose snapshot is that of
    a base state and whose journal is any prefix of the bytes of an accepted journal, the
    open replays exactly the whole records that are there and leaves a journal that holds
    them, then the boot record of the new incarnation, then the policy if the recovered one
    was another, then for every fence that was open, in order, its interruption and its
    revocation, and nothing else; that journal replays to the live state, in which the epoch
    is advanced by one and no fence is open. The only other outcome is [Exhausted], with the
    journal at its configured bound. The disk does not fail, the identities drawn are not
    nil, and the epoch and the sequence numbers do not run out. *)
Theorem open_recovers c p s0 es P d n1 n2 now label :
  crashed c s0 es P -> sound_state s0 -> base_file c s0 (snapshot_file d) -> faults d = [] ->
  default [] (journal_file d) = P -> valid p -> valid now -> in_u64 n1 -> in_u64 n2 -> n1 <> 0 -> n2 <> 0 ->
  exists k s1 q1, whole_records c s0 es P k s1 q1 /\
    (gen_value (ds_epoch s1) + 1 < 2 ^ 64 -> first_seq s0 + zlen es + 2 + 2 * zlen (ds_fences s1) < 2 ^ 64 ->
     let '(o, w') := store_open n1 n2 now label (new_Store c p, d) in
     (o = Ok /\ reopened c p n1 n2 now label s0 (take k es) s1 w') \/ (o = Exhausted /\ journal_full w'.1)).
Proof.
  intros H1 H2 H3 H4 H5 H6 H7 H8 H9 H10 H11.
  destruct (store_open_recovers c p s0 es P d n1 n2 now label H1 H2 H3 H4 H5 H6 H7 H8 H9 H10 H11) as (k & s1 & q1 & Hk & H).
  exists k, s1, q1. split; [exact Hk |]. intros He Hw. specialize (H He Hw).
  destruct (store_open n1 n2 now label (new_Store c p, d)) as [o w']. exact H.
Qed.

Example open_recovers_witness :
  let r := store_open 11 12 fx_now Provenance.Synthetic (fresh_store (fx_disk fx_cut)) in
  r.1 = Ok /\ exists k s1, reopened default_config default_policy 11 12 fx_now Provenance.Synthetic new_DurableState (take k fx_records) s1 r.2.
Proof.
  cbn zeta.
  destruct (open_recovers default_config default_policy new_DurableState fx_records fx_cut (fx_disk fx_cut) 11 12 fx_now
    Provenance.Synthetic fx_crashed new_state_sound) as (k & s1 & q1 & Hk & H);
    [reflexivity | reflexivity | reflexivity | exact default_policy_valid | split; [discriminate | reflexivity]
    | split; [discriminate | reflexivity] | split; [discriminate | reflexivity] | discriminate | discriminate |].
  assert ((store_open 11 12 fx_now Provenance.Synthetic (fresh_store (fx_disk fx_cut))).1 = Ok) as Hok
    by (vm_compute; reflexivity).
  split; [exact Hok |].
  destruct Hk as (Hk & Hr & _ & _).
  assert (k = 0 \/ k = 1 \/ k = 2 \/ k = 3)%nat as Hcases by (change (length fx_records) with 3%nat in Hk; lia).
  assert (gen_value (ds_epoch s1) + 1 < 2 ^ 64 /\ first_seq new_DurableState + zlen fx_records + 2 + 2 * zlen (ds_fences s1) < 2 ^ 64) as [G1 G2].
  { destruct Hcases as [-> | [-> | [-> | ->]]]; vm_compute in Hr; injection Hr as <- _; split; vm_compute; reflexivity. }
  specialize (H G1 G2). unfold fresh_store in *.
  destruct (store_open 11 12 fx_now Provenance.Synthetic (new_Store default_config default_policy, fx_disk fx_cut)) as [o w'].
  cbn [fst snd] in *. destruct H as [[_ H] | [E _]]; [exists k, s1; exact H | congruence].
Defined.


Lemma fx_folded_valid : valid (folded fx_store).
Proof.
  change (valid_DurableState new_DurableState). unfold valid_DurableState. split_and!.
  1-14: first [reflexivity | split; [discriminate | reflexivity]].
  all: split; [discriminate | constructor].
Qed.


(** The world after a decision is committed by the first incarnation. *)
Definition decided : World := (commit_decision fx_decision first_open).2.

(** A crash between the two halves of a checkpoint loses the store: when the new
    snapshot is in place and the journal is not yet emptied, every later open refuses the
    directory as corrupt, because the scan expects the first record behind the snapshot and
    finds the records the snapshot already holds, which the visitor was meant to skip. *)
Theorem checkpoint_crash_unopenable :
  let w := decided in
  (commit_decision fx_decision first_open).1 = Ok /\ (checkpoint w).1 = Ok /\
  let d := MkDisk (journal_file w.2) (snapshot_file (checkpoint w).2.2) None [] in
  let '(o, w') := reopen (fresh_store d) in
  o = Corrupt /\ or_detail (report_ w'.1) = "journal rejected: record sequence regression or gap".
Proof. vm_compute. split_and!; reflexivity. Qed.

(** A commit refused by a failed sync poisons the journal: the record is already in the
    file, the next commit reuses its sequence number and succeeds, and no later open
    accepts the directory. *)
Theorem failed_sync_poisons_journal :
  let r1 := commit_decision fx_decision (first_open.1, MkDisk (journal_file first_open.2) None None [None; Some 10000%nat]) in
  let r2 := commit_decision fx_decision r1.2 in
  r1.1 = Rejected /\ r2.1 = Ok /\
  let '(o, w') := reopen (fresh_store r2.2.2) in
  o = Corrupt /\ or_detail (report_ w'.1) = "journal rejected: record sequence regression or gap".
Proof. vm_compute. split_and!; reflexivity. Qed.

(** A commit does not respect the bounds of the scan: it tests the length of the journal
    before the record and never counts records. A store whose journal may hold 400 bytes, or
    two records, or payloads of 100 bytes reports [Ok] for a decision, and the next open
    refuses the directory. *)
Theorem committed_journal_unopenable :
  let run c :=
    let w1 := store_open 11 12 fx_now Provenance.Synthetic (new_Store c default_policy, MkDisk None None None []) in
    let r := commit_decision fx_decision w1.2 in
    let '(o, w') := store_open 13 14 fx_now Provenance.Synthetic (new_Store c default_policy, r.2.2) in
    (w1.1, r.1, o, or_detail (report_ w'.1)) in
  run (MkStoreConfig (2 ^ 16) 400 65536 (4 * 2 ^ 20) 4096 1024)
    = (Ok, Ok, Oversized, "journal rejected: journal unreadable or oversized") /\
  run (MkStoreConfig (2 ^ 16) (2 ^ 20) 2 (4 * 2 ^ 20) 4096 1024)
    = (Ok, Ok, Exhausted, "journal rejected: journal record bound exceeded") /\
  run (MkStoreConfig 100 (2 ^ 20) 65536 (4 * 2 ^ 20) 4096 1024)
    = (Ok, Ok, Oversized, "journal rejected: record header rejected").
Proof. vm_compute. split_and!; reflexivity. Qed.

(** A zero tail is accepted once and then fatal: the open that observes it does not
    reclaim it and appends its boot record behind the zeros, so the next open refuses the
    directory. *)
Theorem zero_tail_becomes_corrupt :
  let d := MkDisk (Some (default [] (journal_file decided.2) ++ replicate 8 x00)) None None [] in
  let '(o1, w1) := reopen (fresh_store d) in
  o1 = Ok /\ or_zero_tail_observed (report_ w1.1) = true /\
  let '(o2, w2) := reopen (fresh_store w1.2) in
  o2 = Corrupt /\ or_detail (report_ w2.1) = "journal rejected: bad record magic".
Proof. vm_compute. split_and!; reflexivity. Qed.

(** A store object cannot be opened again after it was closed: the state of the previous
    incarnation is still there when the journal is replayed over it, and the replayed boot
    record is refused as an epoch regression. A fresh object opens the same directory. *)
Theorem closed_store_cannot_reopen :
  let w := (store_close decided).2 in
  (store_close decided).1 = Ok /\ (reopen (fresh_store w.2)).1 = Ok /\
  let '(o, w') := reopen w in
  o = Corrupt /\ or_detail (report_ w'.1) = "journal rejected: record payload rejected during replay".
Proof. vm_compute. split_and!; reflexivity. Qed.
