(* ===== verification/Net.v ===== *)
(** * Sockets

    The byte-moving part of [src/service/net.cpp]: the loop that sends a whole buffer and the
    receive of at most a buffer. The operating system is the interface [SocketApi]: [send]
    and [recv] on a socket state, and the text of the last error; [SocketLaws] is what their
    documentation promises. *)
From Stdlib Require Import Strings.String.
From S2P Require Import Prelude Core Checked Codec.
Local Open Scope string_scope.
Local Open Scope list_scope.
Local Open Scope Z_scope.

(** [os_send bytes p]: how many bytes [send] took, or a number not above zero;
    [os_recv n p]: what [recv] put into a buffer of [n] bytes, or [None] for a negative
    result. Both block: a result of [None] means that the call made in this state does not
    return. *)
Class SocketApi (P : Type) := {
  os_send : list byte -> P -> option (Z * P);
  os_recv : Z -> P -> option (option (list byte) * P);
  os_error : P -> list byte;
}.

(** [accepted p] is what the socket has taken to send so far: a [send] that returns takes a
    prefix of its buffer; a [recv] that returns fills at most its buffer and takes nothing. *)
Class SocketLaws (P : Type) `{SocketApi P} (accepted : P -> list byte) := {
  os_send_prefix : forall bytes p n p', os_send bytes p = Some (n, p') ->
    n <= zlen bytes /\ accepted p' = accepted p ++ take (Z.to_nat n) bytes;
  os_recv_bound : forall n p bytes p', 0 <= n -> os_recv n p = Some (Some bytes, p') -> zlen bytes <= n;
  os_recv_accepted : forall n p r p', os_recv n p = Some (r, p') -> accepted p' = accepted p;
}.

(** The largest piece given to one call. src/service/net.cpp:145 net_send_all (chunk) *)
Definition kIoChunk : Z := 2 ^ 20.

Section Net.
Context {P : Type} `{SocketApi P}.

(** One pass of the loop: what is left to send, or a failure.
    src/service/net.cpp:144-155 net_send_all (pass) *)
Definition send_some (data : list byte) (p : P) : option (option (list byte) * P) :=
  let chunk := if kIoChunk <? zlen data then kIoChunk else zlen data in
  match os_send (take (Z.to_nat chunk) data) p with
  | None => None
  | Some (n, p) => Some (if n <=? 0 then None else Some (drop (Z.to_nat n) data), p)
  end.

(** src/service/net.cpp:142-156 net_send_all (loop) *)
Fixpoint send_loop (fuel : nat) (data : list byte) (p : P) : option (Outcome * list byte * P) :=
  match fuel with
  | O => Some (Ok, [], p)
  | S fuel =>
      if zlen data =? 0 then Some (Ok, [], p)
      else
        match send_some data p with
        | None => None
        | Some (None, p) => Some (Rejected, list_byte_of_string "send failed: " ++ os_error p, p)
        | Some (Some rest, p) => send_loop fuel rest p
        end
  end.

(** The outcome, the detail and the socket, if every call returns. Every pass sends at least a
    byte, so as many passes as bytes are enough. src/service/net.cpp:141-158 net_send_all *)
Definition net_send_all (data : list byte) (p : P) : option (Outcome * list byte * P) := send_loop (length data) data p.

(** The outcome, the bytes, the detail and the socket, if the call returns.
    src/service/net.cpp:160-179 net_recv_some *)
Definition net_recv_some (size : Z) (p : P) : option (Outcome * list byte * list byte * P) :=
  if size =? 0 then Some (Invalid, [], list_byte_of_string "empty receive buffer", p)
  else
    let chunk := if kIoChunk <? size then kIoChunk else size in
    match os_recv chunk p with
    | None => None
    | Some (None, p) => Some (Rejected, [], list_byte_of_string "recv failed: " ++ os_error p, p)
    | Some (Some bytes, p) => Some (Ok, bytes, [], p)
    end.

(** ** What is sent *)

Lemma send_some_shorter data p rest p' :
  send_some data p = Some (Some rest, p') -> 0 < zlen data -> zlen rest < zlen data.
Proof.
  unfold send_some. destruct (os_send _ p) as [[n p1] |]; [| done]. destruct (Z.leb_spec n 0); [done |].
  intros [= <- _] Hd. unfold zlen in *. rewrite length_drop. lia.
Qed.

Lemma send_some_drop data p rest p' : send_some data p = Some (Some rest, p') -> exists n, rest = drop n data.
Proof.
  unfold send_some. destruct (os_send _ p) as [[n p1] |]; [| done]. destruct (n <=? 0); [done |]. intros [= <- _]. by eexists.
Qed.

Section Laws.
Context (accepted : P -> list byte) `{!SocketLaws P accepted}.

Lemma send_some_spec data p r p' :
  send_some data p = Some (r, p') ->
  match r with
  | Some rest => exists k, rest = drop k data /\ accepted p' = accepted p ++ take k data /\ (k <= length data)%nat
  | None => accepted p' = accepted p
  end.
Proof.
  unfold send_some. set (chunk := if kIoChunk <? zlen data then kIoChunk else zlen data).
  assert (0 <= chunk <= zlen data) as Hc.
  { pose proof (zlen_nonneg data). unfold chunk. destruct (Z.ltb_spec kIoChunk (zlen data)); unfold kIoChunk in *; lia. }
  pose proof (os_send_prefix (take (Z.to_nat chunk) data) p) as Hs.
  destruct (os_send _ p) as [[n p1] |]; [| done]. destruct (Hs n p1 eq_refl) as [Hn Ha].
  assert (zlen (take (Z.to_nat chunk) data) = chunk) as Ht by (unfold zlen in *; rewrite length_take; lia).
  rewrite Ht in Hn. rewrite take_take in Ha. destruct (Z.leb_spec n 0) as [Hz | Hz]; intros [= <- <-].
  - replace (Z.to_nat n) with 0%nat in Ha by lia. cbn in Ha. by rewrite app_nil_r in Ha.
  - exists (Z.to_nat n). replace (Z.to_nat n `min` Z.to_nat chunk)%nat with (Z.to_nat n) in Ha by lia.
    split_and!; [done | done | unfold zlen in *; lia].
Qed.

Lemma send_loop_spec fuel : forall data p, (length data <= fuel)%nat ->
  match send_loop fuel data p with
  | Some (Ok, _, p') => accepted p' = accepted p ++ data
  | Some (o, _, p') => o = Rejected /\ exists k, accepted p' = accepted p ++ take k data /\ (k < length data)%nat
  | None => exists k p', accepted p' = accepted p ++ take k data /\ (k < length data)%nat /\ send_some (drop k data) p' = None
  end.
Proof.
  induction fuel as [| fuel IH]; intros data p Hf; cbn [send_loop].
  { destruct data; [| cbn in Hf; lia]. by rewrite app_nil_r. }
  destruct (Z.eqb_spec (zlen data) 0) as [E | E].
  { assert (data = []) as -> by (destruct data; [done | by rewrite zlen_cons in E; pose proof (zlen_nonneg data); lia]).
    by rewrite app_nil_r. }
  assert (0 < length data)%nat as Hd by (unfold zlen in E; lia).
  destruct (send_some data p) as [[[rest |] p1] |] eqn:Es.
  - pose proof (send_some_shorter _ _ _ _ Es ltac:(unfold zlen; lia)) as Hl.
    destruct (send_some_spec _ _ _ _ Es) as (k & -> & Ha & Hk).
    specialize (IH (drop k data) p1 ltac:(unfold zlen in Hl; lia)). rewrite length_drop in IH.
    destruct (send_loop fuel _ p1) as [[[o det] p2] |].
    + destruct o; try (destruct IH as (? & j & Hj & Hlt); split; [done |]; exists (k + j)%nat;
        rewrite Hj, Ha, <- app_assoc; split; [f_equal; apply take_take_drop | lia]).
      by rewrite IH, Ha, <- app_assoc, take_drop.
    + destruct IH as (j & p' & Hj & Hlt & Hw). exists (k + j)%nat, p'. rewrite Hj, Ha, <- app_assoc.
      split; [f_equal; apply take_take_drop |]. split; [lia |]. by rewrite <- drop_drop.
  - pose proof (send_some_spec _ _ _ _ Es) as Ha. cbn in Ha. split; [done |]. exists 0%nat. by rewrite Ha, app_nil_r.
  - exists 0%nat, p. by rewrite app_nil_r.
Qed.
End Laws.
End Net.

(** [net_send_all] answers [Ok] exactly when the socket has taken the whole buffer, in order;
    otherwise it has taken a proper prefix of it, and it does not return only if the call for
    the rest does not. *)
Lemma net_send_all_spec {P} `{SocketApi P} (accepted : P -> list byte) `{!SocketLaws P accepted} data p :
  match net_send_all data p with
  | Some (Ok, _, p') => accepted p' = accepted p ++ data
  | Some (o, _, p') => o = Rejected /\ exists k, accepted p' = accepted p ++ take k data /\ (k < length data)%nat
  | None => exists k p', accepted p' = accepted p ++ take k data /\ (k < length data)%nat /\ send_some (drop k data) p' = None
  end.
Proof. by apply (send_loop_spec accepted). Qed.

Lemma net_recv_some_bound {P} `{SocketApi P} (accepted : P -> list byte) `{!SocketLaws P accepted} size p o bytes detail p' :
  0 < size -> net_recv_some size p = Some (o, bytes, detail, p') -> zlen bytes <= size.
Proof.
  intros Hs. unfold net_recv_some. destruct (Z.eqb_spec size 0); [lia |].
  pose proof (os_recv_bound (if kIoChunk <? size then kIoChunk else size) p) as Hb.
  destruct (os_recv _ p) as [[[bs |] p1] |]; [| intros [= _ <- _ _]; rewrite zlen_nil; lia | done].
  intros [= _ <- _ _]. destruct (Z.ltb_spec kIoChunk size); specialize (Hb bs p1 ltac:(unfold kIoChunk in *; lia) eq_refl); lia.
Qed.
