(* ===== verification/Sockets.v ===== *)
(** * Socket handles

    The rest of [include/blackhole/service/net.hpp] and [src/service/net.cpp]: listening,
    connecting and accepting on the loopback, waiting for bytes, shutting down and closing. A
    handle is a number, [-1] the invalid one. The calls of the operating system are the
    interface [SocketOs] on a world [W]; [SocketOsLaws] is what their documentation promises
    of the handles the process holds, of the listeners and of the connections that wait. *)
From Stdlib Require Import Strings.String.
From stdpp Require Import gmap.
From S2P Require Import Prelude Core Checked Codec Ids Net.
Local Open Scope string_scope.
Local Open Scope list_scope.
Local Open Scope Z_scope.

(** include/blackhole/service/net.hpp:22-23 kInvalidSocketHandle *)
Definition kInvalidSocketHandle : Z := -1.

(** The socket calls of the operating system, on the loopback address. [sys_startup]: the
    socket runtime is there. A number is a return code, zero for success; [sys_socket] and
    [sys_accept] return a handle, [sys_getsockname] a port, [sys_select] its code and whether
    the handle is in the set it leaves. [sys_waits s w]: a call of [accept] on [s] does not
    return yet. [sys_send] and [sys_recv] block too: [None] means that the call does not return
    as things are. *)
Class SocketOs (W : Type) := {
  sys_startup : bool;
  sys_socket : W -> Z * W;
  sys_reuse_address : Z -> W -> W;
  sys_bind : Z -> Z -> W -> Z * W;
  sys_listen : Z -> Z -> W -> Z * W;
  sys_connect : Z -> Z -> W -> Z * W;
  sys_accept : Z -> W -> Z * W;
  sys_waits : Z -> W -> bool;
  sys_getsockname : Z -> W -> option Z * W;
  sys_select : Z -> Z -> Z -> W -> Z * bool * W;
  sys_send : Z -> list byte -> W -> option (Z * W);
  sys_recv : Z -> Z -> W -> option (option (list byte) * W);
  sys_shutdown : Z -> W -> W;
  sys_close : Z -> W -> W;
  sys_errno : W -> Z;
}.

(** ** What the calls promise *)

(** The handles the process has open, the port of each listener, the listeners with a
    connection waiting, and the handles that were shut down. *)
Record OsView := MkOsView { os_open : gset Z; os_ports : gmap Z Z; os_pending : gset Z; os_shut : gset Z }.

(** Nothing changes but that more connections may wait and more handles be shut down. *)
Definition view_grows (v v' : OsView) : Prop :=
  os_open v' = os_open v /\ os_ports v' = os_ports v /\ os_pending v ⊆ os_pending v' /\ os_shut v ⊆ os_shut v'.

(** A call that returns a handle: a fresh one, open from now on; those that were open stay shut
    down if they were. *)
Definition new_handle (h : Z) (v v' : OsView) : Prop :=
  os_ports v' = os_ports v /\ (forall s, s ∈ os_open v -> s ∈ os_shut v -> s ∈ os_shut v') /\
  ((h = -1 /\ os_open v' = os_open v) \/ (0 <= h /\ (h ∉ os_open v) /\ os_open v' = {[h]} ∪ os_open v)).

Class SocketOsLaws (W : Type) `{SocketOs W} (view : W -> OsView) := {
  law_socket : forall w, new_handle (sys_socket w).1 (view w) (view (sys_socket w).2) /\
    os_pending (view w) ⊆ os_pending (view (sys_socket w).2);
  law_reuse : forall s w, view_grows (view w) (view (sys_reuse_address s w));
  law_bind : forall s p w, view_grows (view w) (view (sys_bind s p w).2);
  law_listen : forall s n w,
    os_open (view (sys_listen s n w).2) = os_open (view w) /\
    os_pending (view w) ⊆ os_pending (view (sys_listen s n w).2) /\
    os_shut (view w) ⊆ os_shut (view (sys_listen s n w).2) /\
    (forall l, l <> s -> os_ports (view (sys_listen s n w).2) !! l = os_ports (view w) !! l) /\
    ((sys_listen s n w).1 = 0 -> is_Some (os_ports (view (sys_listen s n w).2) !! s));
  law_connect : forall s p w, view_grows (view w) (view (sys_connect s p w).2) /\
    ((sys_connect s p w).1 = 0 -> forall l, os_ports (view w) !! l = Some p -> l ∈ os_pending (view (sys_connect s p w).2));
  law_accept : forall l w, new_handle (sys_accept l w).1 (view w) (view (sys_accept l w).2) /\
    (os_pending (view w) ∖ {[l]}) ⊆ os_pending (view (sys_accept l w).2);
  law_waits : forall l w, l ∈ os_pending (view w) -> sys_waits l w = false;
  law_getsockname : forall s w, view_grows (view w) (view (sys_getsockname s w).2) /\
    (forall p q, (sys_getsockname s w).1 = Some p -> os_ports (view w) !! s = Some q -> p = q);
  law_select : forall s a b w, view_grows (view w) (view (sys_select s a b w).2);
  law_send : forall s bs w n w', sys_send s bs w = Some (n, w') -> view_grows (view w) (view w') /\ n <= zlen bs;
  law_recv : forall s n w r w', sys_recv s n w = Some (r, w') -> view_grows (view w) (view w') /\
    (forall bs, 0 <= n -> r = Some bs -> zlen bs <= n);
  law_shutdown : forall s w, view_grows (view w) (view (sys_shutdown s w)) /\
    (s ∈ os_open (view w) -> s ∈ os_shut (view (sys_shutdown s w)));
  law_shut : forall s bs n w, s ∈ os_shut (view w) -> is_Some (sys_send s bs w) /\ is_Some (sys_recv s n w);
  law_close : forall s w,
    os_open (view (sys_close s w)) = os_open (view w) ∖ {[s]} /\
    (forall l, l <> s -> os_ports (view (sys_close s w)) !! l = os_ports (view w) !! l) /\
    (os_pending (view w) ∖ {[s]}) ⊆ os_pending (view (sys_close s w)) /\
    (os_shut (view w) ∖ {[s]}) ⊆ os_shut (view (sys_close s w));
}.

(** ** The functions *)

Section Sockets.
Context {W : Type} `{SocketOs W}.

(** [std::to_string] of an [int]. *)
Definition int_text (n : Z) : string := if n <? 0 then "-" ++ hex_dec (- n) else hex_dec n.

(** src/service/net.cpp:25-27 socket_error_text *)
Definition socket_error_text (code : Z) : list byte := list_byte_of_string ("socket error " ++ int_text code).

(** src/service/net.cpp:19-23 last_socket_error *)
Definition last_error_text (w : W) : list byte := socket_error_text (sys_errno w).

(** Sending and receiving on one handle is the interface of [Net]. *)
#[export] Instance handle_api (s : Z) : SocketApi W := {
  os_send := sys_send s;
  os_recv := sys_recv s;
  os_error := last_error_text;
}.

(** include/blackhole/service/net.hpp:39-44 ListenResult *)
Record ListenResult := MkListen {
  li_outcome : Outcome;
  li_handle : Z;
  li_port : Z;
  li_detail : list byte;
}.

Definition not_listening (detail : list byte) : ListenResult := MkListen Rejected kInvalidSocketHandle 0 detail.

(** The handle afterwards. src/service/net.cpp:208-216 net_close *)
Definition net_close (s : Z) (w : W) : Z * W :=
  if s =? kInvalidSocketHandle then (s, w) else (kInvalidSocketHandle, sys_close s w).

(** src/service/net.cpp:199-206 net_shutdown *)
Definition net_shutdown (s : Z) (w : W) : W := if s =? kInvalidSocketHandle then w else sys_shutdown s w.

(** src/service/net.cpp:218-230 net_local_port *)
Definition net_local_port (s : Z) (w : W) : Outcome * Z * W :=
  match sys_getsockname s w with
  | (None, w) => (Unavailable, 0, w)
  | (Some p, w) => (Ok, p, w)
  end.

(** src/service/net.cpp:53-101 net_listen_loopback *)
Definition net_listen_loopback (port backlog : Z) (w : W) : ListenResult * W :=
  if negb sys_startup then (not_listening (list_byte_of_string "socket runtime unavailable"), w)
  else
    let '(s, w) := sys_socket w in
    if s =? kInvalidSocketHandle then (not_listening (last_error_text w), w)
    else
      let w := sys_reuse_address s w in
      let '(rc, w) := sys_bind s port w in
      if negb (rc =? 0) then
        (not_listening (list_byte_of_string "bind failed: " ++ last_error_text w), (net_close s w).2)
      else
        let '(rc, w) := sys_listen s backlog w in
        if negb (rc =? 0) then
          (not_listening (list_byte_of_string "listen failed: " ++ last_error_text w), (net_close s w).2)
        else
          let '(o, bound, w) := net_local_port s w in
          if negb (is_affirmative o) then
            (not_listening (list_byte_of_string "getsockname failed"), (net_close s w).2)
          else (MkListen Ok s bound (list_byte_of_string "listening"), w).

(** The outcome, the handle and the detail. src/service/net.cpp:103-127 net_connect_loopback *)
Definition net_connect_loopback (port : Z) (w : W) : Outcome * Z * list byte * W :=
  if negb sys_startup then (Unavailable, kInvalidSocketHandle, list_byte_of_string "socket runtime unavailable", w)
  else
    let '(s, w) := sys_socket w in
    if s =? kInvalidSocketHandle then (Unavailable, kInvalidSocketHandle, last_error_text w, w)
    else
      let '(rc, w) := sys_connect s port w in
      if negb (rc =? 0) then
        (Unavailable, kInvalidSocketHandle, list_byte_of_string "connect failed: " ++ last_error_text w, (net_close s w).2)
      else (Ok, s, list_byte_of_string "connected", w).

(** src/service/net.cpp:129-139 net_accept *)
Definition net_accept (listener : Z) (w : W) : Outcome * Z * list byte * W :=
  let '(s, w) := sys_accept listener w in
  if s =? kInvalidSocketHandle then (Unavailable, kInvalidSocketHandle, last_error_text w, w)
  else (Ok, s, list_byte_of_string "accepted", w).

(** src/service/net.cpp:181-197 net_wait_readable *)
Definition net_wait_readable (s timeout_ms : Z) (w : W) : Outcome * bool * W :=
  let '(rc, in_set, w) := sys_select s (timeout_ms / 1000) (timeout_ms mod 1000 * 1000) w in
  if rc <? 0 then (Rejected, false, w) else (Ok, (0 <? rc) && in_set, w).

(** ** What the functions do to the handles *)

Section Laws.
Context (view : W -> OsView) `{!SocketOsLaws W view}.

Lemma view_grows_refl v : view_grows v v.
Proof. by split_and!. Qed.
Lemma view_grows_trans u v w : view_grows u v -> view_grows v w -> view_grows u w.
Proof. intros (A1 & A2 & A3 & A4) (B1 & B2 & B3 & B4). split_and!; [congruence | congruence | by etrans | by etrans]. Qed.

Lemma net_shutdown_view s w : view_grows (view w) (view (net_shutdown s w)).
Proof. unfold net_shutdown. destruct (_ =? _); [apply view_grows_refl | apply law_shutdown]. Qed.

(** A handle that was shut down does not block any more. *)
Lemma net_shutdown_shut s w : s <> -1 -> s ∈ os_open (view w) -> s ∈ os_shut (view (net_shutdown s w)).
Proof. intros Hs Ho. unfold net_shutdown, kInvalidSocketHandle. destruct (Z.eqb_spec s (-1)); [done |]. by apply law_shutdown. Qed.

Lemma net_wait_view s t w : view_grows (view w) (view (net_wait_readable s t w).2).
Proof.
  unfold net_wait_readable. pose proof (law_select s (t / 1000) (t mod 1000 * 1000) w) as Hv.
  destruct (sys_select _ _ _ w) as [[rc b] w']. by destruct (rc <? 0).
Qed.

Lemma send_some_view s data r w w' :
  send_some (H := handle_api s) data w = Some (r, w') -> view_grows (view w) (view w').
Proof.
  unfold send_some. cbn [os_send handle_api].
  match goal with |- context [sys_send s ?l w] => pose proof (law_send s l w) as Hv; destruct (sys_send s l w) as [[n w1] |]; [| done] end.
  intros [= _ <-]. by apply (Hv n w1).
Qed.

Lemma net_recv_view s n w o bytes d w' :
  net_recv_some (H := handle_api s) n w = Some (o, bytes, d, w') -> view_grows (view w) (view w').
Proof.
  unfold net_recv_some. destruct (n =? 0); [intros [= _ _ _ <-]; apply view_grows_refl |]. cbn [os_recv handle_api].
  match goal with |- context [sys_recv s ?k w] => pose proof (law_recv s k w) as Hv; destruct (sys_recv s k w) as [[[bs |] w1] |]; [| | done] end;
    intros [= _ _ _ <-]; by eapply Hv.
Qed.

(** Neither does a send or a receive on it. *)
Lemma shut_returns s data n w :
  s ∈ os_shut (view w) -> is_Some (send_some (H := handle_api s) data w) /\ is_Some (net_recv_some (H := handle_api s) n w).
Proof.
  intros Hs. unfold send_some, net_recv_some. cbn [os_send os_recv handle_api]. split.
  - destruct (proj1 (law_shut s (take (Z.to_nat (if kIoChunk <? zlen data then kIoChunk else zlen data)) data) 0 w Hs)) as [[k w1] ->]. by eexists.
  - destruct (n =? 0); [by eexists |].
    destruct (proj2 (law_shut s [] (if kIoChunk <? n then kIoChunk else n) w Hs)) as [[[bs |] w1] ->]; by eexists.
Qed.

Lemma net_accept_view l w :
  let '(o, s, _, w') := net_accept l w in
  os_ports (view w') = os_ports (view w) /\ (os_pending (view w) ∖ {[l]}) ⊆ os_pending (view w') /\
  (forall h, h ∈ os_open (view w) -> h ∈ os_shut (view w) -> h ∈ os_shut (view w')) /\
  ((o = Ok /\ 0 <= s /\ (s ∉ os_open (view w)) /\ os_open (view w') = {[s]} ∪ os_open (view w)) \/
   (o = Unavailable /\ s = kInvalidSocketHandle /\ os_open (view w') = os_open (view w))).
Proof.
  unfold net_accept. pose proof (law_accept l w) as [(H1 & Hsh & H2) H3]. destruct (sys_accept l w) as [s w']. cbn [fst snd] in *.
  unfold kInvalidSocketHandle. destruct (Z.eqb_spec s (-1)) as [-> | Hs]; (split; [exact H1 |]); (split; [exact H3 |]); (split; [exact Hsh |]).
  - right. destruct H2 as [[_ H2] | [H2 _]]; [done | lia].
  - left. destruct H2 as [[H2 _] | (H2 & H4 & H5)]; [done | by split_and!].
Qed.

Lemma close_fresh h v v1 w :
  new_handle h v v1 -> h <> -1 -> view_grows v1 (view w) ->
  os_open (view (net_close h w).2) = os_open v.
Proof.
  intros (_ & _ & [[H1 _] | (_ & H1 & H2)]) Hh (H3 & _ & _); [done |]. unfold net_close, kInvalidSocketHandle.
  destruct (Z.eqb_spec h (-1)); [done |]. cbn [snd]. destruct (law_close h w) as (-> & _). rewrite H3, H2. set_solver.
Qed.

(** What is kept of the rest of the process: its listeners and their waiting connections. *)
Definition keeps_others (s : Z) (v v' : OsView) : Prop :=
  (forall l, l <> s -> os_ports v' !! l = os_ports v !! l) /\ (os_pending v ∖ {[s]}) ⊆ os_pending v'.

Lemma keeps_others_grows s u v w : keeps_others s u v -> view_grows v w -> keeps_others s u w.
Proof. intros [H1 H2] (_ & H3 & H4 & _). split; [intros l Hl; rewrite H3; by apply H1 | by etrans]. Qed.

Lemma keeps_others_close s v w : keeps_others s v (view w) -> keeps_others s v (view (net_close s w).2).
Proof.
  intros [H1 H2]. unfold net_close. destruct (s =? kInvalidSocketHandle); [by split |]. cbn [snd].
  destruct (law_close s w) as (_ & H3 & H4 & _). split; [intros l Hl; rewrite H3 by done; by apply H1 | set_solver].
Qed.

(** [net_listen_loopback] opens exactly the listener it returns, bound to the port it
    reports; when it fails, at whatever call, it leaves no handle behind. *)
Lemma net_listen_handles port backlog w :
  let '(r, w') := net_listen_loopback port backlog w in
  (li_outcome r = Ok /\ 0 <= li_handle r /\ (li_handle r ∉ os_open (view w)) /\
   os_open (view w') = {[li_handle r]} ∪ os_open (view w) /\ os_ports (view w') !! li_handle r = Some (li_port r) /\
   keeps_others (li_handle r) (view w) (view w')) \/
  (li_outcome r = Rejected /\ li_handle r = kInvalidSocketHandle /\ li_port r = 0 /\ os_open (view w') = os_open (view w)).
Proof.
  unfold net_listen_loopback. destruct sys_startup; cbn [negb]; [| right; by split_and!].
  destruct (law_socket w) as [Hn Hp]. destruct (sys_socket w) as [s w1]. cbn [fst snd] in Hn, Hp.
  destruct (Z.eqb_spec s kInvalidSocketHandle) as [-> | Hs].
  { right. destruct Hn as (_ & _ & [[_ H1] | [H1 _]]); [by split_and! | unfold kInvalidSocketHandle in H1; lia]. }
  assert (keeps_others s (view w) (view w1)) as K1 by (destruct Hn as [Hn _]; split; [by rewrite Hn | set_solver]).
  pose proof (law_reuse s w1) as G1. set (w2 := sys_reuse_address s w1) in *.
  pose proof (law_bind s port w2) as G2. destruct (sys_bind s port w2) as [rc w3]. cbn [snd] in G2.
  pose proof (view_grows_trans _ _ _ G1 G2) as G3.
  pose proof (keeps_others_grows _ _ _ _ K1 G3) as K3.
  destruct (rc =? 0); cbn [negb]; [| right; split_and!; try done; by eapply close_fresh].
  destruct (law_listen s backlog w3) as (L1 & L2 & _ & L3 & L4). destruct (sys_listen s backlog w3) as [rc' w4]. cbn [fst snd] in *.
  assert (os_open (view (net_close s w4).2) = os_open (view w)) as Hc4.
  { destruct Hn as (_ & _ & [[H1 _] | (_ & H1 & H2)]); [done |]. unfold net_close, kInvalidSocketHandle. destruct (Z.eqb_spec s (-1)); [done |].
    cbn [snd]. destruct (law_close s w4) as (-> & _). rewrite L1. destruct G3 as (-> & _). rewrite H2. set_solver. }
  destruct (Z.eqb_spec rc' 0) as [-> |]; cbn [negb]; [| right; by split_and!].
  specialize (L4 eq_refl) as [q Hq].
  unfold net_local_port. destruct (law_getsockname s w4) as [(N1 & N2 & N3 & _) N4]. destruct (sys_getsockname s w4) as [[p |] w5]; cbn [fst snd] in *.
  - left. cbn [is_affirmative negb li_outcome li_handle li_port]. destruct Hn as (_ & _ & [[H1 _] | (H0 & H1 & H2)]); [done |].
    destruct G3 as (G4 & _ & G5 & _). destruct K3 as [K4 K5]. split_and!; try done.
    + rewrite N1, L1, G4. exact H2.
    + rewrite N2, (N4 p q eq_refl Hq). exact Hq.
    + split; [intros l Hl; rewrite N2, L3 by done; by apply K4 |]. etrans; [exact K5 |]. by etrans.
  - right. cbn [is_affirmative negb li_outcome li_handle li_port]. split_and!; try done. unfold net_close, kInvalidSocketHandle in *.
    destruct (Z.eqb_spec s (-1)); [done |]. cbn [snd] in *. destruct (law_close s w4) as (E4 & _). destruct (law_close s w5) as (E5 & _).
    rewrite E4 in Hc4. by rewrite E5, N1, Hc4.
Qed.

(** [net_connect_loopback] opens exactly the handle it returns, and a connection then waits
    at every listener of the port; when it fails it leaves no handle behind. *)
Lemma net_connect_handles port w :
  let '(o, s, _, w') := net_connect_loopback port w in
  (o = Ok /\ 0 <= s /\ (s ∉ os_open (view w)) /\ os_open (view w') = {[s]} ∪ os_open (view w) /\
   os_ports (view w') = os_ports (view w) /\ os_pending (view w) ⊆ os_pending (view w') /\
   (forall h, h ∈ os_open (view w) -> h ∈ os_shut (view w) -> h ∈ os_shut (view w')) /\
   forall l, os_ports (view w) !! l = Some port -> l ∈ os_pending (view w')) \/
  (o = Unavailable /\ s = kInvalidSocketHandle /\ os_open (view w') = os_open (view w) /\
   forall l, l ∈ os_open (view w) -> os_ports (view w') !! l = os_ports (view w) !! l /\
     (l ∈ os_pending (view w) -> l ∈ os_pending (view w')) /\ (l ∈ os_shut (view w) -> l ∈ os_shut (view w'))).
Proof.
  unfold net_connect_loopback. destruct sys_startup; cbn [negb]; [| right; by split_and!].
  destruct (law_socket w) as [Hn Hp]. destruct (sys_socket w) as [s w1]. cbn [fst snd] in Hn, Hp.
  destruct (Z.eqb_spec s kInvalidSocketHandle) as [-> | Hs].
  { right. destruct Hn as (H0 & Hsh & [[_ H1] | [H1 _]]); [| unfold kInvalidSocketHandle in H1; lia].
    split_and!; try done. intros l Hl. rewrite H0. split_and!; [done | set_solver | by apply Hsh]. }
  pose proof Hn as (H0 & Hsh & [[H1 _] | (H1 & H2 & H3)]); [done |].
  destruct (law_connect s port w1) as [G1 G2]. destruct (sys_connect s port w1) as [rc w2]. cbn [fst snd] in *.
  destruct (Z.eqb_spec rc 0) as [-> |]; cbn [negb].
  - left. destruct G1 as (G3 & G4 & G5 & G6). split_and!; try done.
    + by rewrite G3.
    + by rewrite G4.
    + by etrans.
    + intros h Ho Hs'. by apply G6, Hsh.
    + intros l Hl. apply G2; [done |]. by rewrite H0.
  - right. split_and!; try done; [by eapply close_fresh |]. intros l Hl. destruct G1 as (_ & G4 & G5 & G6).
    unfold net_close, kInvalidSocketHandle. destruct (Z.eqb_spec s (-1)); [done |]. cbn [snd].
    destruct (law_close s w2) as (_ & C2 & C3 & C4). assert (l <> s) as Hl' by congruence.
    rewrite C2, G4, H0 by done. split_and!; [done | set_solver |]. intros Hls. apply C4, elem_of_difference. rewrite elem_of_singleton.
    split; [by apply G6, Hsh | done].
Qed.
End Laws.
End Sockets.
