(* ===== verification/SimSockets.v ===== *)
(** * A simulated socket runtime

    A concrete world of sockets for [SocketOs], at which the theorems about handles and
    shutdown are instantiated: handles are the lowest free numbers up to a limit, a connection
    to a port waits at every listener of it, and the peer of a handle has sent some bytes
    ([so_input]) and then closed its end, unless it is stuck: then it does not read either, and
    a send or a receive on the handle blocks until the handle is shut down. It satisfies
    [SocketOsLaws]. *)
From stdpp Require Import gmap.
From S2P Require Import Prelude Core Net Sockets.
Local Open Scope list_scope.
Local Open Scope Z_scope.

Record SimOs := MkSim {
  so_open : gset Z;
  so_bound : gmap Z Z;
  so_ports : gmap Z Z;
  so_pending : gset Z;
  so_limit : Z;
  so_shut : gset Z;
  so_input : gmap Z (list byte);
  so_stuck : gset Z;
}.

Definition sim_view (w : SimOs) : OsView := MkOsView (so_open w) (so_ports w) (so_pending w) (so_shut w).

Definition sim_handles (opened : gset Z) (bound ports : gmap Z Z) (waiting : gset Z) (w : SimOs) : SimOs :=
  MkSim opened bound ports waiting (so_limit w) (so_shut w) (so_input w) (so_stuck w).
Definition sim_ends (shut : gset Z) (input : gmap Z (list byte)) (w : SimOs) : SimOs :=
  MkSim (so_open w) (so_bound w) (so_ports w) (so_pending w) (so_limit w) shut input (so_stuck w).

(** A world of [limit] handles with no socket; what the peers of some handles will have sent,
    and which are stuck. *)
Definition sim_world (limit : Z) (input : gmap Z (list byte)) (stuck : gset Z) : SimOs :=
  MkSim ∅ ∅ ∅ ∅ limit ∅ input stuck.

(** The lowest handle that is not open. *)
Definition sim_fresh (w : SimOs) : option Z := List.find (fun h => negb (bool_decide (h ∈ so_open w))) (seqZ 0 (so_limit w)).

Definition sim_new (w : SimOs) : Z * SimOs :=
  match sim_fresh w with
  | None => (-1, w)
  | Some h => (h, sim_handles ({[h]} ∪ so_open w) (so_bound w) (so_ports w) (so_pending w) w)
  end.

(** The listeners of a port. *)
Definition sim_listeners (p : Z) (w : SimOs) : gset Z := dom (filter (fun kv => kv.2 = p) (so_ports w)).

Definition sim_arrive (ls : gset Z) (w : SimOs) : SimOs :=
  sim_handles (so_open w) (so_bound w) (so_ports w) (so_pending w ∪ ls) w.

Definition sim_connect (p : Z) (w : SimOs) : Z * SimOs :=
  if bool_decide (sim_listeners p w = ∅) then (-1, w) else (0, sim_arrive (sim_listeners p w) w).

(** Nothing goes in or out before the handle is shut down. *)
Definition sim_blocked (s : Z) (w : SimOs) : bool := bool_decide (s ∈ so_stuck w) && bool_decide (s ∉ so_shut w).

Definition sim_recv (s n : Z) (w : SimOs) : option (option (list byte) * SimOs) :=
  match default [] (so_input w !! s) with
  | [] => if sim_blocked s w then None else Some (Some [], w)
  | bytes => Some (Some (take (Z.to_nat n) bytes), sim_ends (so_shut w) (<[s := drop (Z.to_nat n) bytes]> (so_input w)) w)
  end.

#[export] Instance sim_os : SocketOs SimOs := {
  sys_startup := true;
  sys_socket := sim_new;
  sys_reuse_address _ w := w;
  sys_bind s p w := (0, sim_handles (so_open w) (<[s := if p =? 0 then 50000 + s else p]> (so_bound w)) (so_ports w) (so_pending w) w);
  sys_listen s _ w := (0, sim_handles (so_open w) (so_bound w) (<[s := default 0 (so_bound w !! s)]> (so_ports w)) (so_pending w) w);
  sys_connect _ p w := sim_connect p w;
  sys_accept l w :=
    if bool_decide (l ∈ so_pending w) then
      sim_new (sim_handles (so_open w) (so_bound w) (so_ports w) (so_pending w ∖ {[l]}) w)
    else (-1, w);
  sys_waits l w := bool_decide (l ∉ so_pending w);
  sys_getsockname s w := (so_ports w !! s, w);
  sys_select s _ _ w := (1, negb (sim_blocked s w) || negb (bool_decide (default [] (so_input w !! s) = [])), w);
  sys_send s bytes w :=
    if bool_decide (s ∈ so_shut w) then Some (-1, w) else if sim_blocked s w then None else Some (zlen bytes, w);
  sys_recv := sim_recv;
  sys_shutdown s w := sim_ends ({[s]} ∪ so_shut w) (so_input w) w;
  sys_close s w :=
    sim_ends (so_shut w ∖ {[s]}) (so_input w)
      (sim_handles (so_open w ∖ {[s]}) (delete s (so_bound w)) (delete s (so_ports w)) (so_pending w ∖ {[s]}) w);
  sys_errno _ := 0;
}.

Lemma sim_new_handle w :
  new_handle (sim_new w).1 (sim_view w) (sim_view (sim_new w).2) /\ so_pending (sim_new w).2 = so_pending w.
Proof.
  unfold sim_new. destruct (sim_fresh w) as [h |] eqn:E; [| by split; [split_and!; [| | left] |]].
  unfold sim_fresh in E. apply List.find_some in E as [Hin Hn]. split; [| done]. split; [done |]. split; [done |].
  right. cbn [fst snd sim_view os_open so_open].
  apply list_elem_of_In, elem_of_seqZ in Hin. apply negb_true_iff, bool_decide_eq_false in Hn. split_and!; [lia | done | done].
Qed.

Lemma sim_recv_view s n w r w' :
  sim_recv s n w = Some (r, w') -> view_grows (sim_view w) (sim_view w') /\ (forall bs, 0 <= n -> r = Some bs -> zlen bs <= n).
Proof.
  unfold sim_recv. destruct (default [] (so_input w !! s)) as [| x bytes].
  - destruct (sim_blocked s w); intros [= <- <-]. split; [apply view_grows_refl |]. intros bs Hn [= <-]. by rewrite zlen_nil.
  - intros [= <- <-]. split; [by split_and! |]. intros bs Hn [= <-]. unfold zlen. rewrite length_take. lia.
Qed.

Lemma sim_shut_returns s bs n w : s ∈ so_shut w -> is_Some (sys_send s bs w) /\ is_Some (sim_recv s n w).
Proof.
  intros Hs. cbn [sys_send sim_os]. rewrite bool_decide_true by done. split; [by eexists |]. unfold sim_recv, sim_blocked.
  rewrite (bool_decide_false (s ∉ so_shut w)) by auto. rewrite andb_false_r. destruct (default _ _); by eexists.
Qed.

#[export] Instance sim_laws : SocketOsLaws SimOs sim_view.
Proof.
  split; cbn [sys_socket sys_reuse_address sys_bind sys_listen sys_connect sys_accept sys_waits sys_getsockname sys_select sys_recv
    sys_shutdown sys_close sim_os]; try (intros; apply view_grows_refl).
  - intros w. destruct (sim_new_handle w) as [H1 H2]. split; [exact H1 |]. cbn. by rewrite H2.
  - intros s n w. cbn. split_and!; [done | done | done | | by rewrite lookup_insert_eq]. intros l Hl. by rewrite lookup_insert_ne.
  - intros s p w. unfold sim_connect. case_bool_decide as Hl; cbn [fst snd]; [by split; [apply view_grows_refl |] |].
    split; [split_and!; cbn; [done | done | set_solver | done] |]. intros _ l Hp. cbn. apply elem_of_union. right.
    unfold sim_listeners. apply elem_of_dom. exists p. by apply map_lookup_filter_Some.
  - intros l w. case_bool_decide as Hl.
    + set (w1 := sim_handles _ _ _ _ _). destruct (sim_new_handle w1) as [H1 H2]. split; [exact H1 |]. cbn. by rewrite H2.
    + split; [by split_and!; [| | left] |]. cbn. set_solver.
  - intros l w Hl. apply bool_decide_eq_false. cbn in Hl. set_solver.
  - intros s w. split; [apply view_grows_refl |]. cbn. congruence.
  - intros s bs w n w'. cbn [sys_send sim_os]. pose proof (zlen_nonneg bs).
    case_bool_decide; [| destruct (sim_blocked s w)]; intros [= <- <-]; (split; [apply view_grows_refl | lia]).
  - apply sim_recv_view.
  - intros s w. cbn. split; [split_and!; cbn; [done | done | done | set_solver] |]. intros _. set_solver.
  - apply sim_shut_returns.
  - intros s w. cbn. split_and!; [done | | done | done]. intros l Hl. by rewrite lookup_delete_ne.
Qed.
