(* ===== verification/Frame.v ===== *)
(** * Framing of the protocol

    Models [include/blackhole/protocol/frame.hpp] and [src/protocol/frame.cpp]: the frame
    layout, its encoder and the streaming decoder with its sticky failure. The decoder's
    buffer is the list of its first [buffered_] bytes; the bytes behind them are never
    read. The theorems show that frames are reassembled whatever chunks they arrive in, and
    that nothing but frames is produced. *)
From Stdlib Require Import Strings.String.
From S2P Require Import Prelude Core Checked Codec Hash Ids Domain Record.
Local Open Scope string_scope.
Local Open Scope list_scope.
Local Open Scope Z_scope.

Module MessageType.
(** include/blackhole/protocol/frame.hpp:37-61 MessageType *)
Inductive t :=
| HelloRequest | HelloResponse | SubmitEvidenceRequest | SubmitEvidenceResponse
| EvaluateRequest | EvaluateResponse | LocalizeRequest | LocalizeResponse
| AckFenceRequest | AckFenceResponse | ReportEffectRequest | ReportEffectResponse
| RestoreRequest | RestoreResponse | LineageRequest | LineageResponse | CheckpointRequest
| CheckpointResponse | StatsRequest | StatsResponse | GoodbyeRequest | GoodbyeResponse
| ErrorResponse.

Definition raw (e : t) : Z :=
  match e with
  | HelloRequest => 1 | HelloResponse => 2 | SubmitEvidenceRequest => 3
  | SubmitEvidenceResponse => 4 | EvaluateRequest => 5 | EvaluateResponse => 6
  | LocalizeRequest => 7 | LocalizeResponse => 8 | AckFenceRequest => 9
  | AckFenceResponse => 10 | ReportEffectRequest => 11 | ReportEffectResponse => 12
  | RestoreRequest => 13 | RestoreResponse => 14 | LineageRequest => 15
  | LineageResponse => 16 | CheckpointRequest => 17 | CheckpointResponse => 18
  | StatsRequest => 19 | StatsResponse => 20 | GoodbyeRequest => 21 | GoodbyeResponse => 22
  | ErrorResponse => 23
  end.

Definition all : list t :=
  [HelloRequest; HelloResponse; SubmitEvidenceRequest; SubmitEvidenceResponse;
   EvaluateRequest; EvaluateResponse; LocalizeRequest; LocalizeResponse; AckFenceRequest;
   AckFenceResponse; ReportEffectRequest; ReportEffectResponse; RestoreRequest;
   RestoreResponse; LineageRequest; LineageResponse; CheckpointRequest; CheckpointResponse;
   StatsRequest; StatsResponse; GoodbyeRequest; GoodbyeResponse; ErrorResponse].

(** include/blackhole/protocol/frame.hpp:63-65 is_valid(MessageType) *)
Definition is_valid (raw : Z) : bool := (1 <=? raw) && (raw <=? 23).

(** include/blackhole/protocol/frame.hpp:67-94 to_string(MessageType) *)
Definition to_string (e : t) : string :=
  match e with
  | HelloRequest => "HelloRequest" | HelloResponse => "HelloResponse"
  | SubmitEvidenceRequest => "SubmitEvidenceRequest"
  | SubmitEvidenceResponse => "SubmitEvidenceResponse" | EvaluateRequest => "EvaluateRequest"
  | EvaluateResponse => "EvaluateResponse" | LocalizeRequest => "LocalizeRequest"
  | LocalizeResponse => "LocalizeResponse" | AckFenceRequest => "AckFenceRequest"
  | AckFenceResponse => "AckFenceResponse" | ReportEffectRequest => "ReportEffectRequest"
  | ReportEffectResponse => "ReportEffectResponse" | RestoreRequest => "RestoreRequest"
  | RestoreResponse => "RestoreResponse" | LineageRequest => "LineageRequest"
  | LineageResponse => "LineageResponse" | CheckpointRequest => "CheckpointRequest"
  | CheckpointResponse => "CheckpointResponse" | StatsRequest => "StatsRequest"
  | StatsResponse => "StatsResponse" | GoodbyeRequest => "GoodbyeRequest"
  | GoodbyeResponse => "GoodbyeResponse" | ErrorResponse => "ErrorResponse"
  end.
End MessageType.

#[export] Instance RawEnum_MessageType : RawEnum MessageType.t := {
  to_raw := MessageType.raw; of_raw := pick MessageType.raw MessageType.all MessageType.HelloRequest;
  is_valid_raw := fun z => (0 <=? z) && MessageType.is_valid z;
}.
#[export] Hint Unfold MessageType.is_valid : enum.
#[export] Instance RawEnumLaws_MessageType : RawEnumLaws MessageType.t.
Proof. solve_enum 0 23%nat. Qed.
#[export] Instance MessageType_eq_dec : EqDecision MessageType.t :=
  eq_dec_by_inj MessageType.raw (to_raw_inj (E := MessageType.t)).

(** include/blackhole/protocol/frame.hpp:33 kFrameMagic *)
Definition kFrameMagic : Z := 0x31474842.
(** include/blackhole/protocol/frame.hpp:34 kFrameHeaderSize *)
Definition kFrameHeaderSize : Z := 20.
(** include/blackhole/version.hpp:28 kProtocolVersion *)
Definition kProtocolVersion : Z := 1.

(** include/blackhole/protocol/frame.hpp:96-100 Frame *)
Record Frame := MkFrame {
  f_type : MessageType.t;
  f_flags : Z;
  f_payload : list byte;
}.

(** src/protocol/frame.cpp:34-39 frame_integrity *)
Definition frame_integrity (header16 payload : list byte) : Z := crc32c_seeded payload (crc32c header16).

(** The first sixteen bytes of the header. src/protocol/frame.cpp:44-49 encode_frame (header) *)
Definition frame_header16 (f : Frame) : list byte :=
  le_bytes 4 kFrameMagic ++ le_bytes 2 kProtocolVersion ++ le_bytes 2 (to_raw (f_type f)) ++
  le_bytes 4 (f_flags f) ++ le_bytes 4 (wrap 32 (zlen (f_payload f))).

(** src/protocol/frame.cpp:43-57 encode_frame *)
Definition encode_frame (f : Frame) (w : Writer) : Writer :=
  let header16 := frame_header16 f in
  let header := header16 ++ le_bytes 4 (frame_integrity header16 (f_payload f)) in
  w_raw (f_payload f) (w_raw header w).

(** [max_], the pending bytes and the sticky failure.
    include/blackhole/protocol/frame.hpp:111-136 FrameDecoder *)
Record FrameDecoder := MkDecoder {
  fd_max : Z;
  pending : list byte;
  failure_ : Outcome;
}.

(** include/blackhole/protocol/frame.hpp:113-114 FrameDecoder::FrameDecoder *)
Definition new_FrameDecoder (max_frame_bytes : Z) : FrameDecoder := MkDecoder max_frame_bytes [] Ok.

(** include/blackhole/protocol/frame.hpp:127-130 FrameDecoder::fail *)
Definition fd_fail (o : Outcome) (d : FrameDecoder) : Outcome * FrameDecoder :=
  let failure := if failure_ d == Ok then o else failure_ d in
  (failure, MkDecoder (fd_max d) (pending d) failure).

(** src/protocol/frame.cpp:59-73 FrameDecoder::feed *)
Definition feed (bytes : list byte) (d : FrameDecoder) : Outcome * FrameDecoder :=
  if failure_ d != Ok then (failure_ d, d)
  else
    match checked_add size_t (zlen (pending d)) (zlen bytes) with
    | None => fd_fail Oversized d
    | Some total =>
        if fd_max d + kFrameHeaderSize <? total then fd_fail Oversized d
        else (Ok, MkDecoder (fd_max d) (pending d ++ bytes) Ok)
    end.

(** src/protocol/frame.cpp:75-108 FrameDecoder::next *)
Definition next (d : FrameDecoder) : Outcome * option Frame * FrameDecoder :=
  let fail o := let '(o, d) := fd_fail o d in (o, None, d) in
  if failure_ d != Ok then (failure_ d, None, d)
  else if zlen (pending d) <? kFrameHeaderSize then (NotFound, None, d)
  else
    let h := pending d in
    if negb (get_le 4 0 h =? kFrameMagic) then fail Corrupt
    else if negb (get_le 2 4 h =? kProtocolVersion) then fail Unsupported
    else
      let type := get_le 2 6 h in
      if negb (is_valid_raw (E := MessageType.t) type) then fail Invalid
      else
        let flags := get_le 4 8 h in
        if negb (flags =? 0) then fail Invalid
        else
          let length := get_le 4 12 h in
          if fd_max d <? length then fail Oversized
          else
            let total := kFrameHeaderSize + length in
            if zlen (pending d) <? total then (NotFound, None, d)
            else
              let payload := take (Z.to_nat length) (drop 20 h) in
              if negb (frame_integrity (take 16 h) payload =? get_le 4 16 h) then fail Corrupt
              else
                (Ok, Some (MkFrame (of_raw type) flags payload),
                 MkDecoder (fd_max d) (drop (Z.to_nat total) h) Ok).

(** src/protocol/frame.cpp:110-114 FrameDecoder::finish *)
Definition fd_finish (d : FrameDecoder) : Outcome * FrameDecoder :=
  if failure_ d != Ok then (failure_ d, d)
  else if negb (zlen (pending d) =? 0) then fd_fail Malformed d
  else (Ok, d).

(** ** Images of frames *)

(** Frames a decoder of bound [max] accepts. *)
Definition frame_ok (max : Z) (f : Frame) : Prop := f_flags f = 0 /\ zlen (f_payload f) <= max.

Definition frame_image (f : Frame) : list byte :=
  frame_header16 f ++ le_bytes 4 (frame_integrity (frame_header16 f) (f_payload f)) ++ f_payload f.

Lemma length_frame_header16 f : length (frame_header16 f) = 16%nat.
Proof. unfold frame_header16. by rewrite !length_app, !length_le_bytes. Qed.

Lemma zlen_frame_image f : zlen (frame_image f) = 20 + zlen (f_payload f).
Proof. unfold frame_image, zlen. rewrite !length_app, length_frame_header16, length_le_bytes. lia. Qed.

Lemma frame_integrity_u32 h p : in_u32 (frame_integrity h p).
Proof.
  unfold frame_integrity, crc32c_seeded. apply in_u_lxor; [lia | | by unfold in_u].
  apply crc_fold_u32, in_u_lxor; [lia | apply crc32c_u32 | by unfold in_u].
Qed.

Lemma encode_frame_image f max :
  zlen (frame_image f) <= max -> max < 2 ^ 64 -> encode_frame f (new_Writer max) = MkWriter (frame_image f) max true.
Proof.
  intros Hm Hb. rewrite zlen_frame_image in Hm. unfold encode_frame. cbn zeta. change (new_Writer max) with (MkWriter [] max true).
  set (h := frame_header16 f ++ le_bytes 4 (frame_integrity (frame_header16 f) (f_payload f))).
  assert (zlen h = 20) as Hh by (unfold h, zlen; by rewrite length_app, length_frame_header16, length_le_bytes).
  pose proof (zlen_nonneg (f_payload f)).
  rewrite (put_fits h) by (rewrite ?zlen_nil; lia). rewrite put_fits by (cbn [app]; lia).
  unfold frame_image, h. cbn [app]. by rewrite <- app_assoc.
Qed.

(** The fields of a header in front of anything. *)
Lemma frame_fields f tail :
  zlen (f_payload f) < 2 ^ 32 -> in_u32 (f_flags f) ->
  let h := frame_header16 f ++ le_bytes 4 (frame_integrity (frame_header16 f) (f_payload f)) ++ tail in
  get_le 4 0 h = kFrameMagic /\ get_le 2 4 h = kProtocolVersion /\ get_le 2 6 h = to_raw (f_type f) /\
  get_le 4 8 h = f_flags f /\ get_le 4 12 h = zlen (f_payload f) /\
  get_le 4 16 h = frame_integrity (frame_header16 f) (f_payload f) /\ take 16 h = frame_header16 f.
Proof.
  intros Hp Hf. cbn zeta. pose proof (zlen_nonneg (f_payload f)).
  assert (wrap 32 (zlen (f_payload f)) = zlen (f_payload f)) as Hw by (apply wrap_small; unfold in_u; lia).
  assert (in_u 16 (to_raw (f_type f))) as Ht by (destruct (f_type f); split; vm_compute; congruence).
  pose proof (frame_integrity_u32 (frame_header16 f) (f_payload f)) as Hi. unfold in_u in *.
  split_and!.
  7: { rewrite <- (length_frame_header16 f) at 1. apply take_app_length. }
  6: { rewrite <- (length_frame_header16 f) at 1. by apply (get_le_app 4 (frame_header16 f)). }
  all: unfold frame_header16; rewrite <- ?app_assoc; rewrite ?Hw.
  - by apply (get_le_app 4 []).
  - by apply (get_le_app 2 (le_bytes 4 kFrameMagic)).
  - rewrite app_assoc. by apply (get_le_app 2 (le_bytes 4 kFrameMagic ++ le_bytes 2 kProtocolVersion)).
  - rewrite (app_assoc (le_bytes 2 kProtocolVersion)), app_assoc.
    by apply (get_le_app 4 (le_bytes 4 kFrameMagic ++ le_bytes 2 kProtocolVersion ++ le_bytes 2 (to_raw (f_type f)))).
  - rewrite (app_assoc (le_bytes 2 (to_raw (f_type f)))), (app_assoc (le_bytes 2 kProtocolVersion)), app_assoc.
    by apply (get_le_app 4 (le_bytes 4 kFrameMagic ++ le_bytes 2 kProtocolVersion ++ le_bytes 2 (to_raw (f_type f)) ++ le_bytes 4 (f_flags f))).
Qed.

Lemma message_type_raw f : is_valid_raw (E := MessageType.t) (to_raw (f_type f)) = true /\ of_raw (E := MessageType.t) (to_raw (f_type f)) = f_type f.
Proof. by destruct (f_type f). Qed.

(** ** The next frame *)

(** A whole frame in front of the buffer is produced. *)
Lemma next_frame max f tail :
  frame_ok max f -> in_u32 max ->
  next (MkDecoder max (frame_image f ++ tail) Ok) = (Ok, Some f, MkDecoder max tail Ok).
Proof.
  intros [Hz Hp] Hm. pose proof (zlen_nonneg (f_payload f)). pose proof (zlen_nonneg tail). unfold in_u in Hm.
  unfold frame_image. rewrite <- !app_assoc.
  destruct (frame_fields f (f_payload f ++ tail)) as (H1 & H2 & H3 & H4 & H5 & H6 & H7);
    [lia | rewrite Hz; by unfold in_u |].
  set (h := frame_header16 f ++ le_bytes 4 (frame_integrity (frame_header16 f) (f_payload f)) ++ f_payload f ++ tail) in *.
  assert (zlen h = 20 + zlen (f_payload f) + zlen tail) as Hl
    by (unfold h, zlen; rewrite !length_app, length_frame_header16, length_le_bytes; lia).
  assert (drop 20 h = f_payload f ++ tail) as Hd.
  { unfold h. rewrite app_assoc. apply drop_app_length'. by rewrite length_app, length_frame_header16, length_le_bytes. }
  destruct (message_type_raw f) as [V1 V2].
  unfold next. cbn [failure_ pending fd_max]. change (Ok != Ok) with false. cbn match. rewrite Hl, H1, H2, H3, H4, H5, H6, H7, V1, V2, Hz.
  unfold kFrameHeaderSize. rewrite !Z.eqb_refl. cbn [negb Z.eqb].
  destruct (Z.ltb_spec (20 + zlen (f_payload f) + zlen tail) 20); [lia |].
  destruct (Z.ltb_spec max (zlen (f_payload f))); [lia |].
  destruct (Z.ltb_spec (20 + zlen (f_payload f) + zlen tail) (20 + zlen (f_payload f))); [lia |].
  replace (Z.to_nat (zlen (f_payload f))) with (length (f_payload f)) by (unfold zlen; lia).
  rewrite Hd, take_app_length, Z.eqb_refl. cbn [negb].
  replace (Z.to_nat (20 + zlen (f_payload f))) with (20 + length (f_payload f))%nat by (unfold zlen; lia).
  rewrite <- drop_drop, Hd, drop_app_length. destruct f. cbn in Hz |- *. by subst.
Qed.

(** A proper prefix of a frame waits for more bytes. *)
Lemma next_short max f P Q :
  frame_ok max f -> in_u32 max -> P ++ Q = frame_image f -> Q <> [] ->
  next (MkDecoder max P Ok) = (NotFound, None, MkDecoder max P Ok).
Proof.
  intros [Hz Hp] Hm E HQ. pose proof (zlen_nonneg (f_payload f)). unfold in_u in Hm.
  assert (zlen P < 20 + zlen (f_payload f)) as Hl.
  { rewrite <- zlen_frame_image, <- E, zlen_app. destruct Q; [done |]. rewrite zlen_cons. pose proof (zlen_nonneg Q). lia. }
  unfold next. cbn [failure_ pending fd_max]. change (Ok != Ok) with false. cbn match. unfold kFrameHeaderSize.
  destruct (Z.ltb_spec (zlen P) 20) as [| H20]; [done |].
  destruct (frame_fields f (f_payload f)) as (H1 & H2 & H3 & H4 & H5 & _); [lia | rewrite Hz; by unfold in_u |].
  assert (forall n off, (off + n <= 20)%nat -> get_le n off P = get_le n off (frame_image f)) as Hg.
  { intros n off Hn. rewrite <- E. symmetry. apply get_le_weaken. unfold zlen in H20. lia. }
  fold (frame_image f) in H1, H2, H3, H4, H5. destruct (message_type_raw f) as [V1 _].
  rewrite !Hg, H1, H2, H3, H4, H5, V1, Hz by lia. rewrite !Z.eqb_refl. cbn [negb Z.eqb].
  destruct (Z.ltb_spec max (zlen (f_payload f))); [lia |].
  destruct (Z.ltb_spec (zlen P) (20 + zlen (f_payload f))); [done | lia].
Qed.

(** A header is determined by its fields. *)
Lemma frame_header_put h :
  (20 <= length h)%nat -> get_le 4 0 h = kFrameMagic -> get_le 2 4 h = kProtocolVersion -> get_le 4 8 h = 0 ->
  take 16 h = le_bytes 4 kFrameMagic ++ le_bytes 2 kProtocolVersion ++ le_bytes 2 (get_le 2 6 h) ++
    le_bytes 4 0 ++ le_bytes 4 (get_le 4 12 h).
Proof.
  intros Hl H1 H2 H3. rewrite <- H1 at 1. rewrite <- H2 at 1. rewrite <- H3 at 1.
  rewrite !get_le_bytes by lia. rewrite drop_0.
  replace (drop 12 h) with (drop 4 (drop 8 h)) by (rewrite drop_drop; done).
  replace (drop 8 h) with (drop 2 (drop 6 h)) by (rewrite drop_drop; done).
  replace (drop 6 h) with (drop 2 (drop 4 h)) by (rewrite drop_drop; done).
  assert (forall (l : list byte) n m, take n l ++ take m (drop n l) = take (n + m) l) as Ht.
  { intros l n m. rewrite <- (take_drop n (take (n + m) l)). rewrite take_take, skipn_firstn_comm. f_equal; f_equal; lia. }
  by rewrite !Ht.
Qed.

(** The three things a call of [next] can do. *)
Inductive next_spec (d : FrameDecoder) : Outcome * option Frame * FrameDecoder -> Prop :=
| next_produced f tail :
    failure_ d = Ok -> frame_ok (fd_max d) f -> pending d = frame_image f ++ tail ->
    next_spec d (Ok, Some f, MkDecoder (fd_max d) tail Ok)
| next_waits : failure_ d = Ok -> next_spec d (NotFound, None, d)
| next_failed o : o <> Ok -> next_spec d (o, None, MkDecoder (fd_max d) (pending d) o).

Lemma fail_spec d o :
  failure_ d = Ok -> o <> Ok -> next_spec d (let '(o, d) := fd_fail o d in (o, None, d)).
Proof. intros Hd Ho. unfold fd_fail. rewrite Hd. by apply next_failed. Qed.

Lemma next_spec_holds d : in_u32 (fd_max d) -> next_spec d (next d).
Proof.
  intros Hm. unfold next. destruct (bool_decide_reflect (failure_ d = Ok)) as [Hf | Hf]; cbn [negb].
  2:{ pose proof (next_failed d (failure_ d) Hf) as H. by destruct d. }
  destruct (Z.ltb_spec (zlen (pending d)) kFrameHeaderSize) as [| H20]; [by apply next_waits |].
  destruct (Z.eqb_spec (get_le 4 0 (pending d)) kFrameMagic) as [H1 |]; [| by apply fail_spec].
  destruct (Z.eqb_spec (get_le 2 4 (pending d)) kProtocolVersion) as [H2 |]; [| by apply fail_spec]. cbn [negb].
  destruct (is_valid_raw (get_le 2 6 (pending d))) eqn:Ht; [| by apply fail_spec].
  destruct (Z.eqb_spec (get_le 4 8 (pending d)) 0) as [H3 |]; [| by apply fail_spec]. cbn [negb].
  destruct (Z.ltb_spec (fd_max d) (get_le 4 12 (pending d))) as [| Hl]; [by apply fail_spec |].
  destruct (Z.ltb_spec (zlen (pending d)) (kFrameHeaderSize + get_le 4 12 (pending d))) as [| Hb]; [by apply next_waits |].
  destruct (Z.eqb_spec (frame_integrity (take 16 (pending d)) (take (Z.to_nat (get_le 4 12 (pending d))) (drop 20 (pending d))))
    (get_le 4 16 (pending d))) as [Hc |]; [| by apply fail_spec]. cbn [negb].
  set (h := pending d) in *. set (len := get_le 4 12 h) in *. unfold kFrameHeaderSize in *.
  assert (0 <= len) as Hl0 by apply le_value_range.
  assert (20 <= length h)%nat as Hn by (unfold zlen in H20; lia).
  set (p := take (Z.to_nat len) (drop 20 h)) in *.
  assert (zlen p = len) as Hp by (unfold p, zlen in *; rewrite length_take, length_drop; lia).
  set (f := MkFrame (of_raw (get_le 2 6 h)) (get_le 4 8 h) p).
  assert (frame_header16 f = take 16 h) as Hh.
  { rewrite frame_header_put by assumption. unfold frame_header16, f. cbn [f_type f_flags f_payload].
    rewrite (to_of_raw (E := MessageType.t)) by exact Ht. rewrite H3, Hp, wrap_small by (unfold in_u in *; lia). reflexivity. }
  apply next_produced; [exact Hf | by split; [exact H3 | cbn; lia] |].
  unfold frame_image. rewrite Hh. change (f_payload f) with p. rewrite Hc, get_le_bytes by lia.
  unfold p. replace (Z.to_nat (20 + len)) with (20 + Z.to_nat len)%nat by lia. rewrite <- !app_assoc.
  rewrite <- (drop_drop _ (Z.to_nat len) 20), take_drop.
  etransitivity; [symmetry; apply (take_drop 16 h) |]. f_equal.
  etransitivity; [symmetry; apply (take_drop 4 (drop 16 h)) |]. by rewrite drop_drop.
Qed.

(** ** A connection's use of the decoder *)

(** Frames are taken until none is complete. A frame has at least twenty bytes, so the
    number of pending bytes is fuel enough. *)
Fixpoint drain (fuel : nat) (d : FrameDecoder) : list Frame * FrameDecoder :=
  match fuel with
  | O => ([], d)
  | S fuel =>
      match next d with
      | (_, Some f, d) => let '(fs, d) := drain fuel d in (f :: fs, d)
      | (_, None, d) => ([], d)
      end
  end.

Definition receive (chunk : list byte) (d : FrameDecoder) : list Frame * FrameDecoder :=
  match feed chunk d with
  | (Ok, d) => drain (S (length (pending d))) d
  | (_, d) => ([], d)
  end.

Fixpoint receive_all (chunks : list (list byte)) (d : FrameDecoder) : list Frame * FrameDecoder :=
  match chunks with
  | [] => ([], d)
  | c :: chunks =>
      let '(fs, d) := receive c d in
      let '(gs, d) := receive_all chunks d in (fs ++ gs, d)
  end.

Definition stream_image (fs : list Frame) : list byte := concat (map frame_image fs).

Lemma stream_image_app fs gs : stream_image (fs ++ gs) = stream_image fs ++ stream_image gs.
Proof. unfold stream_image. by rewrite map_app, concat_app. Qed.

(** *** Only frames *)

(** A well-behaved decoder: what it holds fits one frame. *)
Record decoder_ok (d : FrameDecoder) : Prop := {
  do_max : in_u32 (fd_max d);
  do_pending : zlen (pending d) <= fd_max d + kFrameHeaderSize;
}.

Lemma drain_sound fuel d fs d' :
  in_u32 (fd_max d) -> drain fuel d = (fs, d') ->
  Forall (frame_ok (fd_max d)) fs /\ pending d = stream_image fs ++ pending d' /\ fd_max d' = fd_max d /\
  (failure_ d' = Ok -> failure_ d = Ok).
Proof.
  revert d fs d'. induction fuel as [| fuel IH]; intros d fs d' Hm; cbn [drain].
  - intros [= <- <-]. by split_and!.
  - destruct (next_spec_holds d Hm) as [f tail Hf Ho Hp | Hf | o Ho].
    + destruct (drain fuel _) as [gs d1] eqn:E. intros [= <- <-]. apply IH in E as (H1 & H2 & H3 & H4); [| exact Hm].
      cbn in H1, H2, H3. split_and!; [by constructor | | exact H3 | done].
      rewrite Hp, H2. unfold stream_image. cbn [map concat]. by rewrite app_assoc.
    + intros [= <- <-]. by split_and!.
    + intros [= <- <-]. split_and!; done.
Qed.

Lemma feed_ok c d :
  decoder_ok d -> in_u64 (zlen c) -> failure_ d = Ok ->
  feed c d =
  if fd_max d + kFrameHeaderSize <? zlen (pending d) + zlen c
  then (Oversized, MkDecoder (fd_max d) (pending d) Oversized)
  else (Ok, MkDecoder (fd_max d) (pending d ++ c) Ok).
Proof.
  intros [Hm Hp] Hc Hf. pose proof (zlen_nonneg (pending d)). unfold in_u, kFrameHeaderSize in *.
  unfold feed, fd_fail. rewrite Hf. change (Ok != Ok) with false. change (Ok == Ok) with true. cbn match.
  rewrite (checked_add_exact size_t) by (unfold in_type; cbn; lia). unfold exact.
  destruct (_ && _) eqn:E.
  - unfold kFrameHeaderSize. reflexivity.
  - destruct (Z.ltb_spec (fd_max d + 20) (zlen (pending d) + zlen c)); [done |].
    exfalso. unfold it_min, it_max in E. cbn in E. apply andb_false_iff in E as [E | E]; bool_prop; lia.
Qed.

Lemma receive_failed c d : failure_ d <> Ok -> receive c d = ([], d).
Proof.
  intros Hf. unfold receive, feed. destruct (bool_decide_reflect (failure_ d = Ok)); [done |]. cbn [negb].
  by destruct (failure_ d).
Qed.

Lemma receive_sound c d fs d' :
  decoder_ok d -> in_u64 (zlen c) -> receive c d = (fs, d') ->
  decoder_ok d' /\ fd_max d' = fd_max d /\ Forall (frame_ok (fd_max d)) fs /\
  (failure_ d' = Ok -> failure_ d = Ok) /\
  exists tail, pending d ++ c = stream_image fs ++ pending d' ++ tail /\ (failure_ d' = Ok -> tail = []).
Proof.
  intros Hd Hc. destruct (bool_decide_reflect (failure_ d = Ok)) as [Hf | Hf].
  2:{ rewrite receive_failed by done. intros [= <- <-]. split_and!; [done | done | constructor | done |]. by exists c. }
  unfold receive. rewrite feed_ok by done. pose proof Hd as [Hm Hp].
  destruct (Z.ltb_spec (fd_max d + kFrameHeaderSize) (zlen (pending d) + zlen c)).
  - intros [= <- <-]. split_and!; [by split | done | constructor | done |]. by exists c.
  - intros E. apply drain_sound in E as (H1 & H2 & H3 & H4); [| exact Hm]. cbn in H1, H2, H3, H4.
    split; [split; rewrite H3; [exact Hm |] |].
    + apply (f_equal zlen) in H2. revert H2. rewrite !zlen_app. pose proof (zlen_nonneg (stream_image fs)). lia.
    + split_and!; [exact H3 | exact H1 | done |]. exists []. by rewrite app_nil_r.
Qed.

Lemma receive_all_failed chunks d : failure_ d <> Ok -> receive_all chunks d = ([], d).
Proof. intros Hf. induction chunks as [| c chunks IH]; [done |]. cbn [receive_all]. by rewrite receive_failed, IH. Qed.

Lemma receive_all_sound chunks d fs d' :
  decoder_ok d -> Forall (fun c => in_u64 (zlen c)) chunks -> receive_all chunks d = (fs, d') ->
  decoder_ok d' /\ fd_max d' = fd_max d /\ Forall (frame_ok (fd_max d)) fs /\ (failure_ d' = Ok -> failure_ d = Ok) /\
  exists tail, pending d ++ concat chunks = stream_image fs ++ pending d' ++ tail /\ (failure_ d' = Ok -> tail = []).
Proof.
  revert d fs d'. induction chunks as [| c chunks IH]; intros d fs d' Hd Hc; cbn [receive_all].
  - intros [= <- <-]. split_and!; [done | done | constructor | done |]. exists []. cbn [concat]. by rewrite !app_nil_r.
  - apply Forall_cons in Hc as [Hc Hcs]. destruct (receive c d) as [gs d1] eqn:E1.
    destruct (receive_all chunks d1) as [hs d2] eqn:E2. intros [= <- <-].
    pose proof E2 as E3. apply receive_sound in E1 as (A1 & A2 & A3 & A4 & t1 & A5 & A6); [| done | done].
    apply IH in E3 as (B1 & B2 & B3 & B4 & t2 & B5 & B6); [| done | done].
    split_and!; [done | congruence | apply Forall_app; split; [exact A3 | rewrite A2 in B3; exact B3] | auto |].
    cbn [concat]. rewrite stream_image_app, app_assoc, A5, <- !app_assoc.
    destruct (bool_decide_reflect (failure_ d1 = Ok)) as [Hf | Hf].
    + rewrite A6 by exact Hf. exists t2. split; [| exact B6]. cbn [app]. by rewrite B5, <- app_assoc.
    + rewrite receive_all_failed in E2 by exact Hf. injection E2 as <- <-. exists (t1 ++ concat chunks).
      change (stream_image []) with (@nil byte). rewrite app_nil_r. by split.
Qed.

(** *** All frames *)

(** [P] is shorter than the frame it begins. *)
Definition partial (P : list byte) (fs : list Frame) : Prop :=
  match fs with
  | [] => P = []
  | f :: _ => zlen P < zlen (frame_image f)
  end.

Lemma partial_end fs P : P = stream_image fs -> partial P fs -> fs = [].
Proof.
  destruct fs as [| f fs]; [done |]. intros -> H. exfalso. cbn [partial stream_image map concat] in H.
  rewrite zlen_app in H. pose proof (zlen_nonneg (concat (map frame_image fs))). lia.
Qed.

Lemma partial_nil fs : partial [] fs.
Proof. destruct fs as [| f fs]; [done |]. cbn [partial]. rewrite zlen_nil, zlen_frame_image. pose proof (zlen_nonneg (f_payload f)). lia. Qed.

Lemma frame_ok_le m max f : m <= max -> frame_ok m f -> frame_ok max f.
Proof. intros Hm [H1 H2]. split; [exact H1 | lia]. Qed.

Lemma drain_complete max m fs fuel P R :
  in_u32 max -> m <= max -> Forall (frame_ok m) fs -> P ++ R = stream_image fs -> (length P < fuel)%nat ->
  exists k P', (k <= length fs)%nat /\ drain fuel (MkDecoder max P Ok) = (take k fs, MkDecoder max P' Ok) /\
    P' ++ R = stream_image (drop k fs) /\ partial P' (drop k fs).
Proof.
  intros Hmax Hm Hfs. revert fuel P. induction Hfs as [| f fs Hf Hfs IH]; intros fuel P E Hfuel; (destruct fuel as [| fuel]; [lia |]).
  - apply app_nil in E as [-> ->]. exists 0%nat, []. split; [done |]. split; [reflexivity |]. by split.
  - unfold stream_image in E. cbn [map concat] in E. fold (stream_image fs) in E. cbn [drain].
    apply (frame_ok_le m max) in Hf as Hf'; [| exact Hm].
    apply app_eq_inv in E as [(l & E1 & E2) | (l & E1 & E2)].
    2: destruct l as [| x l].
    + rewrite E1, next_frame by assumption.
      destruct (IH fuel l) as (k & P' & Hk & H1 & H2 & H3); [done | |].
      { pose proof (zlen_frame_image f). pose proof (zlen_nonneg (f_payload f)).
        apply (f_equal length) in E1. rewrite length_app in E1. unfold zlen in *. lia. }
      exists (S k), P'. rewrite H1. cbn [length take drop]. split; [lia |]. by split.
    + rewrite app_nil_r in E1. subst P. rewrite <- (app_nil_r (frame_image f)). rewrite next_frame by assumption.
      cbn [app] in E2. destruct (IH fuel [] E2) as (k & P' & Hk & H1 & H2 & H3).
      { pose proof (zlen_frame_image f). pose proof (zlen_nonneg (f_payload f)). unfold zlen in *. cbn. lia. }
      exists (S k), P'. rewrite H1. cbn [length take drop]. split; [lia |]. by split.
    + exists 0%nat, P. rewrite (next_short max f P (x :: l)) by done. cbn [take drop].
      split; [lia |]. split; [reflexivity |]. split.
      { unfold stream_image. cbn [map concat]. by rewrite E1, <- app_assoc, E2. }
      cbn [partial]. rewrite E1, zlen_app, zlen_cons. pose proof (zlen_nonneg l). lia.
Qed.

Lemma receive_all_complete max m chunks fs P R :
  in_u32 max -> 0 <= m <= max -> Forall (frame_ok m) fs -> Forall (fun c => zlen c <= max + 1 - m) chunks ->
  P ++ concat chunks ++ R = stream_image fs -> partial P fs ->
  exists k P', (k <= length fs)%nat /\
    receive_all chunks (MkDecoder max P Ok) = (take k fs, MkDecoder max P' Ok) /\
    P' ++ R = stream_image (drop k fs) /\ partial P' (drop k fs).
Proof.
  intros Hmax Hm Hfs Hc. revert fs P Hfs. induction Hc as [| c chunks Hc Hcs IH]; intros fs P Hfs E HP.
  - exists 0%nat, P. cbn [concat app] in E. split; [lia |]. by split.
  - cbn [concat] in E. rewrite <- app_assoc in E.
    assert (zlen P <= m + 19) as HPl.
    { destruct Hfs as [| f fs [_ Hp] _]; cbn [partial] in HP; [subst P; rewrite zlen_nil; lia |].
      rewrite zlen_frame_image in HP. lia. }
    assert (decoder_ok (MkDecoder max P Ok)) as Hd by (split; [exact Hmax |]; cbn; unfold kFrameHeaderSize; lia).
    assert (in_u64 (zlen c)) as Hcl by (pose proof (zlen_nonneg c); unfold in_u in *; lia).
    cbn [receive_all]. unfold receive. rewrite feed_ok by done. cbn [fd_max pending]. unfold kFrameHeaderSize.
    destruct (Z.ltb_spec (max + 20) (zlen P + zlen c)); [lia |].
    destruct (drain_complete max m fs (S (length (P ++ c))) (P ++ c) (concat chunks ++ R)) as (k & P1 & Hk & H1 & H2 & H3);
      [done | lia | done | by rewrite <- app_assoc | lia |].
    cbn [pending]. rewrite H1. destruct (IH (drop k fs) P1) as (k2 & P2 & Hk2 & H4 & H5 & H6); [by apply Forall_drop | exact H2 | exact H3 |].
    exists (k + k2)%nat, P2. rewrite H4, <- (drop_drop fs k2 k). rewrite length_drop in Hk2.
    split; [lia |]. split; [by rewrite take_take_drop |]. by split.
Qed.

(** ** Fixtures *)

Definition fx_frames : list Frame :=
  [MkFrame MessageType.HelloRequest 0 [x01; x02; x03]; MkFrame MessageType.GoodbyeRequest 0 [];
   MkFrame MessageType.StatsRequest 0 [xff; x00]].

(** The bytes of the fixtures in chunks of seven. *)
Definition fx_chunks : list (list byte) :=
  [take 7 (stream_image fx_frames); take 20 (drop 7 (stream_image fx_frames)); drop 27 (stream_image fx_frames)].

(** ** Claims *)

(** C31: reassembly: when the bytes of a sequence of acceptable frames arrive in chunks, cut
    anywhere, none larger than the room a partial frame leaves, the decoder produces the
    frames that are complete, in order, and no others, holds exactly the rest, and never
    fails; all frames are produced once all bytes have arrived, and then the stream finishes
    cleanly. *)
Theorem frames_reassembled max m chunks fs R :
  in_u32 max -> 0 <= m <= max -> Forall (frame_ok m) fs -> Forall (fun c => zlen c <= max + 1 - m) chunks ->
  concat chunks ++ R = stream_image fs ->
  exists k P, (k <= length fs)%nat /\
    receive_all chunks (new_FrameDecoder max) = (take k fs, MkDecoder max P Ok) /\
    P ++ R = stream_image (drop k fs) /\ partial P (drop k fs) /\
    (R = [] -> k = length fs /\ fd_finish (MkDecoder max P Ok) = (Ok, MkDecoder max P Ok)).
Proof.
  intros Hmax Hm Hfs Hc E.
  destruct (receive_all_complete max m chunks fs [] R Hmax Hm Hfs Hc E) as (k & P & Hk & H1 & H2 & H3).
  { destruct fs as [| f fs]; [done |]. cbn [partial]. rewrite zlen_frame_image, zlen_nil.
    pose proof (zlen_nonneg (f_payload f)). lia. }
  exists k, P. split; [exact Hk |]. split; [exact H1 |]. split; [exact H2 |]. split; [exact H3 |].
  intros ->. rewrite app_nil_r in H2. destruct (drop k fs) as [| f fs'] eqn:Ed.
  - cbn in H2. subst P. split; [| reflexivity]. apply (f_equal length) in Ed. rewrite length_drop in Ed. cbn in Ed. lia.
  - exfalso. cbn [partial] in H3. rewrite H2 in H3. unfold stream_image in H3. cbn [map concat] in H3.
    rewrite zlen_app in H3. pose proof (zlen_nonneg (concat (map frame_image fs'))). lia.
Qed.

Example frames_reassembled_witness :
  exists d, receive_all fx_chunks (new_FrameDecoder 100) = (fx_frames, d).
Proof.
  destruct (frames_reassembled 100 10 fx_chunks fx_frames []) as (k & P & _ & H & _ & _ & Hall).
  - split; [discriminate | reflexivity].
  - split; discriminate.
  - repeat constructor; discriminate.
  - repeat constructor; vm_compute; discriminate.
  - vm_compute. reflexivity.
  - destruct (Hall eq_refl) as [-> _]. eexists. exact H.
Defined.

(** Whatever bytes arrive, in whatever chunks, the decoder produces frames and nothing
    else: the bytes received are the images of the produced frames, each valid and within
    the bound, then the bytes still pending, then, once the decoder has failed, bytes that
    are ignored. It never holds more than one maximal frame, and a failure is permanent. *)
Theorem only_frames_produced max chunks fs d :
  in_u32 max -> Forall (fun c => in_u64 (zlen c)) chunks -> receive_all chunks (new_FrameDecoder max) = (fs, d) ->
  Forall (frame_ok max) fs /\ zlen (pending d) <= max + kFrameHeaderSize /\
  (exists ignored, concat chunks = stream_image fs ++ pending d ++ ignored /\ (failure_ d = Ok -> ignored = [])) /\
  (failure_ d <> Ok -> forall c, feed c d = (failure_ d, d) /\ next d = (failure_ d, None, d)).
Proof.
  intros Hm Hc E. apply receive_all_sound in E as ([_ H1] & H2 & H3 & _ & H4); [| | exact Hc].
  2:{ split; [exact Hm |]. cbn. unfold kFrameHeaderSize, in_u in *. rewrite zlen_nil. lia. }
  cbn in H2, H4. rewrite H2 in H1. split; [exact H3 |]. split; [exact H1 |]. split; [exact H4 |].
  intros Hf c. unfold feed, next. by destruct (bool_decide_reflect (failure_ d = Ok)).
Qed.

Example only_frames_produced_witness :
  exists fs d, receive_all [stream_image fx_frames; [x00]; stream_image fx_frames] (new_FrameDecoder 100) = (fs, d) /\
    Forall (frame_ok 100) fs /\ failure_ d = Corrupt.
Proof.
  destruct (receive_all [stream_image fx_frames; [x00]; stream_image fx_frames] (new_FrameDecoder 100)) as [fs d] eqn:E.
  exists fs, d. split; [reflexivity |].
  destruct (only_frames_produced 100 [stream_image fx_frames; [x00]; stream_image fx_frames] fs d) as (H & _);
    [split; [discriminate | reflexivity] | repeat constructor; vm_compute; congruence | exact E |].
  split; [exact H |]. change d with (fs, d).2. rewrite <- E. vm_compute. reflexivity.
Defined.

(** A valid stream is refused when a chunk carries more than the room left: two frames whose
    payloads are within the bound, received together. *)
Theorem pipelined_frames_refused :
  let f := MkFrame MessageType.StatsRequest 0 (replicate 50 x00) in
  frame_ok 60 f /\
  (receive_all [stream_image [f]; stream_image [f]] (new_FrameDecoder 60)).1 = [f; f] /\
  failure_ (receive_all [stream_image [f; f]] (new_FrameDecoder 60)).2 = Oversized.
Proof. split_and!; try (vm_compute; reflexivity). split; [reflexivity | vm_compute; discriminate]. Qed.
