(* ===== verification/Session.v ===== *)
(** * Sessions

    Models [include/blackhole/protocol/session.hpp] and [src/protocol/session.cpp]: the
    bounded table of sessions, the binding of a session to one client identity and the
    strictly consecutive request numbers. Every entry point holds the table's mutex, so a
    run of the table is a sequence of operations. *)
From Stdlib Require Import Strings.String.
From S2P Require Import Prelude OrderedMap Core Checked Codec Hash Ids Domain Policy Fixtures.
Local Open Scope string_scope.
Local Open Scope list_scope.
Local Open Scope Z_scope.

(** include/blackhole/protocol/session.hpp:21-35 SessionRecord *)
Record SessionRecord := MkSession {
  sr_id : SessionId;
  client_boot : BootId;
  client_incarnation : IncarnationId;
  sr_last_seq : SessionSequence;
  established : WallNs;
  sr_label : Provenance.t;
  requests : Z;
  sr_rejected : Z;
  active : bool;
}.

(** include/blackhole/protocol/session.hpp:41-66 SessionTable *)
Record SessionTable := MkTable {
  st_policy_ : FencePolicy;
  sessions_ : list (SessionId * SessionRecord);
  established_ : Z;
  rejected_ : Z;
  counter_ : Z;
}.

(** include/blackhole/protocol/session.hpp:43 SessionTable::SessionTable *)
Definition new_SessionTable (policy : FencePolicy) : SessionTable := MkTable policy [] 0 0 0.

Definition count_rejected (t : SessionTable) : SessionTable :=
  MkTable (st_policy_ t) (sessions_ t) (established_ t) (incr (rejected_ t)) (counter_ t).
Definition with_sessions (m : list (SessionId * SessionRecord)) (t : SessionTable) : SessionTable :=
  MkTable (st_policy_ t) m (established_ t) (rejected_ t) (counter_ t).

(** [emplace]: an entry that is there stays. *)
Definition map_emplace (k : SessionId) (v : SessionRecord) (m : list (SessionId * SessionRecord)) :=
  match map_find k m with Some _ => m | None => map_insert k v m end.

(** The outcome, [out_id] and the table. src/protocol/session.cpp:7-33 SessionTable::establish *)
Definition establish (boot : BootId) (incarnation : IncarnationId) (label : Provenance.t) (now : WallNs)
  (t : SessionTable) : Outcome * SessionId * SessionTable :=
  if id_nil boot || id_nil incarnation then (Invalid, MkId 0, count_rejected t)
  else if max_sessions (st_policy_ t) <=? zlen (sessions_ t) then (Exhausted, MkId 0, count_rejected t)
  else
    let counter := incr (counter_ t) in
    let id := MkId (mix64 (mix64 (id_value boot) (id_value incarnation)) counter) in
    let rec := MkSession id boot incarnation (MkSeq 0) now label 0 0 true in
    (Ok, id, MkTable (st_policy_ t) (map_emplace id rec (sessions_ t)) (incr (established_ t)) (rejected_ t) counter).

Definition reject_record (r : SessionRecord) : SessionRecord :=
  MkSession (sr_id r) (client_boot r) (client_incarnation r) (sr_last_seq r) (established r) (sr_label r)
    (requests r) (incr (sr_rejected r)) (active r).
Definition accept_record (seq : SessionSequence) (r : SessionRecord) : SessionRecord :=
  MkSession (sr_id r) (client_boot r) (client_incarnation r) seq (established r) (sr_label r)
    (incr (requests r)) (sr_rejected r) (active r).

(** The outcome, the reason and the table. src/protocol/session.cpp:35-66 SessionTable::validate *)
Definition validate (id : SessionId) (boot : BootId) (incarnation : IncarnationId) (seq : SessionSequence)
  (t : SessionTable) : Outcome * ReasonCode.t * SessionTable :=
  match map_find id (sessions_ t) with
  | None => (Rejected, ReasonCode.PolicyRefused, t)
  | Some rec =>
      if negb (active rec) then (Rejected, ReasonCode.PolicyRefused, t)
      else if (boot != client_boot rec) || (incarnation != client_incarnation rec) then
        (Rejected, ReasonCode.SourceIncarnationChanged,
         count_rejected (with_sessions (map_insert id (reject_record rec) (sessions_ t)) t))
      else if negb (seq_value seq =? incr (seq_value (sr_last_seq rec))) then
        (Rejected,
         (if seq_value seq <=? seq_value (sr_last_seq rec) then ReasonCode.ReplayedSequence
          else ReasonCode.WindowViolation),
         count_rejected (with_sessions (map_insert id (reject_record rec) (sessions_ t)) t))
      else (Ok, ReasonCode.None, with_sessions (map_insert id (accept_record seq rec) (sessions_ t)) t)
  end.

(** src/protocol/session.cpp:68-75 SessionTable::release *)
Definition release (id : SessionId) (t : SessionTable) : SessionTable :=
  with_sessions (map_erase id (sessions_ t)) t.

(** src/protocol/session.cpp:77-80 SessionTable::clear *)
Definition st_clear (t : SessionTable) : SessionTable := with_sessions [] t.

(** src/protocol/session.cpp:82-85 SessionTable::size *)
Definition st_size (t : SessionTable) : Z := zlen (sessions_ t).

(** src/protocol/session.cpp:97-104 SessionTable::accounting_closed *)
Definition st_accounting_closed (t : SessionTable) : bool := map_count active (sessions_ t) <=? established_ t.

(** ** Runs of the table *)

Inductive SessionOp :=
| OpEstablish (boot : BootId) (incarnation : IncarnationId) (label : Provenance.t) (now : WallNs)
| OpValidate (id : SessionId) (boot : BootId) (incarnation : IncarnationId) (seq : SessionSequence)
| OpRelease (id : SessionId)
| OpClear.

Definition run_session (op : SessionOp) (t : SessionTable) : SessionTable :=
  match op with
  | OpEstablish b i l n => (establish b i l n t).2
  | OpValidate id b i q => (validate id b i q t).2
  | OpRelease id => release id t
  | OpClear => st_clear t
  end.

Inductive session_reachable (p : FencePolicy) : SessionTable -> Prop :=
| session_new : session_reachable p (new_SessionTable p)
| session_step op t : session_reachable p t -> session_reachable p (run_session op t).

(** What holds of every table: an ordered map of active records filed under their own ids,
    for clients with an identity, within the bound. *)
Record session_inv (p : FencePolicy) (t : SessionTable) : Prop := {
  si_policy : st_policy_ t = p;
  si_wf : map_wf (sessions_ t);
  si_bound : zlen (sessions_ t) <= Z.max 0 (max_sessions p);
  si_records : map_all (fun id r => sr_id r = id /\ active r = true /\ id_value (client_boot r) <> 0 /\
                                    id_value (client_incarnation r) <> 0) (sessions_ t);
}.

Lemma session_inv_update p t id r r' :
  session_inv p t -> map_find id (sessions_ t) = Some r -> sr_id r' = sr_id r -> active r' = active r ->
  client_boot r' = client_boot r -> client_incarnation r' = client_incarnation r ->
  session_inv p (with_sessions (map_insert id r' (sessions_ t)) t).
Proof.
  intros [H1 H2 H3 H4] Hf E1 E2 E3 E4. split; cbn [with_sessions sessions_ st_policy_]; [done | by apply map_wf_insert | |].
  - rewrite map_insert_size, Hf by done. lia.
  - apply map_all_insert; [exact H4 |]. rewrite E1, E2, E3, E4. by apply H4.
Qed.

Lemma session_inv_step p op t : session_inv p t -> session_inv p (run_session op t).
Proof.
  intros Hi. pose proof Hi as [H1 H2 H3 H4]. destruct op as [b i l n | id b i q | id |]; cbn [run_session].
  - unfold establish. destruct (id_nil b || id_nil i) eqn:En; [by split |].
    destruct (Z.leb_spec (max_sessions (st_policy_ t)) (zlen (sessions_ t))) as [| Hb]; [by split |].
    apply orb_false_iff in En as [E1 E2]. unfold id_nil in E1, E2. apply Z.eqb_neq in E1, E2. rewrite H1 in Hb.
    unfold map_emplace. cbn zeta. cbn [snd].
    match goal with |- context [map_find ?k _] => destruct (map_find k (sessions_ t)) eqn:Ef end; [by split |].
    split; cbn [sessions_ st_policy_]; [done | by apply map_wf_insert | |].
    + rewrite map_insert_size, Ef by done. lia.
    + by apply map_all_insert.
  - unfold validate. destruct (map_find id (sessions_ t)) as [r |] eqn:Ef; [| by split].
    destruct (active r); [| by split]. cbn [negb].
    destruct (_ || _); cbn [snd].
    { destruct (session_inv_update p t id r (reject_record r) Hi Ef) as [I1 I2 I3 I4]; try done. }
    destruct (negb _); cbn [snd].
    { destruct (session_inv_update p t id r (reject_record r) Hi Ef) as [I1 I2 I3 I4]; try done. }
    by apply (session_inv_update p t id r).
  - split; cbn [release with_sessions sessions_ st_policy_]; [done | by apply map_wf_erase | |].
    + assert (zlen (map_erase id (sessions_ t)) <= zlen (sessions_ t)) by (pose proof (map_erase_length id (sessions_ t)); unfold zlen; lia). lia.
    + intros k v Hf. destruct (decide (id = k)) as [-> | Hne].
      * by rewrite map_erase_find_eq in Hf.
      * rewrite map_erase_find_ne in Hf by done. by apply H4.
  - split; [done | done | cbn; rewrite zlen_nil; lia | by intros ? ?].
Qed.

Lemma session_reachable_inv p t : session_reachable p t -> session_inv p t.
Proof.
  induction 1 as [| op t _ IH]; [| by apply session_inv_step].
  split; [done | done | cbn; rewrite zlen_nil; lia | by intros ? ?].
Qed.

(** ** The requests of one session *)

Definition run_sessions (ops : list SessionOp) (t : SessionTable) : SessionTable :=
  foldl (fun t op => run_session op t) t ops.

(** The operations that end a session. *)
Definition ends (id : SessionId) (op : SessionOp) : bool :=
  match op with
  | OpRelease id' => id' == id
  | OpClear => true
  | _ => false
  end.

(** The identities and numbers of the requests of session [id] that were honoured. *)
Definition honoured (id : SessionId) (op : SessionOp) (t : SessionTable) : list (BootId * IncarnationId * Z) :=
  match op with
  | OpValidate id' b i q =>
      if (id' == id) && is_affirmative (validate id' b i q t).1.1 then [(b, i, seq_value q)] else []
  | _ => []
  end.
Fixpoint honoured_all (id : SessionId) (ops : list SessionOp) (t : SessionTable) : list (BootId * IncarnationId * Z) :=
  match ops with
  | [] => []
  | op :: ops => honoured id op t ++ honoured_all id ops (run_session op t)
  end.

(** An accepted request. *)
Lemma validate_Ok id b i q t :
  (validate id b i q t).1.1 = Ok <->
  exists r, map_find id (sessions_ t) = Some r /\ active r = true /\ b = client_boot r /\ i = client_incarnation r /\
    seq_value q = incr (seq_value (sr_last_seq r)).
Proof.
  unfold validate. destruct (map_find id (sessions_ t)) as [r |]; [| split; [done | by intros (? & ? & _)]].
  destruct (active r) eqn:Ea; cbn [negb]; [| split; [done | intros (? & [= <-] & Ha & _); congruence]].
  destruct (bool_decide_reflect (b = client_boot r)), (bool_decide_reflect (i = client_incarnation r)); cbn [negb orb fst];
    try (split; [done | by intros (? & [= <-] & _ & ? & ? & _)]).
  destruct (Z.eqb_spec (seq_value q) (incr (seq_value (sr_last_seq r)))); cbn [negb fst].
  - split; [| done]. intros _. exists r. by split_and!.
  - split; [done | by intros (? & [= <-] & _ & _ & _ & ?)].
Qed.

(** What one operation does to a session it does not end. *)
Lemma session_step_record p id op t r :
  session_inv p t -> map_find id (sessions_ t) = Some r -> ends id op = false ->
  exists r', map_find id (sessions_ (run_session op t)) = Some r' /\ client_boot r' = client_boot r /\
    client_incarnation r' = client_incarnation r /\
    ((honoured id op t = [] /\ sr_last_seq r' = sr_last_seq r) \/
     honoured id op t = [(client_boot r, client_incarnation r, incr (seq_value (sr_last_seq r)))] /\
     seq_value (sr_last_seq r') = incr (seq_value (sr_last_seq r))).
Proof.
  intros [_ Hwf _ _] Hf He. destruct op as [b i l n | id' b i q | id' |]; cbn [run_session honoured ends] in *.
  - exists r. unfold establish. destruct (_ || _); [by split_and!; try left |]. destruct (_ <=? _); [by split_and!; try left |].
    cbn zeta. cbn [snd sessions_]. unfold map_emplace.
    match goal with |- context [map_find ?k (sessions_ t)] => destruct (map_find k (sessions_ t)) eqn:E end;
      [by split_and!; try left |].
    split; [| by split_and!; try left]. rewrite map_find_insert_ne; [done |]. intros Hk. rewrite Hk in E. congruence.
  - destruct (bool_decide_reflect (id' = id)) as [-> | Hne]; cbn [andb].
    + destruct (is_affirmative (validate id b i q t).1.1) eqn:Eo.
      * apply is_affirmative_Ok, validate_Ok in Eo as (r0 & E0 & Ea & -> & -> & Eq). rewrite Hf in E0. injection E0 as <-.
        exists (accept_record q r). unfold validate. rewrite Hf, Ea, !beq_refl. cbn [negb orb].
        rewrite Eq, Z.eqb_refl. cbn [negb snd with_sessions sessions_]. rewrite map_find_insert_eq. split_and!; try done.
        right. split; [reflexivity | exact Eq].
      * apply is_affirmative_false in Eo. unfold validate in *. rewrite Hf in *.
        destruct (active r); cbn [negb] in *; [| exists r; by split_and!; try left].
        destruct (_ || _); [exists (reject_record r); cbn [snd count_rejected with_sessions sessions_];
          rewrite map_find_insert_eq; by split_and!; try left |].
        destruct (negb _); [exists (reject_record r); cbn [snd count_rejected with_sessions sessions_];
          rewrite map_find_insert_eq; by split_and!; try left | done].
    + exists r. split; [| by split_and!; try left]. unfold validate. destruct (map_find id' (sessions_ t)) as [r0 |]; [| done].
      destruct (active r0); cbn [negb]; [| done].
      repeat (destruct (_ || _) || destruct (negb _)); cbn [snd count_rejected with_sessions sessions_];
        by rewrite map_find_insert_ne.
  - exists r. apply bool_decide_eq_false in He. cbn [release with_sessions sessions_].
    rewrite map_erase_find_ne by done. by split_and!; try left.
  - done.
Qed.

Lemma honoured_history p ops : forall t id r,
  session_inv p t -> map_find id (sessions_ t) = Some r -> Forall (fun op => ends id op = false) ops ->
  0 <= seq_value (sr_last_seq r) -> seq_value (sr_last_seq r) + zlen ops < 2 ^ 64 ->
  exists r' n, map_find id (sessions_ (run_sessions ops t)) = Some r' /\
    client_boot r' = client_boot r /\ client_incarnation r' = client_incarnation r /\
    0 <= n <= zlen ops /\ seq_value (sr_last_seq r') = seq_value (sr_last_seq r) + n /\
    honoured_all id ops t =
    map (fun q => (client_boot r, client_incarnation r, q)) (seqZ (seq_value (sr_last_seq r) + 1) n).
Proof.
  induction ops as [| op ops IH]; intros t id r Hi Hf He H0 Hb.
  - exists r, 0. cbn. split_and!; done || lia.
  - apply Forall_cons in He as [He Hes]. rewrite zlen_cons in Hb. pose proof (zlen_nonneg ops).
    destruct (session_step_record p id op t r Hi Hf He) as (r1 & Hf1 & B1 & I1 & Hh).
    pose proof (session_inv_step p op t Hi) as Hi1.
    assert (incr (seq_value (sr_last_seq r)) = seq_value (sr_last_seq r) + 1) as Hincr
      by (unfold incr, u64_add; apply wrap_small; unfold in_u; lia).
    cbn [run_sessions foldl honoured_all]. destruct Hh as [[-> Hq] | [-> Hq]].
    + destruct (IH _ id r1 Hi1 Hf1 Hes ltac:(rewrite Hq; lia) ltac:(rewrite Hq; lia)) as (r' & n & F & B & I & Hn & L & A).
      exists r', n. rewrite zlen_cons, L, B, I, A, Hq, B1, I1. split_and!; done || lia.
    + rewrite Hincr in Hq |- *.
      destruct (IH _ id r1 Hi1 Hf1 Hes ltac:(lia) ltac:(lia)) as (r' & n & F & B & I & Hn & L & A).
      exists r', (1 + n). rewrite zlen_cons, L, B, I, A, Hq, B1, I1. split_and!; try done; try lia.
      rewrite (seqZ_cons _ (1 + n)) by lia. cbn [map app]. do 2 f_equal. f_equal; lia.
Qed.

(** ** Claims *)

(** One session, one client, requests in order: in any run of a reachable table in which
    a session is neither released nor cleared, the requests honoured on it all carry the
    identity it was established with, and their numbers are exactly the consecutive ones
    behind the last honoured before: none is repeated, skipped or reordered, whatever the
    other operations. *)
Theorem session_requests_consecutive p ops t id r :
  session_reachable p t -> map_find id (sessions_ t) = Some r -> Forall (fun op => ends id op = false) ops ->
  0 <= seq_value (sr_last_seq r) -> seq_value (sr_last_seq r) + zlen ops < 2 ^ 64 ->
  exists n, 0 <= n <= zlen ops /\
    honoured_all id ops t =
    map (fun q => (client_boot r, client_incarnation r, q)) (seqZ (seq_value (sr_last_seq r) + 1) n).
Proof.
  intros Hr Hf He H0 Hb. apply session_reachable_inv in Hr.
  destruct (honoured_history p ops t id r Hr Hf He H0 Hb) as (r' & n & _ & _ & _ & Hn & _ & A). by exists n.
Qed.

Definition fx_session_table : SessionTable :=
  run_session (OpEstablish (MkId 1) (MkId 1) Provenance.Synthetic fx_now) (new_SessionTable default_policy).
Definition fx_session : SessionId := (establish (MkId 1) (MkId 1) Provenance.Synthetic fx_now (new_SessionTable default_policy)).1.2.
Definition fx_session_ops : list SessionOp :=
  [OpValidate fx_session (MkId 1) (MkId 1) (MkSeq 1); OpValidate fx_session (MkId 1) (MkId 1) (MkSeq 1);
   OpValidate fx_session (MkId 2) (MkId 1) (MkSeq 2); OpEstablish (MkId 3) (MkId 3) Provenance.Synthetic fx_now;
   OpValidate fx_session (MkId 1) (MkId 1) (MkSeq 2)].

Example session_requests_consecutive_witness :
  exists n, 0 <= n <= 5 /\
    honoured_all fx_session fx_session_ops fx_session_table = map (fun q => (MkId 1, MkId 1, q)) (seqZ 1 n).
Proof.
  apply (session_requests_consecutive default_policy fx_session_ops fx_session_table fx_session
    (MkSession fx_session (MkId 1) (MkId 1) (MkSeq 0) fx_now Provenance.Synthetic 0 0 true)).
  - apply session_step, session_new.
  - vm_compute. reflexivity.
  - repeat constructor.
  - discriminate.
  - reflexivity.
Defined.

(** The identifier the next session of a client gets, and the record filed for it. *)
Definition next_session_id (t : SessionTable) (b : BootId) (i : IncarnationId) : SessionId :=
  MkId (mix64 (mix64 (id_value b) (id_value i)) (incr (counter_ t))).
Definition fresh_session (t : SessionTable) (b : BootId) (i : IncarnationId) (l : Provenance.t) (n : WallNs) :
  SessionRecord := MkSession (next_session_id t b i) b i (MkSeq 0) n l 0 0 true.

(** What an attempt to establish a session answers and leaves: a refusal only counts; a
    session is filed under its identifier beside the others, unless the identifier is the
    one of a live session, whose record then stays. *)
Record establish_spec (p : FencePolicy) (t : SessionTable) b i l n (o : Outcome * SessionId * SessionTable) : Prop := {
  es_ok : o.1.1 = Ok <-> id_value b <> 0 /\ id_value i <> 0 /\ zlen (sessions_ t) < max_sessions p;
  es_refused : o.1.1 <> Ok ->
    o.1.2 = MkId 0 /\ sessions_ o.2 = sessions_ t /\ rejected_ o.2 = incr (rejected_ t) /\
    established_ o.2 = established_ t;
  es_filed : o.1.1 = Ok -> map_find (next_session_id t b i) (sessions_ t) = None ->
    o.1.2 = next_session_id t b i /\ established_ o.2 = incr (established_ t) /\
    map_find o.1.2 (sessions_ o.2) = Some (fresh_session t b i l n) /\
    (forall k, k <> o.1.2 -> map_find k (sessions_ o.2) = map_find k (sessions_ t)) /\
    zlen (sessions_ o.2) = zlen (sessions_ t) + 1;
  es_collision : o.1.1 = Ok -> map_find (next_session_id t b i) (sessions_ t) <> None ->
    o.1.2 = next_session_id t b i /\ sessions_ o.2 = sessions_ t /\ established_ o.2 = incr (established_ t);
}.

Lemma establish_meets_spec p t b i l n :
  session_inv p t -> establish_spec p t b i l n (establish b i l n t).
Proof.
  intros [H1 Hw _ _]. unfold establish, id_nil. rewrite H1.
  destruct (Z.eqb_spec (id_value b) 0), (Z.eqb_spec (id_value i) 0), (Z.leb_spec (max_sessions p) (zlen (sessions_ t)));
    cbn [orb]; try (split; cbn [fst snd]; try done; split; [done | lia]).
  cbv zeta. change (MkId _) with (next_session_id t b i). change (MkSession _ _ _ _ _ _ _ _ _) with (fresh_session t b i l n).
  split; cbn [fst snd sessions_ established_]; [split; [lia | done] | done | |]; intros _ Hf; unfold map_emplace.
  - rewrite Hf. split_and!; [done | done | by rewrite map_find_insert_eq | | by rewrite map_insert_size, Hf by done].
    intros k Hk. by rewrite map_find_insert_ne.
  - by destruct (map_find _ _).
Qed.

(** C37: every reachable table stays within its bound, files every session under its own
    identifier, and holds only active sessions of clients with a boot and an incarnation;
    an attempt is answered [Ok] exactly when the client has both and there is room. Then the
    client's record is filed, new and alone, under the identifier it is given, unless the
    identifier derived for it is the one of a live session: that session's record stays and
    the client is given its identifier. A refused attempt changes no session. *)
Theorem session_table_bounded p t b i l n :
  session_reachable p t ->
  zlen (sessions_ t) <= Z.max 0 (max_sessions p) /\
  (forall id r, map_find id (sessions_ t) = Some r ->
     sr_id r = id /\ active r = true /\ id_value (client_boot r) <> 0 /\ id_value (client_incarnation r) <> 0) /\
  establish_spec p t b i l n (establish b i l n t).
Proof.
  intros Hr. apply session_reachable_inv in Hr as Hi. pose proof Hi as [_ _ H3 H4].
  split; [exact H3 |]. split; [exact H4 | by apply establish_meets_spec].
Qed.

Example session_table_bounded_witness :
  zlen (sessions_ fx_session_table) <= Z.max 0 (max_sessions default_policy) /\
  let '(o, id, t) := establish (MkId 4) (MkId 4) Provenance.Synthetic fx_now fx_session_table in
  o = Ok /\ map_find id (sessions_ t) = Some (fresh_session fx_session_table (MkId 4) (MkId 4) Provenance.Synthetic fx_now).
Proof.
  destruct (session_table_bounded default_policy fx_session_table (MkId 4) (MkId 4) Provenance.Synthetic fx_now) as (H1 & _ & [H2 _ H3 _]);
    [apply session_step, session_new |].
  split; [exact H1 |].
  assert ((establish (MkId 4) (MkId 4) Provenance.Synthetic fx_now fx_session_table).1.1 = Ok) as Ho
    by (apply H2; split; [discriminate |]; split; [discriminate | vm_compute; reflexivity]).
  destruct (H3 Ho) as (_ & _ & Hf & _); [vm_compute; reflexivity |].
  destruct (establish _ _ _ _ _) as [[o id] t]. split; [exact Ho | exact Hf].
Defined.

(** A client can choose a boot and an incarnation whose session identifier is that of a live
    session: the table reports a new session and hands out the identifier of the other
    client's, whose record stays, and releasing it ends that client's session. *)
Theorem chosen_identity_collides :
  let '(o, id, t) := establish (MkId 2) (MkId 18164797065848782346) Provenance.Synthetic fx_now fx_session_table in
  o = Ok /\ id = fx_session /\ zlen (sessions_ t) = 1 /\ established_ t = 2 /\
  map_find id (sessions_ t) = map_find fx_session (sessions_ fx_session_table) /\ sessions_ (release id t) = [].
Proof. vm_compute. split_and!; reflexivity. Qed.
