(* ===== verification/Messages.v ===== *)
(** * Protocol messages

    The request and response structures of [include/blackhole/protocol/messages.hpp] and
    their codecs of [src/protocol/messages.cpp]. A lineage entry has a codec of its own there,
    proved to be that of the snapshot ([Durable]). *)
From Stdlib Require Import Strings.String.
From S2P Require Import Prelude Core Checked Codec Counted Hash Ids Domain Policy Fixtures Ledger Localizer Fence Authority Record Durable.
Local Open Scope string_scope.
Local Open Scope list_scope.
Local Open Scope Z_scope.

(** include/blackhole/protocol/messages.hpp:214 kMaxDetailBytes *)
Definition kMaxDetailBytes : Z := 192.
(** include/blackhole/protocol/messages.hpp:215 kMaxClientNameBytes *)
Definition kMaxClientNameBytes : Z := 64.
(** include/blackhole/protocol/messages.hpp:216 kMaxLineagePage *)
Definition kMaxLineagePage : Z := 512.
(** include/blackhole/protocol/messages.hpp:217 kMaxProbesPerRequest *)
Definition kMaxProbesPerRequest : Z := kMaxLocalizationSets.

(** include/blackhole/protocol/messages.hpp:24-32 SessionToken *)
Record SessionToken := MkToken {
  tk_session : SessionId;
  tk_request : RequestId;
  tk_seq : SessionSequence;
  tk_client_boot : BootId;
  tk_client_incarnation : IncarnationId;
}.

(** src/protocol/messages.cpp:23-29 encode(SessionToken) *)
Definition encode_SessionToken (v : SessionToken) : Writer -> Writer :=
  seqw [encode (tk_session v);
        encode (tk_request v);
        encode (tk_seq v);
        encode (tk_client_boot v);
        encode (tk_client_incarnation v)].

(** src/protocol/messages.cpp:31-45 decode(SessionToken) *)
Definition decode_SessionToken : Decoder SessionToken :=
  tk_session_ ← decode (A := SessionId);
  tk_request_ ← decode (A := RequestId);
  tk_seq_ ← decode (A := SessionSequence);
  tk_client_boot_ ← decode (A := BootId);
  tk_client_incarnation_ ← decode (A := IncarnationId);
  mret (MkToken tk_session_ tk_request_ tk_seq_ tk_client_boot_ tk_client_incarnation_).

Definition image_SessionToken (v : SessionToken) : list byte :=
  concat [image (tk_session v);
          image (tk_request v);
          image (tk_seq v);
          image (tk_client_boot v);
          image (tk_client_incarnation v)].

Definition valid_SessionToken (v : SessionToken) : Prop :=
  valid (tk_session v) /\
  valid (tk_request v) /\
  valid (tk_seq v) /\
  valid (tk_client_boot v) /\
  valid (tk_client_incarnation v).

#[export] Instance Codec_SessionToken : Codec SessionToken := {
  encode := encode_SessionToken; decode := decode_SessionToken; image := image_SessionToken; valid := valid_SessionToken;
}.

#[export] Instance CodecLaws_SessionToken : CodecLaws SessionToken.
Proof. codec_laws encode_SessionToken decode_SessionToken image_SessionToken valid_SessionToken. Qed.

#[export] Instance CanonicalCodec_SessionToken : CanonicalCodec SessionToken.
Proof. codec_canonical decode_SessionToken image_SessionToken valid_SessionToken. Qed.

(** include/blackhole/protocol/messages.hpp:34-38 HelloRequest *)
Record HelloRequest := MkHelloRequest {
  hq_token : SessionToken;
  hq_client_name : list byte;
  hq_label : Provenance.t;
}.

(** src/protocol/messages.cpp:47-51 encode(HelloRequest) *)
Definition encode_HelloRequest (v : HelloRequest) : Writer -> Writer :=
  seqw [encode (hq_token v);
        w_string (hq_client_name v) kMaxClientNameBytes;
        w_enum8 (hq_label v)].

(** src/protocol/messages.cpp:53-65 decode(HelloRequest) *)
Definition decode_HelloRequest : Decoder HelloRequest :=
  hq_token_ ← decode (A := SessionToken);
  hq_client_name_ ← r_string kMaxClientNameBytes;
  hq_label_ ← r_enum8 (E := Provenance.t);
  mret (MkHelloRequest hq_token_ hq_client_name_ hq_label_).

Definition image_HelloRequest (v : HelloRequest) : list byte :=
  concat [image (hq_token v);
          prefixed (hq_client_name v);
          le_bytes 1 (to_raw (hq_label v))].

Definition valid_HelloRequest (v : HelloRequest) : Prop :=
  valid (hq_token v) /\
  zlen (hq_client_name v) <= kMaxClientNameBytes.

#[export] Instance Codec_HelloRequest : Codec HelloRequest := {
  encode := encode_HelloRequest; decode := decode_HelloRequest; image := image_HelloRequest; valid := valid_HelloRequest;
}.

#[export] Instance CodecLaws_HelloRequest : CodecLaws HelloRequest.
Proof. codec_laws encode_HelloRequest decode_HelloRequest image_HelloRequest valid_HelloRequest. Qed.

#[export] Instance CanonicalCodec_HelloRequest : CanonicalCodec HelloRequest.
Proof. codec_canonical decode_HelloRequest image_HelloRequest valid_HelloRequest. Qed.

(** include/blackhole/protocol/messages.hpp:40-49 HelloResponse *)
Record HelloResponse := MkHelloResponse {
  hr_session : SessionId;
  hr_server_boot : BootId;
  hr_server_incarnation : IncarnationId;
  hr_epoch : CoordinatorEpoch;
  hr_policy : PolicyVersion;
  hr_policy_fingerprint : Z;
  hr_protocol_version : Z;
  hr_label : Provenance.t;
}.

(** src/protocol/messages.cpp:67-76 encode(HelloResponse) *)
Definition encode_HelloResponse (v : HelloResponse) : Writer -> Writer :=
  seqw [encode (hr_session v);
        encode (hr_server_boot v);
        encode (hr_server_incarnation v);
        encode (hr_epoch v);
        encode (hr_policy v);
        w_u64 (hr_policy_fingerprint v);
        w_u16 (hr_protocol_version v);
        w_enum8 (hr_label v)].

(** src/protocol/messages.cpp:78-100 decode(HelloResponse) *)
Definition decode_HelloResponse : Decoder HelloResponse :=
  hr_session_ ← decode (A := SessionId);
  hr_server_boot_ ← decode (A := BootId);
  hr_server_incarnation_ ← decode (A := IncarnationId);
  hr_epoch_ ← decode (A := CoordinatorEpoch);
  hr_policy_ ← decode (A := PolicyVersion);
  hr_policy_fingerprint_ ← r_u64;
  hr_protocol_version_ ← r_u16;
  hr_label_ ← r_enum8 (E := Provenance.t);
  mret (MkHelloResponse hr_session_ hr_server_boot_ hr_server_incarnation_ hr_epoch_ hr_policy_ hr_policy_fingerprint_ hr_protocol_version_ hr_label_).

Definition image_HelloResponse (v : HelloResponse) : list byte :=
  concat [image (hr_session v);
          image (hr_server_boot v);
          image (hr_server_incarnation v);
          image (hr_epoch v);
          image (hr_policy v);
          le_bytes 8 (hr_policy_fingerprint v);
          le_bytes 2 (hr_protocol_version v);
          le_bytes 1 (to_raw (hr_label v))].

Definition valid_HelloResponse (v : HelloResponse) : Prop :=
  valid (hr_session v) /\
  valid (hr_server_boot v) /\
  valid (hr_server_incarnation v) /\
  valid (hr_epoch v) /\
  valid (hr_policy v) /\
  in_u64 (hr_policy_fingerprint v) /\
  in_u16 (hr_protocol_version v).

#[export] Instance Codec_HelloResponse : Codec HelloResponse := {
  encode := encode_HelloResponse; decode := decode_HelloResponse; image := image_HelloResponse; valid := valid_HelloResponse;
}.

#[export] Instance CodecLaws_HelloResponse : CodecLaws HelloResponse.
Proof. codec_laws encode_HelloResponse decode_HelloResponse image_HelloResponse valid_HelloResponse. Qed.

#[export] Instance CanonicalCodec_HelloResponse : CanonicalCodec HelloResponse.
Proof. codec_canonical decode_HelloResponse image_HelloResponse valid_HelloResponse. Qed.

(** include/blackhole/protocol/messages.hpp:51-54 SubmitEvidenceRequest *)
Record SubmitEvidenceRequest := MkSubmitRequest {
  sq_token : SessionToken;
  sq_evidence : DeliveryEvidence;
}.

(** src/protocol/messages.cpp:102-105 encode(SubmitEvidenceRequest) *)
Definition encode_SubmitEvidenceRequest (v : SubmitEvidenceRequest) : Writer -> Writer :=
  seqw [encode (sq_token v);
        encode (sq_evidence v)].

(** src/protocol/messages.cpp:107-115 decode(SubmitEvidenceRequest) *)
Definition decode_SubmitEvidenceRequest : Decoder SubmitEvidenceRequest :=
  sq_token_ ← decode (A := SessionToken);
  sq_evidence_ ← decode (A := DeliveryEvidence);
  mret (MkSubmitRequest sq_token_ sq_evidence_).

Definition image_SubmitEvidenceRequest (v : SubmitEvidenceRequest) : list byte :=
  concat [image (sq_token v);
          image (sq_evidence v)].

Definition valid_SubmitEvidenceRequest (v : SubmitEvidenceRequest) : Prop :=
  valid (sq_token v) /\
  valid (sq_evidence v).

#[export] Instance Codec_SubmitEvidenceRequest : Codec SubmitEvidenceRequest := {
  encode := encode_SubmitEvidenceRequest; decode := decode_SubmitEvidenceRequest; image := image_SubmitEvidenceRequest; valid := valid_SubmitEvidenceRequest;
}.

#[export] Instance CodecLaws_SubmitEvidenceRequest : CodecLaws SubmitEvidenceRequest.
Proof. codec_laws encode_SubmitEvidenceRequest decode_SubmitEvidenceRequest image_SubmitEvidenceRequest valid_SubmitEvidenceRequest. Qed.

#[export] Instance CanonicalCodec_SubmitEvidenceRequest : CanonicalCodec SubmitEvidenceRequest.
Proof. codec_canonical decode_SubmitEvidenceRequest image_SubmitEvidenceRequest valid_SubmitEvidenceRequest. Qed.

(** include/blackhole/protocol/messages.hpp:56-60 SubmitEvidenceResponse *)
Record SubmitEvidenceResponse := MkSubmitResponse {
  sr_outcome : Outcome;
  sr_admission : EvidenceAdmission.t;
  sr_reason : ReasonCode.t;
}.

(** src/protocol/messages.cpp:117-121 encode(SubmitEvidenceResponse) *)
Definition encode_SubmitEvidenceResponse (v : SubmitEvidenceResponse) : Writer -> Writer :=
  seqw [w_enum8 (sr_outcome v);
        w_enum8 (sr_admission v);
        w_enum16 (sr_reason v)].

(** src/protocol/messages.cpp:123-139 decode(SubmitEvidenceResponse) *)
Definition decode_SubmitEvidenceResponse : Decoder SubmitEvidenceResponse :=
  sr_outcome_ ← r_enum8 (E := Outcome);
  sr_admission_ ← r_enum8 (E := EvidenceAdmission.t);
  sr_reason_ ← r_enum16 (E := ReasonCode.t);
  mret (MkSubmitResponse sr_outcome_ sr_admission_ sr_reason_).

Definition image_SubmitEvidenceResponse (v : SubmitEvidenceResponse) : list byte :=
  concat [le_bytes 1 (to_raw (sr_outcome v));
          le_bytes 1 (to_raw (sr_admission v));
          le_bytes 2 (to_raw (sr_reason v))].

Definition valid_SubmitEvidenceResponse (v : SubmitEvidenceResponse) : Prop :=
  True.

#[export] Instance Codec_SubmitEvidenceResponse : Codec SubmitEvidenceResponse := {
  encode := encode_SubmitEvidenceResponse; decode := decode_SubmitEvidenceResponse; image := image_SubmitEvidenceResponse; valid := valid_SubmitEvidenceResponse;
}.

#[export] Instance CodecLaws_SubmitEvidenceResponse : CodecLaws SubmitEvidenceResponse.
Proof. codec_laws encode_SubmitEvidenceResponse decode_SubmitEvidenceResponse image_SubmitEvidenceResponse valid_SubmitEvidenceResponse. Qed.

#[export] Instance CanonicalCodec_SubmitEvidenceResponse : CanonicalCodec SubmitEvidenceResponse.
Proof. codec_canonical decode_SubmitEvidenceResponse image_SubmitEvidenceResponse valid_SubmitEvidenceResponse. Qed.

(** include/blackhole/protocol/messages.hpp:62-66 EvaluateRequest *)
Record EvaluateRequest := MkEvaluateRequest {
  eq_token : SessionToken;
  eq_scope : Scope;
  eq_gens : GenerationVector;
}.

(** src/protocol/messages.cpp:141-145 encode(EvaluateRequest) *)
Definition encode_EvaluateRequest (v : EvaluateRequest) : Writer -> Writer :=
  seqw [encode (eq_token v);
        encode (eq_scope v);
        encode (eq_gens v)].

(** src/protocol/messages.cpp:147-157 decode(EvaluateRequest) *)
Definition decode_EvaluateRequest : Decoder EvaluateRequest :=
  eq_token_ ← decode (A := SessionToken);
  eq_scope_ ← decode (A := Scope);
  eq_gens_ ← decode (A := GenerationVector);
  mret (MkEvaluateRequest eq_token_ eq_scope_ eq_gens_).

Definition image_EvaluateRequest (v : EvaluateRequest) : list byte :=
  concat [image (eq_token v);
          image (eq_scope v);
          image (eq_gens v)].

Definition valid_EvaluateRequest (v : EvaluateRequest) : Prop :=
  valid (eq_token v) /\
  valid (eq_scope v) /\
  valid (eq_gens v).

#[export] Instance Codec_EvaluateRequest : Codec EvaluateRequest := {
  encode := encode_EvaluateRequest; decode := decode_EvaluateRequest; image := image_EvaluateRequest; valid := valid_EvaluateRequest;
}.

#[export] Instance CodecLaws_EvaluateRequest : CodecLaws EvaluateRequest.
Proof. codec_laws encode_EvaluateRequest decode_EvaluateRequest image_EvaluateRequest valid_EvaluateRequest. Qed.

#[export] Instance CanonicalCodec_EvaluateRequest : CanonicalCodec EvaluateRequest.
Proof. codec_canonical decode_EvaluateRequest image_EvaluateRequest valid_EvaluateRequest. Qed.

(** include/blackhole/protocol/messages.hpp:68-71 EvaluateResponse *)
Record EvaluateResponse := MkEvaluateResponse {
  er_outcome : Outcome;
  er_decision : Decision;
}.

(** src/protocol/messages.cpp:159-162 encode(EvaluateResponse) *)
Definition encode_EvaluateResponse (v : EvaluateResponse) : Writer -> Writer :=
  seqw [w_enum8 (er_outcome v);
        encode (er_decision v)].

(** src/protocol/messages.cpp:164-174 decode(EvaluateResponse) *)
Definition decode_EvaluateResponse : Decoder EvaluateResponse :=
  er_outcome_ ← r_enum8 (E := Outcome);
  er_decision_ ← decode (A := Decision);
  mret (MkEvaluateResponse er_outcome_ er_decision_).

Definition image_EvaluateResponse (v : EvaluateResponse) : list byte :=
  concat [le_bytes 1 (to_raw (er_outcome v));
          image (er_decision v)].

Definition valid_EvaluateResponse (v : EvaluateResponse) : Prop :=
  valid (er_decision v).

#[export] Instance Codec_EvaluateResponse : Codec EvaluateResponse := {
  encode := encode_EvaluateResponse; decode := decode_EvaluateResponse; image := image_EvaluateResponse; valid := valid_EvaluateResponse;
}.

#[export] Instance CodecLaws_EvaluateResponse : CodecLaws EvaluateResponse.
Proof. codec_laws encode_EvaluateResponse decode_EvaluateResponse image_EvaluateResponse valid_EvaluateResponse. Qed.

(** ** Probes: at most [kMaxProbesPerRequest] of nine bytes *)

(** src/protocol/messages.cpp:187-190 encode(LocalizeRequest) (one probe) *)
Definition encode_HopProbe (v : HopProbe) : Writer -> Writer :=
  seqw [w_u32 (p_begin v);
        w_u32 (p_end v);
        w_boolean (success v)].

(** src/protocol/messages.cpp:210-217 decode(LocalizeRequest) (one probe) *)
Definition decode_HopProbe : Decoder HopProbe :=
  p_begin_ ← r_u32;
  p_end_ ← r_u32;
  success_ ← r_boolean;
  mret (MkProbe p_begin_ p_end_ success_).

Definition image_HopProbe (v : HopProbe) : list byte :=
  concat [le_bytes 4 (p_begin v);
          le_bytes 4 (p_end v);
          le_bytes 1 (Z.b2z (success v))].

Definition valid_HopProbe (v : HopProbe) : Prop :=
  in_u32 (p_begin v) /\
  in_u32 (p_end v).

#[export] Instance Codec_HopProbe : Codec HopProbe := {
  encode := encode_HopProbe; decode := decode_HopProbe; image := image_HopProbe; valid := valid_HopProbe;
}.

#[export] Instance CodecLaws_HopProbe : CodecLaws HopProbe.
Proof. codec_laws encode_HopProbe decode_HopProbe image_HopProbe valid_HopProbe. Qed.

#[export] Instance CanonicalCodec_HopProbe : CanonicalCodec HopProbe.
Proof. codec_canonical decode_HopProbe image_HopProbe valid_HopProbe. Qed.

(** A list over the bound is written as the count 0xFFFFFFFF, which every decoder refuses.
    src/protocol/messages.cpp:181-191 encode(LocalizeRequest) (probes) *)
Definition w_probes (l : list HopProbe) : Writer -> Writer :=
  if kMaxProbesPerRequest <? zlen l then w_u32 (2 ^ 32 - 1) else w_counted encode l.

(** src/protocol/messages.cpp:204-218 decode(LocalizeRequest) (probes) *)
Definition r_probes : Decoder (list HopProbe) := r_counted decode kMaxProbesPerRequest 9.

Lemma probe_items : in_u32 kMaxProbesPerRequest.
Proof. vm_compute. split; [discriminate | reflexivity]. Qed.
Lemma probe_size (p : HopProbe) : valid p -> 9 <= zlen (image p).
Proof.
  intros _. cbn [image Codec_HopProbe]. unfold image_HopProbe. cbn [concat]. rewrite !zlen_app, !zlen_le_bytes, zlen_nil. lia.
Qed.
Lemma emits_probes l : counted_ok valid kMaxProbesPerRequest l -> Emits (w_probes l) (counted image l).
Proof.
  intros Hl. pose proof Hl as [Hn _]. unfold w_probes.
  destruct (Z.ltb_spec kMaxProbesPerRequest (zlen l)); [lia |]. exact (emits_counted_codec kMaxProbesPerRequest l probe_items Hl).
Qed.
Lemma reads_probes l : counted_ok valid kMaxProbesPerRequest l -> Reads r_probes (counted image l) l.
Proof. apply reads_counted_codec; [exact probe_items | exact probe_size]. Qed.
Lemma accepts_probes : Accepts r_probes (fun l bs => counted_ok valid kMaxProbesPerRequest l /\ bs = counted image l).
Proof. apply accepts_counted_codec; exact _. Qed.
Lemma sticky_probes : Sticky r_probes. Proof. apply sticky_counted. Qed.
Lemma total_probes : Total r_probes. Proof. apply total_counted_codec. Qed.

#[export] Hint Resolve emits_probes reads_probes accepts_probes sticky_probes total_probes : codec_ext.

(** include/blackhole/protocol/messages.hpp:73-79 LocalizeRequest *)
Record LocalizeRequest := MkLocalizeRequest {
  lq_token : SessionToken;
  lq_scope : Scope;
  lq_gens : GenerationVector;
  lq_hop_count : Z;
  lq_probes : list HopProbe;
}.

(** src/protocol/messages.cpp:176-191 encode(LocalizeRequest) *)
Definition encode_LocalizeRequest (v : LocalizeRequest) : Writer -> Writer :=
  seqw [encode (lq_token v);
        encode (lq_scope v);
        encode (lq_gens v);
        w_u32 (lq_hop_count v);
        w_probes (lq_probes v)].

(** src/protocol/messages.cpp:193-221 decode(LocalizeRequest) *)
Definition decode_LocalizeRequest : Decoder LocalizeRequest :=
  lq_token_ ← decode (A := SessionToken);
  lq_scope_ ← decode (A := Scope);
  lq_gens_ ← decode (A := GenerationVector);
  lq_hop_count_ ← r_u32;
  lq_probes_ ← r_probes;
  mret (MkLocalizeRequest lq_token_ lq_scope_ lq_gens_ lq_hop_count_ lq_probes_).

Definition image_LocalizeRequest (v : LocalizeRequest) : list byte :=
  concat [image (lq_token v);
          image (lq_scope v);
          image (lq_gens v);
          le_bytes 4 (lq_hop_count v);
          counted image (lq_probes v)].

Definition valid_LocalizeRequest (v : LocalizeRequest) : Prop :=
  valid (lq_token v) /\
  valid (lq_scope v) /\
  valid (lq_gens v) /\
  in_u32 (lq_hop_count v) /\
  counted_ok valid kMaxProbesPerRequest (lq_probes v).

#[export] Instance Codec_LocalizeRequest : Codec LocalizeRequest := {
  encode := encode_LocalizeRequest; decode := decode_LocalizeRequest; image := image_LocalizeRequest; valid := valid_LocalizeRequest;
}.

#[export] Instance CodecLaws_LocalizeRequest : CodecLaws LocalizeRequest.
Proof. codec_laws encode_LocalizeRequest decode_LocalizeRequest image_LocalizeRequest valid_LocalizeRequest. Qed.

#[export] Instance CanonicalCodec_LocalizeRequest : CanonicalCodec LocalizeRequest.
Proof. codec_canonical decode_LocalizeRequest image_LocalizeRequest valid_LocalizeRequest. Qed.

(** include/blackhole/protocol/messages.hpp:81-84 LocalizeResponse *)
Record LocalizeResponse := MkLocalizeResponse {
  lr_outcome : Outcome;
  lr_decision : Decision;
}.

(** src/protocol/messages.cpp:223-226 encode(LocalizeResponse) *)
Definition encode_LocalizeResponse (v : LocalizeResponse) : Writer -> Writer :=
  seqw [w_enum8 (lr_outcome v);
        encode (lr_decision v)].

(** src/protocol/messages.cpp:228-238 decode(LocalizeResponse) *)
Definition decode_LocalizeResponse : Decoder LocalizeResponse :=
  lr_outcome_ ← r_enum8 (E := Outcome);
  lr_decision_ ← decode (A := Decision);
  mret (MkLocalizeResponse lr_outcome_ lr_decision_).

Definition image_LocalizeResponse (v : LocalizeResponse) : list byte :=
  concat [le_bytes 1 (to_raw (lr_outcome v));
          image (lr_decision v)].

Definition valid_LocalizeResponse (v : LocalizeResponse) : Prop :=
  valid (lr_decision v).

#[export] Instance Codec_LocalizeResponse : Codec LocalizeResponse := {
  encode := encode_LocalizeResponse; decode := decode_LocalizeResponse; image := image_LocalizeResponse; valid := valid_LocalizeResponse;
}.

#[export] Instance CodecLaws_LocalizeResponse : CodecLaws LocalizeResponse.
Proof. codec_laws encode_LocalizeResponse decode_LocalizeResponse image_LocalizeResponse valid_LocalizeResponse. Qed.

(** include/blackhole/protocol/messages.hpp:86-90 AckFenceRequest *)
Record AckFenceRequest := MkAckRequest {
  aq_token : SessionToken;
  aq_fence : FenceId;
  aq_downstream : EvidenceSourceId;
}.

(** src/protocol/messages.cpp:240-244 encode(AckFenceRequest) *)
Definition encode_AckFenceRequest (v : AckFenceRequest) : Writer -> Writer :=
  seqw [encode (aq_token v);
        encode (aq_fence v);
        encode (aq_downstream v)].

(** src/protocol/messages.cpp:246-256 decode(AckFenceRequest) *)
Definition decode_AckFenceRequest : Decoder AckFenceRequest :=
  aq_token_ ← decode (A := SessionToken);
  aq_fence_ ← decode (A := FenceId);
  aq_downstream_ ← decode (A := EvidenceSourceId);
  mret (MkAckRequest aq_token_ aq_fence_ aq_downstream_).

Definition image_AckFenceRequest (v : AckFenceRequest) : list byte :=
  concat [image (aq_token v);
          image (aq_fence v);
          image (aq_downstream v)].

Definition valid_AckFenceRequest (v : AckFenceRequest) : Prop :=
  valid (aq_token v) /\
  valid (aq_fence v) /\
  valid (aq_downstream v).

#[export] Instance Codec_AckFenceRequest : Codec AckFenceRequest := {
  encode := encode_AckFenceRequest; decode := decode_AckFenceRequest; image := image_AckFenceRequest; valid := valid_AckFenceRequest;
}.

#[export] Instance CodecLaws_AckFenceRequest : CodecLaws AckFenceRequest.
Proof. codec_laws encode_AckFenceRequest decode_AckFenceRequest image_AckFenceRequest valid_AckFenceRequest. Qed.

#[export] Instance CanonicalCodec_AckFenceRequest : CanonicalCodec AckFenceRequest.
Proof. codec_canonical decode_AckFenceRequest image_AckFenceRequest valid_AckFenceRequest. Qed.

(** include/blackhole/protocol/messages.hpp:92-95 AckFenceResponse *)
Record AckFenceResponse := MkAckResponse {
  ar_outcome : Outcome;
  ar_reason : ReasonCode.t;
}.

(** src/protocol/messages.cpp:258-261 encode(AckFenceResponse) *)
Definition encode_AckFenceResponse (v : AckFenceResponse) : Writer -> Writer :=
  seqw [w_enum8 (ar_outcome v);
        w_enum16 (ar_reason v)].

(** src/protocol/messages.cpp:263-275 decode(AckFenceResponse) *)
Definition decode_AckFenceResponse : Decoder AckFenceResponse :=
  ar_outcome_ ← r_enum8 (E := Outcome);
  ar_reason_ ← r_enum16 (E := ReasonCode.t);
  mret (MkAckResponse ar_outcome_ ar_reason_).

Definition image_AckFenceResponse (v : AckFenceResponse) : list byte :=
  concat [le_bytes 1 (to_raw (ar_outcome v));
          le_bytes 2 (to_raw (ar_reason v))].

Definition valid_AckFenceResponse (v : AckFenceResponse) : Prop :=
  True.

#[export] Instance Codec_AckFenceResponse : Codec AckFenceResponse := {
  encode := encode_AckFenceResponse; decode := decode_AckFenceResponse; image := image_AckFenceResponse; valid := valid_AckFenceResponse;
}.

#[export] Instance CodecLaws_AckFenceResponse : CodecLaws AckFenceResponse.
Proof. codec_laws encode_AckFenceResponse decode_AckFenceResponse image_AckFenceResponse valid_AckFenceResponse. Qed.

#[export] Instance CanonicalCodec_AckFenceResponse : CanonicalCodec AckFenceResponse.
Proof. codec_canonical decode_AckFenceResponse image_AckFenceResponse valid_AckFenceResponse. Qed.

(** include/blackhole/protocol/messages.hpp:97-102 ReportEffectRequest *)
Record ReportEffectRequest := MkEffectRequest {
  fq_token : SessionToken;
  fq_fence : FenceId;
  fq_downstream : EvidenceSourceId;
  fq_verified : bool;
}.

(** src/protocol/messages.cpp:277-282 encode(ReportEffectRequest) *)
Definition encode_ReportEffectRequest (v : ReportEffectRequest) : Writer -> Writer :=
  seqw [encode (fq_token v);
        encode (fq_fence v);
        encode (fq_downstream v);
        w_boolean (fq_verified v)].

(** src/protocol/messages.cpp:284-296 decode(ReportEffectRequest) *)
Definition decode_ReportEffectRequest : Decoder ReportEffectRequest :=
  fq_token_ ← decode (A := SessionToken);
  fq_fence_ ← decode (A := FenceId);
  fq_downstream_ ← decode (A := EvidenceSourceId);
  fq_verified_ ← r_boolean;
  mret (MkEffectRequest fq_token_ fq_fence_ fq_downstream_ fq_verified_).

Definition image_ReportEffectRequest (v : ReportEffectRequest) : list byte :=
  concat [image (fq_token v);
          image (fq_fence v);
          image (fq_downstream v);
          le_bytes 1 (Z.b2z (fq_verified v))].

Definition valid_ReportEffectRequest (v : ReportEffectRequest) : Prop :=
  valid (fq_token v) /\
  valid (fq_fence v) /\
  valid (fq_downstream v).

#[export] Instance Codec_ReportEffectRequest : Codec ReportEffectRequest := {
  encode := encode_ReportEffectRequest; decode := decode_ReportEffectRequest; image := image_ReportEffectRequest; valid := valid_ReportEffectRequest;
}.

#[export] Instance CodecLaws_ReportEffectRequest : CodecLaws ReportEffectRequest.
Proof. codec_laws encode_ReportEffectRequest decode_ReportEffectRequest image_ReportEffectRequest valid_ReportEffectRequest. Qed.

#[export] Instance CanonicalCodec_ReportEffectRequest : CanonicalCodec ReportEffectRequest.
Proof. codec_canonical decode_ReportEffectRequest image_ReportEffectRequest valid_ReportEffectRequest. Qed.

(** include/blackhole/protocol/messages.hpp:104-107 ReportEffectResponse *)
Record ReportEffectResponse := MkEffectResponse {
  fr_outcome : Outcome;
  fr_reason : ReasonCode.t;
}.

(** src/protocol/messages.cpp:298-301 encode(ReportEffectResponse) *)
Definition encode_ReportEffectResponse (v : ReportEffectResponse) : Writer -> Writer :=
  seqw [w_enum8 (fr_outcome v);
        w_enum16 (fr_reason v)].

(** src/protocol/messages.cpp:303-315 decode(ReportEffectResponse) *)
Definition decode_ReportEffectResponse : Decoder ReportEffectResponse :=
  fr_outcome_ ← r_enum8 (E := Outcome);
  fr_reason_ ← r_enum16 (E := ReasonCode.t);
  mret (MkEffectResponse fr_outcome_ fr_reason_).

Definition image_ReportEffectResponse (v : ReportEffectResponse) : list byte :=
  concat [le_bytes 1 (to_raw (fr_outcome v));
          le_bytes 2 (to_raw (fr_reason v))].

Definition valid_ReportEffectResponse (v : ReportEffectResponse) : Prop :=
  True.

#[export] Instance Codec_ReportEffectResponse : Codec ReportEffectResponse := {
  encode := encode_ReportEffectResponse; decode := decode_ReportEffectResponse; image := image_ReportEffectResponse; valid := valid_ReportEffectResponse;
}.

#[export] Instance CodecLaws_ReportEffectResponse : CodecLaws ReportEffectResponse.
Proof. codec_laws encode_ReportEffectResponse decode_ReportEffectResponse image_ReportEffectResponse valid_ReportEffectResponse. Qed.

#[export] Instance CanonicalCodec_ReportEffectResponse : CanonicalCodec ReportEffectResponse.
Proof. codec_canonical decode_ReportEffectResponse image_ReportEffectResponse valid_ReportEffectResponse. Qed.

(** include/blackhole/protocol/messages.hpp:109-113 RestoreRequest *)
Record RestoreRequest := MkRestoreRequest {
  rq_token : SessionToken;
  rq_scope : Scope;
  rq_gens : GenerationVector;
}.

(** src/protocol/messages.cpp:317-321 encode(RestoreRequest) *)
Definition encode_RestoreRequest (v : RestoreRequest) : Writer -> Writer :=
  seqw [encode (rq_token v);
        encode (rq_scope v);
        encode (rq_gens v)].

(** src/protocol/messages.cpp:323-333 decode(RestoreRequest) *)
Definition decode_RestoreRequest : Decoder RestoreRequest :=
  rq_token_ ← decode (A := SessionToken);
  rq_scope_ ← decode (A := Scope);
  rq_gens_ ← decode (A := GenerationVector);
  mret (MkRestoreRequest rq_token_ rq_scope_ rq_gens_).

Definition image_RestoreRequest (v : RestoreRequest) : list byte :=
  concat [image (rq_token v);
          image (rq_scope v);
          image (rq_gens v)].

Definition valid_RestoreRequest (v : RestoreRequest) : Prop :=
  valid (rq_token v) /\
  valid (rq_scope v) /\
  valid (rq_gens v).

#[export] Instance Codec_RestoreRequest : Codec RestoreRequest := {
  encode := encode_RestoreRequest; decode := decode_RestoreRequest; image := image_RestoreRequest; valid := valid_RestoreRequest;
}.

#[export] Instance CodecLaws_RestoreRequest : CodecLaws RestoreRequest.
Proof. codec_laws encode_RestoreRequest decode_RestoreRequest image_RestoreRequest valid_RestoreRequest. Qed.

#[export] Instance CanonicalCodec_RestoreRequest : CanonicalCodec RestoreRequest.
Proof. codec_canonical decode_RestoreRequest image_RestoreRequest valid_RestoreRequest. Qed.

(** include/blackhole/protocol/messages.hpp:115-118 RestoreResponse *)
Record RestoreResponse := MkRestoreResponse {
  rr_outcome : Outcome;
  rr_decision : Decision;
}.

(** src/protocol/messages.cpp:335-338 encode(RestoreResponse) *)
Definition encode_RestoreResponse (v : RestoreResponse) : Writer -> Writer :=
  seqw [w_enum8 (rr_outcome v);
        encode (rr_decision v)].

(** src/protocol/messages.cpp:340-350 decode(RestoreResponse) *)
Definition decode_RestoreResponse : Decoder RestoreResponse :=
  rr_outcome_ ← r_enum8 (E := Outcome);
  rr_decision_ ← decode (A := Decision);
  mret (MkRestoreResponse rr_outcome_ rr_decision_).

Definition image_RestoreResponse (v : RestoreResponse) : list byte :=
  concat [le_bytes 1 (to_raw (rr_outcome v));
          image (rr_decision v)].

Definition valid_RestoreResponse (v : RestoreResponse) : Prop :=
  valid (rr_decision v).

#[export] Instance Codec_RestoreResponse : Codec RestoreResponse := {
  encode := encode_RestoreResponse; decode := decode_RestoreResponse; image := image_RestoreResponse; valid := valid_RestoreResponse;
}.

#[export] Instance CodecLaws_RestoreResponse : CodecLaws RestoreResponse.
Proof. codec_laws encode_RestoreResponse decode_RestoreResponse image_RestoreResponse valid_RestoreResponse. Qed.

(** ** Lineage pages: at most [kMaxLineagePage] entries of at least 32 bytes *)

(** The page limit, refused above the bound. src/protocol/messages.cpp:417-419 decode(LineageRequest) (limit) *)
Definition r_limit : Decoder Z :=
  v ← r_u32; ensure (negb (kMaxLineagePage <? v)) Oversized ;; mret v.

Lemma emits_limit v : 0 <= v <= kMaxLineagePage -> Emits (w_u32 v) (le_bytes 4 v).
Proof. intros _. apply emits_u32. Qed.
Lemma reads_limit v : 0 <= v <= kMaxLineagePage -> Reads r_limit (le_bytes 4 v) v.
Proof.
  intros Hv. unfold r_limit, kMaxLineagePage in *. eapply reads_bind_nil; [apply reads_u32; unfold in_u; lia |].
  apply reads_ensure; [apply negb_true_iff, Z.ltb_ge; lia | apply reads_ret].
Qed.
Lemma accepts_limit : Accepts r_limit (fun v bs => 0 <= v <= kMaxLineagePage /\ bs = le_bytes 4 v).
Proof.
  unfold r_limit. eapply accepts_bind; [apply accepts_u32 |]. intros v b [Hv ->].
  apply accepts_ensure. intros He. apply accepts_ret. bool_prop. rewrite app_nil_r. unfold in_u in Hv. split; [lia | done].
Qed.
Lemma sticky_limit : Sticky r_limit. Proof. apply sticky_bind, sticky_u32. Qed.
Lemma total_limit : Total r_limit.
Proof.
  apply total_bind; [apply total_u32 | intros]. apply total_bind; [by apply total_ensure | intros]. apply total_ret.
Qed.

(** src/protocol/messages.cpp:352-366 encode(LineageEntry) *)
Definition encode_entry (v : LineageEntry) : Writer -> Writer :=
  seqw [w_enum16 (ln_type v);
        encode (ln_seq v);
        encode (ln_at v);
        encode (ln_decision v);
        encode (ln_fence v);
        encode (ln_scope v);
        encode (ln_gens v);
        w_enum8 (ln_outcome v);
        w_enum16 (ln_classification v);
        w_enum16 (ln_reason v);
        encode (ln_boot v);
        encode (ln_incarnation v);
        w_boolean (ln_from_prior v)].

(** src/protocol/messages.cpp:368-406 decode(LineageEntry) *)
Definition decode_entry : Decoder LineageEntry :=
  type ← r_enum16 (E := RecordType.t);
  seq ← decode (A := RecordSequence);
  at_ ← decode (A := WallNs);
  decision ← decode (A := DecisionId);
  fence ← decode (A := FenceId);
  scope ← decode (A := Scope);
  gens ← decode (A := GenerationVector);
  outcome ← r_enum8 (E := Outcome);
  cls ← r_enum16 (E := Classification.t);
  reason ← r_enum16 (E := ReasonCode.t);
  boot ← decode (A := BootId);
  incarnation ← decode (A := IncarnationId);
  from_prior ← r_boolean;
  mret (MkLineage type seq at_ decision fence scope gens outcome cls reason boot incarnation from_prior).

(** The wire and the snapshot have one format for an entry. *)
Lemma entry_codec_shared : encode_entry = encode (A := LineageEntry) /\ decode_entry = decode (A := LineageEntry).
Proof.
  split; cbn [encode decode Codec_LineageEntry].
  - unfold encode_entry, encode_LineageEntry. reflexivity.
  - unfold decode_entry, decode_LineageEntry. reflexivity.
Qed.

(** src/protocol/messages.cpp:436-450 decode(LineageResponse) (entries) *)
Definition r_page : Decoder (list LineageEntry) := r_counted decode_entry kMaxLineagePage 32.

Lemma page_items : in_u32 kMaxLineagePage.
Proof. vm_compute. split; [discriminate | reflexivity]. Qed.
Lemma emits_page l : counted_ok valid kMaxLineagePage l -> Emits (w_counted encode_entry l) (counted image l).
Proof. rewrite (proj1 entry_codec_shared). apply emits_counted_codec, page_items. Qed.
Lemma reads_page l : counted_ok valid kMaxLineagePage l -> Reads r_page (counted image l) l.
Proof. unfold r_page. rewrite (proj2 entry_codec_shared). apply reads_counted_codec; [exact page_items | exact lineage_size]. Qed.
Lemma accepts_page : Accepts r_page (fun l bs => counted_ok valid kMaxLineagePage l /\ bs = counted image l).
Proof. unfold r_page. rewrite (proj2 entry_codec_shared). apply accepts_counted_codec; exact _. Qed.
Lemma sticky_page : Sticky r_page. Proof. apply sticky_counted. Qed.
Lemma total_page : Total r_page. Proof. unfold r_page. rewrite (proj2 entry_codec_shared). apply total_counted_codec. Qed.

#[export] Hint Resolve emits_limit reads_limit accepts_limit sticky_limit total_limit
  emits_page reads_page accepts_page sticky_page total_page : codec_ext.

(** include/blackhole/protocol/messages.hpp:120-123 LineageRequest *)
Record LineageRequest := MkLineageRequest {
  nq_token : SessionToken;
  nq_limit : Z;
}.

(** src/protocol/messages.cpp:408-411 encode(LineageRequest) *)
Definition encode_LineageRequest (v : LineageRequest) : Writer -> Writer :=
  seqw [encode (nq_token v);
        w_u32 (nq_limit v)].

(** src/protocol/messages.cpp:413-422 decode(LineageRequest) *)
Definition decode_LineageRequest : Decoder LineageRequest :=
  nq_token_ ← decode (A := SessionToken);
  nq_limit_ ← r_limit;
  mret (MkLineageRequest nq_token_ nq_limit_).

Definition image_LineageRequest (v : LineageRequest) : list byte :=
  concat [image (nq_token v);
          le_bytes 4 (nq_limit v)].

Definition valid_LineageRequest (v : LineageRequest) : Prop :=
  valid (nq_token v) /\
  0 <= nq_limit v <= kMaxLineagePage.

#[export] Instance Codec_LineageRequest : Codec LineageRequest := {
  encode := encode_LineageRequest; decode := decode_LineageRequest; image := image_LineageRequest; valid := valid_LineageRequest;
}.

#[export] Instance CodecLaws_LineageRequest : CodecLaws LineageRequest.
Proof. codec_laws encode_LineageRequest decode_LineageRequest image_LineageRequest valid_LineageRequest. Qed.

#[export] Instance CanonicalCodec_LineageRequest : CanonicalCodec LineageRequest.
Proof. codec_canonical decode_LineageRequest image_LineageRequest valid_LineageRequest. Qed.

(** include/blackhole/protocol/messages.hpp:125-130 LineageResponse *)
Record LineageResponse := MkLineageResponse {
  nr_outcome : Outcome;
  nr_entries : list LineageEntry;
  nr_lineage_seen : Z;
  nr_lineage_dropped : Z;
}.

(** src/protocol/messages.cpp:424-430 encode(LineageResponse) *)
Definition encode_LineageResponse (v : LineageResponse) : Writer -> Writer :=
  seqw [w_enum8 (nr_outcome v);
        w_counted encode_entry (nr_entries v);
        w_u64 (nr_lineage_seen v);
        w_u64 (nr_lineage_dropped v)].

(** src/protocol/messages.cpp:432-456 decode(LineageResponse) *)
Definition decode_LineageResponse : Decoder LineageResponse :=
  nr_outcome_ ← r_enum8 (E := Outcome);
  nr_entries_ ← r_page;
  nr_lineage_seen_ ← r_u64;
  nr_lineage_dropped_ ← r_u64;
  mret (MkLineageResponse nr_outcome_ nr_entries_ nr_lineage_seen_ nr_lineage_dropped_).

Definition image_LineageResponse (v : LineageResponse) : list byte :=
  concat [le_bytes 1 (to_raw (nr_outcome v));
          counted image (nr_entries v);
          le_bytes 8 (nr_lineage_seen v);
          le_bytes 8 (nr_lineage_dropped v)].

Definition valid_LineageResponse (v : LineageResponse) : Prop :=
  counted_ok valid kMaxLineagePage (nr_entries v) /\
  in_u64 (nr_lineage_seen v) /\
  in_u64 (nr_lineage_dropped v).

#[export] Instance Codec_LineageResponse : Codec LineageResponse := {
  encode := encode_LineageResponse; decode := decode_LineageResponse; image := image_LineageResponse; valid := valid_LineageResponse;
}.

#[export] Instance CodecLaws_LineageResponse : CodecLaws LineageResponse.
Proof. codec_laws encode_LineageResponse decode_LineageResponse image_LineageResponse valid_LineageResponse. Qed.

#[export] Instance CanonicalCodec_LineageResponse : CanonicalCodec LineageResponse.
Proof. codec_canonical decode_LineageResponse image_LineageResponse valid_LineageResponse. Qed.

(** include/blackhole/protocol/messages.hpp:132-134 CheckpointRequest *)
Record CheckpointRequest := MkCheckpointRequest {
  cq_token : SessionToken;
}.

(** src/protocol/messages.cpp:458-458 encode(CheckpointRequest) *)
Definition encode_CheckpointRequest (v : CheckpointRequest) : Writer -> Writer :=
  seqw [encode (cq_token v)].

(** src/protocol/messages.cpp:460-466 decode(CheckpointRequest) *)
Definition decode_CheckpointRequest : Decoder CheckpointRequest :=
  cq_token_ ← decode (A := SessionToken);
  mret (MkCheckpointRequest cq_token_).

Definition image_CheckpointRequest (v : CheckpointRequest) : list byte :=
  concat [image (cq_token v)].

Definition valid_CheckpointRequest (v : CheckpointRequest) : Prop :=
  valid (cq_token v).

#[export] Instance Codec_CheckpointRequest : Codec CheckpointRequest := {
  encode := encode_CheckpointRequest; decode := decode_CheckpointRequest; image := image_CheckpointRequest; valid := valid_CheckpointRequest;
}.

#[export] Instance CodecLaws_CheckpointRequest : CodecLaws CheckpointRequest.
Proof. codec_laws encode_CheckpointRequest decode_CheckpointRequest image_CheckpointRequest valid_CheckpointRequest. Qed.

#[export] Instance CanonicalCodec_CheckpointRequest : CanonicalCodec CheckpointRequest.
Proof. codec_canonical decode_CheckpointRequest image_CheckpointRequest valid_CheckpointRequest. Qed.

(** include/blackhole/protocol/messages.hpp:136-139 CheckpointResponse *)
Record CheckpointResponse := MkCheckpointResponse {
  cr_outcome : Outcome;
  cr_snapshot_seq : RecordSequence;
}.

(** src/protocol/messages.cpp:468-471 encode(CheckpointResponse) *)
Definition encode_CheckpointResponse (v : CheckpointResponse) : Writer -> Writer :=
  seqw [w_enum8 (cr_outcome v);
        encode (cr_snapshot_seq v)].

(** src/protocol/messages.cpp:473-483 decode(CheckpointResponse) *)
Definition decode_CheckpointResponse : Decoder CheckpointResponse :=
  cr_outcome_ ← r_enum8 (E := Outcome);
  cr_snapshot_seq_ ← decode (A := RecordSequence);
  mret (MkCheckpointResponse cr_outcome_ cr_snapshot_seq_).

Definition image_CheckpointResponse (v : CheckpointResponse) : list byte :=
  concat [le_bytes 1 (to_raw (cr_outcome v));
          image (cr_snapshot_seq v)].

Definition valid_CheckpointResponse (v : CheckpointResponse) : Prop :=
  valid (cr_snapshot_seq v).

#[export] Instance Codec_CheckpointResponse : Codec CheckpointResponse := {
  encode := encode_CheckpointResponse; decode := decode_CheckpointResponse; image := image_CheckpointResponse; valid := valid_CheckpointResponse;
}.

#[export] Instance CodecLaws_CheckpointResponse : CodecLaws CheckpointResponse.
Proof. codec_laws encode_CheckpointResponse decode_CheckpointResponse image_CheckpointResponse valid_CheckpointResponse. Qed.

#[export] Instance CanonicalCodec_CheckpointResponse : CanonicalCodec CheckpointResponse.
Proof. codec_canonical decode_CheckpointResponse image_CheckpointResponse valid_CheckpointResponse. Qed.

(** include/blackhole/protocol/messages.hpp:141-187 StatsPayload *)
Record StatsPayload := MkStatsPayload {
  pl_evidence_submitted : Z;
  pl_evidence_admitted : Z;
  pl_evidence_rejected : Z;
  pl_evaluations : Z;
  pl_decisions_committed : Z;
  pl_durable_commit_failures : Z;
  pl_fence_intents_issued : Z;
  pl_restorations_authorized : Z;
  pl_restorations_refused : Z;
  pl_refusals_fail_closed : Z;
  pl_ledger_seen : Z;
  pl_ledger_admitted : Z;
  pl_ledger_rejected : Z;
  pl_ledger_retained : Z;
  pl_ledger_dropped : Z;
  pl_fences_issue_attempts : Z;
  pl_fences_issued : Z;
  pl_fences_open : Z;
  pl_fences_revoked : Z;
  pl_fences_expired : Z;
  pl_fences_fenced_by_restart : Z;
  pl_sessions_established : Z;
  pl_sessions_rejected : Z;
  pl_requests_served : Z;
  pl_requests_rejected : Z;
  pl_frames_decoded : Z;
  pl_frames_rejected : Z;
  pl_boot_count : Z;
  pl_open_count : Z;
  pl_epoch : CoordinatorEpoch;
  pl_policy : PolicyVersion;
  pl_policy_fingerprint : Z;
  pl_last_record : RecordSequence;
  pl_label : Provenance.t;
}.

(** src/protocol/messages.cpp:498-531 encode(StatsResponse) (payload) *)
Definition encode_StatsPayload (v : StatsPayload) : Writer -> Writer :=
  seqw [w_u64 (pl_evidence_submitted v);
        w_u64 (pl_evidence_admitted v);
        w_u64 (pl_evidence_rejected v);
        w_u64 (pl_evaluations v);
        w_u64 (pl_decisions_committed v);
        w_u64 (pl_durable_commit_failures v);
        w_u64 (pl_fence_intents_issued v);
        w_u64 (pl_restorations_authorized v);
        w_u64 (pl_restorations_refused v);
        w_u64 (pl_refusals_fail_closed v);
        w_u64 (pl_ledger_seen v);
        w_u64 (pl_ledger_admitted v);
        w_u64 (pl_ledger_rejected v);
        w_u64 (pl_ledger_retained v);
        w_u64 (pl_ledger_dropped v);
        w_u64 (pl_fences_issue_attempts v);
        w_u64 (pl_fences_issued v);
        w_u64 (pl_fences_open v);
        w_u64 (pl_fences_revoked v);
        w_u64 (pl_fences_expired v);
        w_u64 (pl_fences_fenced_by_restart v);
        w_u64 (pl_sessions_established v);
        w_u64 (pl_sessions_rejected v);
        w_u64 (pl_requests_served v);
        w_u64 (pl_requests_rejected v);
        w_u64 (pl_frames_decoded v);
        w_u64 (pl_frames_rejected v);
        w_u64 (pl_boot_count v);
        w_u64 (pl_open_count v);
        encode (pl_epoch v);
        encode (pl_policy v);
        w_u64 (pl_policy_fingerprint v);
        encode (pl_last_record v);
        w_enum8 (pl_label v)].

(** src/protocol/messages.cpp:539-611 decode(StatsResponse) (payload) *)
Definition decode_StatsPayload : Decoder StatsPayload :=
  pl_evidence_submitted_ ← r_u64;
  pl_evidence_admitted_ ← r_u64;
  pl_evidence_rejected_ ← r_u64;
  pl_evaluations_ ← r_u64;
  pl_decisions_committed_ ← r_u64;
  pl_durable_commit_failures_ ← r_u64;
  pl_fence_intents_issued_ ← r_u64;
  pl_restorations_authorized_ ← r_u64;
  pl_restorations_refused_ ← r_u64;
  pl_refusals_fail_closed_ ← r_u64;
  pl_ledger_seen_ ← r_u64;
  pl_ledger_admitted_ ← r_u64;
  pl_ledger_rejected_ ← r_u64;
  pl_ledger_retained_ ← r_u64;
  pl_ledger_dropped_ ← r_u64;
  pl_fences_issue_attempts_ ← r_u64;
  pl_fences_issued_ ← r_u64;
  pl_fences_open_ ← r_u64;
  pl_fences_revoked_ ← r_u64;
  pl_fences_expired_ ← r_u64;
  pl_fences_fenced_by_restart_ ← r_u64;
  pl_sessions_established_ ← r_u64;
  pl_sessions_rejected_ ← r_u64;
  pl_requests_served_ ← r_u64;
  pl_requests_rejected_ ← r_u64;
  pl_frames_decoded_ ← r_u64;
  pl_frames_rejected_ ← r_u64;
  pl_boot_count_ ← r_u64;
  pl_open_count_ ← r_u64;
  pl_epoch_ ← decode (A := CoordinatorEpoch);
  pl_policy_ ← decode (A := PolicyVersion);
  pl_policy_fingerprint_ ← r_u64;
  pl_last_record_ ← decode (A := RecordSequence);
  pl_label_ ← r_enum8 (E := Provenance.t);
  mret (MkStatsPayload pl_evidence_submitted_ pl_evidence_admitted_ pl_evidence_rejected_ pl_evaluations_ pl_decisions_committed_ pl_durable_commit_failures_ pl_fence_intents_issued_ pl_restorations_authorized_ pl_restorations_refused_ pl_refusals_fail_closed_ pl_ledger_seen_ pl_ledger_admitted_ pl_ledger_rejected_ pl_ledger_retained_ pl_ledger_dropped_ pl_fences_issue_attempts_ pl_fences_issued_ pl_fences_open_ pl_fences_revoked_ pl_fences_expired_ pl_fences_fenced_by_restart_ pl_sessions_established_ pl_sessions_rejected_ pl_requests_served_ pl_requests_rejected_ pl_frames_decoded_ pl_frames_rejected_ pl_boot_count_ pl_open_count_ pl_epoch_ pl_policy_ pl_policy_fingerprint_ pl_last_record_ pl_label_).

Definition image_StatsPayload (v : StatsPayload) : list byte :=
  concat [le_bytes 8 (pl_evidence_submitted v);
          le_bytes 8 (pl_evidence_admitted v);
          le_bytes 8 (pl_evidence_rejected v);
          le_bytes 8 (pl_evaluations v);
          le_bytes 8 (pl_decisions_committed v);
          le_bytes 8 (pl_durable_commit_failures v);
          le_bytes 8 (pl_fence_intents_issued v);
          le_bytes 8 (pl_restorations_authorized v);
          le_bytes 8 (pl_restorations_refused v);
          le_bytes 8 (pl_refusals_fail_closed v);
          le_bytes 8 (pl_ledger_seen v);
          le_bytes 8 (pl_ledger_admitted v);
          le_bytes 8 (pl_ledger_rejected v);
          le_bytes 8 (pl_ledger_retained v);
          le_bytes 8 (pl_ledger_dropped v);
          le_bytes 8 (pl_fences_issue_attempts v);
          le_bytes 8 (pl_fences_issued v);
          le_bytes 8 (pl_fences_open v);
          le_bytes 8 (pl_fences_revoked v);
          le_bytes 8 (pl_fences_expired v);
          le_bytes 8 (pl_fences_fenced_by_restart v);
          le_bytes 8 (pl_sessions_established v);
          le_bytes 8 (pl_sessions_rejected v);
          le_bytes 8 (pl_requests_served v);
          le_bytes 8 (pl_requests_rejected v);
          le_bytes 8 (pl_frames_decoded v);
          le_bytes 8 (pl_frames_rejected v);
          le_bytes 8 (pl_boot_count v);
          le_bytes 8 (pl_open_count v);
          image (pl_epoch v);
          image (pl_policy v);
          le_bytes 8 (pl_policy_fingerprint v);
          image (pl_last_record v);
          le_bytes 1 (to_raw (pl_label v))].

Definition valid_StatsPayload (v : StatsPayload) : Prop :=
  in_u64 (pl_evidence_submitted v) /\
  in_u64 (pl_evidence_admitted v) /\
  in_u64 (pl_evidence_rejected v) /\
  in_u64 (pl_evaluations v) /\
  in_u64 (pl_decisions_committed v) /\
  in_u64 (pl_durable_commit_failures v) /\
  in_u64 (pl_fence_intents_issued v) /\
  in_u64 (pl_restorations_authorized v) /\
  in_u64 (pl_restorations_refused v) /\
  in_u64 (pl_refusals_fail_closed v) /\
  in_u64 (pl_ledger_seen v) /\
  in_u64 (pl_ledger_admitted v) /\
  in_u64 (pl_ledger_rejected v) /\
  in_u64 (pl_ledger_retained v) /\
  in_u64 (pl_ledger_dropped v) /\
  in_u64 (pl_fences_issue_attempts v) /\
  in_u64 (pl_fences_issued v) /\
  in_u64 (pl_fences_open v) /\
  in_u64 (pl_fences_revoked v) /\
  in_u64 (pl_fences_expired v) /\
  in_u64 (pl_fences_fenced_by_restart v) /\
  in_u64 (pl_sessions_established v) /\
  in_u64 (pl_sessions_rejected v) /\
  in_u64 (pl_requests_served v) /\
  in_u64 (pl_requests_rejected v) /\
  in_u64 (pl_frames_decoded v) /\
  in_u64 (pl_frames_rejected v) /\
  in_u64 (pl_boot_count v) /\
  in_u64 (pl_open_count v) /\
  valid (pl_epoch v) /\
  valid (pl_policy v) /\
  in_u64 (pl_policy_fingerprint v) /\
  valid (pl_last_record v).

#[export] Instance Codec_StatsPayload : Codec StatsPayload := {
  encode := encode_StatsPayload; decode := decode_StatsPayload; image := image_StatsPayload; valid := valid_StatsPayload;
}.

#[export] Instance CodecLaws_StatsPayload : CodecLaws StatsPayload.
Proof. codec_laws encode_StatsPayload decode_StatsPayload image_StatsPayload valid_StatsPayload. Qed.

#[export] Instance CanonicalCodec_StatsPayload : CanonicalCodec StatsPayload.
Proof. codec_canonical decode_StatsPayload image_StatsPayload valid_StatsPayload. Qed.

(** The sums are of [uint64_t]. include/blackhole/protocol/messages.hpp:181-186 StatsPayload::accounting_closed *)
Definition pl_accounting_closed (s : StatsPayload) : bool :=
  (pl_evidence_submitted s =? u64_add (pl_evidence_admitted s) (pl_evidence_rejected s)) &&
  (pl_evaluations s =? u64_add (pl_decisions_committed s) (pl_durable_commit_failures s)) &&
  (pl_ledger_seen s =? u64_add (pl_ledger_admitted s) (pl_ledger_rejected s)) &&
  (0 <? u64_add (pl_requests_served s) (pl_requests_rejected s)).

(** include/blackhole/protocol/messages.hpp:189-191 StatsRequest *)
Record StatsRequest := MkStatsRequest {
  tq_token : SessionToken;
}.

(** src/protocol/messages.cpp:485-485 encode(StatsRequest) *)
Definition encode_StatsRequest (v : StatsRequest) : Writer -> Writer :=
  seqw [encode (tq_token v)].

(** src/protocol/messages.cpp:487-493 decode(StatsRequest) *)
Definition decode_StatsRequest : Decoder StatsRequest :=
  tq_token_ ← decode (A := SessionToken);
  mret (MkStatsRequest tq_token_).

Definition image_StatsRequest (v : StatsRequest) : list byte :=
  concat [image (tq_token v)].

Definition valid_StatsRequest (v : StatsRequest) : Prop :=
  valid (tq_token v).

#[export] Instance Codec_StatsRequest : Codec StatsRequest := {
  encode := encode_StatsRequest; decode := decode_StatsRequest; image := image_StatsRequest; valid := valid_StatsRequest;
}.

#[export] Instance CodecLaws_StatsRequest : CodecLaws StatsRequest.
Proof. codec_laws encode_StatsRequest decode_StatsRequest image_StatsRequest valid_StatsRequest. Qed.

#[export] Instance CanonicalCodec_StatsRequest : CanonicalCodec StatsRequest.
Proof. codec_canonical decode_StatsRequest image_StatsRequest valid_StatsRequest. Qed.

(** include/blackhole/protocol/messages.hpp:193-196 StatsResponse *)
Record StatsResponse := MkStatsResponse {
  tr_outcome : Outcome;
  tr_stats : StatsPayload;
}.

(** src/protocol/messages.cpp:495-532 encode(StatsResponse) *)
Definition encode_StatsResponse (v : StatsResponse) : Writer -> Writer :=
  seqw [w_enum8 (tr_outcome v);
        encode (tr_stats v)].

(** src/protocol/messages.cpp:534-613 decode(StatsResponse) *)
Definition decode_StatsResponse : Decoder StatsResponse :=
  tr_outcome_ ← r_enum8 (E := Outcome);
  tr_stats_ ← decode (A := StatsPayload);
  mret (MkStatsResponse tr_outcome_ tr_stats_).

Definition image_StatsResponse (v : StatsResponse) : list byte :=
  concat [le_bytes 1 (to_raw (tr_outcome v));
          image (tr_stats v)].

Definition valid_StatsResponse (v : StatsResponse) : Prop :=
  valid (tr_stats v).

#[export] Instance Codec_StatsResponse : Codec StatsResponse := {
  encode := encode_StatsResponse; decode := decode_StatsResponse; image := image_StatsResponse; valid := valid_StatsResponse;
}.

#[export] Instance CodecLaws_StatsResponse : CodecLaws StatsResponse.
Proof. codec_laws encode_StatsResponse decode_StatsResponse image_StatsResponse valid_StatsResponse. Qed.

#[export] Instance CanonicalCodec_StatsResponse : CanonicalCodec StatsResponse.
Proof. codec_canonical decode_StatsResponse image_StatsResponse valid_StatsResponse. Qed.

(** include/blackhole/protocol/messages.hpp:198-200 GoodbyeRequest *)
Record GoodbyeRequest := MkGoodbyeRequest {
  gq_token : SessionToken;
}.

(** src/protocol/messages.cpp:615-615 encode(GoodbyeRequest) *)
Definition encode_GoodbyeRequest (v : GoodbyeRequest) : Writer -> Writer :=
  seqw [encode (gq_token v)].

(** src/protocol/messages.cpp:617-623 decode(GoodbyeRequest) *)
Definition decode_GoodbyeRequest : Decoder GoodbyeRequest :=
  gq_token_ ← decode (A := SessionToken);
  mret (MkGoodbyeRequest gq_token_).

Definition image_GoodbyeRequest (v : GoodbyeRequest) : list byte :=
  concat [image (gq_token v)].

Definition valid_GoodbyeRequest (v : GoodbyeRequest) : Prop :=
  valid (gq_token v).

#[export] Instance Codec_GoodbyeRequest : Codec GoodbyeRequest := {
  encode := encode_GoodbyeRequest; decode := decode_GoodbyeRequest; image := image_GoodbyeRequest; valid := valid_GoodbyeRequest;
}.

#[export] Instance CodecLaws_GoodbyeRequest : CodecLaws GoodbyeRequest.
Proof. codec_laws encode_GoodbyeRequest decode_GoodbyeRequest image_GoodbyeRequest valid_GoodbyeRequest. Qed.

#[export] Instance CanonicalCodec_GoodbyeRequest : CanonicalCodec GoodbyeRequest.
Proof. codec_canonical decode_GoodbyeRequest image_GoodbyeRequest valid_GoodbyeRequest. Qed.

(** include/blackhole/protocol/messages.hpp:202-204 GoodbyeResponse *)
Record GoodbyeResponse := MkGoodbyeResponse {
  gr_outcome : Outcome;
}.

(** src/protocol/messages.cpp:625-627 encode(GoodbyeResponse) *)
Definition encode_GoodbyeResponse (v : GoodbyeResponse) : Writer -> Writer :=
  seqw [w_enum8 (gr_outcome v)].

(** src/protocol/messages.cpp:629-637 decode(GoodbyeResponse) *)
Definition decode_GoodbyeResponse : Decoder GoodbyeResponse :=
  gr_outcome_ ← r_enum8 (E := Outcome);
  mret (MkGoodbyeResponse gr_outcome_).

Definition image_GoodbyeResponse (v : GoodbyeResponse) : list byte :=
  concat [le_bytes 1 (to_raw (gr_outcome v))].

Definition valid_GoodbyeResponse (v : GoodbyeResponse) : Prop :=
  True.

#[export] Instance Codec_GoodbyeResponse : Codec GoodbyeResponse := {
  encode := encode_GoodbyeResponse; decode := decode_GoodbyeResponse; image := image_GoodbyeResponse; valid := valid_GoodbyeResponse;
}.

#[export] Instance CodecLaws_GoodbyeResponse : CodecLaws GoodbyeResponse.
Proof. codec_laws encode_GoodbyeResponse decode_GoodbyeResponse image_GoodbyeResponse valid_GoodbyeResponse. Qed.

#[export] Instance CanonicalCodec_GoodbyeResponse : CanonicalCodec GoodbyeResponse.
Proof. codec_canonical decode_GoodbyeResponse image_GoodbyeResponse valid_GoodbyeResponse. Qed.

(** include/blackhole/protocol/messages.hpp:206-210 ErrorResponse *)
Record ErrorResponse := MkErrorResponse {
  xr_outcome : Outcome;
  xr_reason : ReasonCode.t;
  xr_detail : list byte;
}.

(** src/protocol/messages.cpp:639-643 encode(ErrorResponse) *)
Definition encode_ErrorResponse (v : ErrorResponse) : Writer -> Writer :=
  seqw [w_enum8 (xr_outcome v);
        w_enum16 (xr_reason v);
        w_string (xr_detail v) kMaxDetailBytes].

(** src/protocol/messages.cpp:645-659 decode(ErrorResponse) *)
Definition decode_ErrorResponse : Decoder ErrorResponse :=
  xr_outcome_ ← r_enum8 (E := Outcome);
  xr_reason_ ← r_enum16 (E := ReasonCode.t);
  xr_detail_ ← r_string kMaxDetailBytes;
  mret (MkErrorResponse xr_outcome_ xr_reason_ xr_detail_).

Definition image_ErrorResponse (v : ErrorResponse) : list byte :=
  concat [le_bytes 1 (to_raw (xr_outcome v));
          le_bytes 2 (to_raw (xr_reason v));
          prefixed (xr_detail v)].

Definition valid_ErrorResponse (v : ErrorResponse) : Prop :=
  zlen (xr_detail v) <= kMaxDetailBytes.

#[export] Instance Codec_ErrorResponse : Codec ErrorResponse := {
  encode := encode_ErrorResponse; decode := decode_ErrorResponse; image := image_ErrorResponse; valid := valid_ErrorResponse;
}.

#[export] Instance CodecLaws_ErrorResponse : CodecLaws ErrorResponse.
Proof. codec_laws encode_ErrorResponse decode_ErrorResponse image_ErrorResponse valid_ErrorResponse. Qed.

#[export] Instance CanonicalCodec_ErrorResponse : CanonicalCodec ErrorResponse.
Proof. codec_canonical decode_ErrorResponse image_ErrorResponse valid_ErrorResponse. Qed.

