(* ===== verification/Wire.v ===== *)
(** * Messages on the wire

    A message is the payload of a frame whose type says which message it is. The sum
    [Message] has one constructor per [MessageType]; [message_frame] is the frame that
    carries a message and [parse_frame] the decoder the receiver picks by the frame's type. The theorems compose the message codecs with the framing:
    what is sent is what is read, and a request has one encoding. *)
From Stdlib Require Import Strings.String.
From S2P Require Import Prelude Core Checked Codec Counted Hash Ids Domain Policy Fixtures Ledger Localizer Fence Authority Record Durable Frame Messages.
Local Open Scope string_scope.
Local Open Scope list_scope.
Local Open Scope Z_scope.

(** include/blackhole/protocol/frame.hpp:37-61 MessageType (the message each type carries) *)
Inductive Message :=
| MHelloRequest (m : HelloRequest)
| MHelloResponse (m : HelloResponse)
| MSubmitEvidenceRequest (m : SubmitEvidenceRequest)
| MSubmitEvidenceResponse (m : SubmitEvidenceResponse)
| MEvaluateRequest (m : EvaluateRequest)
| MEvaluateResponse (m : EvaluateResponse)
| MLocalizeRequest (m : LocalizeRequest)
| MLocalizeResponse (m : LocalizeResponse)
| MAckFenceRequest (m : AckFenceRequest)
| MAckFenceResponse (m : AckFenceResponse)
| MReportEffectRequest (m : ReportEffectRequest)
| MReportEffectResponse (m : ReportEffectResponse)
| MRestoreRequest (m : RestoreRequest)
| MRestoreResponse (m : RestoreResponse)
| MLineageRequest (m : LineageRequest)
| MLineageResponse (m : LineageResponse)
| MCheckpointRequest (m : CheckpointRequest)
| MCheckpointResponse (m : CheckpointResponse)
| MStatsRequest (m : StatsRequest)
| MStatsResponse (m : StatsResponse)
| MGoodbyeRequest (m : GoodbyeRequest)
| MGoodbyeResponse (m : GoodbyeResponse)
| MErrorResponse (m : ErrorResponse).

(** include/blackhole/protocol/frame.hpp:37-61 MessageType (the type of each message) *)
Definition message_type (m : Message) : MessageType.t :=
  match m with
  | MHelloRequest _ => MessageType.HelloRequest
  | MHelloResponse _ => MessageType.HelloResponse
  | MSubmitEvidenceRequest _ => MessageType.SubmitEvidenceRequest
  | MSubmitEvidenceResponse _ => MessageType.SubmitEvidenceResponse
  | MEvaluateRequest _ => MessageType.EvaluateRequest
  | MEvaluateResponse _ => MessageType.EvaluateResponse
  | MLocalizeRequest _ => MessageType.LocalizeRequest
  | MLocalizeResponse _ => MessageType.LocalizeResponse
  | MAckFenceRequest _ => MessageType.AckFenceRequest
  | MAckFenceResponse _ => MessageType.AckFenceResponse
  | MReportEffectRequest _ => MessageType.ReportEffectRequest
  | MReportEffectResponse _ => MessageType.ReportEffectResponse
  | MRestoreRequest _ => MessageType.RestoreRequest
  | MRestoreResponse _ => MessageType.RestoreResponse
  | MLineageRequest _ => MessageType.LineageRequest
  | MLineageResponse _ => MessageType.LineageResponse
  | MCheckpointRequest _ => MessageType.CheckpointRequest
  | MCheckpointResponse _ => MessageType.CheckpointResponse
  | MStatsRequest _ => MessageType.StatsRequest
  | MStatsResponse _ => MessageType.StatsResponse
  | MGoodbyeRequest _ => MessageType.GoodbyeRequest
  | MGoodbyeResponse _ => MessageType.GoodbyeResponse
  | MErrorResponse _ => MessageType.ErrorResponse
  end.

Definition message_valid (m : Message) : Prop :=
  match m with
  | MHelloRequest m => valid m
  | MHelloResponse m => valid m
  | MSubmitEvidenceRequest m => valid m
  | MSubmitEvidenceResponse m => valid m
  | MEvaluateRequest m => valid m
  | MEvaluateResponse m => valid m
  | MLocalizeRequest m => valid m
  | MLocalizeResponse m => valid m
  | MAckFenceRequest m => valid m
  | MAckFenceResponse m => valid m
  | MReportEffectRequest m => valid m
  | MReportEffectResponse m => valid m
  | MRestoreRequest m => valid m
  | MRestoreResponse m => valid m
  | MLineageRequest m => valid m
  | MLineageResponse m => valid m
  | MCheckpointRequest m => valid m
  | MCheckpointResponse m => valid m
  | MStatsRequest m => valid m
  | MStatsResponse m => valid m
  | MGoodbyeRequest m => valid m
  | MGoodbyeResponse m => valid m
  | MErrorResponse m => valid m
  end.

Definition message_image (m : Message) : list byte :=
  match m with
  | MHelloRequest m => image m
  | MHelloResponse m => image m
  | MSubmitEvidenceRequest m => image m
  | MSubmitEvidenceResponse m => image m
  | MEvaluateRequest m => image m
  | MEvaluateResponse m => image m
  | MLocalizeRequest m => image m
  | MLocalizeResponse m => image m
  | MAckFenceRequest m => image m
  | MAckFenceResponse m => image m
  | MReportEffectRequest m => image m
  | MReportEffectResponse m => image m
  | MRestoreRequest m => image m
  | MRestoreResponse m => image m
  | MLineageRequest m => image m
  | MLineageResponse m => image m
  | MCheckpointRequest m => image m
  | MCheckpointResponse m => image m
  | MStatsRequest m => image m
  | MStatsResponse m => image m
  | MGoodbyeRequest m => image m
  | MGoodbyeResponse m => image m
  | MErrorResponse m => image m
  end.

(** The frame of a message: its encoding under its type. The senders give some messages a
    smaller writer ([Server.respond], [Client.request]); what fits is encoded the same. *)
Definition message_frame (m : Message) : option Frame :=
  (fun payload => MkFrame (message_type m) 0 payload) <$>
  match m with
  | MHelloRequest m => encode_bounded kDefaultMaxDocumentBytes m
  | MHelloResponse m => encode_bounded kDefaultMaxDocumentBytes m
  | MSubmitEvidenceRequest m => encode_bounded kDefaultMaxDocumentBytes m
  | MSubmitEvidenceResponse m => encode_bounded kDefaultMaxDocumentBytes m
  | MEvaluateRequest m => encode_bounded kDefaultMaxDocumentBytes m
  | MEvaluateResponse m => encode_bounded kDefaultMaxDocumentBytes m
  | MLocalizeRequest m => encode_bounded kDefaultMaxDocumentBytes m
  | MLocalizeResponse m => encode_bounded kDefaultMaxDocumentBytes m
  | MAckFenceRequest m => encode_bounded kDefaultMaxDocumentBytes m
  | MAckFenceResponse m => encode_bounded kDefaultMaxDocumentBytes m
  | MReportEffectRequest m => encode_bounded kDefaultMaxDocumentBytes m
  | MReportEffectResponse m => encode_bounded kDefaultMaxDocumentBytes m
  | MRestoreRequest m => encode_bounded kDefaultMaxDocumentBytes m
  | MRestoreResponse m => encode_bounded kDefaultMaxDocumentBytes m
  | MLineageRequest m => encode_bounded kDefaultMaxDocumentBytes m
  | MLineageResponse m => encode_bounded kDefaultMaxDocumentBytes m
  | MCheckpointRequest m => encode_bounded kDefaultMaxDocumentBytes m
  | MCheckpointResponse m => encode_bounded kDefaultMaxDocumentBytes m
  | MStatsRequest m => encode_bounded kDefaultMaxDocumentBytes m
  | MStatsResponse m => encode_bounded kDefaultMaxDocumentBytes m
  | MGoodbyeRequest m => encode_bounded kDefaultMaxDocumentBytes m
  | MGoodbyeResponse m => encode_bounded kDefaultMaxDocumentBytes m
  | MErrorResponse m => encode_bounded kDefaultMaxDocumentBytes m
  end.

(** src/service/server.cpp:20-26 decode_message *)
Definition decode_message (A : Type) `{Codec A} (f : Frame) : result A := decode_all (decode (A := A)) (f_payload f).

Definition result_map {A B} (g : A -> B) (r : result A) : result B :=
  match r with Done a => Done (g a) | Refuse o => Refuse o end.

(** The decoder the receiver picks. *)
Definition parse_frame (f : Frame) : result Message :=
  match f_type f with
  | MessageType.HelloRequest => result_map MHelloRequest (decode_message HelloRequest f)
  | MessageType.HelloResponse => result_map MHelloResponse (decode_message HelloResponse f)
  | MessageType.SubmitEvidenceRequest => result_map MSubmitEvidenceRequest (decode_message SubmitEvidenceRequest f)
  | MessageType.SubmitEvidenceResponse => result_map MSubmitEvidenceResponse (decode_message SubmitEvidenceResponse f)
  | MessageType.EvaluateRequest => result_map MEvaluateRequest (decode_message EvaluateRequest f)
  | MessageType.EvaluateResponse => result_map MEvaluateResponse (decode_message EvaluateResponse f)
  | MessageType.LocalizeRequest => result_map MLocalizeRequest (decode_message LocalizeRequest f)
  | MessageType.LocalizeResponse => result_map MLocalizeResponse (decode_message LocalizeResponse f)
  | MessageType.AckFenceRequest => result_map MAckFenceRequest (decode_message AckFenceRequest f)
  | MessageType.AckFenceResponse => result_map MAckFenceResponse (decode_message AckFenceResponse f)
  | MessageType.ReportEffectRequest => result_map MReportEffectRequest (decode_message ReportEffectRequest f)
  | MessageType.ReportEffectResponse => result_map MReportEffectResponse (decode_message ReportEffectResponse f)
  | MessageType.RestoreRequest => result_map MRestoreRequest (decode_message RestoreRequest f)
  | MessageType.RestoreResponse => result_map MRestoreResponse (decode_message RestoreResponse f)
  | MessageType.LineageRequest => result_map MLineageRequest (decode_message LineageRequest f)
  | MessageType.LineageResponse => result_map MLineageResponse (decode_message LineageResponse f)
  | MessageType.CheckpointRequest => result_map MCheckpointRequest (decode_message CheckpointRequest f)
  | MessageType.CheckpointResponse => result_map MCheckpointResponse (decode_message CheckpointResponse f)
  | MessageType.StatsRequest => result_map MStatsRequest (decode_message StatsRequest f)
  | MessageType.StatsResponse => result_map MStatsResponse (decode_message StatsResponse f)
  | MessageType.GoodbyeRequest => result_map MGoodbyeRequest (decode_message GoodbyeRequest f)
  | MessageType.GoodbyeResponse => result_map MGoodbyeResponse (decode_message GoodbyeResponse f)
  | MessageType.ErrorResponse => result_map MErrorResponse (decode_message ErrorResponse f)
  end.

(** The messages without a [Decision], whose encoding is canonical. *)
Definition carries_decision (t : MessageType.t) : bool :=
  match t with
  | MessageType.EvaluateResponse | MessageType.LocalizeResponse | MessageType.RestoreResponse => true
  | _ => false
  end.

(** A message that fits: valid, and its image within the frame and document bounds. *)
Definition message_fits (max : Z) (m : Message) : Prop :=
  message_valid m /\ zlen (message_image m) <= Z.min max kDefaultMaxDocumentBytes.

Lemma document_bound : 0 <= kDefaultMaxDocumentBytes < 2 ^ 64.
Proof. vm_compute. split; [discriminate | reflexivity]. Qed.

Lemma encode_fits {A} `{CodecLaws A} (a : A) :
  valid a -> zlen (image a) <= kDefaultMaxDocumentBytes -> encode_bounded kDefaultMaxDocumentBytes a = Some (image a).
Proof.
  intros Ha Hl. rewrite encode_bounded_spec by (done || exact document_bound). by apply Z.leb_le in Hl as ->.
Qed.

Lemma message_frame_fits max m :
  message_fits max m -> message_frame m = Some (MkFrame (message_type m) 0 (message_image m)).
Proof.
  intros [Hv Hl]. assert (zlen (message_image m) <= kDefaultMaxDocumentBytes) as Hd by lia. clear Hl.
  destruct m; unfold message_frame; cbn [message_valid message_image message_type] in *;
    rewrite (encode_fits _ Hv Hd); reflexivity.
Qed.

Lemma decode_message_image {A} `{CodecLaws A} t (a : A) :
  valid a -> decode_message A (MkFrame t 0 (image a)) = Done a.
Proof. intros Ha. exact (decode_all_image a Ha). Qed.

Lemma parse_message m :
  message_valid m -> parse_frame (MkFrame (message_type m) 0 (message_image m)) = Done m.
Proof.
  intros Hv. destruct m; unfold parse_frame; cbn [message_valid message_image message_type f_type] in *;
    rewrite (decode_message_image _ _ Hv); reflexivity.
Qed.

Lemma message_frames max ms :
  Forall (message_fits max) ms ->
  exists fs, mapM message_frame ms = Some fs /\ Forall (frame_ok max) fs /\ map parse_frame fs = map Done ms.
Proof.
  induction 1 as [| m ms Hm _ (fs & E & Hok & P)]; [by exists [] |].
  exists (MkFrame (message_type m) 0 (message_image m) :: fs). cbn [mapM mbind option_bind].
  pose proof Hm as [Hv Hl]. split; [| split].
  - change (mapM message_frame (m :: ms)) with (f ← message_frame m; fs ← mapM message_frame ms; Some (f :: fs)).
    rewrite (message_frame_fits _ _ Hm), E. reflexivity.
  - constructor; [split; [reflexivity | cbn [f_payload]; lia] | exact Hok].
  - cbn [map]. by rewrite (parse_message _ Hv), P.
Qed.

Lemma decode_message_canonical {A} `{CodecLaws A} `{!CanonicalCodec A} f (a : A) :
  decode_message A f = Done a -> valid a /\ f_payload f = image a.
Proof. apply decode_all_canonical. Qed.

Lemma result_map_done {A B} (g : A -> B) r b : result_map g r = Done b -> exists a, r = Done a /\ b = g a.
Proof. destruct r as [a |]; [| done]. intros [= <-]. by exists a. Qed.

(** ** Claims *)

(** C32: what one side sends the other side reads: messages that fit, encoded, framed and
    received in any chunks that leave room for a partial frame, are exactly the messages
    parsed, in order, and nothing is left over. *)
Theorem messages_delivered max m ms fs chunks :
  in_u32 max -> 0 <= m <= max -> Forall (message_fits m) ms -> mapM message_frame ms = Some fs ->
  Forall (fun c => zlen c <= max + 1 - m) chunks -> concat chunks = stream_image fs ->
  exists fs', receive_all chunks (new_FrameDecoder max) = (fs', new_FrameDecoder max) /\
    map parse_frame fs' = map Done ms.
Proof.
  intros Hmax Hm Hms E Hc Hb. destruct (message_frames m ms Hms) as (fs0 & E0 & Hok & P).
  rewrite E0 in E. injection E as <-.
  destruct (receive_all_complete max m chunks fs0 [] [] Hmax Hm Hok Hc) as (k & P' & Hk & H1 & H2 & H3).
  { cbn [app]. by rewrite app_nil_r. }
  { apply partial_nil. }
  rewrite app_nil_r in H2. exists fs0. split; [| exact P].
  apply partial_end in H3 as Hd; [| exact H2]. rewrite Hd in H2. cbn in H2. subst P'.
  unfold new_FrameDecoder. rewrite H1. f_equal. apply take_ge.
  apply (f_equal length) in Hd. rewrite length_drop in Hd. cbn in Hd. lia.
Qed.

(** C33: a frame that carries no decision and parses is the frame of the message it parses
    to, byte for byte: no two payloads mean the same request, and nothing malformed,
    truncated or padded is taken for one. *)
Theorem parsed_frames_canonical f m :
  parse_frame f = Done m -> carries_decision (f_type f) = false ->
  message_type m = f_type f /\ message_valid m /\ f_payload f = message_image m.
Proof.
  unfold parse_frame. intros H Hc. destruct (f_type f); cbn [carries_decision] in Hc; try discriminate;
    apply result_map_done in H as (a & H & ->); apply decode_message_canonical in H as [Hv Hp];
    (split; [reflexivity | split; [exact Hv | exact Hp]]).
Qed.

Definition fx_token : SessionToken := MkToken (MkId 7) (MkId 1) (MkSeq 1) (MkId 2) (MkId 3).
Definition fx_messages : list Message :=
  [MHelloRequest (MkHelloRequest fx_token [x6f; x6b] Provenance.Synthetic);
   MLocalizeRequest (MkLocalizeRequest fx_token fx_scope fx_gens 4 [MkProbe 0 2 true; MkProbe 1 4 false]);
   MGoodbyeRequest (MkGoodbyeRequest fx_token)].

Lemma fx_messages_fit : Forall (message_fits 400) fx_messages.
Proof.
  repeat constructor; try (vm_compute; congruence); try (vm_compute; discriminate).
Qed.

Example messages_delivered_witness :
  exists fs fs', mapM message_frame fx_messages = Some fs /\
    receive_all [take 100 (stream_image fs); drop 100 (stream_image fs)] (new_FrameDecoder 1000) =
      (fs', new_FrameDecoder 1000) /\
    map parse_frame fs' = map Done fx_messages.
Proof.
  destruct (mapM message_frame fx_messages) as [fs |] eqn:E; [| vm_compute in E; discriminate].
  exists fs. destruct (messages_delivered 1000 400 fx_messages fs [take 100 (stream_image fs); drop 100 (stream_image fs)])
    as (fs' & H1 & H2); [split; [discriminate | reflexivity] | lia | exact fx_messages_fit | exact E | |
      cbn [concat]; rewrite app_nil_r; apply take_drop | exists fs'; split; [reflexivity | split; [exact H1 | exact H2]]].
  vm_compute in E. injection E as <-. repeat constructor; vm_compute; discriminate.
Defined.

Example parsed_frames_canonical_witness :
  let f := MkFrame MessageType.GoodbyeRequest 0 (image fx_token) in
  parse_frame f = Done (MGoodbyeRequest (MkGoodbyeRequest fx_token)) /\
  f_payload f = message_image (MGoodbyeRequest (MkGoodbyeRequest fx_token)).
Proof.
  split; [vm_compute; reflexivity |].
  apply (parsed_frames_canonical (MkFrame MessageType.GoodbyeRequest 0 (image fx_token))
    (MGoodbyeRequest (MkGoodbyeRequest fx_token))); [vm_compute; reflexivity | reflexivity].
Defined.
