(* ===== verification/Engine.v ===== *)
(** * The coordinator

    Models [include/blackhole/service/engine.hpp] and [src/service/engine.cpp]: the engine
    owns the evidence ledger, the fence registry and the durable store and holds one mutex
    in every entry point, so an entry point is one atomic step on its state and the disk.
    [Engine::localize] is two of them: the evaluation, and the publication of what the
    solver found in between without the lock. The clock is external: [clock n] is its [n]-th
    reading, arbitrary in every theorem. *)
From Stdlib Require Import Strings.String.
From S2P Require Import Prelude OrderedMap Core Checked Codec Hash Ids Domain Policy Fixtures Ledger Classifier Localizer Fence Authority.
From S2P Require Import Record Journal Snapshot Durable Store.
Local Open Scope string_scope.
Local Open Scope list_scope.
Local Open Scope Z_scope.

(** include/blackhole/service/engine.hpp:20-25 EngineConfig; [role] is not read. *)
Record EngineConfig := MkEngineConfig {
  ec_store : StoreConfig;
  ec_policy : FencePolicy;
  ec_label : Provenance.t;
}.

(** include/blackhole/service/engine.hpp:27-60 EngineStats *)
Record EngineStats := MkEngineStats {
  es_evidence_submitted : Z;
  es_evidence_admitted : Z;
  es_evidence_rejected : Z;
  es_evaluations : Z;
  es_localization_enrichments : Z;
  es_decisions_produced : Z;
  es_decisions_committed : Z;
  es_decision_commit_failures : Z;
  es_durable_commit_failures : Z;
  es_fence_intents_issued : Z;
  es_localizations : Z;
  es_restorations_authorized : Z;
  es_restorations_refused : Z;
  es_refusals_fail_closed : Z;
  es_fence_revocations : Z;
}.

Definition zero_engine_stats : EngineStats := MkEngineStats 0 0 0 0 0 0 0 0 0 0 0 0 0 0 0.

(** include/blackhole/service/engine.hpp:55-59 EngineStats::accounting_closed *)
Definition es_accounting_closed (s : EngineStats) : bool :=
  (es_evidence_submitted s =? u64_add (es_evidence_admitted s) (es_evidence_rejected s)) &&
  (es_decisions_produced s =? u64_add (es_evaluations s) (es_localization_enrichments s)) &&
  (es_decisions_produced s =? u64_add (es_decisions_committed s) (es_decision_commit_failures s)).

(** The counters, and [++stats_.counter]. *)
Inductive Tally :=
| EvidenceSubmitted | EvidenceAdmitted | EvidenceRejected | Evaluations | LocalizationEnrichments
| DecisionsProduced | DecisionsCommitted | DecisionCommitFailures | DurableCommitFailures
| FenceIntentsIssued | Localizations | RestorationsAuthorized | RestorationsRefused
| RefusalsFailClosed | FenceRevocations.
#[export] Instance Tally_eq_dec : EqDecision Tally.
Proof. solve_decision. Defined.

Definition tally (k : Tally) (s : EngineStats) : EngineStats :=
  let up k' v := if k == k' then incr v else v in
  MkEngineStats (up EvidenceSubmitted (es_evidence_submitted s)) (up EvidenceAdmitted (es_evidence_admitted s))
    (up EvidenceRejected (es_evidence_rejected s)) (up Evaluations (es_evaluations s))
    (up LocalizationEnrichments (es_localization_enrichments s)) (up DecisionsProduced (es_decisions_produced s))
    (up DecisionsCommitted (es_decisions_committed s)) (up DecisionCommitFailures (es_decision_commit_failures s))
    (up DurableCommitFailures (es_durable_commit_failures s)) (up FenceIntentsIssued (es_fence_intents_issued s))
    (up Localizations (es_localizations s)) (up RestorationsAuthorized (es_restorations_authorized s))
    (up RestorationsRefused (es_restorations_refused s)) (up RefusalsFailClosed (es_refusals_fail_closed s))
    (up FenceRevocations (es_fence_revocations s)).

(** [eg_ticks] is the number of readings taken from the clock.
    include/blackhole/service/engine.hpp:68-121 Engine *)
Record Engine := MkEngine {
  eg_config : EngineConfig;
  eg_policy : FencePolicy;
  eg_ledger : EvidenceLedger;
  eg_fences : FenceRegistry;
  eg_store : Store;
  eg_stats : EngineStats;
  eg_opened : bool;
  eg_ticks : nat;
}.

(** src/service/engine.cpp:7-14 Engine::Engine *)
Definition new_Engine (c : EngineConfig) : Engine :=
  MkEngine c (ec_policy c) (new_EvidenceLedger (ec_policy c)) (new_FenceRegistry (ec_policy c))
    (new_Store (ec_store c) (ec_policy c)) zero_engine_stats false 0.

Definition put_ledger (l : EvidenceLedger) (e : Engine) : Engine :=
  MkEngine (eg_config e) (eg_policy e) l (eg_fences e) (eg_store e) (eg_stats e) (eg_opened e) (eg_ticks e).
Definition put_fences (r : FenceRegistry) (e : Engine) : Engine :=
  MkEngine (eg_config e) (eg_policy e) (eg_ledger e) r (eg_store e) (eg_stats e) (eg_opened e) (eg_ticks e).
Definition put_store (t : Store) (e : Engine) : Engine :=
  MkEngine (eg_config e) (eg_policy e) (eg_ledger e) (eg_fences e) t (eg_stats e) (eg_opened e) (eg_ticks e).
Definition put_stats (s : EngineStats) (e : Engine) : Engine :=
  MkEngine (eg_config e) (eg_policy e) (eg_ledger e) (eg_fences e) (eg_store e) s (eg_opened e) (eg_ticks e).
Definition put_opened (b : bool) (e : Engine) : Engine :=
  MkEngine (eg_config e) (eg_policy e) (eg_ledger e) (eg_fences e) (eg_store e) (eg_stats e) b (eg_ticks e).
Definition put_ticks (n : nat) (e : Engine) : Engine :=
  MkEngine (eg_config e) (eg_policy e) (eg_ledger e) (eg_fences e) (eg_store e) (eg_stats e) (eg_opened e) n.

(** ** The monad of engine operations *)

Definition EngineWorld : Type := Engine * Disk.
Definition EngineM (A : Type) : Type := EngineWorld -> A * EngineWorld.

#[export] Instance EngineM_ret : MRet EngineM := fun A a w => (a, w).
#[export] Instance EngineM_bind : MBind EngineM := fun A B k m w => let '(a, w) := m w in k a w.

Definition get_engine : EngineM Engine := fun w => (w.1, w).
Definition update (f : Engine -> Engine) : EngineM unit := fun w => (tt, (f w.1, w.2)).
Definition count (k : Tally) : EngineM unit := update (fun e => put_stats (tally k (eg_stats e)) e).
Definition on_store {A} (m : StoreM A) : EngineM A := fun w =>
  let '(a, (t, d)) := m (eg_store w.1, w.2) in (a, (put_store t w.1, d)).
Definition on_fences {A} (f : FenceRegistry -> A * FenceRegistry) : EngineM A := fun w =>
  let '(a, r) := f (eg_fences w.1) in (a, (put_fences r w.1, w.2)).
(** [if (b) ++stats_.k] *)
Definition count_if (b : bool) (k : Tally) : EngineM unit := if b then count k else mret tt.

(** The durable form of a fence record. src/service/engine.cpp:73-81 Engine::revalidate_fences_locked (payload) *)
Definition fence_payload (x : FenceRecord) : FenceStatePayload :=
  MkFenceState (fr_intent x) (fr_lifecycle x) (fr_effect_verified x) (fr_ack_owner x) (fr_effect_owner x)
    (fr_acked_at x) (fr_effected_at x) (fr_terminal_reason x).

(** [if (v.size() < policy_.max_reasons_per_decision) v.push_back(reason)] *)
Definition push_reason (p : FencePolicy) (r : ReasonCode.t) (rs : list ReasonCode.t) : list ReasonCode.t :=
  if zlen rs <? max_reasons_per_decision p then rs ++ [r] else rs.

(** *** Updates of a decision *)

Definition set_reasons (rs : list ReasonCode.t) (d : Decision) : Decision :=
  MkDecision (dc_id d) (dc_kind d) (dc_outcome d) (dc_scope d) (dc_gens d) (dc_classification d)
    (dc_primary_reason d) rs (dc_authority d) (dc_census d) (dc_corroborated d) (dc_corroboration_reason d)
    (dc_has_localization d) (dc_localization d) (dc_has_intent d) (dc_intent d) (dc_provenance d)
    (dc_policy d) (dc_boot d) (dc_incarnation d) (dc_decided_at d).
Definition set_primary (r : ReasonCode.t) (d : Decision) : Decision :=
  MkDecision (dc_id d) (dc_kind d) (dc_outcome d) (dc_scope d) (dc_gens d) (dc_classification d)
    r (dc_reasons d) (dc_authority d) (dc_census d) (dc_corroborated d) (dc_corroboration_reason d)
    (dc_has_localization d) (dc_localization d) (dc_has_intent d) (dc_intent d) (dc_provenance d)
    (dc_policy d) (dc_boot d) (dc_incarnation d) (dc_decided_at d).
Definition set_authority (a : AuthorityVector) (d : Decision) : Decision :=
  MkDecision (dc_id d) (dc_kind d) (dc_outcome d) (dc_scope d) (dc_gens d) (dc_classification d)
    (dc_primary_reason d) (dc_reasons d) a (dc_census d) (dc_corroborated d) (dc_corroboration_reason d)
    (dc_has_localization d) (dc_localization d) (dc_has_intent d) (dc_intent d) (dc_provenance d)
    (dc_policy d) (dc_boot d) (dc_incarnation d) (dc_decided_at d).
Definition set_intent (has : bool) (i : FenceIntent) (d : Decision) : Decision :=
  MkDecision (dc_id d) (dc_kind d) (dc_outcome d) (dc_scope d) (dc_gens d) (dc_classification d)
    (dc_primary_reason d) (dc_reasons d) (dc_authority d) (dc_census d) (dc_corroborated d) (dc_corroboration_reason d)
    (dc_has_localization d) (dc_localization d) has i (dc_provenance d)
    (dc_policy d) (dc_boot d) (dc_incarnation d) (dc_decided_at d).
Definition set_localization (l : LocalizationResult) (d : Decision) : Decision :=
  MkDecision (dc_id d) (dc_kind d) (dc_outcome d) (dc_scope d) (dc_gens d) (dc_classification d)
    (dc_primary_reason d) (dc_reasons d) (dc_authority d) (dc_census d) (dc_corroborated d) (dc_corroboration_reason d)
    true l (dc_has_intent d) (dc_intent d) (dc_provenance d)
    (dc_policy d) (dc_boot d) (dc_incarnation d) (dc_decided_at d).
Definition set_id (i : DecisionId) (d : Decision) : Decision :=
  MkDecision i (dc_kind d) (dc_outcome d) (dc_scope d) (dc_gens d) (dc_classification d)
    (dc_primary_reason d) (dc_reasons d) (dc_authority d) (dc_census d) (dc_corroborated d) (dc_corroboration_reason d)
    (dc_has_localization d) (dc_localization d) (dc_has_intent d) (dc_intent d) (dc_provenance d)
    (dc_policy d) (dc_boot d) (dc_incarnation d) (dc_decided_at d).

Definition add_note (p : FencePolicy) (r : ReasonCode.t) (d : Decision) : Decision :=
  set_reasons (push_reason p r (dc_reasons d)) d.
Definition set_stage (s : AuthorityStage.t) (a : AuthorityVector) : AuthorityVector :=
  MkAuthority s (av_decision a) (av_fence a) (av_gens a) (av_boot a) (av_incarnation a) (av_policy a)
    (av_issued_at a) (av_expires_at a) (av_revoked a) (av_revoke_reason a) (av_provenance a).
Definition set_fence (f : FenceId) (a : AuthorityVector) : AuthorityVector :=
  MkAuthority (av_stage a) (av_decision a) f (av_gens a) (av_boot a) (av_incarnation a) (av_policy a)
    (av_issued_at a) (av_expires_at a) (av_revoked a) (av_revoke_reason a) (av_provenance a).
Definition set_expiry (t : WallNs) (a : AuthorityVector) : AuthorityVector :=
  MkAuthority (av_stage a) (av_decision a) (av_fence a) (av_gens a) (av_boot a) (av_incarnation a) (av_policy a)
    (av_issued_at a) t (av_revoked a) (av_revoke_reason a) (av_provenance a).
Definition set_av_decision (i : DecisionId) (a : AuthorityVector) : AuthorityVector :=
  MkAuthority (av_stage a) i (av_fence a) (av_gens a) (av_boot a) (av_incarnation a) (av_policy a)
    (av_issued_at a) (av_expires_at a) (av_revoked a) (av_revoke_reason a) (av_provenance a).

(** [d.id = derive_decision_id(d); d.authority.decision = d.id;] *)
Definition identify (d : Decision) : Decision :=
  let i := derive_decision_id d in set_authority (set_av_decision i (dc_authority d)) (set_id i d).

(** The decision carries the intent: stage, fence and expiry of the authority follow it. *)
Definition carry_intent (i : FenceIntent) (d : Decision) : Decision :=
  set_authority (set_expiry (fi_expires_at i) (set_fence (fi_id i) (set_stage AuthorityStage.Intent (dc_authority d))))
    (set_intent true i d).

(** The authority vector the engine fills in, without fence, decision or expiry. *)
Definition engine_authority (e : Engine) (stage : AuthorityStage.t) (gens : GenerationVector) (issued : WallNs)
  : AuthorityVector :=
  MkAuthority stage (MkId 0) (MkId 0) gens (boot_ (eg_store e)) (incarnation_ (eg_store e))
    (pol_version (eg_policy e)) issued (MkWall 0) false ReasonCode.None (ec_label (eg_config e)).

(** ** Operations *)

Section Operations.
Context (clock : nat -> WallNs).

(** [now_wall] (line 543) is the same reading. src/service/engine.cpp:18 Engine::now *)
Definition read_now : EngineM WallNs := fun w => (clock (eg_ticks w.1), (put_ticks (S (eg_ticks w.1)) w.1, w.2)).

(** src/service/engine.cpp:20-31 Engine::open *)
Definition engine_open (nonce1 nonce2 : Z) : EngineM Outcome :=
  e ← get_engine;
  if eg_opened e then mret Invalid
  else
    now ← read_now;
    o ← on_store (store_open nonce1 nonce2 now (ec_label (eg_config e)));
    if negb (is_affirmative o) then mret o
    else
      update (fun e => put_opened true (put_fences (registry_clear (eg_fences e)) (put_ledger (ledger_reset (eg_ledger e)) e))) ;;
      mret Ok.

(** src/service/engine.cpp:33-41 Engine::close *)
Definition engine_close : EngineM Outcome :=
  e ← get_engine;
  if negb (eg_opened e) then mret Ok
  else
    o ← on_store store_close;
    update (fun e => put_fences (registry_clear (eg_fences e)) (put_ledger (ledger_reset (eg_ledger e)) (put_opened false e))) ;;
    mret o.

(** src/service/engine.cpp:48-66 Engine::submit *)
Definition submit (ev : DeliveryEvidence) : EngineM (Outcome * EvidenceAdmission.t * ReasonCode.t) :=
  count EvidenceSubmitted ;;
  e ← get_engine;
  if negb (eg_opened e) then
    count EvidenceRejected ;;
    mret (Rejected, EvidenceAdmission.CapacityExhausted, ReasonCode.UnsupportedInput)
  else
    now ← read_now;
    let '(admission, reason, l) := ledger_admit ev now (eg_ledger e) in
    update (put_ledger l) ;;
    if (admission == EvidenceAdmission.Accepted) || (admission == EvidenceAdmission.RolloverAccepted) then
      count EvidenceAdmitted ;; mret (Ok, admission, reason)
    else count EvidenceRejected ;; mret (Rejected, admission, reason).

(** [const Outcome o = store_.commit_fence_state(type, payload); if (!is_affirmative(o)) ++stats_.durable_commit_failures;] *)
Definition log_fence (type : RecordType.t) (payload : FenceStatePayload) : EngineM unit :=
  o ← on_store (commit_fence_state type payload);
  count_if (negb (is_affirmative o)) DurableCommitFailures.

(** src/service/engine.cpp:70-85 Engine::revalidate_fences_locked (loop) *)
Fixpoint log_revocations (ids : list FenceId) : EngineM unit :=
  match ids with
  | [] => mret tt
  | id :: ids =>
      e ← get_engine;
      match find_fence id (eg_fences e) with
      | None => log_revocations ids
      | Some x =>
          log_fence RecordType.FenceRevokeCommit (fence_payload x) ;;
          count FenceRevocations ;;
          log_revocations ids
      end
  end.

(** src/service/engine.cpp:68-86 Engine::revalidate_fences_locked *)
Definition revalidate_fences (current : GenerationVector) : EngineM unit :=
  now ← read_now;
  revoked ← on_fences (revalidate now current);
  log_revocations revoked.

(** src/service/engine.cpp:88-112 Engine::make_refusal *)
Definition make_refusal (scope : Scope) (gens : GenerationVector) (outcome : Outcome) (reason : ReasonCode.t)
  : EngineM Decision :=
  e ← get_engine;
  now ← read_now;
  mret (identify (MkDecision (MkId 0) DecisionKind.Diagnosis outcome scope gens Classification.Unknown reason
    (push_reason (eg_policy e) reason []) (engine_authority e AuthorityStage.None gens (MkWall 0)) empty_census
    false ReasonCode.None false nil_localization false nil_intent (ec_label (eg_config e)) (pol_version (eg_policy e))
    (boot_ (eg_store e)) (incarnation_ (eg_store e)) now)).

(** src/service/engine.cpp:114-124 Engine::commit_decision *)
Definition engine_commit (d : Decision) : EngineM Outcome :=
  count DecisionsProduced ;;
  o ← on_store (commit_decision d);
  if negb (is_affirmative o) then
    count DecisionCommitFailures ;; count DurableCommitFailures ;; mret o
  else count DecisionsCommitted ;; mret Ok.

(** The diagnosis of the evidence the ledger holds. src/service/engine.cpp:144-153 Engine::evaluate (diagnosis) *)
Definition diagnose (scope : Scope) (gens : GenerationVector) : EngineM (Diagnosis * WallNs) :=
  e ← get_engine;
  now ← read_now;
  mret (classify (MkRequest scope gens now (Some (eg_policy e)) (evidence_for scope (eg_ledger e))), now).

(** src/service/engine.cpp:172-176 Engine::evaluate (stage) *)
Definition diagnosis_stage (diag : Diagnosis) : AuthorityStage.t :=
  if classification diag == Classification.Blackhole then
    if corroborated diag then AuthorityStage.Authorization else AuthorityStage.Eligibility
  else if 0 <? total (census diag) then AuthorityStage.Observation
  else AuthorityStage.None.

(** src/service/engine.cpp:155-185 Engine::evaluate (decision without intent) *)
Definition diagnosis_decision (e : Engine) (scope : Scope) (gens : GenerationVector) (diag : Diagnosis)
  (now : WallNs) : Decision :=
  MkDecision (MkId 0) DecisionKind.Diagnosis (d_outcome diag) scope gens (classification diag) (primary_reason diag)
    (d_reasons diag) (engine_authority e (diagnosis_stage diag) gens now) (census diag) (corroborated diag)
    (corroboration_reason diag) false nil_localization false nil_intent (ec_label (eg_config e))
    (pol_version (eg_policy e)) (boot_ (eg_store e)) (incarnation_ (eg_store e)) now.

(** src/service/engine.cpp:192-193 Engine::evaluate (staging) *)
Definition issue_request (e : Engine) (d : Decision) : IssueRequest :=
  MkIssue (dc_scope d) (dc_gens d) (dc_boot d) (dc_incarnation d) (ec_label (eg_config e)) (dc_primary_reason d)
    (dc_decided_at d).

(** The payload of a staged intent: [FenceStatePayload payload; payload.intent = intent; ...] *)
Definition intent_payload (i : FenceIntent) : FenceStatePayload :=
  MkFenceState i FenceLifecycle.Intent false (MkId 0) (MkId 0) (MkWall 0) (MkWall 0) ReasonCode.None.

(** src/service/engine.cpp:187-238 Engine::evaluate (intent) *)
Definition authorize (d : Decision) : EngineM Decision :=
  e ← get_engine;
  let p := eg_policy e in
  '(so, intent, fence_reason) ← on_fences (stage (issue_request e d));
  if is_affirmative so then
    co ← on_store (commit_fence_state RecordType.FenceIntentCommit (intent_payload intent));
    if is_affirmative co then
      po ← on_fences (commit_staged intent);
      if is_affirmative po then
        count FenceIntentsIssued ;;
        mret (add_note p ReasonCode.FenceIntentIssued (carry_intent intent d))
      else count DurableCommitFailures ;; mret d
    else
      count DurableCommitFailures ;; count RefusalsFailClosed ;;
      mret (add_note p ReasonCode.BudgetExhausted d)
  else if so == Duplicate then
    e ← get_engine;
    match open_for (dc_scope d) (eg_fences e) with
    | Some existing => mret (carry_intent (fr_intent existing) d)
    | None => mret d
    end
  else count RefusalsFailClosed ;; mret (add_note p fence_reason d).

(** The intent is withdrawn when the decision did not become durable.
    src/service/engine.cpp:245-255 Engine::evaluate (failed commit) *)
Definition withdraw (d : Decision) : EngineM Decision :=
  e ← get_engine;
  now ← read_now;
  on_fences (revoke (fi_id (dc_intent d)) ReasonCode.FenceIntentRevoked now) ;;
  let d := set_intent false (dc_intent d) d in
  mret (add_note (eg_policy e) ReasonCode.FenceIntentRevoked
    (set_authority (set_fence (MkId 0) (set_stage AuthorityStage.Authorization (dc_authority d))) d)).

(** src/service/engine.cpp:126-258 Engine::evaluate *)
Definition evaluate (scope : Scope) (gens : GenerationVector) : EngineM (Outcome * Decision) :=
  e ← get_engine;
  if negb (eg_opened e) then
    count RefusalsFailClosed ;;
    d ← make_refusal scope gens Unavailable ReasonCode.UnsupportedInput; mret (Unavailable, d)
  else if negb (scope_valid scope) || negb (is_complete gens) then
    count RefusalsFailClosed ;;
    d ← make_refusal scope gens Invalid ReasonCode.UnsupportedInput; mret (Invalid, d)
  else
    count Evaluations ;;
    revalidate_fences gens ;;
    '(diag, now) ← diagnose scope gens;
    e ← get_engine;
    let d := diagnosis_decision e scope gens diag now in
    d ← (if av_stage (dc_authority d) == AuthorityStage.Authorization then authorize d else mret d);
    let d := identify d in
    let d := if dc_has_intent d then set_authority (set_fence (fi_id (dc_intent d)) (dc_authority d)) d else d in
    commit ← engine_commit d;
    d ← (if negb (is_affirmative commit) && dc_has_intent d then withdraw d else mret d);
    mret (dc_outcome d, d).

(** What the solver and the validator say, between the two critical sections: the outcome of
    building the input, the result, and whether validation failed.
    src/service/engine.cpp:267-291 Engine::localize (search) *)
Definition localize_search (p : FencePolicy) (hop_count : Z) (probes : list HopProbe)
  : Outcome * LocalizationResult * bool :=
  match build_localization_input hop_count probes (max_localization_search_nodes p) (max_localization_solutions p) with
  | inl (bo, _) =>
      (bo, MkResult LocalizationStatus.InvalidInput [] 0 false false false 0 0 0 false ReasonCode.LocalizationInvalid, false)
  | inr input =>
      let result := localize input in
      if rep_valid (verify_localization input result) then (Ok, result, false)
      else
        (Ok, MkResult LocalizationStatus.Indeterminate [] (optimal_size result) false false
           (solutions_truncated result) (solutions_found result) (search_nodes result)
           (infeasible_witness result) (has_infeasible_witness result) ReasonCode.LocalizationInvalid, true)
  end.

(** src/service/engine.cpp:304-320 Engine::localize (reasons) *)
Definition localization_note (p : FencePolicy) (validation_failed : bool) (s : LocalizationStatus.t) (d : Decision)
  : Decision :=
  if validation_failed then add_note p ReasonCode.InternalInvariantViolation d
  else
    match s with
    | LocalizationStatus.Ambiguous => add_note p ReasonCode.LocalizationAmbiguous d
    | LocalizationStatus.Indeterminate => add_note p ReasonCode.LocalizationSearchLimit d
    | LocalizationStatus.ProvenInfeasible => add_note p ReasonCode.LocalizationInfeasible d
    | _ => d
    end.

(** src/service/engine.cpp:293-335 Engine::localize (publication) *)
Definition localize_publish (found : Outcome * LocalizationResult * bool) (d : Decision) : EngineM (Outcome * Decision) :=
  let '(bo, result, validation_failed) := found in
  e ← get_engine;
  let p := eg_policy e in
  count Localizations ;;
  if negb (is_affirmative bo) then
    mret (bo, add_note p ReasonCode.UnsupportedInput (set_primary ReasonCode.UnsupportedInput (set_localization result d)))
  else
    let d1 := identify (set_localization result (localization_note p validation_failed (status result) d)) in
    if dc_id d1 != dc_id d then
      count LocalizationEnrichments ;; engine_commit d1 ;; mret (Ok, d1)
    else mret (Ok, d1).

(** The policy of an engine never changes, so the search may read it at any time.
    src/service/engine.cpp:260-336 Engine::localize *)
Definition engine_localize (scope : Scope) (gens : GenerationVector) (hop_count : Z) (probes : list HopProbe)
  : EngineM (Outcome * Decision) :=
  '(_, d) ← evaluate scope gens;
  e ← get_engine;
  localize_publish (localize_search (eg_policy e) hop_count probes) d.

(** What follows an accepted report of a downstream. src/service/engine.cpp:345-362 Engine::acknowledge_fence (commit) *)
Definition log_report (type : RecordType.t) (id : FenceId) (o : Outcome) (reason : ReasonCode.t)
  : EngineM (Outcome * ReasonCode.t) :=
  if negb (is_affirmative o) then mret (o, reason)
  else
    e ← get_engine;
    match find_fence id (eg_fences e) with
    | None => mret (NotFound, ReasonCode.PolicyRefused)
    | Some x => log_fence type (fence_payload x) ;; mret (o, reason)
    end.

(** src/service/engine.cpp:338-363 Engine::acknowledge_fence *)
Definition acknowledge_fence (id : FenceId) (downstream : EvidenceSourceId) : EngineM (Outcome * ReasonCode.t) :=
  e ← get_engine;
  if negb (eg_opened e) then mret (Rejected, ReasonCode.UnsupportedInput)
  else
    now ← read_now;
    '(o, reason) ← on_fences (acknowledge id downstream now);
    log_report RecordType.FenceAckCommit id o reason.

(** src/service/engine.cpp:365-391 Engine::report_effect *)
Definition engine_report_effect (id : FenceId) (downstream : EvidenceSourceId) (verified : bool)
  : EngineM (Outcome * ReasonCode.t) :=
  e ← get_engine;
  if negb (eg_opened e) then mret (Rejected, ReasonCode.UnsupportedInput)
  else
    now ← read_now;
    '(o, reason) ← on_fences (report_effect id downstream verified now);
    log_report RecordType.FenceEffectCommit id o reason.

(** src/service/engine.cpp:424-438 Engine::restore (decision) *)
Definition restoration_decision (e : Engine) (scope : Scope) (gens : GenerationVector) (diag : Diagnosis)
  (rd : RestorationDecision) (now : WallNs) : Decision :=
  MkDecision (MkId 0) DecisionKind.Restoration (rd_outcome rd) scope gens (classification diag) (rd_reason rd)
    (push_reason (eg_policy e) (rd_reason rd) (d_reasons diag)) (engine_authority e AuthorityStage.None gens (MkWall 0))
    (census diag) false ReasonCode.None false nil_localization false nil_intent (ec_label (eg_config e))
    (pol_version (eg_policy e)) (boot_ (eg_store e)) (incarnation_ (eg_store e)) now.

(** The durable form of the fence a restoration revokes. src/service/engine.cpp:446-454 Engine::restore (payload) *)
Definition revoked_payload (now : WallNs) (x : FenceRecord) : FenceStatePayload :=
  MkFenceState (fr_intent x) FenceLifecycle.Revoked (fr_effect_verified x) (fr_ack_owner x) (fr_effect_owner x)
    (fr_acked_at x) now ReasonCode.FenceIntentRevoked.

(** The stage reached by an authorized restoration, and the decision; the open fence is
    revoked in memory only behind its durable revocation.
    src/service/engine.cpp:442-469 Engine::restore (authorized) *)
Definition lift_fence (open_fence : option FenceRecord) (now : WallNs) (d : Decision)
  : EngineM (AuthorityStage.t * Decision) :=
  e ← get_engine;
  count RestorationsAuthorized ;;
  match open_fence with
  | None => mret (AuthorityStage.Authorization, d)
  | Some x =>
      co ← on_store (commit_fence_state RecordType.FenceRevokeCommit (revoked_payload now x));
      if is_affirmative co then
        on_fences (revoke (fi_id (fr_intent x)) ReasonCode.FenceIntentRevoked now) ;;
        mret (AuthorityStage.Authorization, d)
      else
        count DurableCommitFailures ;; count RefusalsFailClosed ;;
        mret (AuthorityStage.Eligibility,
              add_note (eg_policy e) ReasonCode.PolicyRefused (set_primary ReasonCode.PolicyRefused d))
  end.

(** src/service/engine.cpp:393-493 Engine::restore *)
Definition restore (scope : Scope) (gens : GenerationVector) : EngineM (Outcome * Decision) :=
  e ← get_engine;
  if negb (eg_opened e) then
    count RefusalsFailClosed ;; count RestorationsRefused ;;
    d ← make_refusal scope gens Unavailable ReasonCode.UnsupportedInput; mret (Unavailable, d)
  else if negb (scope_valid scope) || negb (is_complete gens) then
    count RefusalsFailClosed ;; count RestorationsRefused ;;
    d ← make_refusal scope gens Invalid ReasonCode.UnsupportedInput; mret (Invalid, d)
  else
    count Evaluations ;;
    revalidate_fences gens ;;
    '(diag, now) ← diagnose scope gens;
    e ← get_engine;
    let open_fence := open_for scope (eg_fences e) in
    let rd := evaluate_restoration diag (eg_policy e) open_fence now in
    let d := restoration_decision e scope gens diag rd now in
    '(stage, d) ←
      (if rd_authorized rd then lift_fence open_fence now d
       else
         count RestorationsRefused ;;
         mret ((if 0 <? total (census diag) then AuthorityStage.Observation else AuthorityStage.None), d));
    let d := identify (set_authority (engine_authority e stage gens (dc_decided_at d)) d) in
    commit ← engine_commit d;
    if negb (is_affirmative commit) then
      count RefusalsFailClosed ;;
      mret (dc_outcome d, set_authority (set_stage AuthorityStage.Observation (dc_authority d)) d)
    else mret (dc_outcome d, d).

(** src/service/engine.cpp:495-500 Engine::checkpoint *)
Definition engine_checkpoint : EngineM (Outcome * RecordSequence) :=
  e ← get_engine;
  if negb (eg_opened e) then mret (Unavailable, MkSeq 0)
  else
    now ← read_now;
    o ← on_store checkpoint;
    mret (o, last_seq_ (eg_store e)).

(** src/service/engine.cpp:507-513 Engine::fence_state *)
Definition fence_state (id : FenceId) (e : Engine) : Outcome * option FenceRecord :=
  match find_fence id (eg_fences e) with
  | None => (NotFound, None)
  | Some x => (Ok, Some x)
  end.

(** src/service/engine.cpp:515-527 Engine::lineage *)
Definition engine_lineage (limit : Z) (e : Engine) : Outcome * list LineageEntry * Z * Z :=
  let s := state_ (eg_store e) in
  let take := Z.min limit (zlen (ds_lineage s)) in
  (Ok, drop (Z.to_nat (zlen (ds_lineage s) - take)) (ds_lineage s), ds_lineage_seen s, ds_lineage_dropped s).

(** src/service/engine.cpp:529-532 Engine::open_report *)
Definition open_report (e : Engine) : OpenReport := report_ (eg_store e).
(** src/service/engine.cpp:534-537 Engine::epoch *)
Definition engine_epoch (e : Engine) : CoordinatorEpoch := ds_epoch (state_ (eg_store e)).
(** src/service/engine.cpp:539 Engine::policy_version *)
Definition policy_version (e : Engine) : PolicyVersion := pol_version (eg_policy e).
(** src/service/engine.cpp:541 Engine::policy_fingerprint *)
Definition engine_fingerprint (e : Engine) : Z := policy_fingerprint (eg_policy e).
(** src/service/engine.cpp:545-548 Engine::last_record *)
Definition last_record (e : Engine) : RecordSequence := last_seq_ (eg_store e).

(** ** Runs

    The atomic steps of the engine. The publication of a localization is a step of its own,
    for whatever decision and result it is called with, so every interleaving of the two
    halves of [localize] with other calls is a run. *)
Inductive EngineOp :=
| EOpen (nonce1 nonce2 : Z)
| EClose
| ESubmit (ev : DeliveryEvidence)
| EEvaluate (scope : Scope) (gens : GenerationVector)
| EPublish (found : Outcome * LocalizationResult * bool) (d : Decision)
| EAck (id : FenceId) (downstream : EvidenceSourceId)
| EEffect (id : FenceId) (downstream : EvidenceSourceId) (verified : bool)
| ERestore (scope : Scope) (gens : GenerationVector)
| ECheckpoint
| ENow.

Definition engine_step (op : EngineOp) (w : EngineWorld) : EngineWorld :=
  match op with
  | EOpen n1 n2 => (engine_open n1 n2 w).2
  | EClose => (engine_close w).2
  | ESubmit ev => (submit ev w).2
  | EEvaluate s g => (evaluate s g w).2
  | EPublish found d => (localize_publish found d w).2
  | EAck id o => (acknowledge_fence id o w).2
  | EEffect id o v => (engine_report_effect id o v w).2
  | ERestore s g => (restore s g w).2
  | ECheckpoint => (engine_checkpoint w).2
  | ENow => (read_now w).2
  end.

(** The engines a process reaches from a new one, on any disk: files and faults are arbitrary. *)
Inductive engine_reachable (c : EngineConfig) : EngineWorld -> Prop :=
| engine_new d : engine_reachable c (new_Engine c, d)
| engine_next op w : engine_reachable c w -> engine_reachable c (engine_step op w).

End Operations.
