(* ===== verification/EngineSpec.v ===== *)
(** * What the coordinator promises

    Runs of the engine over an arbitrary clock and an arbitrary, possibly faulty, disk: the
    counters stay balanced, an open fence always has an open durable record of the running
    incarnation, an intent leaves [evaluate] only with a durable decision, and [restore]
    lifts a fence only on positive evidence and behind a durable revocation. *)
From Stdlib Require Import Strings.String.
From S2P Require Import Prelude OrderedMap Core Checked Codec Hash Ids Domain Policy Fixtures Ledger Classifier Localizer Fence Authority.
From S2P Require Import Record Journal Snapshot Durable Store Engine.
Local Open Scope string_scope.
Local Open Scope list_scope.
Local Open Scope Z_scope.

(** ** Balance of the counters

    The three identities of [EngineStats::accounting_closed] as differences; an operation
    moves each by a known amount, modulo the width of the counters. *)

Definition drift1 (s : EngineStats) : Z := es_evidence_submitted s - es_evidence_admitted s - es_evidence_rejected s.
Definition drift2 (s : EngineStats) : Z := es_decisions_produced s - es_evaluations s - es_localization_enrichments s.
Definition drift3 (s : EngineStats) : Z := es_decisions_produced s - es_decisions_committed s - es_decision_commit_failures s.
Definition stats_range (s : EngineStats) : Prop := in_u64 (es_evidence_submitted s) /\ in_u64 (es_decisions_produced s).

Record moved (a b c : Z) (s s' : EngineStats) : Prop := {
  mv1 : wrap 64 (drift1 s') = wrap 64 (drift1 s + a);
  mv2 : wrap 64 (drift2 s') = wrap 64 (drift2 s + b);
  mv3 : wrap 64 (drift3 s') = wrap 64 (drift3 s + c);
  mv_range : stats_range s -> stats_range s';
}.

Lemma moved_refl s : moved 0 0 0 s s.
Proof. split; try done; f_equal; lia. Qed.

Lemma wrap_shift x y a b : wrap 64 y = wrap 64 (x + a) -> wrap 64 (y + b) = wrap 64 (x + (a + b)).
Proof. unfold wrap. intros H. rewrite Z.add_assoc, <- Z.add_mod_idemp_l, H, Z.add_mod_idemp_l by lia. done. Qed.

Lemma moved_trans a b c a' b' c' s s1 s2 :
  moved a b c s s1 -> moved a' b' c' s1 s2 -> moved (a + a') (b + b') (c + c') s s2.
Proof.
  intros [A B C D] [A' B' C' D']. split; [rewrite A' | rewrite B' | rewrite C' | auto]; by apply wrap_shift.
Qed.

(** What one increment moves. *)
Definition tally1 (k : Tally) : Z :=
  match k with EvidenceSubmitted => 1 | EvidenceAdmitted | EvidenceRejected => -1 | _ => 0 end.
Definition tally2 (k : Tally) : Z :=
  match k with DecisionsProduced => 1 | Evaluations | LocalizationEnrichments => -1 | _ => 0 end.
Definition tally3 (k : Tally) : Z :=
  match k with DecisionsProduced => 1 | DecisionsCommitted | DecisionCommitFailures => -1 | _ => 0 end.

Lemma moved_tally k s : moved (tally1 k) (tally2 k) (tally3 k) s (tally k s).
Proof.
  split; [| | | intros [H1 H2]; split]; destruct k; unfold tally, drift1, drift2, drift3; cbn;
    rewrite ?beq_refl, ?beq_ne by discriminate; first [assumption | apply incr_range | wrap_eq].
Qed.

Definition moves {A} (a b c : Z) (m : EngineM A) : Prop :=
  forall w, moved a b c (eg_stats w.1) (eg_stats (m w).2.1).

Lemma moves_bind {A B} a b c x y z (m : EngineM A) (k : A -> EngineM B) :
  moves x y z m -> (forall v, moves (a - x) (b - y) (c - z) (k v)) -> moves a b c (m ≫= k).
Proof.
  intros Hm Hk w. specialize (Hm w). unfold mbind, EngineM_bind. destruct (m w) as [v w1]. cbn [snd] in Hm.
  specialize (Hk v w1). pose proof (moved_trans _ _ _ _ _ _ _ _ _ Hm Hk) as H.
  by replace (x + (a - x)) with a in H by lia; replace (y + (b - y)) with b in H by lia;
    replace (z + (c - z)) with c in H by lia.
Qed.

(** A computation that leaves the counters alone. *)
Definition silent {A} (m : EngineM A) : Prop := forall w, eg_stats (m w).2.1 = eg_stats w.1.

Lemma moves_silent {A} a b c (m : EngineM A) : a = 0 -> b = 0 -> c = 0 -> silent m -> moves a b c m.
Proof. intros -> -> -> Hm w. rewrite Hm. apply moved_refl. Qed.

Lemma silent_ret {A} (v : A) : silent (mret v). Proof. done. Qed.
Lemma silent_get : silent get_engine. Proof. done. Qed.
Lemma silent_now clock : silent (read_now clock). Proof. done. Qed.
Lemma silent_store {A} (m : StoreM A) : silent (on_store m).
Proof. intros w. unfold on_store. by destruct (m _) as [a [t d]]. Qed.
Lemma silent_fences {A} (f : FenceRegistry -> A * FenceRegistry) : silent (on_fences f).
Proof. intros w. unfold on_fences. by destruct (f _). Qed.
Lemma silent_update f : (forall e, eg_stats (f e) = eg_stats e) -> silent (update f).
Proof. intros Hf w. apply Hf. Qed.
Lemma moves_count k : moves (tally1 k) (tally2 k) (tally3 k) (count k).
Proof. intros w. apply moved_tally. Qed.

Lemma moves_count_if b k : tally1 k = 0 -> tally2 k = 0 -> tally3 k = 0 -> moves 0 0 0 (count_if b k).
Proof.
  intros H1 H2 H3. unfold count_if. destruct b; [| by apply moves_silent].
  pose proof (moves_count k) as H. by rewrite H1, H2, H3 in H.
Qed.

Create HintDb moves discriminated.

(** Run a computation from its first effect on, splitting its tests. *)
Ltac moves_atom :=
  lazymatch goal with
  | |- moves _ _ _ (count _) => apply moves_count
  | |- moves _ _ _ (count_if _ _) => apply moves_count_if; reflexivity
  | |- moves _ _ _ (on_store _) => apply moves_silent; [reflexivity.. | apply silent_store]
  | |- moves _ _ _ (on_fences _) => apply moves_silent; [reflexivity.. | apply silent_fences]
  | |- moves _ _ _ (update _) => apply moves_silent; [reflexivity.. | apply silent_update; reflexivity]
  | |- moves _ _ _ get_engine => apply moves_silent; [reflexivity.. | apply silent_get]
  | |- moves _ _ _ (read_now _) => apply moves_silent; [reflexivity.. | apply silent_now]
  | |- moves _ _ _ (mret _) => apply moves_silent; [reflexivity.. | apply silent_ret]
  | |- moves _ _ _ (if ?b then _ else _) => destruct b; [moves_atom | moves]
  | |- _ => solve [eauto with moves nocore]
  end
with moves_step :=
  lazymatch goal with
  | |- moves _ _ _ (mbind _ _) => eapply moves_bind; [moves_atom | intros ?]
  | |- moves _ _ _ (if ?b then _ else _) => destruct b
  | |- moves _ _ _ (match ?x with _ => _ end) => destruct x
  | |- moves _ _ _ (let _ := _ in _) => cbv zeta
  | |- moves _ _ _ _ => moves_atom
  end
with moves := repeat (cbn beta; moves_step).

Section Balance.
Context (clock : nat -> WallNs).

Lemma moves_log_fence type f : moves 0 0 0 (log_fence type f).
Proof. unfold log_fence. moves. Qed.
Hint Resolve moves_log_fence : moves.

Lemma moves_log_revocations ids : moves 0 0 0 (log_revocations ids).
Proof. induction ids as [| id ids IH]; cbn [log_revocations]; moves. all: apply IH. Qed.
Hint Resolve moves_log_revocations : moves.

Lemma moves_revalidate gens : moves 0 0 0 (revalidate_fences clock gens).
Proof. unfold revalidate_fences. moves. Qed.
Lemma moves_refusal s g o r : moves 0 0 0 (make_refusal clock s g o r).
Proof. unfold make_refusal. moves. Qed.
Lemma moves_commit d : moves 0 1 0 (engine_commit d).
Proof. unfold engine_commit. moves. Qed.
Lemma moves_diagnose s g : moves 0 0 0 (diagnose clock s g).
Proof. unfold diagnose. moves. Qed.
Lemma moves_authorize d : moves 0 0 0 (authorize d).
Proof. unfold authorize. moves. Qed.
Lemma moves_withdraw d : moves 0 0 0 (withdraw clock d).
Proof. unfold withdraw. moves. Qed.
Lemma moves_lift f now d : moves 0 0 0 (lift_fence f now d).
Proof. unfold lift_fence. moves. Qed.
Lemma moves_log_report type id o r : moves 0 0 0 (log_report type id o r).
Proof. unfold log_report. moves. Qed.
Hint Resolve moves_revalidate moves_refusal moves_commit moves_diagnose moves_authorize moves_withdraw moves_lift
  moves_log_report : moves.

Lemma moves_open n1 n2 : moves 0 0 0 (engine_open clock n1 n2).
Proof. unfold engine_open. moves. Qed.
Lemma moves_close : moves 0 0 0 engine_close.
Proof. unfold engine_close. moves. Qed.
Lemma moves_submit ev : moves 0 0 0 (submit clock ev).
Proof. unfold submit. moves. Qed.
Lemma moves_evaluate s g : moves 0 0 0 (evaluate clock s g).
Proof. unfold evaluate. moves. Qed.
Lemma moves_publish found d : moves 0 0 0 (localize_publish found d).
Proof. unfold localize_publish. moves. Qed.
Lemma moves_ack id o : moves 0 0 0 (acknowledge_fence clock id o).
Proof. unfold acknowledge_fence. moves. Qed.
Lemma moves_effect id o v : moves 0 0 0 (engine_report_effect clock id o v).
Proof. unfold engine_report_effect. moves. Qed.
Lemma moves_restore s g : moves 0 0 0 (restore clock s g).
Proof. unfold restore. moves. Qed.
Lemma moves_checkpoint : moves 0 0 0 (engine_checkpoint clock).
Proof. unfold engine_checkpoint. moves. Qed.

Lemma moved_step op w : moved 0 0 0 (eg_stats w.1) (eg_stats (engine_step clock op w).1).
Proof.
  destruct op; [apply moves_open | apply moves_close | apply moves_submit | apply moves_evaluate | apply moves_publish
    | apply moves_ack | apply moves_effect | apply moves_restore | apply moves_checkpoint | apply moved_refl].
Qed.

Lemma reachable_balanced c w : engine_reachable clock c w -> moved 0 0 0 zero_engine_stats (eg_stats w.1).
Proof.
  induction 1 as [d | op w _ IH]; [apply moved_refl |].
  exact (moved_trans _ _ _ _ _ _ _ _ _ IH (moved_step op w)).
Qed.

Lemma balanced_closed s : moved 0 0 0 zero_engine_stats s -> es_accounting_closed s = true.
Proof.
  intros [H1 H2 H3 H4]. unfold drift1, drift2, drift3 in *. cbn in H1, H2, H3.
  destruct H4 as [R1 R2]; [split; vm_compute; (split; [discriminate | reflexivity]) |].
  unfold es_accounting_closed. unfold in_u, wrap in *. rewrite !andb_true_iff, !Z.eqb_eq. unfold u64_add, wrap.
  change (2 ^ 64) with 18446744073709551616 in *. split_and!; Z.div_mod_to_equations; lia.
Qed.
End Balance.

(** ** What the commits leave alone *)

(** The fields of the store that fences depend on. *)
Definition fence_view (t : Store) := (boot_ t, incarnation_ t, config_ t, opened_ t, ds_fences (state_ t)).
Definition identity_view (t : Store) := (boot_ t, incarnation_ t, config_ t, opened_ t).

Section Keeps.
Context {V : Type} (view : Store -> V).

Definition keeps {A} (m : StoreM A) : Prop := forall w, view (m w).2.1 = view w.1.

Lemma keeps_bind {A B} (m : StoreM A) (k : A -> StoreM B) :
  keeps m -> (forall a, keeps (k a)) -> keeps (m ≫= k).
Proof.
  intros Hm Hk w. specialize (Hm w). unfold mbind, StoreM_bind. destruct (m w) as [a w1]. cbn [snd] in Hm.
  by rewrite (Hk a w1).
Qed.
Lemma keeps_ret {A} (a : A) : keeps (mret a). Proof. done. Qed.
Lemma keeps_get : keeps get_store. Proof. done. Qed.
Lemma keeps_disk {A} (f : Disk -> A * Disk) : keeps (on_disk f).
Proof. intros w. unfold on_disk. by destruct (f _). Qed.
Lemma keeps_modify f : (forall t, view (f t) = view t) -> keeps (modify f).
Proof. intros Hf w. apply Hf. Qed.
Lemma keeps_journal f : (forall j t, view (with_journal j t) = view t) -> keeps (on_journal f).
Proof. intros Hj w. unfold on_journal. destruct (f _ _) as [[o j] d]. apply Hj. Qed.
End Keeps.

Ltac keeps :=
  repeat lazymatch goal with
  | |- keeps _ (mbind _ _) => apply keeps_bind; [| intros ?]
  | |- keeps _ (mret _) => apply keeps_ret
  | |- keeps _ get_store => apply keeps_get
  | |- keeps _ (on_disk _) => apply keeps_disk
  | |- keeps _ (on_journal _) => apply keeps_journal; reflexivity
  | |- keeps _ (modify _) => apply keeps_modify; reflexivity
  | |- keeps _ (if ?b then _ else _) => destruct b
  | |- keeps _ (match ?x with _ => _ end) => destruct x
  | |- keeps _ (let _ := _ in _) => cbv zeta
  | |- keeps _ _ => eassumption
  end.

Lemma keeps_append type payload : keeps fence_view (append_commit type payload).
Proof. unfold append_commit. keeps. Qed.

Lemma keeps_value {A} `{Codec A} max type (a : A) : keeps fence_view (commit_value max type a).
Proof. unfold commit_value. destruct (encode_bounded max a); [apply keeps_append | apply keeps_ret]. Qed.

Lemma push_lineage_fences c e s : ds_fences (push_lineage c e s) = ds_fences s.
Proof. unfold push_lineage. by repeat split_if. Qed.

Lemma keeps_push e : keeps fence_view (push_entry e).
Proof. apply keeps_modify. intros t. unfold fence_view. cbn. by rewrite push_lineage_fences. Qed.

Lemma keeps_decision d : keeps fence_view (commit_decision d).
Proof. unfold commit_decision. pose proof (keeps_value kDefaultMaxDocumentBytes RecordType.DecisionCommit d). keeps. apply keeps_push. Qed.

Lemma keeps_checkpoint : keeps fence_view checkpoint.
Proof.
  unfold checkpoint. keeps. apply keeps_value.
Qed.

(** The fence a durable state records under an identity. *)
Definition durable_fence (t : Store) (id : FenceId) : option FenceStatePayload :=
  find_fence_state id (ds_fences (state_ t)).

Lemma find_replaced f g l id :
  find_fence_state (fi_id (fp_intent f)) l = Some g ->
  find_fence_state id (replace_fence_state f l) =
  if fi_id (fp_intent f) == id then Some f else find_fence_state id l.
Proof.
  unfold find_fence_state. induction l as [| x l IH]; [done |]. cbn [List.find replace_fence_state].
  destruct (bool_decide_reflect (fi_id (fp_intent x) = fi_id (fp_intent f))) as [E |]; cbn [List.find].
  - intros _. rewrite E. by destruct (bool_decide_reflect (fi_id (fp_intent f) = id)).
  - intros Hf. rewrite (IH Hf). destruct (bool_decide_reflect (fi_id (fp_intent x) = id)) as [E |]; [| done].
    rewrite <- E. by rewrite beq_ne.
Qed.

Lemma find_appended f l id :
  find_fence_state (fi_id (fp_intent f)) l = None ->
  find_fence_state id (l ++ [f]) = if fi_id (fp_intent f) == id then Some f else find_fence_state id l.
Proof.
  unfold find_fence_state. induction l as [| x l IH]; [done |]. cbn [List.find app].
  destruct (bool_decide_reflect (fi_id (fp_intent x) = fi_id (fp_intent f))) as [| Hne]; [done |]. intros Hn. rewrite (IH Hn).
  destruct (bool_decide_reflect (fi_id (fp_intent x) = id)) as [<- |]; [| done]. by rewrite beq_ne by congruence.
Qed.

(** A fence commit that reports success records the fence; one that does not records
    nothing in the state. *)
Lemma commit_fence_spec type f w :
  let '(o, w') := commit_fence_state type f w in
  identity_view w'.1 = identity_view w.1 /\
  forall id, durable_fence w'.1 id =
    if is_affirmative o && (fi_id (fp_intent f) == id) then Some f else durable_fence w.1 id.
Proof.
  unfold commit_fence_state, durable_fence. pose proof (keeps_value 1024 type f w) as Hv.
  unfold mbind, StoreM_bind. destruct (commit_value 1024 type f w) as [o [t d]]. cbn [fst snd] in Hv.
  injection Hv as V1 V2 V3 V4 V5. destruct (is_affirmative o) eqn:Eo.
  2:{ cbn. rewrite Eo, V5. cbn [andb]. split; [unfold identity_view; congruence | done]. }
  unfold get_store. cbn [fst snd]. destruct (find_fence_state (fi_id (fp_intent f)) (ds_fences (state_ t))) eqn:Ef.
  - cbn. split; [unfold identity_view; cbn; congruence |]. intros id. rewrite push_lineage_fences.
    change (ds_fences (set_fences ?l ?s)) with l. rewrite (find_replaced _ _ _ _ Ef), V5. done.
  - destruct (_ <=? _); cbn.
    + split; [unfold identity_view; congruence |]. intros id. by rewrite V5.
    + split; [unfold identity_view; cbn; congruence |]. intros id. rewrite push_lineage_fences.
      assert (ds_fences (if type == RecordType.FenceIntentCommit
        then count_fence (set_fences (ds_fences (state_ t) ++ [f]) (state_ t))
        else set_fences (ds_fences (state_ t) ++ [f]) (state_ t)) = ds_fences (state_ t) ++ [f]) as -> by (by destruct (_ == _)).
      rewrite (find_appended _ _ _ Ef), V5. done.
Qed.

(** ** Registries inside the engine

    [clear] empties a registry and keeps its counters, so inside the engine the invariant of
    the records holds for some counters. *)
Definition settled (r : FenceRegistry) : Prop :=
  exists s, registry_inv 0 (MkRegistry (reg_policy r) (records_ r) s).

(** The calls of the engine on a fence; it never issues directly, and it clears the registry
    only where it opens and closes. *)
Definition engine_op (op : FenceOp) : bool := match op with OpIssue _ | OpClear => false | _ => true end.

Lemma run_op_records op r s :
  engine_op op = true -> records_ (run_op op (MkRegistry (reg_policy r) (records_ r) s)) = records_ (run_op op r).
Proof.
  destruct op; intros H; try discriminate; cbn [run_op];
    unfold stage, commit_staged, acknowledge, report_effect, revoke, revalidate, fence_all;
    try (rewrite !run_sweep_eq; done);
    cbv zeta; unfold open_duplicate; cbn [with_stats records_ reg_policy];
    repeat first [ done | match goal with |- context [match ?x with _ => _ end] =>
      lazymatch x with context [match _ with _ => _ end] => fail | _ => destruct x end end ].
Qed.

Lemma settled_step op r : engine_op op = true -> settled r -> settled (run_op op r) /\ persists r (run_op op r).
Proof.
  intros Ho [s Hs]. destruct (call_sound op _ ltac:(by destruct op) Hs) as [Hi Hp].
  split.
  - pose proof (run_op_policy op (MkRegistry (reg_policy r) (records_ r) s)) as E. cbn [reg_policy] in E.
    unfold settled. rewrite run_op_policy, <- (run_op_records op r s Ho). revert Hi E.
    generalize (run_op op (MkRegistry (reg_policy r) (records_ r) s)). intros [p m s'] Hi E. cbn in E. subst p. by exists s'.
  - intros id x Hx. rewrite <- (run_op_records op r s Ho). exact (Hp id x Hx).
Qed.

Lemma settled_clear r : settled (registry_clear r).
Proof. exists zero_stats. apply new_registry_inv. Qed.

Lemma settled_bound r : settled r -> map_wf (records_ r) /\ zlen (records_ r) <= Z.max 0 (max_fences (reg_policy r)).
Proof. intros [s [H1 H2 _ _ _ _]]. by split. Qed.

Lemma settled_key r id x : settled r -> find_fence id r = Some x -> fi_id (fr_intent x) = id /\ intent_shape (fr_intent x).
Proof. intros [s [_ _ H3 _ _ _]] Hf. by apply H3. Qed.

(** Where the records of a registry after a call come from. *)
Lemma run_op_from op r id x' :
  engine_op op = true -> find_fence id (run_op op r) = Some x' ->
  (exists x, find_fence id r = Some x /\ progresses x x') \/
  (exists i, op = OpCommit i /\ (commit_staged i r).1 = Ok /\ id = fi_id i /\ x' = new_record i).
Proof.
  unfold find_fence. intros Ho Hf.
  assert (forall y, map_find id (records_ r) = Some y -> y = x' -> exists x, map_find id (records_ r) = Some x /\ progresses x x') as Hsame
    by (intros y Hy ->; exists x'; split; [done | apply progresses_refl]).
  assert (forall id0 x x0 f, map_find id0 (records_ r) = Some x -> progresses x x0 ->
    map_find id (records_ (with_stats f (put_record id0 x0 r))) = Some x' ->
    exists x, map_find id (records_ r) = Some x /\ progresses x x') as Hput.
  { intros id0 x x0 f Hx Hp. cbn [with_stats put_record records_]. rewrite map_find_insert.
    destruct (cmp id id0) eqn:E; [apply cmp_eq in E as ->; intros [= <-]; eauto | eauto.. ]. }
  destruct op as [q | q | i | id0 o now | id0 o v now | id0 reason now | now current | reason now |]; try discriminate Ho; cbn [run_op] in Hf.
  - left. assert (records_ (stage q r).2 = records_ r) as E.
    { unfold stage. cbv zeta. unfold open_duplicate. repeat first [ done | match goal with |- context [match ?x with _ => _ end] =>
        lazymatch x with context [match _ with _ => _ end] => fail | _ => destruct x end end ]. }
    rewrite E in Hf. eauto.
  - unfold commit_staged in Hf. destruct (intent_valid i) eqn:Ei; cbn [negb] in *; [| eauto].
    destruct (bool_decide _) eqn:Ef; [eauto |]. destruct (open_duplicate _ _ r) eqn:Ed; [eauto |].
    destruct (_ <=? _) eqn:Eb; [eauto |]. cbn [with_stats put_record records_ snd] in Hf. rewrite map_find_insert in Hf.
    destruct (cmp id (fi_id i)) eqn:E; [| eauto | eauto]. apply cmp_eq in E as ->. injection Hf as <-.
    right. exists i. split; [done |]. split; [| done]. unfold commit_staged. by rewrite Ei, Ef, Ed, Eb.
  - left. unfold acknowledge in Hf. destruct (map_find id0 (records_ r)) as [x |] eqn:Ex; [| eauto].
    destruct (is_open x) eqn:Hx; cbn [negb] in Hf; [| eauto].
    destruct (past_expiry now x); cbn [snd] in Hf; eapply (Hput _ x); try eassumption;
      [by apply closing_progresses | by apply acknowledge_progresses].
  - left. unfold report_effect in Hf. destruct (map_find id0 (records_ r)) as [x |] eqn:Ex; [| eauto].
    destruct (is_open x) eqn:Hx; cbn [negb] in Hf; [| eauto].
    destruct (past_expiry now x); cbn [snd] in Hf; eapply (Hput _ x); try eassumption;
      [by apply closing_progresses | by apply effect_progresses].
  - left. unfold revoke in Hf. destruct (map_find id0 (records_ r)) as [x |] eqn:Ex; [| eauto].
    destruct (is_open x) eqn:Hx; cbn [negb] in Hf; [| eauto].
    cbn [snd] in Hf; eapply (Hput _ x); try eassumption; by apply closing_progresses.
  - left. unfold revalidate in Hf. rewrite run_sweep_eq in Hf. cbn [snd records_] in Hf. rewrite map_find_values in Hf.
    destruct (map_find id (records_ r)) as [x |] eqn:Ex; [| done]. injection Hf as <-. exists x. split; [done |].
    pose proof (revalidation_closes now current) as Hc. unfold swept.
    destruct (revalidation now current x) as [[how x'] |] eqn:E; [| apply progresses_refl].
    destruct (Hc _ _ _ E) as (? & ? & ?). by apply closing_progresses.
  - left. unfold fence_all in Hf. rewrite run_sweep_eq in Hf. cbn [snd records_] in Hf. rewrite map_find_values in Hf.
    destruct (map_find id (records_ r)) as [x |] eqn:Ex; [| done]. injection Hf as <-. exists x. split; [done |].
    pose proof (restart_closes reason now) as Hc. unfold swept.
    destruct (restart_ending reason now x) as [[how x'] |] eqn:E; [| apply progresses_refl].
    destruct (Hc _ _ _ E) as (? & ? & ?). by apply closing_progresses.
Qed.

(** ** Authority behind durable records *)

(** The durable state holds an open fence under the identity. *)
Definition durably_open (t : Store) (id : FenceId) : Prop :=
  exists f, durable_fence t id = Some f /\ open_lifecycle (fp_lifecycle f) = true.

(** The registry is sound, every record is of the running incarnation, and the open ones are
    durably open. *)
Record held (t : Store) (r : FenceRegistry) : Prop := {
  hd_settled : settled r;
  hd_bound : forall id x, find_fence id r = Some x ->
    fi_boot (fr_intent x) = boot_ t /\ fi_incarnation (fr_intent x) = incarnation_ t;
  hd_durable : forall id x, find_fence id r = Some x -> is_open x = true -> durably_open t id;
}.

Lemma held_clear t r : held t (registry_clear r).
Proof. split; [apply settled_clear | by intros ? ? | by intros ? ?]. Qed.

Lemma held_op t op r :
  engine_op op = true ->
  (forall i, op = OpCommit i -> fi_boot i = boot_ t /\ fi_incarnation i = incarnation_ t /\ durably_open t (fi_id i)) ->
  held t r -> held t (run_op op r).
Proof.
  intros Ho Hi [H1 H2 H3]. split; [by apply settled_step | |]; intros id x' Hf.
  - destruct (run_op_from op r id x' Ho Hf) as [(x & Hx & -> & _) | (i & -> & _ & -> & ->)]; [by apply (H2 id) |].
    destruct (Hi i eq_refl) as (? & ? & _). by split.
  - intros Hop. destruct (run_op_from op r id x' Ho Hf) as [(x & Hx & _ & Hc & _) | (i & -> & _ & -> & ->)].
    + apply (H3 id x Hx). destruct (is_open x) eqn:E; [done |]. rewrite (Hc eq_refl) in Hop. congruence.
    + by destruct (Hi i eq_refl) as (_ & _ & ?).
Qed.

(** The store moves under the registry. *)
Lemma held_store t t' r :
  identity_view t' = identity_view t ->
  (forall id x, find_fence id r = Some x -> is_open x = true -> durably_open t id -> durably_open t' id) ->
  held t r -> held t' r.
Proof.
  intros E Hd [H1 H2 H3]. injection E as E1 E2 _ _. split; [done | |].
  - intros id x Hx. rewrite E1, E2. by apply (H2 id).
  - intros id x Hx Hop. by apply (Hd id x), (H3 id x).
Qed.

Lemma held_view t t' r : fence_view t' = fence_view t -> held t r -> held t' r.
Proof.
  intros E. injection E as E1 E2 E3 E4 E5. apply held_store; [unfold identity_view; congruence |].
  intros id x _ _. unfold durably_open, durable_fence. by rewrite E5.
Qed.

(** A fence commit whose payload is open when the registry's record is. *)
Lemma held_commit type f w r :
  (forall x, find_fence (fi_id (fp_intent f)) r = Some x -> is_open x = true -> open_lifecycle (fp_lifecycle f) = true) ->
  held w.1 r ->
  let '(o, w') := commit_fence_state type f w in
  held w'.1 r /\ identity_view w'.1 = identity_view w.1 /\
  (is_affirmative o = true -> durable_fence w'.1 (fi_id (fp_intent f)) = Some f).
Proof.
  intros Hf Hh. pose proof (commit_fence_spec type f w) as Hs. destruct (commit_fence_state type f w) as [o w'].
  destruct Hs as [Hi Hd]. split; [| split; [exact Hi |]].
  - apply (held_store w.1); [exact Hi | | exact Hh]. intros id x Hx Hop (g & Hg & Ho). unfold durably_open. rewrite Hd.
    destruct (is_affirmative o); cbn [andb]; [| eauto].
    destruct (bool_decide_reflect (fi_id (fp_intent f) = id)) as [<- |]; [| eauto]. exists f. split; [done |]. by apply (Hf x).
  - intros Ho. by rewrite Hd, Ho, beq_refl.
Qed.

Lemma payload_open x : open_lifecycle (fp_lifecycle (fence_payload x)) = is_open x.
Proof. unfold is_open. cbn [fence_payload fp_lifecycle]. by destruct (fr_lifecycle x). Qed.

(** What the inner steps of the engine leave alone. *)
Record calm (e e' : Engine) : Prop := {
  cm_config : eg_config e' = eg_config e;
  cm_policy : eg_policy e' = eg_policy e;
  cm_opened : eg_opened e' = eg_opened e;
  cm_ledger : eg_ledger e' = eg_ledger e;
  cm_fences : eg_fences e' = eg_fences e;
  cm_identity : identity_view (eg_store e') = identity_view (eg_store e);
}.

Lemma calm_refl e : calm e e. Proof. by split. Qed.
Lemma calm_trans e1 e2 e3 : calm e1 e2 -> calm e2 e3 -> calm e1 e3.
Proof. intros [? ? ? ? ? ?] [? ? ? ? ? ?]. split; congruence. Qed.

Definition holds (w : EngineWorld) : Prop := held (eg_store w.1) (eg_fences w.1).

Lemma log_fence_calm type id x w :
  holds w -> find_fence id (eg_fences w.1) = Some x ->
  holds (log_fence type (fence_payload x) w).2 /\ calm w.1 (log_fence type (fence_payload x) w).2.1.
Proof.
  intros Hh Hx. destruct (settled_key _ id x (hd_settled _ _ Hh) Hx) as [Hid _].
  pose proof (held_commit type (fence_payload x) (eg_store w.1, w.2) (eg_fences w.1)) as Hc.
  unfold log_fence, mbind, EngineM_bind, on_store. destruct (commit_fence_state _ _ _) as [o [t d]].
  destruct Hc as (H1 & H2 & _).
  { intros y. cbn [fence_payload fp_intent fp_lifecycle]. rewrite Hid, Hx. intros [= <-] Ho. by rewrite <- payload_open in Ho. }
  { exact Hh. }
  unfold count_if. destruct (negb _); cbn; by split.
Qed.

Lemma log_revocations_calm ids w :
  holds w -> holds (log_revocations ids w).2 /\ calm w.1 (log_revocations ids w).2.1.
Proof.
  revert w. induction ids as [| id ids IH]; intros w Hh; [by split |].
  cbn [log_revocations]. unfold mbind, EngineM_bind. cbn [get_engine].
  destruct (find_fence id (eg_fences w.1)) as [x |] eqn:Ex; [| by apply IH].
  destruct (log_fence_calm RecordType.FenceRevokeCommit id x w Hh Ex) as [H1 C1].
  destruct (log_fence _ _ w) as [u w1]. cbn [snd] in *.
  destruct (IH (count FenceRevocations w1).2 H1) as [H2 C2]. split; [exact H2 |].
  apply (calm_trans _ _ _ C1), (calm_trans w1.1 (count FenceRevocations w1).2.1); [by split | exact C2].
Qed.

Section Authority.
Context (clock : nat -> WallNs).

(** The state after the evaluation's preamble: the registry is the revalidated one. *)
Lemma revalidate_spec gens w :
  holds w ->
  let w' := (revalidate_fences clock gens w).2 in
  holds w' /\ calm (put_fences (revalidate (clock (eg_ticks w.1)) gens (eg_fences w.1)).2 w.1) w'.1.
Proof.
  intros Hh. unfold revalidate_fences, mbind, EngineM_bind, read_now, on_fences. cbn [fst snd put_ticks eg_fences].
  destruct (revalidate (clock (eg_ticks w.1)) gens (eg_fences w.1)) as [ids r] eqn:E.
  assert (r = run_op (OpRevalidate (clock (eg_ticks w.1)) gens) (eg_fences w.1)) as -> by (cbn [run_op]; by rewrite E).
  cbn [snd]. set (w1 := (put_fences _ (put_ticks _ w.1), w.2)).
  assert (holds w1) as H1 by (apply held_op; [done | done | exact Hh]).
  destruct (log_revocations_calm ids w1 H1) as [H2 C2]. split; [exact H2 |].
  eapply calm_trans; [| exact C2]. by split.
Qed.

(** After a revalidation every open fence is bound to the current generations. *)
Lemma revalidated_open now gens r id x :
  find_fence id (revalidate now gens r).2 = Some x -> is_open x = true ->
  find_fence id r = Some x /\ fi_gens (fr_intent x) = gens /\ past_expiry now x = false.
Proof.
  unfold find_fence, revalidate. rewrite run_sweep_eq. cbn [snd records_]. rewrite map_find_values.
  destruct (map_find id (records_ r)) as [y |]; [| done]. intros [= <-] Ho.
  destruct (swept_keeps (revalidation now gens) y (revalidation_closes now gens)) as [_ Hs].
  pose proof (Hs Ho) as Ey. rewrite Ey in Ho |- *. split; [done |].
  destruct (revalidation now gens y) as [[how y'] |] eqn:E.
  - destruct (revalidation_closes now gens _ _ _ E) as (_ & Hc & _). unfold swept in Ey. rewrite E in Ey. congruence.
  - apply revalidation_None in E as [E1 E2]; [by split | exact Ho].
Qed.

Lemma open_for_Some scope r x :
  settled r -> open_for scope r = Some x ->
  find_fence (fi_id (fr_intent x)) r = Some x /\ is_open x = true /\ fi_scope (fr_intent x) = scope.
Proof.
  intros Hr. unfold open_for. destruct (List.find _ _) as [[id y] |] eqn:E; [| done]. intros [= <-].
  apply find_some in E as [Hin Ht]. cbn [snd] in Ht. bool_prop.
  destruct (settled_bound r Hr) as [Hwf _]. pose proof (map_In_find id y _ Hwf Hin) as Hf.
  destruct (settled_key r id y Hr Hf) as [-> _]. by split_and!.
Qed.

Lemma open_for_None scope r :
  settled r ->
  open_for scope r = None <->
  (forall id x, find_fence id r = Some x -> is_open x = true -> fi_scope (fr_intent x) <> scope).
Proof.
  intros Hr. split.
  - unfold open_for. destruct (List.find _ _) eqn:E; [done |]. intros _ id x Hf Ho <-. apply map_find_In in Hf.
    pose proof (find_none _ _ E _ Hf) as Hs. cbn [snd] in Hs. by rewrite Ho, beq_refl in Hs.
  - intros H. destruct (open_for scope r) as [x |] eqn:E; [exfalso | done].
    destruct (open_for_Some scope r x Hr E) as (Hf & Ho & Hs). by apply (H (fi_id (fr_intent x)) x).
Qed.

(** What staging reports, and that it publishes nothing. *)
Lemma stage_spec q r :
  let '(o, i, reason, r') := stage q r in
  records_ r' = records_ r /\ reg_policy r' = reg_policy r /\
  (is_affirmative o = true ->
     open_duplicate (iq_scope q) (iq_gens q) r = None /\ fi_scope i = iq_scope q /\ fi_gens i = iq_gens q /\
     fi_boot i = iq_boot q /\ fi_incarnation i = iq_incarnation q) /\
  (o = Duplicate -> is_Some (open_duplicate (iq_scope q) (iq_gens q) r)) /\
  (is_affirmative o = false -> o <> Duplicate ->
     issue_request_ok q = false \/ open_duplicate (iq_scope q) (iq_gens q) r = None).
Proof.
  unfold stage. cbv zeta. change (open_duplicate ?s ?g (with_stats count_attempt r)) with (open_duplicate s g r).
  destruct (issue_request_ok q); cbn [negb]; [| split_and!; try done; by left].
  destruct (open_duplicate _ _ r) as [old |]; [split_and!; try done; by eexists |].
  destruct (_ <=? _); [split_and!; try done; by right |].
  unfold mint_intent. destruct (checked_add _ _ _) as [e |]; [| split_and!; try done; by right].
  destruct (_ <=? _); [split_and!; try done; by right |]. cbv zeta.
  destruct (negb _); [split_and!; try done; by right |]. by split_and!.
Qed.

(** The decision carries the intent of an open fence for its subject and generations. *)
Definition mandated (r : FenceRegistry) (d : Decision) : Prop :=
  av_stage (dc_authority d) = AuthorityStage.Intent /\ av_fence (dc_authority d) = fi_id (dc_intent d) /\
  fi_scope (dc_intent d) = dc_scope d /\ fi_gens (dc_intent d) = dc_gens d /\
  exists x, find_fence (fi_id (dc_intent d)) r = Some x /\ is_open x = true /\ fr_intent x = dc_intent d.

(** The fields of a decision that carrying an intent leaves alone. *)
Definition core (d : Decision) :=
  (dc_kind d, dc_outcome d, dc_scope d, dc_gens d, dc_classification d, dc_census d, dc_corroborated d,
   dc_boot d, dc_incarnation d, dc_decided_at d).

Definition current (gens : GenerationVector) (r : FenceRegistry) : Prop :=
  forall id x, find_fence id r = Some x -> is_open x = true -> fi_gens (fr_intent x) = gens.

Lemma open_duplicate_None_open scope gens r :
  settled r -> current gens r -> open_duplicate scope gens r = None -> open_for scope r = None.
Proof.
  intros Hr Hc Hd. apply (open_for_None scope r Hr). intros id x Hf Ho Hs.
  exact (open_duplicate_None _ _ _ Hd id x Hf Ho Hs (Hc id x Hf Ho)).
Qed.

Lemma open_duplicate_Some_open scope gens r :
  settled r -> is_Some (open_duplicate scope gens r) -> is_Some (open_for scope r).
Proof.
  intros Hr [x Hx]. destruct (open_for scope r) eqn:E; [done | exfalso].
  unfold open_duplicate in Hx. destruct (List.find _ _) as [[id y] |] eqn:F; [| done]. injection Hx as <-.
  apply find_some in F as [Hin Ht]. unfold same_subject in Ht. cbn [snd] in Ht. bool_prop.
  destruct (settled_bound r Hr) as [Hwf _]. pose proof (map_In_find id y _ Hwf Hin) as Hf.
  by apply (proj1 (open_for_None scope r Hr) E id y).
Qed.

Lemma commit_staged_Ok i r :
  (commit_staged i r).1 = Ok -> find_fence (fi_id i) (commit_staged i r).2 = Some (new_record i).
Proof.
  unfold commit_staged. repeat (match goal with |- context [match ?x with _ => _ end] => destruct x end; try done).
  intros _. apply map_find_insert_eq.
Qed.

Lemma commit_staged_refused i r : is_affirmative (commit_staged i r).1 = false -> (commit_staged i r).2 = r.
Proof. unfold commit_staged. by repeat (match goal with |- context [match ?x with _ => _ end] => destruct x end; try done). Qed.

Lemma find_fence_records id r r' : records_ r' = records_ r -> find_fence id r' = find_fence id r.
Proof. unfold find_fence. by intros ->. Qed.
Lemma open_for_records scope r r' : records_ r' = records_ r -> open_for scope r' = open_for scope r.
Proof. unfold open_for. by intros ->. Qed.

Lemma current_op gens op r :
  engine_op op = true -> (forall i, op = OpCommit i -> fi_gens i = gens) -> current gens r -> current gens (run_op op r).
Proof.
  intros Ho Hi Hc id x' Hf Hop. destruct (run_op_from op r id x' Ho Hf) as [(x & Hx & Hin & Hcl & _) | (i & -> & _ & _ & ->)].
  - rewrite Hin. apply (Hc id x Hx). destruct (is_open x) eqn:E; [done |]. rewrite (Hcl eq_refl) in Hop. congruence.
  - by apply Hi.
Qed.

(** A registry of an incarnation without an identity is empty. *)
Lemma nil_identity_empty t r :
  held t r -> id_nil (boot_ t) || id_nil (incarnation_ t) = true -> forall id, find_fence id r = None.
Proof.
  intros [H1 H2 _] Hn id. destruct (find_fence id r) as [x |] eqn:E; [exfalso | done].
  destruct (settled_key r id x H1 E) as (_ & _ & _ & B & I & _). destruct (H2 id x E) as [E1 E2].
  rewrite <- E1, <- E2, B, I in Hn. done.
Qed.

(** Staging, the durable record and the publication, for a request of the running incarnation. *)
Record authorized (d d' : Decision) (w w' : EngineWorld) : Prop := {
  au_holds : holds w';
  au_calm : calm (put_fences (eg_fences w'.1) w.1) w'.1;
  au_current : current (dc_gens d) (eg_fences w'.1);
  au_core : core d' = core d;
  au_intent : dc_has_intent d' = true -> mandated (eg_fences w'.1) d';
  au_none : dc_has_intent d' = false ->
    open_for (dc_scope d) (eg_fences w'.1) = None /\ dc_authority d' = dc_authority d;
}.

Lemma stage_held q t r :
  held t r -> held t (stage q r).2 /\ (forall g, current g r -> current g (stage q r).2).
Proof.
  intros Hh. split; [exact (held_op t (OpStage q) r eq_refl ltac:(done) Hh) |].
  intros g. apply (current_op g (OpStage q) r eq_refl). done.
Qed.

Lemma publish_held i t r :
  held t r -> fi_boot i = boot_ t -> fi_incarnation i = incarnation_ t -> durably_open t (fi_id i) ->
  held t (commit_staged i r).2 /\ (current (fi_gens i) r -> current (fi_gens i) (commit_staged i r).2).
Proof.
  intros Hh Hb Hi Hd. split.
  - apply (held_op t (OpCommit i) r eq_refl); [| exact Hh]. by intros i' [= <-].
  - apply (current_op _ (OpCommit i) r eq_refl). by intros i' [= <-].
Qed.

Lemma authorize_spec d w :
  holds w -> current (dc_gens d) (eg_fences w.1) -> dc_has_intent d = false ->
  dc_boot d = boot_ (eg_store w.1) -> dc_incarnation d = incarnation_ (eg_store w.1) ->
  scope_valid (dc_scope d) = true -> is_complete (dc_gens d) = true ->
  authorized d (authorize d w).1 w (authorize d w).2.
Proof.
  intros Hh Hc Hn Hb Hi Hs Hg. destruct w as [e dk]. unfold holds in Hh. cbn [fst snd] in *.
  unfold authorize, mbind, EngineM_bind, get_engine, on_fences, on_store. cbn [fst snd].
  pose proof (stage_spec (issue_request e d) (eg_fences e)) as St.
  destruct (stage_held (issue_request e d) _ _ Hh) as [H1 C1]. specialize (C1 _ Hc).
  destruct (stage (issue_request e d) (eg_fences e)) as [[[so i] reason] r1]. cbn [snd] in *.
  destruct St as (Hrec & Hpol & Hok & Hdup & Hrest). cbn [issue_request iq_scope iq_gens iq_boot iq_incarnation] in *.
  assert (forall o, open_for (dc_scope d) (eg_fences e) = o -> open_for (dc_scope d) r1 = o) as Hof
    by (intros o <-; by apply open_for_records).
  pose proof (hd_settled _ _ Hh) as Hset.
  destruct (is_affirmative so) eqn:Eso.
  - destruct (Hok eq_refl) as (Hd & I1 & I2 & I3 & I4).
    assert (open_for (dc_scope d) r1 = None) as Hnone by (apply Hof; by eapply open_duplicate_None_open).
    cbn [fst snd put_fences eg_store].
    pose proof (held_commit RecordType.FenceIntentCommit (intent_payload i) (eg_store e, dk) r1) as Hco.
    destruct (commit_fence_state _ _ _) as [co [t dk']]. cbn [fst] in Hco.
    destruct Hco as (H2 & V2 & Hdur); [by intros | exact H1 |].
    destruct (is_affirmative co) eqn:Eco.
    + assert (durably_open t (fi_id i)) as Ho by (exists (intent_payload i); split; [by apply Hdur | reflexivity]).
      pose proof V2 as V2'. injection V2' as V21 V22 _ _.
      destruct (publish_held i t r1 H2 ltac:(congruence) ltac:(congruence) Ho) as [H3 C3]. rewrite I2 in C3. specialize (C3 C1).
      cbn [fst snd put_store put_fences eg_fences].
      pose proof (commit_staged_Ok i r1) as Hput. pose proof (commit_staged_refused i r1) as Hkeep.
      destruct (commit_staged i r1) as [po r2]. cbn [fst snd] in *.
      destruct (is_affirmative po) eqn:Epo.
      * apply is_affirmative_Ok in Epo as ->. specialize (Hput eq_refl).
        split; cbn; [exact H3 | by split | exact C3 | reflexivity | | intros; congruence].
        intros _. unfold mandated. cbn. split_and!; try done. by exists (new_record i).
      * rewrite (Hkeep eq_refl).
        split; cbn; [exact H2 | by split | exact C1 | reflexivity | intros; congruence | done].
    + split; cbn; [exact H2 | by split | exact C1 | reflexivity | intros; congruence | done].
  - destruct (bool_decide_reflect (so = Duplicate)) as [-> | Hne].
    + destruct (open_duplicate_Some_open _ _ _ Hset (Hdup eq_refl)) as [x Hx]. apply Hof in Hx as Hx1.
      cbn [fst snd put_fences eg_fences]. rewrite Hx1.
      destruct (open_for_Some _ _ _ (hd_settled _ _ H1) Hx1) as (F1 & F2 & F3).
      split; cbn; [exact H1 | by split | exact C1 | reflexivity | | intros; congruence].
      intros _. unfold mandated. cbn. split_and!; try done; [by apply (C1 (fi_id (fr_intent x))) | by exists x].
    + assert (open_for (dc_scope d) r1 = None) as Hnone.
      { apply Hof. destruct (Hrest eq_refl Hne) as [Hq | Hd]; [| by eapply open_duplicate_None_open].
        apply (open_for_None _ _ Hset). intros id x Hf. rewrite (nil_identity_empty _ _ Hh) in Hf; [done |].
        unfold issue_request_ok in Hq. cbn in Hq. rewrite Hs, Hg, Hb, Hi in Hq. cbn [andb] in Hq.
        by destruct (id_nil (boot_ (eg_store e))), (id_nil (incarnation_ (eg_store e))). }
      split; cbn; [exact H1 | by split | exact C1 | reflexivity | intros; congruence | done].
Qed.

Lemma engine_commit_spec d w :
  holds w ->
  let '(o, w') := engine_commit d w in
  holds w' /\ calm w.1 w'.1 /\
  (is_affirmative o = true -> commit_decision d (eg_store w.1, w.2) = (Ok, (eg_store w'.1, w'.2))).
Proof.
  intros Hh. destruct w as [e dk]. unfold holds in *. cbn [fst snd] in *.
  unfold engine_commit, mbind, EngineM_bind, on_store, count, update. cbn [fst snd put_stats eg_store].
  pose proof (keeps_decision d (eg_store e, dk)) as Hv. destruct (commit_decision d (eg_store e, dk)) as [o [t dk']].
  cbn [fst snd] in Hv. destruct (is_affirmative o) eqn:Eo; cbn [negb fst snd put_store put_stats eg_store eg_fences mret EngineM_ret].
  - apply is_affirmative_Ok in Eo as ->. split; [exact (held_view _ _ _ Hv Hh) |]. split; [| done].
    split; try done. injection Hv as ? ? ? ? _. unfold identity_view. cbn. congruence.
  - split; [exact (held_view _ _ _ Hv Hh) |]. split; [| congruence].
    split; try done. injection Hv as ? ? ? ? _. unfold identity_view. cbn. congruence.
Qed.

Lemma engine_commit_view d w : fence_view (eg_store (engine_commit d w).2.1) = fence_view (eg_store w.1).
Proof.
  destruct w as [e dk]. unfold engine_commit, mbind, EngineM_bind, on_store, count, update. cbn [fst snd put_stats eg_store].
  pose proof (keeps_decision d (eg_store e, dk)) as Hv. destruct (commit_decision d (eg_store e, dk)) as [o [t dk']].
  cbn [fst snd] in Hv. by destruct (is_affirmative o).
Qed.

Lemma revoke_closes id reason now r x :
  find_fence id (revoke id reason now r).2 = Some x -> is_open x = false.
Proof.
  unfold revoke, find_fence. destruct (map_find id (records_ r)) as [y |] eqn:E; [| cbn; congruence].
  destruct (is_open y) eqn:Ho; cbn [negb snd]; [| congruence].
  cbn [with_stats put_record records_]. rewrite map_find_insert_eq. by intros [= <-].
Qed.

(** The unique open fence of a subject is revoked. *)
Lemma revoke_none id reason now r x scope gens :
  settled r -> current gens r -> find_fence id r = Some x -> is_open x = true -> fi_scope (fr_intent x) = scope ->
  open_for scope (revoke id reason now r).2 = None.
Proof.
  intros Hr Hc Hx Ho Hs. set (op := OpRevoke id reason now).
  change (revoke id reason now r).2 with (run_op op r).
  destruct (settled_step op r eq_refl Hr) as [Hr' _]. apply (open_for_None _ _ Hr'). intros id' y Hy Hoy Hsy.
  destruct (run_op_from op r id' y eq_refl Hy) as [(z & Hz & Hin & Hcl & _) | (i & Hi & _)]; [| done].
  assert (is_open z = true) as Hoz by (destruct (is_open z) eqn:E; [done | rewrite (Hcl eq_refl) in Hoy; congruence]).
  destruct Hr as [s [_ _ _ H4 _ _]]. cbn [records_] in H4.
  assert (id' = id) as -> by (apply (H4 id' id z x Hz Hx Hoz Ho); [congruence | rewrite (Hc id x Hx Ho); exact (Hc id' z Hz Hoz)]).
  pose proof (revoke_closes id reason now r y Hy). congruence.
Qed.

(** What [evaluate] did for a valid request. *)
Record evaluated (scope : Scope) (gens : GenerationVector) (o : Outcome) (d : Decision) (w w' : EngineWorld) : Prop := {
  ev_diag : exists n, let diag := classify (MkRequest scope gens (clock n) (Some (eg_policy w.1)) (evidence_for scope (eg_ledger w.1))) in
    o = d_outcome diag /\
    core d = (DecisionKind.Diagnosis, d_outcome diag, scope, gens, classification diag, census diag, corroborated diag,
              boot_ (eg_store w'.1), incarnation_ (eg_store w'.1), clock n);
  ev_holds : holds w';
  ev_calm : calm (put_fences (eg_fences w'.1) w.1) w'.1;
  ev_current : current gens (eg_fences w'.1);
  ev_intent : dc_has_intent d = true ->
    dc_classification d = Classification.Blackhole /\ dc_corroborated d = true /\ mandated (eg_fences w'.1) d /\
    exists t dk, commit_decision d (t, dk) = (Ok, (eg_store w'.1, w'.2));
  ev_none : dc_has_intent d = false -> dc_classification d = Classification.Blackhole -> dc_corroborated d = true ->
    open_for scope (eg_fences w'.1) = None;
}.

(** The identifiers are derived last: nothing else of the decision moves. *)
Definition sealed (d : Decision) : Decision :=
  let d := identify d in
  if dc_has_intent d then set_authority (set_fence (fi_id (dc_intent d)) (dc_authority d)) d else d.

Lemma sealed_core d : core (sealed d) = core d /\ dc_has_intent (sealed d) = dc_has_intent d /\ dc_intent (sealed d) = dc_intent d.
Proof.
  unfold sealed. change (dc_has_intent (identify d)) with (dc_has_intent d). cbv zeta. destruct (dc_has_intent d) eqn:E; by split_and!.
Qed.

Lemma sealed_mandated r d : dc_has_intent d = true -> mandated r d -> mandated r (sealed d).
Proof.
  intros Hi (H1 & H2 & H3 & H4 & H5). unfold sealed. change (dc_has_intent (identify d)) with (dc_has_intent d). cbv zeta.
  rewrite Hi. unfold mandated. cbn. by split_and!.
Qed.

(** The end of [evaluate]: the sealed decision is committed, and its intent withdrawn when
    the commit fails. *)
Definition finish_evaluation (d : Decision) : EngineM (Outcome * Decision) :=
  commit ← engine_commit (sealed d);
  d ← (if negb (is_affirmative commit) && dc_has_intent (sealed d) then withdraw clock (sealed d) else mret (sealed d));
  mret (dc_outcome d, d).

Lemma finish_evaluation_spec gens d w :
  holds w -> current gens (eg_fences w.1) -> dc_gens d = gens ->
  (dc_has_intent d = true -> mandated (eg_fences w.1) d) ->
  let '((o, d'), w') := finish_evaluation d w in
  o = dc_outcome d /\ core d' = core d /\ holds w' /\ calm (put_fences (eg_fences w'.1) w.1) w'.1 /\
  current gens (eg_fences w'.1) /\
  (dc_has_intent d' = true -> dc_has_intent d = true /\ mandated (eg_fences w'.1) d' /\
    exists t dk, commit_decision d' (t, dk) = (Ok, (eg_store w'.1, w'.2))) /\
  (dc_has_intent d' = false ->
     if dc_has_intent d then open_for (dc_scope d) (eg_fences w'.1) = None else eg_fences w'.1 = eg_fences w.1).
Proof.
  intros Hh Hc Hg Hm. destruct (sealed_core d) as (S1 & S2 & S3).
  unfold finish_evaluation, mbind, EngineM_bind. pose proof (engine_commit_spec (sealed d) w Hh) as Hco.
  destruct (engine_commit (sealed d) w) as [co w1]. destruct Hco as (H1 & C1 & Hok).
  pose proof (cm_fences _ _ C1) as F1. rewrite S2.
  destruct (negb (is_affirmative co) && dc_has_intent d) eqn:Et.
  - apply andb_true_iff in Et as [_ Hi]. destruct (Hm Hi) as (M1 & M2 & M3 & M4 & x & M5 & M6 & M7).
    unfold withdraw, mbind, EngineM_bind, get_engine, read_now, on_fences. cbn [fst snd put_ticks eg_fences]. rewrite S3.
    pose proof (held_op (eg_store w1.1) (OpRevoke (fi_id (dc_intent d)) ReasonCode.FenceIntentRevoked (clock (eg_ticks w1.1)))
      (eg_fences w1.1) eq_refl ltac:(done) H1) as H2.
    pose proof (current_op gens (OpRevoke (fi_id (dc_intent d)) ReasonCode.FenceIntentRevoked (clock (eg_ticks w1.1)))
      (eg_fences w1.1) eq_refl ltac:(done) ltac:(by rewrite F1)) as C2.
    pose proof (revoke_none (fi_id (dc_intent d)) ReasonCode.FenceIntentRevoked (clock (eg_ticks w1.1)) (eg_fences w1.1) x
      (dc_scope d) gens (hd_settled _ _ H1) ltac:(by rewrite F1) ltac:(by rewrite F1) M6 ltac:(by rewrite M7)) as N2.
    cbn [run_op] in H2, C2. destruct (revoke _ _ _ (eg_fences w1.1)) as [ro r2]. cbn [snd] in *.
    cbn [fst snd]. destruct C1 as [? ? ? ? ? ?].
    split; [exact (f_equal (fun c => c.1.1.1.1.1.1.1.1.2) S1) |].
    split; [exact S1 |]. split; [exact H2 |]. split; [by split |]. split; [exact C2 |].
    split; [done |]. rewrite Hi. intros _. exact N2.
  - cbn [mret EngineM_ret]. destruct C1 as [X1 X2 X3 X4 X5 X6].
    split; [exact (f_equal (fun c => c.1.1.1.1.1.1.1.1.2) S1) |].
    split; [exact S1 |]. split; [exact H1 |]. split; [by split |].
    split; [by rewrite F1 |]. split.
    + rewrite S2. intros Hi. rewrite Hi in Et. split; [exact Hi |]. rewrite andb_true_r in Et. apply negb_false_iff in Et.
      split; [rewrite F1; by apply sealed_mandated, Hm |]. exists (eg_store w.1), w.2. by apply Hok.
    + rewrite S2. intros ->. exact F1.
Qed.

(** The pieces are specified: nothing below evaluates them. *)
#[local] Opaque derive_decision_id engine_commit withdraw authorize.

Lemma evaluate_spec scope gens w :
  holds w -> eg_opened w.1 = true -> scope_valid scope = true -> is_complete gens = true ->
  let '((o, d), w') := evaluate clock scope gens w in evaluated scope gens o d w w'.
Proof.
  intros Hh Ho Hs Hg. destruct w as [e dk]. cbn [fst] in Ho.
  set (w1 := (count Evaluations (e, dk)).2).
  pose proof (revalidate_spec gens w1 Hh) as Hr. cbn zeta in Hr. destruct Hr as [H2 C2].
  pose proof (fun id x => revalidated_open (clock (eg_ticks w1.1)) gens (eg_fences w1.1) id x) as Hopen.
  unfold evaluate. unfold mbind at 1, EngineM_bind at 1. cbn [get_engine fst snd]. rewrite Ho, Hs, Hg. cbn [negb orb].
  unfold mbind at 1, EngineM_bind at 1. change (count Evaluations (e, dk)) with (tt, w1). cbn beta match.
  unfold mbind at 1, EngineM_bind at 1.
  destruct (revalidate_fences clock gens w1) as [u w2] eqn:E2. cbn [snd] in *.
  set (w3 := (put_ticks (S (eg_ticks w2.1)) w2.1, w2.2)).
  assert (holds w3) as H3 by exact H2.
  destruct C2 as [X1 X2 X3 X4 X5 X6]. cbn [put_fences eg_config eg_policy eg_opened eg_ledger eg_fences eg_store] in *.
  assert (current gens (eg_fences w3.1)) as Hcur.
  { intros id x. change (eg_fences w3.1) with (eg_fences w2.1). rewrite X5. intros Hf Hop. by apply (Hopen id x). }
  set (n := eg_ticks w2.1). set (diag := classify (MkRequest scope gens (clock n) (Some (eg_policy e)) (evidence_for scope (eg_ledger e)))).
  unfold mbind at 1, EngineM_bind at 1. 
  assert (diagnose clock scope gens w2 = ((diag, clock n), w3)) as ->.
  { unfold diagnose, mbind, EngineM_bind, get_engine, read_now. cbn [fst snd]. rewrite X2, X4. reflexivity. }
  cbn beta match. unfold mbind at 1, EngineM_bind at 1. cbn [get_engine fst snd].
  set (d0 := diagnosis_decision w3.1 scope gens diag (clock n)). unfold mbind at 1, EngineM_bind at 1.
  pose proof (authorize_spec d0 w3 H3 Hcur eq_refl eq_refl eq_refl Hs Hg) as Hau.
  change (av_stage (dc_authority d0)) with (diagnosis_stage diag).
  assert (exists d1 w4, (if diagnosis_stage diag == AuthorityStage.Authorization then authorize d0 else mret d0) w3 = (d1, w4) /\
    holds w4 /\ calm (put_fences (eg_fences w4.1) w3.1) w4.1 /\ current gens (eg_fences w4.1) /\ core d1 = core d0 /\
    (dc_has_intent d1 = true -> diagnosis_stage diag = AuthorityStage.Authorization /\ mandated (eg_fences w4.1) d1) /\
    (dc_has_intent d1 = false -> diagnosis_stage diag = AuthorityStage.Authorization -> open_for scope (eg_fences w4.1) = None))
    as (d1 & w4 & -> & H4 & C4 & Cu4 & K4 & I4 & N4).
  { destruct (bool_decide_reflect (diagnosis_stage diag = AuthorityStage.Authorization)) as [Est | Est].
    - destruct (authorize d0 w3) as [d1 w4]. destruct Hau as [A1 A2 A3 A4 A5 A6]. exists d1, w4.
      repeat (split; [assumption || reflexivity |]). split; [intros Hi; split; [exact Est | by apply A5] | intros Hi _; by apply A6].
    - exists d0, w3. do 5 (split; [assumption || reflexivity || by split |]). split; [intros Hi; discriminate Hi | intros _ Hx; by destruct (Est Hx)]. }
  cbv beta iota.
  match goal with |- let '(_, _) := ?t in _ => change t with (finish_evaluation d1 w4) end.
  pose proof (finish_evaluation_spec gens d1 w4 H4 Cu4 (f_equal (fun c => c.1.1.1.1.1.1.2) K4)
    (fun Hi => proj2 (I4 Hi))) as Hf.
  destruct (finish_evaluation d1 w4) as [[o d] w']. destruct Hf as (F1 & F2 & F3 & F4 & F5 & F6 & F7).
  assert (core d = core d0) as Kd by (by rewrite F2).
  assert (calm (put_fences (eg_fences w'.1) e) w'.1) as Cw.
  { destruct C4 as [Y1 Y2 Y3 Y4 _ Y6], F4 as [Z1 Z2 Z3 Z4 _ Z6]. cbn in *. split; cbn; congruence. }
  assert (core d0 = (DecisionKind.Diagnosis, d_outcome diag, scope, gens, classification diag, census diag, corroborated diag,
    boot_ (eg_store w'.1), incarnation_ (eg_store w'.1), clock n)) as K0.
  { pose proof (cm_identity _ _ Cw) as Hid. injection Hid as I1 I2 _ _. injection X6 as J1 J2 _ _. cbn in *.
    unfold d0, diagnosis_decision, core. cbn. congruence. }
  rewrite K0 in Kd. pose proof Kd as Kall. assert (forall b, classification diag = Classification.Blackhole -> corroborated diag = true ->
    dc_has_intent d = b -> diagnosis_stage diag = AuthorityStage.Authorization) as Hst.
  { intros b Hcl Hco _. unfold diagnosis_stage. by rewrite Hcl, Hco, beq_refl. }
  injection Kd as _ Ko Ks Kg Kc _ Kr _ _ _.
  split; [| exact F3 | exact Cw | exact F5 | |].
  - exists n. split; [| exact Kall].
    rewrite F1. exact (f_equal (fun c => c.1.1.1.1.1.1.1.1.2) (eq_trans K4 K0)).
  - intros Hi. destruct (F6 Hi) as (Hi1 & Hm & Hcm). destruct (I4 Hi1) as [Hst1 _].
    rewrite Kc, Kr. unfold diagnosis_stage in Hst1.
    destruct (bool_decide_reflect (classification diag = Classification.Blackhole)) as [-> |]; [| by destruct (_ <? _)].
    destruct (corroborated diag); [| done]. by split_and!.
  - intros Hi Hcl Hco. rewrite Kc in Hcl. rewrite Kr in Hco. specialize (F7 Hi).
    destruct (dc_has_intent d1) eqn:Hi1.
    + rewrite <- F7. f_equal. by injection K4.
    + rewrite F7. by apply N4, (Hst _ Hcl Hco eq_refl).
Qed.

(** ** Restoration *)

(** A fence that was open in [r] and is closed in [r'] is of the subject and durably revoked. *)
Definition lifted (scope : Scope) (r r' : FenceRegistry) (t : Store) : Prop :=
  forall id x x', find_fence id r = Some x -> is_open x = true -> find_fence id r' = Some x' -> is_open x' = false ->
    fi_scope (fr_intent x) = scope /\
    exists f, durable_fence t id = Some f /\ fp_lifecycle f = FenceLifecycle.Revoked /\ fp_intent f = fr_intent x.

Lemma lifted_same scope r t : lifted scope r r t.
Proof. intros id x x' H1 H2 H3. congruence. Qed.

Record lift_result (scope : Scope) (gens : GenerationVector) (d : Decision) (w : EngineWorld)
  (stage : AuthorityStage.t) (d' : Decision) (w' : EngineWorld) : Prop := {
  lf_holds : holds w';
  lf_calm : calm (put_fences (eg_fences w'.1) w.1) w'.1;
  lf_core : core d' = core d;
  lf_stage : stage = AuthorityStage.Authorization /\ open_for scope (eg_fences w'.1) = None \/
             stage = AuthorityStage.Eligibility /\ eg_fences w'.1 = eg_fences w.1;
  lf_lifted : lifted scope (eg_fences w.1) (eg_fences w'.1) (eg_store w'.1);
}.

Lemma lift_fence_spec scope gens now d w :
  holds w -> current gens (eg_fences w.1) ->
  let '((stage, d'), w') := lift_fence (open_for scope (eg_fences w.1)) now d w in
  lift_result scope gens d w stage d' w'.
Proof.
  intros Hh Hc. destruct w as [e dk]. unfold holds in Hh. cbn [fst snd] in *. pose proof (hd_settled _ _ Hh) as Hset.
  unfold lift_fence, mbind, EngineM_bind, get_engine, count, update, on_store, on_fences. cbn [fst snd].
  destruct (open_for scope (eg_fences e)) as [x |] eqn:Ex.
  2:{ cbn. split; [exact Hh | by split | reflexivity | by left | apply lifted_same]. }
  destruct (open_for_Some _ _ _ Hset Ex) as (Hx & Hox & Hsx). cbn [fst snd put_stats eg_store].
  set (id := fi_id (fr_intent x)) in *. set (op := OpRevoke id ReasonCode.FenceIntentRevoked now).
  pose proof (commit_fence_spec RecordType.FenceRevokeCommit (revoked_payload now x) (eg_store e, dk)) as Hs.
  pose proof (held_commit RecordType.FenceRevokeCommit (revoked_payload now x) (eg_store e, dk) (run_op op (eg_fences e))) as Hr.
  cbn [revoked_payload fp_intent fst] in Hs, Hr. fold id in Hs, Hr.
  destruct (commit_fence_state _ _ _) as [co [t dk']]. destruct Hs as [V Hd].
  destruct (is_affirmative co) eqn:Eco; cbn [fst snd put_store put_stats eg_fences eg_store].
  - destruct Hr as (H2 & _ & Hdur).
    { intros y Hy Hoy. pose proof (revoke_closes _ _ _ _ _ Hy). congruence. }
    { by apply held_op. }
    specialize (Hdur eq_refl).
    pose proof (revoke_none id ReasonCode.FenceIntentRevoked now (eg_fences e) x scope gens Hset Hc Hx Hox Hsx) as Hnone.
    assert (lifted scope (eg_fences e) (run_op op (eg_fences e)) t) as Hl.
    { intros id' y y' Hy Hoy Hy' Hoy'. assert (id' = id) as ->.
      { destruct (decide (id' = id)) as [| Hne]; [done | exfalso].
        cbn [op run_op] in Hy'. unfold revoke, find_fence in *. rewrite Hx in Hy'. rewrite Hox in Hy'.
        cbn [negb snd with_stats put_record records_] in Hy'. rewrite map_find_insert_ne in Hy' by congruence. congruence. }
      rewrite Hx in Hy. injection Hy as <-. split; [exact Hsx |]. exists (revoked_payload now x). by split. }
    cbn [run_op op] in *. destruct (revoke id _ now (eg_fences e)) as [ro r2]. cbn [snd] in *.
    split; cbn; [exact H2 | by split | reflexivity | by left | exact Hl].
  - assert (held t (eg_fences e)) as H2.
    { apply (held_store (eg_store e)); [exact V | | exact Hh]. intros id' y _ _ (f & Hf & Hof). exists f. split; [| exact Hof].
      specialize (Hd id'). cbn [andb fst] in Hd. by rewrite Hd. }
    split; cbn; [exact H2 | by split | reflexivity | by right | apply lifted_same].
Qed.

(** What [restore] did for a valid request, from the registry [r1] that revalidation left. *)
Record restored (scope : Scope) (gens : GenerationVector) (o : Outcome) (d : Decision) (w w' : EngineWorld) : Prop := {
  rs_diag : exists n, let diag := classify (MkRequest scope gens (clock n) (Some (eg_policy w.1)) (evidence_for scope (eg_ledger w.1))) in
    let '(vo, authorized, reason) := restoration_verdict diag (eg_policy w.1) in
    o = vo /\ core d = (DecisionKind.Restoration, vo, scope, gens, classification diag, census diag, false,
                        boot_ (eg_store w'.1), incarnation_ (eg_store w'.1), clock n) /\
    (authorized = false -> eg_fences w'.1 = (revalidate (clock (eg_ticks w.1)) gens (eg_fences w.1)).2) /\
    (av_stage (dc_authority d) = AuthorityStage.Authorization ->
       authorized = true /\ open_for scope (eg_fences w'.1) = None /\
       exists t dk, commit_decision d (t, dk) = (Ok, (eg_store w'.1, w'.2)));
  rs_holds : holds w';
  rs_calm : calm (put_fences (eg_fences w'.1) w.1) w'.1;
  rs_lifted : lifted scope (revalidate (clock (eg_ticks w.1)) gens (eg_fences w.1)).2 (eg_fences w'.1) (eg_store w'.1);
}.

(** The end of [restore]: the decision with its authority is committed. *)
Definition finish_restoration (gens : GenerationVector) (e : Engine) (stage : AuthorityStage.t) (d : Decision)
  : EngineM (Outcome * Decision) :=
  let d := identify (set_authority (engine_authority e stage gens (dc_decided_at d)) d) in
  commit ← engine_commit d;
  if negb (is_affirmative commit) then
    count RefusalsFailClosed ;;
    mret (dc_outcome d, set_authority (set_stage AuthorityStage.Observation (dc_authority d)) d)
  else mret (dc_outcome d, d).

Lemma finish_restoration_spec gens e stage d w :
  holds w ->
  let '((o, d'), w') := finish_restoration gens e stage d w in
  o = dc_outcome d /\ core d' = core d /\ holds w' /\ calm w.1 w'.1 /\
  (forall id, durable_fence (eg_store w'.1) id = durable_fence (eg_store w.1) id) /\
  (av_stage (dc_authority d') = AuthorityStage.Authorization -> stage = AuthorityStage.Authorization /\
     exists t dk, commit_decision d' (t, dk) = (Ok, (eg_store w'.1, w'.2))).
Proof.
  intros Hh. unfold finish_restoration. cbv zeta. set (d1 := identify _).
  unfold mbind, EngineM_bind. pose proof (engine_commit_spec d1 w Hh) as Hco. pose proof (engine_commit_view d1 w) as Hv.
  destruct (engine_commit d1 w) as [co w1]. destruct Hco as (H1 & C1 & Hok). cbn [snd] in Hv.
  assert (forall id, durable_fence (eg_store w1.1) id = durable_fence (eg_store w.1) id) as Hdur
    by (intros id; unfold durable_fence; injection Hv as _ _ _ _ ->; reflexivity).
  destruct (is_affirmative co); cbn [negb].
  - cbn [mret EngineM_ret]. split; [reflexivity |]. split; [reflexivity |]. split; [exact H1 |]. split; [exact C1 |].
    split; [exact Hdur |]. intros Hst. split; [exact Hst |]. exists (eg_store w.1), w.2. by apply Hok.
  - unfold count, update. cbn [fst snd mret EngineM_ret]. split; [reflexivity |]. split; [reflexivity |]. split; [exact H1 |].
    split; [destruct C1; by split |]. split; [exact Hdur | done].
Qed.

#[local] Opaque lift_fence.

Lemma restore_spec scope gens w :
  holds w -> eg_opened w.1 = true -> scope_valid scope = true -> is_complete gens = true ->
  let '((o, d), w') := restore clock scope gens w in restored scope gens o d w w'.
Proof.
  intros Hh Ho Hs Hg. destruct w as [e dk]. cbn [fst] in Ho.
  set (w1 := (count Evaluations (e, dk)).2).
  pose proof (revalidate_spec gens w1 Hh) as Hr. cbn zeta in Hr. destruct Hr as [H2 C2].
  pose proof (fun id x => revalidated_open (clock (eg_ticks w1.1)) gens (eg_fences w1.1) id x) as Hopen.
  unfold restore. unfold mbind at 1, EngineM_bind at 1. cbn [get_engine fst snd]. rewrite Ho, Hs, Hg. cbn [negb orb].
  unfold mbind at 1, EngineM_bind at 1. change (count Evaluations (e, dk)) with (tt, w1). cbn beta match.
  unfold mbind at 1, EngineM_bind at 1.
  destruct (revalidate_fences clock gens w1) as [u w2] eqn:E2. cbn [snd] in *.
  set (w3 := (put_ticks (S (eg_ticks w2.1)) w2.1, w2.2)).
  assert (holds w3) as H3 by exact H2.
  destruct C2 as [X1 X2 X3 X4 X5 X6]. cbn [put_fences eg_config eg_policy eg_opened eg_ledger eg_fences eg_store] in *.
  change (eg_policy w1.1) with (eg_policy e) in *. change (eg_ledger w1.1) with (eg_ledger e) in *.
  change (eg_config w1.1) with (eg_config e) in *. change (eg_opened w1.1) with (eg_opened e) in *.
  change (eg_store w1.1) with (eg_store e) in *. change (eg_fences w1.1) with (eg_fences e) in *.
  assert (current gens (eg_fences w3.1)) as Hcur.
  { intros id x. change (eg_fences w3.1) with (eg_fences w2.1). rewrite X5. intros Hf Hop. by apply (Hopen id x). }
  set (n := eg_ticks w2.1). set (diag := classify (MkRequest scope gens (clock n) (Some (eg_policy e)) (evidence_for scope (eg_ledger e)))).
  unfold mbind at 1, EngineM_bind at 1.
  assert (diagnose clock scope gens w2 = ((diag, clock n), w3)) as ->.
  { unfold diagnose, mbind, EngineM_bind, get_engine, read_now. cbn [fst snd]. rewrite X2, X4. reflexivity. }
  cbn beta match. unfold mbind at 1, EngineM_bind at 1. cbn [get_engine fst snd]. cbv zeta.
  change (eg_policy w3.1) with (eg_policy w2.1). rewrite X2.
  set (open_fence := open_for scope (eg_fences w3.1)). unfold evaluate_restoration.
  destruct (restoration_verdict diag (eg_policy e)) as [[vo authorized] reason] eqn:Ev. cbn [rd_authorized].
  set (rd := MkRestoration _ _ _ _ _ _ _ _ _ _ _ _). set (d0 := restoration_decision w3.1 scope gens diag rd (clock n)).
  pose proof (lift_fence_spec scope gens (clock n) d0 w3 H3 Hcur) as Hl. fold open_fence in Hl.
  unfold mbind at 1, EngineM_bind at 1.
  assert (exists stage d1 w4, (if authorized then lift_fence open_fence (clock n) d0 else
      count RestorationsRefused ;;
      mret ((if 0 <? total (census diag) then AuthorityStage.Observation else AuthorityStage.None), d0)) w3 = ((stage, d1), w4) /\
    holds w4 /\ calm (put_fences (eg_fences w4.1) w3.1) w4.1 /\ core d1 = core d0 /\
    (authorized = false -> eg_fences w4.1 = eg_fences w3.1) /\
    (stage = AuthorityStage.Authorization -> authorized = true /\ open_for scope (eg_fences w4.1) = None) /\
    lifted scope (eg_fences w3.1) (eg_fences w4.1) (eg_store w4.1)) as (stage & d1 & w4 & -> & H4 & C4 & K4 & A4 & S4 & L4).
  { destruct authorized.
    - destruct (lift_fence open_fence (clock n) d0 w3) as [[stage d1] w4]. destruct Hl as [L1 L2 L3 L4 L5]. exists stage, d1, w4.
      split; [reflexivity |]. split; [exact L1 |]. split; [exact L2 |]. split; [exact L3 |]. split; [done |]. split; [| exact L5].
      intros ->. destruct L4 as [[_ L4] | [L4 _]]; [by split | discriminate].
    - eexists _, d0, (count RestorationsRefused w3).2. split; [reflexivity |]. split; [exact H3 |]. split; [by split |].
      split; [reflexivity |]. split; [done |]. split; [by destruct (0 <? total (census diag)) | apply lifted_same]. }
  cbv beta iota.
  match goal with |- let '(_, _) := ?t in _ => change t with (finish_restoration gens w3.1 stage d1 w4) end.
  pose proof (finish_restoration_spec gens w3.1 stage d1 w4 H4) as Hf.
  destruct (finish_restoration gens w3.1 stage d1 w4) as [[o d] w']. destruct Hf as (F1 & F2 & F3 & F4 & F5 & F6).
  pose proof (cm_fences _ _ F4) as F4f.
  assert (calm (put_fences (eg_fences w'.1) e) w'.1) as Cw.
  { destruct C4 as [Y1 Y2 Y3 Y4 _ Y6], F4 as [Z1 Z2 Z3 Z4 _ Z6]. cbn in *. split; cbn; congruence. }
  assert (core d0 = (DecisionKind.Restoration, vo, scope, gens, classification diag, census diag, false,
    boot_ (eg_store w'.1), incarnation_ (eg_store w'.1), clock n)) as K0.
  { pose proof (cm_identity _ _ Cw) as Hid. injection Hid as I1 I2 _ _. injection X6 as J1 J2 _ _. cbn in *.
    unfold d0, restoration_decision, core. cbn. congruence. }
  change (eg_fences w3.1) with (eg_fences w2.1) in *. rewrite X5 in L4, A4. change (eg_ticks w1.1) with (eg_ticks e) in *.
  split; [| exact F3 | exact Cw |].
  - exists n. cbn [fst]. fold diag. rewrite Ev. split; [rewrite F1; exact (f_equal (fun c => c.1.1.1.1.1.1.1.1.2) (eq_trans K4 K0)) |].
    split; [by rewrite F2, K4 |]. rewrite F4f. split; [exact A4 |].
    intros Hst. destruct (F6 Hst) as [Hst1 Hcm]. destruct (S4 Hst1) as [-> Hno]. by split_and!.
  - rewrite F4f. intros id x x' Hx Hox Hx' Hox'. cbn [fst] in Hx.
    destruct (L4 id x x' Hx Hox Hx' Hox') as (L & f & Hf & Hrest). split; [exact L |]. exists f. by rewrite F5.
Qed.

(** ** Every step keeps authority backed *)

Record kept (w w' : EngineWorld) : Prop := {
  kp_holds : holds w';
  kp_calm : calm (put_fences (eg_fences w'.1) w.1) w'.1;
  kp_closed : eg_opened w.1 = false -> eg_fences w'.1 = eg_fences w.1;
}.

Lemma kept_calm w w' : holds w' -> calm w.1 w'.1 -> kept w w'.
Proof. intros Hh [C1 C2 C3 C4 C5 C6]. split; [exact Hh | by split | by intros _]. Qed.

(** A step that leaves fences and store alone. *)
Lemma kept_aside w w' :
  holds w -> calm w.1 w'.1 -> eg_store w'.1 = eg_store w.1 -> kept w w'.
Proof. intros Hh Hc Hs. apply kept_calm; [| exact Hc]. unfold holds. by rewrite Hs, (cm_fences _ _ Hc). Qed.

Lemma kept_opened w w' :
  holds w' -> calm (put_fences (eg_fences w'.1) w.1) w'.1 -> eg_opened w.1 = true -> kept w w'.
Proof. intros Hh Hc Ho. split; [exact Hh | exact Hc | congruence]. Qed.

(** The refusals of [evaluate]. *)
Definition refusal_outcome (w : EngineWorld) : Outcome := if eg_opened w.1 then Invalid else Unavailable.
Definition refusal_world (w : EngineWorld) : EngineWorld :=
  let w := (count RefusalsFailClosed w).2 in (put_ticks (S (eg_ticks w.1)) w.1, w.2).

Lemma evaluate_refused scope gens w :
  eg_opened w.1 = false \/ scope_valid scope = false \/ is_complete gens = false ->
  exists d, evaluate clock scope gens w = ((refusal_outcome w, d), refusal_world w) /\
    dc_outcome d = refusal_outcome w /\ dc_has_intent d = false /\ dc_scope d = scope /\ dc_gens d = gens /\
    dc_classification d = Classification.Unknown /\ av_stage (dc_authority d) = AuthorityStage.None.
Proof.
  intros Hr. unfold evaluate, refusal_outcome. unfold mbind at 1, EngineM_bind at 1. cbn [get_engine fst snd].
  destruct (eg_opened w.1) eqn:Ho; cbn [negb].
  - replace (negb (scope_valid scope) || negb (is_complete gens)) with true
      by (destruct Hr as [| [-> | ->]]; [done | done | by destruct (scope_valid scope)]).
    eexists. by split.
  - eexists. by split.
Qed.

Lemma kept_evaluate scope gens w : holds w -> kept w (evaluate clock scope gens w).2.
Proof.
  intros Hh. destruct (eg_opened w.1) eqn:Ho.
  2:{ unfold evaluate, mbind, EngineM_bind, get_engine. cbn [fst snd]. rewrite Ho. cbn [negb].
      apply kept_aside; [exact Hh | by split | reflexivity]. }
  destruct (scope_valid scope) eqn:Hs, (is_complete gens) eqn:Hg.
  1:{ pose proof (evaluate_spec scope gens w Hh Ho Hs Hg) as He. destruct (evaluate clock scope gens w) as [[o d] w'].
      destruct He as [_ H1 H2 _ _ _]. by apply kept_opened. }
  all: unfold evaluate, mbind, EngineM_bind, get_engine; cbn [fst snd]; rewrite Ho, Hs, Hg; cbn [negb orb];
    apply kept_aside; [exact Hh | by split | reflexivity].
Qed.

Lemma restore_refused scope gens w :
  eg_opened w.1 = false \/ scope_valid scope = false \/ is_complete gens = false ->
  exists o d w', restore clock scope gens w = ((o, d), w') /\ eg_fences w'.1 = eg_fences w.1 /\
    av_stage (dc_authority d) = AuthorityStage.None.
Proof.
  intros Hr. unfold restore. unfold mbind at 1, EngineM_bind at 1. cbn [get_engine fst snd].
  destruct (eg_opened w.1) eqn:Ho; cbn [negb].
  - replace (negb (scope_valid scope) || negb (is_complete gens)) with true
      by (destruct Hr as [| [-> | ->]]; [done | done | by destruct (scope_valid scope)]).
    eexists _, _, _. by split.
  - eexists _, _, _. by split.
Qed.

Lemma kept_restore scope gens w : holds w -> kept w (restore clock scope gens w).2.
Proof.
  intros Hh. destruct (eg_opened w.1) eqn:Ho.
  2:{ unfold restore, mbind, EngineM_bind, get_engine. cbn [fst snd]. rewrite Ho. cbn [negb].
      apply kept_aside; [exact Hh | by split | reflexivity]. }
  destruct (scope_valid scope) eqn:Hs, (is_complete gens) eqn:Hg.
  1:{ pose proof (restore_spec scope gens w Hh Ho Hs Hg) as He. destruct (restore clock scope gens w) as [[o d] w'].
      destruct He as [_ H1 H2 _]. by apply kept_opened. }
  all: unfold restore, mbind, EngineM_bind, get_engine; cbn [fst snd]; rewrite Ho, Hs, Hg; cbn [negb orb];
    apply kept_aside; [exact Hh | by split | reflexivity].
Qed.

Lemma kept_publish found d w : holds w -> kept w (localize_publish found d w).2.
Proof.
  intros Hh. destruct found as [[bo result] failed]. unfold localize_publish, mbind, EngineM_bind, get_engine. cbn [fst snd].
  set (w1 := (count Localizations w).2). change (count Localizations w) with (tt, w1). cbn beta match.
  destruct (negb (is_affirmative bo)); [apply kept_aside; [exact Hh | by split | reflexivity] |]. cbv zeta.
  set (d1 := identify _). destruct (dc_id d1 != dc_id d); [| apply kept_aside; [exact Hh | by split | reflexivity]].
  set (w2 := (count LocalizationEnrichments w1).2). change (count LocalizationEnrichments w1) with (tt, w2). cbn beta match.
  pose proof (engine_commit_spec d1 w2 Hh) as Hc. destruct (engine_commit d1 w2) as [o w3]. destruct Hc as (H1 & C1 & _).
  apply kept_calm; [exact H1 |]. destruct C1. by split.
Qed.

Lemma log_report_kept type id o reason w :
  holds w -> holds (log_report type id o reason w).2 /\ calm w.1 (log_report type id o reason w).2.1.
Proof.
  intros Hh. unfold log_report. destruct (negb _); [by split |]. unfold mbind, EngineM_bind, get_engine. cbn [fst snd].
  destruct (find_fence id (eg_fences w.1)) as [x |] eqn:Ex; [| by split].
  destruct (log_fence_calm type id x w Hh Ex) as [H1 C1]. destruct (log_fence _ _ w) as [u w1]. cbn in *. by split.
Qed.

(** A report of a downstream: a call on the registry, then its durable record. *)
Lemma report_kept op (f : FenceRegistry -> Outcome * ReasonCode.t * FenceRegistry) type id w :
  engine_op op = true -> (forall i, op <> OpCommit i) -> (forall r, (f r).2 = run_op op r) ->
  holds w -> eg_opened w.1 = true ->
  kept w (('(o, reason) ← on_fences f; log_report type id o reason) w).2.
Proof.
  intros Ho Hn Hf Hh Hop. unfold mbind, EngineM_bind, on_fences. specialize (Hf (eg_fences w.1)).
  destruct (f (eg_fences w.1)) as [[o reason] r]. cbn [snd] in Hf. subst r.
  set (w1 := (put_fences _ w.1, w.2)).
  assert (holds w1) as H1 by (apply held_op; [exact Ho | intros i Hi; by destruct (Hn i) | exact Hh]).
  destruct (log_report_kept type id o reason w1 H1) as [H2 C2]. apply kept_opened; [exact H2 | | exact Hop].
  destruct C2. by split.
Qed.

Lemma kept_ticks n w w' : kept (put_ticks n w.1, w.2) w' -> kept w w'.
Proof. intros [H1 [C1 C2 C3 C4 C5 C6] H3]. split; [exact H1 | by split | exact H3]. Qed.

Lemma kept_ack id o w : holds w -> kept w (acknowledge_fence clock id o w).2.
Proof.
  intros Hh. unfold acknowledge_fence. unfold mbind at 1, EngineM_bind at 1. cbn [get_engine fst snd].
  destruct (eg_opened w.1) eqn:Ho; cbn [negb]; [| apply kept_aside; [exact Hh | by split | reflexivity]].
  unfold mbind at 1, EngineM_bind at 1. cbn [read_now].
  apply (kept_ticks (S (eg_ticks w.1))), (report_kept (OpAcknowledge id o (clock (eg_ticks w.1)))); done.
Qed.

Lemma kept_effect id o v w : holds w -> kept w (engine_report_effect clock id o v w).2.
Proof.
  intros Hh. unfold engine_report_effect. unfold mbind at 1, EngineM_bind at 1. cbn [get_engine fst snd].
  destruct (eg_opened w.1) eqn:Ho; cbn [negb]; [| apply kept_aside; [exact Hh | by split | reflexivity]].
  unfold mbind at 1, EngineM_bind at 1. cbn [read_now].
  apply (kept_ticks (S (eg_ticks w.1))), (report_kept (OpEffect id o v (clock (eg_ticks w.1)))); done.
Qed.

Lemma kept_checkpoint w : holds w -> kept w (engine_checkpoint clock w).2.
Proof.
  intros Hh. unfold engine_checkpoint, mbind, EngineM_bind, get_engine, read_now, on_store. cbn [fst snd].
  destruct (eg_opened w.1); cbn [negb]; [| apply kept_aside; [exact Hh | by split | reflexivity]].
  pose proof (keeps_checkpoint (eg_store w.1, w.2)) as Hv. cbn [fst put_ticks eg_store].
  destruct (checkpoint (eg_store w.1, w.2)) as [o [t d]]. cbn [fst snd] in *.
  apply kept_calm; [exact (held_view _ _ _ Hv Hh) |]. split; try done. injection Hv as ? ? ? ? _. unfold identity_view. cbn. congruence.
Qed.

(** The invariant of the engine: authority is backed, and a closed engine holds nothing. *)
Record engine_inv (c : EngineConfig) (w : EngineWorld) : Prop := {
  ei_config : eg_config w.1 = c;
  ei_policy : eg_policy w.1 = ec_policy c;
  ei_holds : holds w;
  ei_closed : eg_opened w.1 = false -> records_ (eg_fences w.1) = [] /\ scopes_ (eg_ledger w.1) = [];
}.

Lemma engine_inv_kept c w w' : engine_inv c w -> kept w w' -> engine_inv c w'.
Proof.
  intros [H1 H2 H3 H4] [K1 [C1 C2 C3 C4 C5 C6] K3]. cbn in *. split; [congruence | congruence | exact K1 |].
  rewrite C3, C4. intros Ho. rewrite (K3 Ho). by apply H4.
Qed.

Lemma held_empty t t' r : settled r -> records_ r = [] -> held t r -> held t' r.
Proof. intros Hr E _. split; [exact Hr | |]; intros id x; unfold find_fence; rewrite E; done. Qed.

Lemma engine_inv_submit c ev w : engine_inv c w -> engine_inv c (submit clock ev w).2.
Proof.
  intros Hi. pose proof Hi as [H1 H2 H3 H4]. unfold submit, mbind, EngineM_bind, count, get_engine, update, read_now. cbn [fst snd put_stats eg_opened].
  destruct (eg_opened w.1) eqn:Ho; cbn [negb].
  2:{ split; try done. cbn. rewrite Ho. exact H4. }
  cbn [put_ticks eg_ledger eg_ticks]. destruct (ledger_admit _ _ _) as [[adm reason] l].
  destruct (_ || _); (split; [exact H1 | exact H2 | exact H3 | cbn; congruence]).
Qed.

Lemma engine_inv_open c n1 n2 w : engine_inv c w -> engine_inv c (engine_open clock n1 n2 w).2.
Proof.
  intros Hi. pose proof Hi as [H1 H2 H3 H4]. unfold engine_open, mbind, EngineM_bind, get_engine, read_now, on_store. cbn [fst snd].
  destruct (eg_opened w.1) eqn:Ho; [exact Hi |]. cbn [put_ticks eg_store eg_config fst snd].
  destruct (store_open _ _ _ _ _) as [o [t d]]. specialize (H4 eq_refl).
  assert (held t (eg_fences w.1)) as Ht by (apply (held_empty (eg_store w.1)); [apply H3 | apply H4 | exact H3]).
  destruct (is_affirmative o); cbn [negb].
  - split; [exact H1 | exact H2 | apply held_clear | done].
  - split; [exact H1 | exact H2 | exact Ht | by intros _].
Qed.

Lemma engine_inv_close c w : engine_inv c w -> engine_inv c (engine_close w).2.
Proof.
  intros Hi. pose proof Hi as [H1 H2 H3 H4]. unfold engine_close, mbind, EngineM_bind, get_engine, on_store. cbn [fst snd].
  destruct (eg_opened w.1) eqn:Ho; cbn [negb]; [| exact Hi]. cbn [fst snd].
  destruct (store_close _) as [o [t d]]. split; [exact H1 | exact H2 | apply held_clear | done].
Qed.

Lemma engine_inv_step c op w : engine_inv c w -> engine_inv c (engine_step clock op w).
Proof.
  intros Hi. pose proof (ei_holds _ _ Hi) as Hh.
  destruct op; cbn [engine_step]; [by apply engine_inv_open | by apply engine_inv_close | by apply engine_inv_submit | ..];
    apply (engine_inv_kept c w _ Hi); [by apply kept_evaluate | by apply kept_publish | by apply kept_ack
    | by apply kept_effect | by apply kept_restore | by apply kept_checkpoint | by apply kept_aside].
Qed.

Lemma engine_reachable_inv c w : engine_reachable clock c w -> engine_inv c w.
Proof.
  induction 1 as [d | op w _ IH]; [| by apply engine_inv_step].
  split; [done | done | | done]. split; [exists zero_stats; apply new_registry_inv | by intros ? ? | by intros ? ?].
Qed.
End Authority.
