(* ===== verification/Coordinator.v ===== *)
(** * The guarantees of the coordinator

    The theorems about [Engine]: exact accounting, authority behind durable records, intents
    that leave with a durable decision, fail-closed evaluation, restoration on evidence, and
    the end-to-end meaning of a published localization. *)
From Stdlib Require Import Strings.String.
From S2P Require Import Prelude OrderedMap Core Checked Codec Hash Ids Domain Policy Fixtures Ledger Classifier.
From S2P Require Import Localizer LocalizerSpec Validator Fence Authority Record Journal Snapshot Durable Store Engine EngineSpec.
Local Open Scope string_scope.
Local Open Scope list_scope.
Local Open Scope Z_scope.

(** ** Fixtures *)

(** A clock whose every reading is a nanosecond later. *)
Definition fx_clock (n : nat) : WallNs := MkWall (wall_ns fx_now + Z.of_nat n).
Definition fx_engine_config : EngineConfig := MkEngineConfig default_config default_policy Provenance.Synthetic.
Definition run_engine (clock : nat -> WallNs) (ops : list EngineOp) (w : EngineWorld) : EngineWorld :=
  foldl (fun w op => engine_step clock op w) w ops.
Definition fx_new_engine : EngineWorld := (new_Engine fx_engine_config, MkDisk None None None []).

(** Two failing sources corroborate a black hole. *)
Definition fx_failures : list EngineOp := [EOpen 11 12; ESubmit (fx_failure 1 1); ESubmit (fx_failure 2 2)].
Definition fx_failing : EngineWorld := run_engine fx_clock fx_failures fx_new_engine.
Definition fx_evaluation : Outcome * Decision * EngineWorld := evaluate fx_clock fx_scope fx_gens fx_failing.
Definition fx_fenced : EngineWorld := run_engine fx_clock [EEvaluate fx_scope fx_gens] fx_failing.

(** A clock that jumps past the window of the failures, to a time when both sources report
    success again. *)
Definition fx_late (n : nat) : WallNs := if Nat.ltb n 5 then fx_now else MkWall 3000000.
Definition fx_recovery (src : Z) : DeliveryEvidence :=
  MkEvidence (MkId (src + 200)) (MkSource (MkId src) (MkId src) (MkId src) (MkGen 1)) fx_scope fx_gens
    (MkSeq 2) (MkId 0) EvidenceKind.DeliverySuccess EvidenceQuality.Exact Provenance.Synthetic 16 0 0 10
    (MkWall 2500000) (MkWindow (MkWall 2400000) (MkWall 9000000)) (MkId 0).
Definition fx_recovering : EngineWorld :=
  run_engine fx_late (fx_failures ++ [EEvaluate fx_scope fx_gens; ESubmit (fx_recovery 1); ESubmit (fx_recovery 2)]) fx_new_engine.

(** The same run on a disk whose tenth operation fails: the append of the next decision. *)
Definition fx_faulty : EngineWorld :=
  run_engine fx_clock fx_failures (new_Engine fx_engine_config, MkDisk None None None (replicate 9 None ++ [Some 0%nat])).

Lemma run_engine_reachable clock ops w c :
  engine_reachable clock c w -> engine_reachable clock c (run_engine clock ops w).
Proof. revert w. induction ops as [| op ops IH]; intros w Hw; [exact Hw |]. apply IH. by constructor. Qed.

Lemma fx_failing_reachable : engine_reachable fx_clock fx_engine_config fx_failing.
Proof. apply run_engine_reachable, engine_new. Qed.
Lemma fx_faulty_reachable : engine_reachable fx_clock fx_engine_config fx_faulty.
Proof. apply run_engine_reachable, engine_new. Qed.
Lemma fx_recovering_reachable : engine_reachable fx_late fx_engine_config fx_recovering.
Proof. apply run_engine_reachable, engine_new. Qed.
Lemma fx_fenced_reachable : engine_reachable fx_clock fx_engine_config fx_fenced.
Proof. apply run_engine_reachable, fx_failing_reachable. Qed.

(** ** Theorems *)

Lemma evaluate_valid clock c w scope gens o d w' :
  engine_reachable clock c w -> evaluate clock scope gens w = ((o, d), w') ->
  evaluated clock scope gens o d w w' \/
  (eg_opened w.1 = false \/ scope_valid scope = false \/ is_complete gens = false) /\ dc_has_intent d = false /\
  dc_classification d = Classification.Unknown.
Proof.
  intros Hw E. pose proof (ei_holds _ _ (engine_reachable_inv clock c w Hw)) as Hh.
  assert ((eg_opened w.1 = false \/ scope_valid scope = false \/ is_complete gens = false) \/
    eg_opened w.1 = true /\ scope_valid scope = true /\ is_complete gens = true) as [Hr | (Ho & Hs & Hg)]
    by (destruct (eg_opened w.1), (scope_valid scope), (is_complete gens); intuition).
  - right. destruct (evaluate_refused clock scope gens w Hr) as (d0 & E0 & _ & H1 & _ & _ & H2 & _).
    rewrite E in E0. injection E0 as -> -> ->. by split_and!.
  - left. pose proof (evaluate_spec clock scope gens w Hh Ho Hs Hg) as He. by rewrite E in He.
Qed.

(** C13: the engine's accounting is exact: in every run, over any clock, any disk and any
    faults, every observation is admitted or rejected, every decision produced belongs to
    one evaluation or one localization, and every decision produced was committed or
    counted as a failure. *)
Theorem engine_accounting clock c w :
  engine_reachable clock c w -> es_accounting_closed (eg_stats w.1) = true.
Proof. intros Hw. exact (balanced_closed _ (reachable_balanced clock c w Hw)). Qed.

Example engine_accounting_witness : es_accounting_closed (eg_stats fx_fenced.1) = true.
Proof. apply (engine_accounting fx_clock fx_engine_config fx_fenced), fx_fenced_reachable. Defined.

(** C7: no authority without its record: in every run, over any clock, disk and faults, every
    fence in memory carries the boot and incarnation of the running store, an open one is
    recorded as open in the durable state, and a closed engine holds neither fences nor
    evidence, so nothing of an earlier incarnation is live after a restart. *)
Theorem authority_backed clock c w :
  engine_reachable clock c w ->
  (forall id x, find_fence id (eg_fences w.1) = Some x ->
     fi_id (fr_intent x) = id /\ fi_boot (fr_intent x) = boot_ (eg_store w.1) /\
     fi_incarnation (fr_intent x) = incarnation_ (eg_store w.1) /\
     (is_open x = true ->
        exists f, durable_fence (eg_store w.1) id = Some f /\ open_lifecycle (fp_lifecycle f) = true)) /\
  (eg_opened w.1 = false -> records_ (eg_fences w.1) = [] /\ scopes_ (eg_ledger w.1) = []).
Proof.
  intros Hw. destruct (engine_reachable_inv clock c w Hw) as [_ _ [H1 H2 H3] H4]. split; [| exact H4].
  intros id x Hx. destruct (settled_key _ id x H1 Hx) as [Hid _]. destruct (H2 id x Hx) as [Hb Hi].
  split; [exact Hid |]. split; [exact Hb |]. split; [exact Hi |]. intros Ho. exact (H3 id x Hx Ho).
Qed.

Definition fx_intent_id : FenceId := fi_id (dc_intent fx_evaluation.1.2).

Example authority_backed_witness :
  exists x, find_fence fx_intent_id (eg_fences fx_fenced.1) = Some x /\ is_open x = true /\
    exists f, durable_fence (eg_store fx_fenced.1) fx_intent_id = Some f /\ open_lifecycle (fp_lifecycle f) = true.
Proof.
  destruct (authority_backed fx_clock fx_engine_config fx_fenced fx_fenced_reachable) as [H _].
  destruct (find_fence fx_intent_id (eg_fences fx_fenced.1)) as [x |] eqn:E; [| vm_compute in E; discriminate].
  exists x. assert (is_open x = true) as Ho by (vm_compute in E; injection E as <-; reflexivity).
  split; [reflexivity |]. split; [exact Ho |]. by apply (H fx_intent_id x E).
Defined.

(** C6: an intent leaves [evaluate] only for a corroborated black hole, only for the asked
    subject and generations under the running incarnation, only while its fence is open in
    memory and in the durable state, and only with the decision that carries it committed. *)
Theorem intent_needs_durable_decision clock c w scope gens o d w' :
  engine_reachable clock c w -> evaluate clock scope gens w = ((o, d), w') -> dc_has_intent d = true ->
  dc_classification d = Classification.Blackhole /\ dc_corroborated d = true /\
  fi_scope (dc_intent d) = scope /\ fi_gens (dc_intent d) = gens /\
  fi_boot (dc_intent d) = boot_ (eg_store w'.1) /\ fi_incarnation (dc_intent d) = incarnation_ (eg_store w'.1) /\
  av_stage (dc_authority d) = AuthorityStage.Intent /\ av_fence (dc_authority d) = fi_id (dc_intent d) /\
  (exists x f, find_fence (fi_id (dc_intent d)) (eg_fences w'.1) = Some x /\ is_open x = true /\
     fr_intent x = dc_intent d /\ durable_fence (eg_store w'.1) (fi_id (dc_intent d)) = Some f /\
     open_lifecycle (fp_lifecycle f) = true) /\
  exists t dk, commit_decision d (t, dk) = (Ok, (eg_store w'.1, w'.2)).
Proof.
  intros Hw E Hd. pose proof (ei_holds _ _ (engine_reachable_inv clock c w Hw)) as Hh.
  pose proof (evaluate_valid clock c w scope gens o d w' Hw E) as [He | (_ & Hn & _)]; [| congruence].
  destruct He as [(n & _ & Hcore) [_ H2 H3] _ _ Hi _]. destruct (Hi Hd) as (Hc & Hr & (M1 & M2 & M3 & M4 & x & M5 & M6 & M7) & Hcm).
  injection Hcore as _ _ Hsc Hge _ _ _ _ _ _. destruct (H2 _ _ M5) as [Hb Hin]. destruct (H3 _ _ M5 M6) as (f & Hf & Hof).
  rewrite <- M7. repeat (split; [assumption || congruence |]). split; [| exact Hcm]. exists x, f. by rewrite M7.
Qed.

Example intent_needs_durable_decision_witness :
  exists o d w', evaluate fx_clock fx_scope fx_gens fx_failing = ((o, d), w') /\
    dc_classification d = Classification.Blackhole /\
    exists t dk, commit_decision d (t, dk) = (Ok, (eg_store w'.1, w'.2)).
Proof.
  destruct (evaluate fx_clock fx_scope fx_gens fx_failing) as [[o d] w'] eqn:E. exists o, d, w'.
  assert (dc_has_intent d = true) as Hd.
  { change d with ((o, d), w').1.2. rewrite <- E. vm_compute. reflexivity. }
  destruct (intent_needs_durable_decision fx_clock fx_engine_config fx_failing fx_scope fx_gens o d w'
    fx_failing_reachable E Hd) as (H1 & _ & _ & _ & _ & _ & _ & _ & _ & H2).
  split; [reflexivity |]. split; [exact H1 | exact H2].
Defined.

(** C12: evaluation fails closed: when a corroborated black hole leaves [evaluate] without an
    intent, whatever refused it (capacity, the clock, the disk under either commit), no fence
    is left open for the subject; and no open fence of the registry is bound to other
    generations than the evaluated ones. *)
Theorem evaluate_fails_closed clock c w scope gens o d w' :
  engine_reachable clock c w -> evaluate clock scope gens w = ((o, d), w') ->
  dc_classification d = Classification.Blackhole -> dc_corroborated d = true ->
  (dc_has_intent d = false -> open_for scope (eg_fences w'.1) = None) /\
  (forall id x, find_fence id (eg_fences w'.1) = Some x -> is_open x = true -> fi_gens (fr_intent x) = gens).
Proof.
  intros Hw E Hc Hr. destruct (evaluate_valid clock c w scope gens o d w' Hw E) as [He | (_ & _ & Hu)]; [| congruence].
  destruct He as [_ _ _ Hcur _ Hn]. split; [intros Hi; by apply Hn | exact Hcur].
Qed.

Example evaluate_fails_closed_witness :
  exists o d w', evaluate fx_clock fx_scope fx_gens fx_faulty = ((o, d), w') /\ dc_has_intent d = false /\
    open_for fx_scope (eg_fences w'.1) = None.
Proof.
  destruct (evaluate fx_clock fx_scope fx_gens fx_faulty) as [[o d] w'] eqn:E. exists o, d, w'.
  assert (dc_has_intent d = false /\ dc_classification d = Classification.Blackhole /\ dc_corroborated d = true) as (H1 & H2 & H3).
  { change d with ((o, d), w').1.2. rewrite <- E. vm_compute. repeat split. }
  split; [reflexivity |]. split; [exact H1 |].
  apply (evaluate_fails_closed fx_clock fx_engine_config fx_faulty fx_scope fx_gens o d w' fx_faulty_reachable E H2 H3). exact H1.
Defined.

Lemma restore_valid clock c w scope gens o d w' :
  engine_reachable clock c w -> restore clock scope gens w = ((o, d), w') ->
  restored clock scope gens o d w w' \/
  eg_fences w'.1 = eg_fences w.1 /\ av_stage (dc_authority d) = AuthorityStage.None.
Proof.
  intros Hw E. pose proof (ei_holds _ _ (engine_reachable_inv clock c w Hw)) as Hh.
  assert ((eg_opened w.1 = false \/ scope_valid scope = false \/ is_complete gens = false) \/
    eg_opened w.1 = true /\ scope_valid scope = true /\ is_complete gens = true) as [Hr | (Ho & Hs & Hg)]
    by (destruct (eg_opened w.1), (scope_valid scope), (is_complete gens); intuition).
  - right. destruct (restore_refused clock scope gens w Hr) as (o0 & d0 & w0 & E0 & H1 & H2).
    rewrite E in E0. injection E0 as -> -> ->. by split.
  - left. pose proof (restore_spec clock scope gens w Hh Ho Hs Hg) as He. by rewrite E in He.
Qed.

(** The evidence that lifts a fence: a healthy diagnosis with the policy's minima. *)
Definition positive_evidence (p : FencePolicy) (d : Decision) : Prop :=
  dc_outcome d = Ok /\ dc_classification d = Classification.Healthy /\
  restore_min_sources p <= n_success_sources (dc_census d) /\
  restore_min_incarnations p <= success_incarnations (dc_census d) /\
  restore_min_successes p <= success_attempts (dc_census d).

Lemma verdict_positive diag p vo reason :
  restoration_verdict diag p = (vo, true, reason) ->
  vo = Ok /\ classification diag = Classification.Healthy /\
  restore_min_sources p <= n_success_sources (census diag) /\
  restore_min_incarnations p <= success_incarnations (census diag) /\
  restore_min_successes p <= success_attempts (census diag).
Proof.
  unfold restoration_verdict. destruct (_ || _) eqn:E; [by destruct (d_outcome diag) |].
  destruct (Z.ltb_spec (n_success_sources (census diag)) (restore_min_sources p)); [done |].
  destruct (Z.ltb_spec (success_incarnations (census diag)) (restore_min_incarnations p)); [done |].
  destruct (Z.ltb_spec (success_attempts (census diag)) (restore_min_successes p)); [done |].
  intros [= <- _]. bool_prop. by split_and!.
Qed.

(** C11: a fence is lifted only on positive evidence and behind its record: a fence that was
    open, unexpired and of the asked generations when [restore] began and is closed when it
    ends is of the asked subject, is durably revoked, and the decision found the subject
    healthy with the minimum of sources, incarnations and successes; and a restoration comes
    out authorized only with that evidence, with no fence left open for the subject, and
    with its decision committed. *)
Theorem restore_lifts_on_evidence clock c w scope gens o d w' :
  engine_reachable clock c w -> restore clock scope gens w = ((o, d), w') ->
  (forall id x x', find_fence id (eg_fences w.1) = Some x -> is_open x = true ->
     past_expiry (clock (eg_ticks w.1)) x = false -> fi_gens (fr_intent x) = gens ->
     find_fence id (eg_fences w'.1) = Some x' -> is_open x' = false ->
     fi_scope (fr_intent x) = scope /\ positive_evidence (eg_policy w.1) d /\
     exists f, durable_fence (eg_store w'.1) id = Some f /\ fp_lifecycle f = FenceLifecycle.Revoked) /\
  (av_stage (dc_authority d) = AuthorityStage.Authorization ->
     positive_evidence (eg_policy w.1) d /\ open_for scope (eg_fences w'.1) = None /\
     exists t dk, commit_decision d (t, dk) = (Ok, (eg_store w'.1, w'.2))).
Proof.
  intros Hw E. destruct (restore_valid clock c w scope gens o d w' Hw E) as [Hr | [Hf Hs]].
  2:{ split; [| congruence]. intros id x x' Hx Ho _ _. rewrite Hf. congruence. }
  destruct Hr as [(n & Hd) _ _ Hl]. revert Hd. cbv zeta. generalize (classify (MkRequest scope gens (clock n)
    (Some (eg_policy w.1)) (evidence_for scope (eg_ledger w.1)))). intros diag Hd.
  destruct (restoration_verdict diag (eg_policy w.1)) as [[vo authorized] reason] eqn:Ev.
  destruct Hd as (_ & Hcore & Hno & Hau). injection Hcore as _ C2 _ _ C5 C6 _ _ _ _.
  assert (authorized = true -> positive_evidence (eg_policy w.1) d) as Hpos.
  { intros ->. apply verdict_positive in Ev as (-> & P2 & P3 & P4 & P5). unfold positive_evidence. rewrite C2, C5, C6. by split_and!. }
  split; [| intros Hst; destruct (Hau Hst) as (Ha & Hn & Hc); by split_and!; [apply Hpos | |]].
  intros id x x' Hx Ho He Hg Hx' Ho'.
  assert (find_fence id (revalidate (clock (eg_ticks w.1)) gens (eg_fences w.1)).2 = Some x) as Hx1.
  { unfold revalidate, find_fence in *. rewrite run_sweep_eq. cbn [snd records_]. rewrite map_find_values, Hx. cbn.
    unfold swept. by rewrite (proj2 (revalidation_None _ _ x)) by (intros _; by split). }
  destruct (Hl id x x' Hx1 Ho Hx' Ho') as (L1 & f & L2 & L3 & _). split; [exact L1 |]. split; [| by exists f].
  destruct authorized; [by apply Hpos |]. rewrite (Hno eq_refl) in Hx'. congruence.
Qed.

Example restore_lifts_on_evidence_witness :
  exists o d w', restore fx_late fx_scope fx_gens fx_recovering = ((o, d), w') /\
    positive_evidence default_policy d /\ open_for fx_scope (eg_fences fx_recovering.1) <> None /\
    open_for fx_scope (eg_fences w'.1) = None.
Proof.
  destruct (restore fx_late fx_scope fx_gens fx_recovering) as [[o d] w'] eqn:E. exists o, d, w'.
  assert (av_stage (dc_authority d) = AuthorityStage.Authorization) as Hs.
  { change d with ((o, d), w').1.2. rewrite <- E. vm_compute. reflexivity. }
  destruct (restore_lifts_on_evidence fx_late fx_engine_config fx_recovering fx_scope fx_gens o d w'
    fx_recovering_reachable E) as [_ H]. destruct (H Hs) as (H1 & H2 & _).
  split; [reflexivity |]. split; [| split; [vm_compute; discriminate | exact H2]].
  replace (eg_policy fx_recovering.1) with default_policy in H1 by (vm_compute; reflexivity). exact H1.
Defined.

(** ** Localization end to end *)

Lemma publish_result found d w o d' w' :
  localize_publish found d w = ((o, d'), w') -> dc_localization d' = found.1.2 /\ (o = Ok <-> found.1.1 = Ok).
Proof.
  destruct found as [[bo result] failed]. unfold localize_publish, mbind, EngineM_bind, get_engine, count, update. cbn [fst snd].
  destruct (is_affirmative bo) eqn:Eb; cbn [negb].
  - apply is_affirmative_Ok in Eb as ->. cbv zeta. set (d1 := identify _).
    assert (dc_localization d1 = result) as Hd by reflexivity.
    destruct (dc_id d1 != dc_id d); [destruct (engine_commit d1 _) as [o1 w1] |]; intros [= <- <- <-]; by split.
  - intros [= <- <- <-]. apply is_affirmative_false in Eb. split; [reflexivity | done].
Qed.

(** C10: what is published as a localization is one: when [localize] answers [Ok] and its
    decision carries a resolved or ambiguous localization, the elements meet every failed
    probe, avoid every hop that a successful probe crossed, and no smaller set of hops does
    both, whatever the engine's history. *)
Theorem published_localization_minimum clock c scope gens hop_count probes w d w' :
  in_u32 hop_count -> Forall (fun p => 0 <= p_begin p) probes ->
  in_u64 (max_localization_search_nodes (ec_policy c)) -> in_u32 (max_localization_solutions (ec_policy c)) ->
  engine_reachable clock c w -> engine_localize clock scope gens hop_count probes w = ((Ok, d), w') ->
  LocalizerSpec.decided (status (dc_localization d)) ->
  explains_probes hop_count probes (elements (dc_localization d)) /\
  forall E, explains_probes hop_count probes E -> (length (elements (dc_localization d)) <= length E)%nat.
Proof.
  intros Hn Hp Hb Hm Hw El Hd. unfold engine_localize, mbind, EngineM_bind, get_engine in El.
  destruct (evaluate clock scope gens w) as [[eo d0] w0] eqn:Ee. cbn [fst snd] in El.
  apply publish_result in El as [Hl Ho]. rewrite Hl in Hd |- *. destruct Ho as [Ho _]. specialize (Ho eq_refl).
  destruct (engine_reachable_inv clock c w Hw) as [_ Hpw Hh _].
  assert (eg_policy w0.1 = ec_policy c) as Hpol.
  { rewrite <- Hpw. pose proof (kept_evaluate clock scope gens w Hh) as [_ Hc _]. rewrite Ee in Hc. apply Hc. }
  rewrite Hpol in Ho, Hd |- *. unfold localize_search in Ho, Hd |- *.
  destruct (build_localization_input hop_count probes _ _) as [[bo why] | i] eqn:Ei; [by destruct Hd |].
  destruct (rep_valid _); cbn [fst snd] in *; [| by destruct Hd].
  pose proof (built_ok _ _ _ _ _ Hn Hb Hm Ei) as Hok.
  assert (0 <= hop_count) as H0 by (unfold in_u in Hn; lia).
  destruct (built_explains _ _ _ _ _ H0 Hp Ei) as [_ Hx].
  destruct (localize_answered i Hok Hd) as [[[Hex _] Hmin] _ _ _ _].
  split; [by apply Hx |]. intros E HE. by apply Hmin, Hx.
Qed.

Definition fx_probes : list HopProbe := [MkProbe 0 2 true; MkProbe 1 4 false; MkProbe 3 6 false].

Example published_localization_minimum_witness :
  exists d w', engine_localize fx_clock fx_scope fx_gens 6 fx_probes fx_failing = ((Ok, d), w') /\
    elements (dc_localization d) = [3] /\ explains_probes 6 fx_probes [3].
Proof.
  assert (let '((o, d), w') := engine_localize fx_clock fx_scope fx_gens 6 fx_probes fx_failing in
    o = Ok /\ status (dc_localization d) = LocalizationStatus.Resolved /\ elements (dc_localization d) = [3]) as H0
    by (vm_compute; repeat split).
  destruct (engine_localize fx_clock fx_scope fx_gens 6 fx_probes fx_failing) as [[o d] w'] eqn:E. exists d, w'.
  destruct H0 as (-> & Hs & He).
  split; [reflexivity |]. split; [exact He |].
  destruct (published_localization_minimum fx_clock fx_engine_config fx_scope fx_gens 6 fx_probes fx_failing d w'
    ltac:(vm_compute; split; [discriminate | reflexivity]) ltac:(repeat constructor; vm_compute; discriminate)
    ltac:(vm_compute; split; [discriminate | reflexivity]) ltac:(vm_compute; split; [discriminate | reflexivity])
    fx_failing_reachable E) as [H _]; [by left |]. rewrite He in H. exact H.
Defined.

(** A decision whose record never became durable still carries authority: when the
    commit of the decision fails, the intent is withdrawn but the stage falls back to
    [Authorization], which counts as positive and binds under the running incarnation. *)
Theorem undurable_decision_binds :
  let '((o, d), w') := evaluate fx_clock fx_scope fx_gens fx_faulty in
  es_decisions_committed (eg_stats w'.1) = 0 /\ es_decision_commit_failures (eg_stats w'.1) = 1 /\
  dc_has_intent d = false /\ av_stage (dc_authority d) = AuthorityStage.Authorization /\
  is_binding_at (dc_authority d) fx_gens (boot_ (eg_store w'.1)) (incarnation_ (eg_store w'.1)) fx_now = true.
Proof. vm_compute. repeat split. Qed.
