(* ===== verification/Server.v ===== *)
(** * The server

    Models [include/blackhole/service/server.hpp] and [src/service/server.cpp]: the dispatch
    of one frame, the sending of its response, and the loop that serves one connection. A
    dispatch is three parts: [admit_request] (the payload and the session), [serve_request]
    (the engine) and [finish_response]; the session table, the engine and the counters have a
    mutex each, and Service.v interleaves the parts of several connections. The network is
    external: what it delivers is an argument. *)
From Stdlib Require Import Strings.String.
From S2P Require Import Prelude OrderedMap Core Checked Codec Counted Hash Ids Domain Policy Fixtures Ledger Classifier.
From S2P Require Import Localizer Fence Authority Record Journal Snapshot Durable Store Frame Session Messages Wire Engine.
Local Open Scope string_scope.
Local Open Scope list_scope.
Local Open Scope Z_scope.

(** src/service/server.cpp:13 kRecvChunk *)
Definition kRecvChunk : Z := 16 * 1024.

(** include/blackhole/service/server.hpp:21-29 ServerConfig *)
Record ServerConfig := MkServerConfig {
  sc_port : Z;
  sc_backlog : Z;
  sc_max_connections : Z;
}.

(** include/blackhole/service/server.hpp:31-41 ServerStats *)
Record ServerStats := MkServerStats {
  ss_accepted : Z;
  ss_accept_rejected : Z;
  ss_connections_closed : Z;
  ss_sessions_established : Z;
  ss_sessions_rejected : Z;
  ss_frames_decoded : Z;
  ss_frames_rejected : Z;
  ss_requests_served : Z;
  ss_requests_rejected : Z;
}.

Definition zero_server_stats : ServerStats := MkServerStats 0 0 0 0 0 0 0 0 0.

(** include/blackhole/service/server.hpp:42-45 ServerStats::accounting_closed *)
Definition ss_accounting_closed (s : ServerStats) : bool :=
  (ss_accepted s =? u64_add (ss_connections_closed s) (ss_accept_rejected s)) ||
  (0 <? u64_add (ss_accepted s) (ss_accept_rejected s)).

(** The counters, and [++stats_.counter]. *)
Inductive Counter :=
| Accepted | AcceptRejected | ConnectionsClosed | SessionsEstablished | SessionsRejected
| FramesDecoded | FramesRejected | RequestsServed | RequestsRejected.
#[export] Instance Counter_eq_dec : EqDecision Counter.
Proof. solve_decision. Defined.

Definition bump (k : Counter) (s : ServerStats) : ServerStats :=
  let up k' v := if k == k' then incr v else v in
  MkServerStats (up Accepted (ss_accepted s)) (up AcceptRejected (ss_accept_rejected s))
    (up ConnectionsClosed (ss_connections_closed s)) (up SessionsEstablished (ss_sessions_established s))
    (up SessionsRejected (ss_sessions_rejected s)) (up FramesDecoded (ss_frames_decoded s))
    (up FramesRejected (ss_frames_rejected s)) (up RequestsServed (ss_requests_served s))
    (up RequestsRejected (ss_requests_rejected s)).

(** include/blackhole/service/server.hpp:74-78 Server::ConnectionState *)
Record ConnectionState := MkConn {
  cn_session : SessionId;
  cn_established : bool;
  cn_decoder : FrameDecoder;
}.

(** What the connections share: the engine with its disk, the session table, the counters
    and the frame bound. include/blackhole/service/server.hpp:95-112 Server *)
Record Server := MkServer {
  sv_engine : EngineWorld;
  sv_sessions : SessionTable;
  sv_stats : ServerStats;
  sv_max_frame_bytes : Z;
}.

(** src/service/server.cpp:30-34 Server::Server *)
Definition new_Server (w : EngineWorld) : Server :=
  MkServer w (new_SessionTable (eg_policy w.1)) zero_server_stats (max_frame_bytes (eg_policy w.1)).

(** src/service/server.cpp:149-150 Server::serve_connection (new connection) *)
Definition new_Connection (s : Server) : ConnectionState :=
  MkConn (MkId 0) false (new_FrameDecoder (sv_max_frame_bytes s)).

(** ** The monad of server operations *)

Definition ServerM (A : Type) : Type := Server -> A * Server.

#[export] Instance ServerM_ret : MRet ServerM := fun A a s => (a, s).
#[export] Instance ServerM_bind : MBind ServerM := fun A B k m s => let '(a, s) := m s in k a s.

Definition get_server : ServerM Server := fun s => (s, s).
Definition on_engine {A} (m : EngineM A) : ServerM A := fun s =>
  let '(a, w) := m (sv_engine s) in (a, MkServer w (sv_sessions s) (sv_stats s) (sv_max_frame_bytes s)).
Definition on_sessions {A} (f : SessionTable -> A * SessionTable) : ServerM A := fun s =>
  let '(a, t) := f (sv_sessions s) in (a, MkServer (sv_engine s) t (sv_stats s) (sv_max_frame_bytes s)).
Definition note (k : Counter) : ServerM unit := fun s =>
  (tt, MkServer (sv_engine s) (sv_sessions s) (bump k (sv_stats s)) (sv_max_frame_bytes s)).

(** ** Refusals and responses *)

(** src/service/server.cpp:225-230 Server::dispatch_frame (reject) *)
Definition reject (o : Outcome) (r : ReasonCode.t) (text : string) : ErrorResponse :=
  MkErrorResponse o r (list_byte_of_string text).

(** src/service/server.cpp:231-234 Server::dispatch_frame (bad_payload) *)
Definition bad_payload (o : Outcome) : ErrorResponse :=
  reject (if o == Oversized then Oversized else Malformed) ReasonCode.InvalidEvidenceRejected "malformed request payload".

(** What a handler leaves: a response or an error. *)
Definition Reply : Type := ErrorResponse + Frame.

(** [Writer w(n); encode(w, m); response.type = t; response.payload = w.take();]: the bytes
    written, whether or not the writer refused some.
    src/service/server.cpp:321-324 Server::dispatch_frame (response) *)
Definition respond {A} `{Codec A} (t : MessageType.t) (n : Z) (a : A) : Reply :=
  inr (MkFrame t 0 (buf_ (encode a (new_Writer n)))).

(** src/service/server.cpp:339-346 Server::dispatch_frame (checked response) *)
Definition respond_checked {A} `{Codec A} (t : MessageType.t) (a : A) : Reply :=
  match encode_bounded kDefaultMaxDocumentBytes a with
  | None => inl (reject Exhausted ReasonCode.BudgetExhausted "response not encodable")
  | Some payload => inr (MkFrame t 0 payload)
  end.

(** [Frame] and [ErrorResponse] before a handler fills them. src/service/server.cpp:514-534 Server::dispatch_frame (end) *)
Definition finish_response (r : Reply) : Frame * bool :=
  match r with
  | inl err => (MkFrame MessageType.ErrorResponse 0 (buf_ (encode err (new_Writer 512))), true)
  | inr f =>
      if (zlen (f_payload f) =? 0) && (f_type f != MessageType.GoodbyeResponse) &&
         (f_type f != MessageType.CheckpointResponse) then
        (MkFrame MessageType.ErrorResponse 0
           (buf_ (encode (reject Invalid ReasonCode.InternalInvariantViolation "handler produced no response") (new_Writer 256))),
         true)
      else (f, false)
  end.

(** src/service/server.cpp:538-567 Server::engine_stats_payload *)
Definition engine_stats_payload (s : Server) : StatsPayload :=
  let e := (sv_engine s).1 in
  let es := eg_stats e in
  let ss := sv_stats s in
  let report := open_report e in
  MkStatsPayload (es_evidence_submitted es) (es_evidence_admitted es) (es_evidence_rejected es) (es_evaluations es)
    (es_decisions_committed es) (es_durable_commit_failures es) (es_fence_intents_issued es)
    (es_restorations_authorized es) (es_restorations_refused es) (es_refusals_fail_closed es)
    0 0 0 0 0 0 0 0 0 0 0
    (ss_sessions_established ss) (ss_sessions_rejected ss) (ss_requests_served ss) (ss_requests_rejected ss)
    (ss_frames_decoded ss) (ss_frames_rejected ss) (or_boot_count report) (or_open_count report) (or_epoch report)
    (policy_version e) (engine_fingerprint e) (last_record e) (ec_label (eg_config e)).

(** ** Admission of a request *)

(** [decode_message] and [bad_payload]. src/service/server.cpp:307-311 Server::dispatch_frame (decode) *)
Definition decode_request (A : Type) `{Codec A} (f : Frame) : ErrorResponse + A :=
  match decode_message A f with
  | Done a => inr a
  | Refuse o => inl (bad_payload o)
  end.

(** src/service/server.cpp:236-254 Server::dispatch_frame (require_session) *)
Definition require_session (conn : ConnectionState) (token : SessionToken) : ServerM (option ErrorResponse) :=
  if negb (cn_established conn) then
    mret (Some (reject Rejected ReasonCode.PolicyRefused "session not established"))
  else if tk_session token != cn_session conn then
    mret (Some (reject Rejected ReasonCode.PolicyRefused "session authority mismatch"))
  else
    '(vo, reason) ← on_sessions (validate (tk_session token) (tk_client_boot token) (tk_client_incarnation token) (tk_seq token));
    if negb (is_affirmative vo) then mret (Some (reject vo reason "session token refused"))
    else mret None.

(** A request that acts under a session: decoded, then admitted by its token.
    src/service/server.cpp:306-312 Server::dispatch_frame (decode, require_session) *)
Definition admit_under {A} `{Codec A} (conn : ConnectionState) (token : A -> SessionToken) (wrap : A -> Message)
  (f : Frame) : ServerM (ErrorResponse + Message) :=
  match decode_request A f with
  | inl err => mret (inl err)
  | inr q =>
      refused ← require_session conn (token q);
      mret (match refused with Some err => inl err | None => inr (wrap q) end)
  end.

(** The first part of every branch, and the default branch. src/service/server.cpp:256-312 Server::dispatch_frame (admission) *)
Definition admit_request (conn : ConnectionState) (f : Frame) : ServerM (ErrorResponse + Message) :=
  match f_type f with
  | MessageType.HelloRequest =>
      mret (match decode_request HelloRequest f with
            | inl err => inl err
            | inr q =>
                if cn_established conn then
                  inl (reject Rejected ReasonCode.DuplicateEvidence "session already established")
                else inr (MHelloRequest q)
            end)
  | MessageType.SubmitEvidenceRequest => admit_under conn sq_token MSubmitEvidenceRequest f
  | MessageType.EvaluateRequest => admit_under conn eq_token MEvaluateRequest f
  | MessageType.LocalizeRequest => admit_under conn lq_token MLocalizeRequest f
  | MessageType.AckFenceRequest => admit_under conn aq_token MAckFenceRequest f
  | MessageType.ReportEffectRequest => admit_under conn fq_token MReportEffectRequest f
  | MessageType.RestoreRequest => admit_under conn rq_token MRestoreRequest f
  | MessageType.LineageRequest => admit_under conn nq_token MLineageRequest f
  | MessageType.CheckpointRequest => admit_under conn cq_token MCheckpointRequest f
  | MessageType.StatsRequest => admit_under conn tq_token MStatsRequest f
  | MessageType.GoodbyeRequest =>
      mret (match decode_request GoodbyeRequest f with inl err => inl err | inr q => inr (MGoodbyeRequest q) end)
  | _ => mret (inl (reject Unsupported ReasonCode.UnsupportedInput "unsupported message type"))
  end.

(** ** Handlers *)

Section Handlers.
Context (clock : nat -> WallNs).

(** src/service/server.cpp:268-304 Server::dispatch_frame (HelloRequest) *)
Definition serve_hello (conn : ConnectionState) (q : HelloRequest) : ServerM (Reply * ConnectionState) :=
  now ← on_engine (read_now clock);
  '(eo, id) ← on_sessions (establish (tk_client_boot (hq_token q)) (tk_client_incarnation (hq_token q)) (hq_label q) now);
  if negb (is_affirmative eo) then
    note SessionsRejected ;;
    mret (inl (reject eo ReasonCode.BudgetExhausted "session not established"), conn)
  else
    let conn := MkConn id true (cn_decoder conn) in
    note SessionsEstablished ;;
    s ← get_server;
    let e := (sv_engine s).1 in
    let report := open_report e in
    mret (respond_checked MessageType.HelloResponse
            (MkHelloResponse id (or_boot report) (or_incarnation report) (engine_epoch e) (policy_version e)
               (engine_fingerprint e) kProtocolVersion (ec_label (eg_config e))), conn).

(** The responses of the engine's operations. src/service/server.cpp:313-325 Server::dispatch_frame (SubmitEvidenceRequest) *)
Definition serve_submit (q : SubmitEvidenceRequest) : ServerM Reply :=
  '(o, admission, reason) ← on_engine (submit clock (sq_evidence q));
  mret (respond MessageType.SubmitEvidenceResponse 256 (MkSubmitResponse o admission reason)).

(** src/service/server.cpp:335-347 Server::dispatch_frame (EvaluateRequest) *)
Definition serve_evaluate (q : EvaluateRequest) : ServerM Reply :=
  '(o, d) ← on_engine (evaluate clock (eq_scope q) (eq_gens q));
  mret (respond_checked MessageType.EvaluateResponse (MkEvaluateResponse o d)).

(** src/service/server.cpp:357-372 Server::dispatch_frame (LocalizeRequest) *)
Definition serve_localize (q : LocalizeRequest) : ServerM Reply :=
  '(o, d) ← on_engine (engine_localize clock (lq_scope q) (lq_gens q) (lq_hop_count q) (lq_probes q));
  mret (respond_checked MessageType.LocalizeResponse (MkLocalizeResponse o d)).

(** src/service/server.cpp:382-390 Server::dispatch_frame (AckFenceRequest) *)
Definition serve_ack (q : AckFenceRequest) : ServerM Reply :=
  '(o, reason) ← on_engine (acknowledge_fence clock (aq_fence q) (aq_downstream q));
  mret (respond MessageType.AckFenceResponse 256 (MkAckResponse o reason)).

(** src/service/server.cpp:400-408 Server::dispatch_frame (ReportEffectRequest) *)
Definition serve_effect (q : ReportEffectRequest) : ServerM Reply :=
  '(o, reason) ← on_engine (engine_report_effect clock (fq_fence q) (fq_downstream q) (fq_verified q));
  mret (respond MessageType.ReportEffectResponse 256 (MkEffectResponse o reason)).

(** src/service/server.cpp:418-430 Server::dispatch_frame (RestoreRequest) *)
Definition serve_restore (q : RestoreRequest) : ServerM Reply :=
  '(o, d) ← on_engine (restore clock (rq_scope q) (rq_gens q));
  mret (respond_checked MessageType.RestoreResponse (MkRestoreResponse o d)).

(** src/service/server.cpp:440-456 Server::dispatch_frame (LineageRequest) *)
Definition serve_lineage (q : LineageRequest) : ServerM Reply :=
  s ← get_server;
  let '(o, entries, seen, dropped) := engine_lineage (nq_limit q) (sv_engine s).1 in
  mret (respond_checked MessageType.LineageResponse (MkLineageResponse o entries seen dropped)).

(** src/service/server.cpp:466-474 Server::dispatch_frame (CheckpointRequest) *)
Definition serve_checkpoint : ServerM Reply :=
  '(o, seq) ← on_engine (engine_checkpoint clock);
  mret (respond MessageType.CheckpointResponse 128 (MkCheckpointResponse o seq)).

(** src/service/server.cpp:484-491 Server::dispatch_frame (StatsRequest) *)
Definition serve_stats : ServerM Reply :=
  s ← get_server;
  mret (respond MessageType.StatsResponse 1024 (MkStatsResponse Ok (engine_stats_payload s))).

(** src/service/server.cpp:500-507 Server::dispatch_frame (GoodbyeRequest) *)
Definition serve_goodbye : ServerM Reply := mret (respond MessageType.GoodbyeResponse 64 (MkGoodbyeResponse Ok)).

(** The second part of every branch; only a request is admitted.
    src/service/server.cpp:256-512 Server::dispatch_frame (handlers) *)
Definition serve_request (conn : ConnectionState) (m : Message) : ServerM (Reply * ConnectionState) :=
  let stay (h : ServerM Reply) : ServerM (Reply * ConnectionState) := r ← h; mret (r, conn) in
  match m with
  | MHelloRequest q => serve_hello conn q
  | MSubmitEvidenceRequest q => stay (serve_submit q)
  | MEvaluateRequest q => stay (serve_evaluate q)
  | MLocalizeRequest q => stay (serve_localize q)
  | MAckFenceRequest q => stay (serve_ack q)
  | MReportEffectRequest q => stay (serve_effect q)
  | MRestoreRequest q => stay (serve_restore q)
  | MLineageRequest q => stay (serve_lineage q)
  | MCheckpointRequest _ => stay serve_checkpoint
  | MStatsRequest _ => stay serve_stats
  | MGoodbyeRequest _ => stay serve_goodbye
  | _ => mret (inl (reject Unsupported ReasonCode.UnsupportedInput "unsupported message type"), conn)
  end.

(** The bytes on the wire, if the response encodes. src/service/server.cpp:204-206 Server::send_response (encoding) *)
Definition response_bytes (f : Frame) : option (list byte) :=
  let w := encode_frame f (new_Writer kDefaultMaxDocumentBytes) in if ok_ w then Some (buf_ w) else None.

(** Whether the response left, and its bytes; [delivered] is what [net_send_all] answers.
    src/service/server.cpp:203-218 Server::send_response *)
Definition send_response (f : Frame) (counted_as_error delivered : bool) : ServerM (option (list byte)) :=
  match response_bytes f with
  | None => mret None
  | Some bytes =>
      if negb delivered then mret None
      else note (if counted_as_error then RequestsRejected else RequestsServed) ;; mret (Some bytes)
  end.

(** src/service/server.cpp:220-536 Server::dispatch_frame *)
Definition dispatch_frame (conn : ConnectionState) (f : Frame) (delivered : bool)
  : ServerM (option (list byte) * ConnectionState) :=
  admitted ← admit_request conn f;
  '(reply, conn) ← match admitted with
                   | inl err => mret (inl err, conn)
                   | inr m => serve_request conn m
                   end;
  let '(response, is_error) := finish_response reply in
  sent ← send_response response is_error delivered;
  mret (sent, conn).

End Handlers.

(** ** Serving one connection *)

Section Connection.
Context (clock : nat -> WallNs) (delivered : nat -> bool).

Definition with_decoder (d : FrameDecoder) (conn : ConnectionState) : ConnectionState :=
  MkConn (cn_session conn) (cn_established conn) d.

(** The responses sent so far, whether the connection is closed, and its state; the [n]-th
    response is delivered when [delivered n]. The decoder removes at least a header per
    frame, so more steps than pending bytes are never taken.
    src/service/server.cpp:172-190 Server::serve_connection (frames) *)
Fixpoint serve_frames (fuel : nat) (out : list (list byte)) (conn : ConnectionState)
  : ServerM (list (list byte) * bool * ConnectionState) :=
  match fuel with
  | O => mret (out, false, conn)
  | S fuel =>
      match next (cn_decoder conn) with
      | (NotFound, _, d) => mret (out, false, with_decoder d conn)
      | (Ok, Some f, d) =>
          note FramesDecoded ;;
          '(sent, conn) ← dispatch_frame clock (with_decoder d conn) f (delivered (length out));
          match sent with
          | None => mret (out, true, conn)
          | Some bytes => serve_frames fuel (out ++ [bytes]) conn
          end
      | (_, _, d) => note FramesRejected ;; mret (out, true, with_decoder d conn)
      end
  end.

(** One pass of the loop, over the bytes received. src/service/server.cpp:164-190 Server::serve_connection (received) *)
Definition serve_chunk (chunk : list byte) (out : list (list byte)) (conn : ConnectionState)
  : ServerM (list (list byte) * bool * ConnectionState) :=
  let '(fo, d) := feed chunk (cn_decoder conn) in
  let conn := with_decoder d conn in
  if negb (is_affirmative fo) then note FramesRejected ;; mret (out, true, conn)
  else serve_frames (S (length (pending d))) out conn.

(** The loop: it ends when the input does (peer closed, receive error or stop) or when the
    connection is closed. src/service/server.cpp:154-191 Server::serve_connection (loop) *)
Fixpoint serve_chunks (chunks : list (list byte)) (out : list (list byte)) (conn : ConnectionState)
  : ServerM (list (list byte) * ConnectionState) :=
  match chunks with
  | [] => mret (out, conn)
  | chunk :: chunks =>
      '(out, closed, conn) ← serve_chunk chunk out conn;
      if closed : bool then mret (out, conn) else serve_chunks chunks out conn
  end.

(** src/service/server.cpp:194-194 Server::serve_connection (release) *)
Definition release_session (conn : ConnectionState) : ServerM unit :=
  if cn_established conn then on_sessions (fun t => (tt, release (cn_session conn) t)) else mret tt.

(** src/service/server.cpp:193-199 Server::serve_connection (teardown) *)
Definition teardown (conn : ConnectionState) : ServerM unit :=
  release_session conn ;;
  note ConnectionsClosed.

(** src/service/server.cpp:148-201 Server::serve_connection *)
Definition serve_connection (chunks : list (list byte)) : ServerM (list (list byte)) :=
  s ← get_server;
  '(out, conn) ← serve_chunks chunks [] (new_Connection s);
  teardown conn ;;
  mret out.

End Connection.
