(* ===== verification/ServerSpec.v ===== *)
(** * What a dispatch does

    The lemmas about [Server]: which requests are admitted and under which session, what
    reaches the engine, and what is answered. *)
From Stdlib Require Import Strings.String.
From S2P Require Import Prelude OrderedMap Core Checked Codec Counted Hash Ids Domain Policy Fixtures Ledger Classifier.
From S2P Require Import Localizer Fence Authority Record Journal Snapshot Durable Store Frame Session Messages Wire Engine Server.
Local Open Scope string_scope.
Local Open Scope list_scope.
Local Open Scope Z_scope.

(** ** Vocabulary *)

(** The token of a request that acts under a session. *)
Definition request_token (m : Message) : option SessionToken :=
  match m with
  | MSubmitEvidenceRequest q => Some (sq_token q)
  | MEvaluateRequest q => Some (eq_token q)
  | MLocalizeRequest q => Some (lq_token q)
  | MAckFenceRequest q => Some (aq_token q)
  | MReportEffectRequest q => Some (fq_token q)
  | MRestoreRequest q => Some (rq_token q)
  | MLineageRequest q => Some (nq_token q)
  | MCheckpointRequest q => Some (cq_token q)
  | MStatsRequest q => Some (tq_token q)
  | _ => None
  end.

(** What serving a request does to the engine. *)
Definition engine_call (clock : nat -> WallNs) (m : Message) (w : EngineWorld) : EngineWorld :=
  match m with
  | MHelloRequest _ => (read_now clock w).2
  | MSubmitEvidenceRequest q => (submit clock (sq_evidence q) w).2
  | MEvaluateRequest q => (evaluate clock (eq_scope q) (eq_gens q) w).2
  | MLocalizeRequest q => (engine_localize clock (lq_scope q) (lq_gens q) (lq_hop_count q) (lq_probes q) w).2
  | MAckFenceRequest q => (acknowledge_fence clock (aq_fence q) (aq_downstream q) w).2
  | MReportEffectRequest q => (engine_report_effect clock (fq_fence q) (fq_downstream q) (fq_verified q) w).2
  | MRestoreRequest q => (restore clock (rq_scope q) (rq_gens q) w).2
  | MCheckpointRequest _ => (engine_checkpoint clock w).2
  | _ => w
  end.

(** The type that answers a request. *)
Definition response_type (t : MessageType.t) : option MessageType.t :=
  match t with
  | MessageType.HelloRequest => Some MessageType.HelloResponse
  | MessageType.SubmitEvidenceRequest => Some MessageType.SubmitEvidenceResponse
  | MessageType.EvaluateRequest => Some MessageType.EvaluateResponse
  | MessageType.LocalizeRequest => Some MessageType.LocalizeResponse
  | MessageType.AckFenceRequest => Some MessageType.AckFenceResponse
  | MessageType.ReportEffectRequest => Some MessageType.ReportEffectResponse
  | MessageType.RestoreRequest => Some MessageType.RestoreResponse
  | MessageType.LineageRequest => Some MessageType.LineageResponse
  | MessageType.CheckpointRequest => Some MessageType.CheckpointResponse
  | MessageType.StatsRequest => Some MessageType.StatsResponse
  | MessageType.GoodbyeRequest => Some MessageType.GoodbyeResponse
  | _ => None
  end.

(** The responses whose size depends on the engine. *)
Definition large_response (t : MessageType.t) : bool :=
  match t with
  | MessageType.EvaluateRequest | MessageType.LocalizeRequest | MessageType.RestoreRequest
  | MessageType.LineageRequest => true
  | _ => false
  end.

(** The encoding of such a response, if it fits the largest document. *)
Definition large_answer (clock : nat -> WallNs) (m : Message) (w : EngineWorld) : option (list byte) :=
  match m with
  | MEvaluateRequest q =>
      let '(o, d) := (evaluate clock (eq_scope q) (eq_gens q) w).1 in
      encode_bounded kDefaultMaxDocumentBytes (MkEvaluateResponse o d)
  | MLocalizeRequest q =>
      let '(o, d) := (engine_localize clock (lq_scope q) (lq_gens q) (lq_hop_count q) (lq_probes q) w).1 in
      encode_bounded kDefaultMaxDocumentBytes (MkLocalizeResponse o d)
  | MRestoreRequest q =>
      let '(o, d) := (restore clock (rq_scope q) (rq_gens q) w).1 in
      encode_bounded kDefaultMaxDocumentBytes (MkRestoreResponse o d)
  | MLineageRequest q =>
      let '(o, entries, seen, dropped) := engine_lineage (nq_limit q) w.1 in
      encode_bounded kDefaultMaxDocumentBytes (MkLineageResponse o entries seen dropped)
  | _ => None
  end.

(** An error a client can read: short and not [Ok]. *)
Definition refusal (e : ErrorResponse) : Prop := xr_outcome e <> Ok /\ zlen (xr_detail e) <= 64.

(** The same engine, counters and bound; only the session table may differ. *)
Definition aside (s s' : Server) : Prop :=
  sv_engine s' = sv_engine s /\ sv_stats s' = sv_stats s /\ sv_max_frame_bytes s' = sv_max_frame_bytes s.

Lemma aside_refl s : aside s s. Proof. done. Qed.

(** The token is valid for the session this connection established. *)
Record under_session (conn : ConnectionState) (t : SessionToken) (s s' : Server) : Prop := {
  us_established : cn_established conn = true;
  us_session : tk_session t = cn_session conn;
  us_valid : (validate (tk_session t) (tk_client_boot t) (tk_client_incarnation t) (tk_seq t) (sv_sessions s)).1.1 = Ok;
  us_table : sv_sessions s' =
    (validate (tk_session t) (tk_client_boot t) (tk_client_incarnation t) (tk_seq t) (sv_sessions s)).2;
}.

(** ** Errors *)

Lemma bad_payload_refusal o : refusal (bad_payload o).
Proof. unfold bad_payload. by destruct (o == Oversized); split; vm_compute. Qed.

Lemma zlen_text text : zlen (list_byte_of_string text) = Z.of_nat (String.length text).
Proof.
  unfold zlen. f_equal. unfold list_byte_of_string. rewrite length_map.
  induction text as [| c text IH]; [reflexivity |]. cbn. by rewrite IH.
Qed.

Lemma reject_refusal o r text : o <> Ok -> Nat.leb (String.length text) 64 = true -> refusal (reject o r text).
Proof. intros Ho Hl. apply Nat.leb_le in Hl. split; [exact Ho |]. cbn [reject xr_detail]. rewrite zlen_text. lia. Qed.

Lemma refusal_valid e : refusal e -> valid e.
Proof. intros [_ H]. change (zlen (xr_detail e) <= kMaxDetailBytes). unfold kMaxDetailBytes. lia. Qed.

Lemma error_image_size e : refusal e -> zlen (image e) <= 128.
Proof.
  intros [_ H]. change (zlen (image_ErrorResponse e) <= 128). unfold image_ErrorResponse, prefixed.
  cbn [concat]. rewrite !zlen_app, !zlen_le_bytes, zlen_nil. lia.
Qed.

(** An encoder that emits [bs] fills an ample writer with exactly [bs]. *)
Lemma written_whole e bs n : Emits e bs -> zlen bs <= n -> n < 2 ^ 64 -> buf_ (e (new_Writer n)) = bs.
Proof.
  intros He Hl Hn. pose proof (zlen_nonneg bs).
  destruct (He (new_Writer n)) as (_ & _ & G & _); [split; cbn; rewrite ?zlen_nil; lia |].
  rewrite G by (cbn; rewrite ?zlen_nil; done || lia). reflexivity.
Qed.

Lemma error_written e n : refusal e -> 128 <= n < 2 ^ 64 -> buf_ (encode e (new_Writer n)) = image e.
Proof.
  intros He Hn. apply written_whole; [by apply encode_emits, refusal_valid | | lia].
  pose proof (error_image_size e He). lia.
Qed.

(** ** Responses on the wire *)

Lemma response_bytes_spec f :
  zlen (f_payload f) < 2 ^ 64 ->
  response_bytes f = if zlen (frame_image f) <=? kDefaultMaxDocumentBytes then Some (frame_image f) else None.
Proof.
  intros Hp. unfold response_bytes. destruct (Z.leb_spec (zlen (frame_image f)) kDefaultMaxDocumentBytes) as [Hl | Hl].
  - rewrite encode_frame_image by (done || by vm_compute). reflexivity.
  - unfold encode_frame, w_raw. cbv zeta. set (h := frame_header16 f ++ le_bytes 4 (frame_integrity (frame_header16 f) (f_payload f))).
    assert (zlen h = 20) as Hh by (unfold h, zlen; by rewrite length_app, length_frame_header16, length_le_bytes).
    unfold new_Writer. rewrite (put_fits h) by (rewrite ?zlen_nil, ?Hh; by vm_compute). cbn [app].
    rewrite zlen_frame_image in Hl.
    rewrite put_eq by (cbn [buf_ max_]; rewrite ?Hh; done || by vm_compute). cbn [ok_ negb buf_ max_].
    destruct (Z.ltb_spec kDefaultMaxDocumentBytes (zlen h + zlen (f_payload f))); [reflexivity | lia].
Qed.

Lemma small_sent f : zlen (f_payload f) <= 1024 -> response_bytes f = Some (frame_image f).
Proof.
  intros Hp. rewrite response_bytes_spec by lia. rewrite zlen_frame_image.
  destruct (Z.leb_spec (20 + zlen (f_payload f)) kDefaultMaxDocumentBytes) as [| H]; [reflexivity |].
  unfold kDefaultMaxDocumentBytes in H. lia.
Qed.

(** ** Admission *)

Lemma require_session_spec conn t s :
  match require_session conn t s with
  | (Some e, s') => refusal e /\ aside s s'
  | (None, s') => under_session conn t s s' /\ aside s s'
  end.
Proof.
  unfold require_session, mbind, ServerM_bind, mret, ServerM_ret, on_sessions.
  destruct (cn_established conn) eqn:Ee; cbn [negb];
    [| split; [by apply reject_refusal | done]].
  destruct (bool_decide_reflect (tk_session t = cn_session conn)) as [Et |]; cbn [negb];
    [| split; [by apply reject_refusal | done]].
  destruct (validate _ _ _ _ _) as [[vo reason] t'] eqn:Ev.
  destruct (is_affirmative vo) eqn:Ea; cbn [negb].
  - apply is_affirmative_Ok in Ea as ->. split; [| done]. split; [done | done | by rewrite Ev | by rewrite Ev].
  - apply is_affirmative_false in Ea. split; [by apply reject_refusal | done].
Qed.

(** What an admission decides: an error that touched at most the table, or the request the
    frame carries, under the session of the connection when it needs one. *)
Definition admitted (conn : ConnectionState) (f : Frame) (s : Server) (r : ErrorResponse + Message) (s' : Server) : Prop :=
  aside s s' /\
  match r with
  | inl e => refusal e
  | inr m =>
      parse_frame f = Done m /\ message_type m = f_type f /\
      match request_token m with
      | Some t => under_session conn t s s'
      | None => sv_sessions s' = sv_sessions s /\
                ((exists q, m = MHelloRequest q) /\ cn_established conn = false \/ exists q, m = MGoodbyeRequest q)
      end
  end.

Lemma decode_request_spec A `{Codec A} f :
  match decode_request A f with
  | inl e => refusal e
  | inr a => decode_message A f = Done a
  end.
Proof. unfold decode_request. destruct (decode_message A f); [reflexivity | apply bad_payload_refusal]. Qed.

Lemma admit_under_spec {A} `{Codec A} conn (token : A -> SessionToken) (wrap : A -> Message) f s :
  (forall q, request_token (wrap q) = Some (token q)) -> (forall q, message_type (wrap q) = f_type f) ->
  parse_frame f = result_map wrap (decode_message A f) ->
  admitted conn f s (admit_under conn token wrap f s).1 (admit_under conn token wrap f s).2.
Proof.
  intros Ht Hm Hp. unfold admit_under. pose proof (decode_request_spec A f) as Hd.
  destruct (decode_request A f) as [e | q]; [by split |].
  unfold mbind, ServerM_bind, mret, ServerM_ret. pose proof (require_session_spec conn (token q) s) as Hr.
  destruct (require_session conn (token q) s) as [[e |] s']; destruct Hr as [H1 H2]; (split; [exact H2 |]); cbn [fst]; [exact H1 |].
  rewrite Hp, Hd, Ht. by split_and!.
Qed.

Lemma admit_request_spec conn f s :
  admitted conn f s (admit_request conn f s).1 (admit_request conn f s).2.
Proof.
  unfold admit_request, parse_frame. destruct (f_type f) eqn:Et;
    try (split; [done | by apply reject_refusal]);
    try (apply admit_under_spec; [done | by rewrite Et | by unfold parse_frame; rewrite Et]).
  - pose proof (decode_request_spec HelloRequest f) as Hd. unfold mret, ServerM_ret. cbn [fst snd].
    destruct (decode_request HelloRequest f) as [e | q]; [by split |].
    destruct (cn_established conn) eqn:Ee; [split; [done | by apply reject_refusal] |].
    split; [done |]. unfold parse_frame. rewrite Et, Hd. split_and!; [done | done |]. cbn [request_token].
    split; [done |]. left. split; [by exists q | done].
  - pose proof (decode_request_spec GoodbyeRequest f) as Hd. unfold mret, ServerM_ret. cbn [fst snd].
    destruct (decode_request GoodbyeRequest f) as [e | q]; [by split |].
    split; [done |]. unfold parse_frame. rewrite Et, Hd. split_and!; [done | done |]. cbn [request_token].
    split; [done |]. right. by exists q.
Qed.

(** ** Handlers *)

(** What a handler may leave for a request of type [t] whose large answer is [ans]. *)
Definition reply_ok (t : MessageType.t) (ans : option (list byte)) (r : Reply) : Prop :=
  match r with
  | inl e => refusal e
  | inr f =>
      response_type t = Some (f_type f) /\ f_flags f = 0 /\
      (large_response t = false -> zlen (f_payload f) <= 1024) /\
      (large_response t = true -> ans = Some (f_payload f))
  end.

(** Encoders of fixed-width fields emit their image whatever the values. *)
Ltac emits_plain :=
  apply emits_seqw;
  repeat (apply Forall2_cons_2; [ solve [ emits_atom | apply emits_u64 ] |]); apply Forall2_nil_2.

Lemma emits_stats p : Emits (encode_StatsPayload p) (image_StatsPayload p).
Proof. unfold encode_StatsPayload, image_StatsPayload. emits_plain. Qed.

Lemma emits_stats_response o p : Emits (encode (MkStatsResponse o p)) (image (MkStatsResponse o p)).
Proof.
  change (Emits (encode_StatsResponse (MkStatsResponse o p)) (image_StatsResponse (MkStatsResponse o p))).
  unfold encode_StatsResponse, image_StatsResponse. apply emits_seqw.
  apply Forall2_cons_2; [apply emits_enum8 |]. apply Forall2_cons_2; [apply emits_stats | apply Forall2_nil_2].
Qed.

Lemma emits_checkpoint_response r : Emits (encode r) (image_CheckpointResponse r).
Proof. change (Emits (encode_CheckpointResponse r) (image_CheckpointResponse r)). unfold encode_CheckpointResponse, image_CheckpointResponse. emits_plain. Qed.

Lemma emits_hello_response r : Emits (encode r) (image_HelloResponse r).
Proof. change (Emits (encode_HelloResponse r) (image_HelloResponse r)). unfold encode_HelloResponse, image_HelloResponse. emits_plain. Qed.

Lemma zlen_image_id {T} (i : StrongId T) : zlen (image i) = 8.
Proof. change (zlen (le_bytes 8 (id_value i)) = 8). apply zlen_le_bytes. Qed.
Lemma zlen_image_gen {T} (g : Generation T) : zlen (image g) = 8.
Proof. change (zlen (le_bytes 8 (gen_value g)) = 8). apply zlen_le_bytes. Qed.
Lemma zlen_image_seq {T} (q : Sequence T) : zlen (image q) = 8.
Proof. change (zlen (le_bytes 8 (seq_value q)) = 8). apply zlen_le_bytes. Qed.

Ltac plain_size :=
  cbn [concat]; rewrite ?zlen_app, ?zlen_le_bytes, ?zlen_image_id, ?zlen_image_gen, ?zlen_image_seq, ?(@zlen_nil byte); lia.

Lemma stats_response_size o p : zlen (image (MkStatsResponse o p)) <= 1024.
Proof.
  change (zlen (image_StatsResponse (MkStatsResponse o p)) <= 1024). unfold image_StatsResponse.
  change (image (tr_stats (MkStatsResponse o p))) with (image_StatsPayload p). unfold image_StatsPayload. plain_size.
Qed.

Lemma respond_ok {A} `{Codec A} t0 ans t n (a : A) bs :
  Emits (encode a) bs -> zlen bs <= n -> n <= 1024 -> response_type t0 = Some t -> large_response t0 = false ->
  reply_ok t0 ans (respond t n a).
Proof.
  intros He Hl Hn Ht Hs. split; [exact Ht |]. split; [reflexivity |]. split; [intros _ | congruence]. cbn [f_payload].
  rewrite (written_whole (encode a) bs n He Hl) by lia. lia.
Qed.

Lemma respond_checked_ok {A} `{Codec A} t0 ans t (a : A) :
  response_type t0 = Some t ->
  (large_response t0 = false -> exists bs, Emits (encode a) bs /\ zlen bs <= 1024) ->
  (large_response t0 = true -> ans = encode_bounded kDefaultMaxDocumentBytes a) ->
  reply_ok t0 ans (respond_checked t a).
Proof.
  intros Ht Hs Ha. unfold respond_checked, encode_bounded in *. destruct (ok_ _); [| by apply reject_refusal].
  split; [exact Ht |]. split; [reflexivity |]. split; [| exact Ha]. intros Hl. destruct (Hs Hl) as (bs & He & Hb). cbn [f_payload].
  rewrite (written_whole (encode a) bs _ He); [exact Hb | | by vm_compute].
  etransitivity; [exact Hb |]. by vm_compute.
Qed.

(** The counters a handler leaves alone. *)
Definition same_traffic (s s' : ServerStats) : Prop :=
  ss_frames_decoded s' = ss_frames_decoded s /\ ss_frames_rejected s' = ss_frames_rejected s /\
  ss_requests_served s' = ss_requests_served s /\ ss_requests_rejected s' = ss_requests_rejected s.

(** What the handler of [m] does to the connection, the table and the counters. *)
Definition served_aside (clock : nat -> WallNs) (conn conn' : ConnectionState) (m : Message) (s s' : Server) : Prop :=
  match m with
  | MHelloRequest q =>
      let r := establish (tk_client_boot (hq_token q)) (tk_client_incarnation (hq_token q)) (hq_label q)
                 (clock (eg_ticks (sv_engine s).1)) (sv_sessions s) in
      sv_sessions s' = r.2 /\
      if is_affirmative r.1.1 then
        conn' = MkConn r.1.2 true (cn_decoder conn) /\ sv_stats s' = bump SessionsEstablished (sv_stats s)
      else conn' = conn /\ sv_stats s' = bump SessionsRejected (sv_stats s)
  | _ => conn' = conn /\ sv_sessions s' = sv_sessions s /\ sv_stats s' = sv_stats s
  end.

Lemma served_traffic clock conn conn' m s s' :
  served_aside clock conn conn' m s s' -> same_traffic (sv_stats s) (sv_stats s') /\ cn_decoder conn' = cn_decoder conn.
Proof.
  unfold served_aside. destruct m; try by intros (-> & _ & ->). intros [_ H].
  destruct (is_affirmative _); destruct H as [-> ->]; done.
Qed.

Lemma on_engine_run {A} (m : EngineM A) s :
  on_engine m s = ((m (sv_engine s)).1, MkServer (m (sv_engine s)).2 (sv_sessions s) (sv_stats s) (sv_max_frame_bytes s)).
Proof. unfold on_engine. by destruct (m (sv_engine s)). Qed.

Lemma serve_hello_spec clock conn q s :
  let '((r, conn'), s') := serve_hello clock conn q s in
  sv_engine s' = engine_call clock (MHelloRequest q) (sv_engine s) /\ sv_max_frame_bytes s' = sv_max_frame_bytes s /\
  reply_ok MessageType.HelloRequest None r /\ served_aside clock conn conn' (MHelloRequest q) s s'.
Proof.
  unfold serve_hello, mbind, ServerM_bind, mret, ServerM_ret. rewrite on_engine_run. unfold on_sessions.
  cbn [read_now fst snd sv_sessions sv_engine sv_stats sv_max_frame_bytes served_aside].
  destruct (establish _ _ _ _ _) as [[eo id] t] eqn:Ee. cbn [fst snd].
  destruct (is_affirmative eo) eqn:Ea; cbn [negb]; unfold note, get_server; cbn [fst snd sv_sessions sv_engine sv_stats sv_max_frame_bytes].
  - split; [done |]. split; [done |]. split; [| done]. apply respond_checked_ok; [done | intros _ | discriminate].
    eexists. split; [apply emits_hello_response |]. unfold image_HelloResponse. plain_size.
  - apply is_affirmative_false in Ea. split; [done |]. split; [done |]. split; [by apply reject_refusal | done].
Qed.

(** A handler that makes one call of the engine and answers. *)
Lemma engine_handler {A} (m : EngineM A) (k : A -> ServerM Reply) t ans s :
  (forall a s', (m (sv_engine s)).1 = a -> (k a s').2 = s' /\ reply_ok t ans (k a s').1) ->
  let '(r, s') := (a ← on_engine m; k a) s in
  sv_engine s' = (m (sv_engine s)).2 /\ sv_max_frame_bytes s' = sv_max_frame_bytes s /\ reply_ok t ans r /\
  sv_sessions s' = sv_sessions s /\ sv_stats s' = sv_stats s.
Proof.
  intros Hk. unfold mbind, ServerM_bind. rewrite on_engine_run.
  match goal with |- context [k ?a ?s'] => destruct (Hk a s' eq_refl) as [H1 H2]; destruct (k a s') as [r s2] end.
  cbn [fst snd] in *. subst s2. done.
Qed.

Lemma stay_spec (h : ServerM Reply) w t ans (conn : ConnectionState) s :
  (let '(r, s') := h s in
   sv_engine s' = w /\ sv_max_frame_bytes s' = sv_max_frame_bytes s /\ reply_ok t ans r /\
   sv_sessions s' = sv_sessions s /\ sv_stats s' = sv_stats s) ->
  let '((r, conn'), s') := (mbind (M := ServerM) (fun r => mret (M := ServerM) (r, conn)) h) s in
  sv_engine s' = w /\ sv_max_frame_bytes s' = sv_max_frame_bytes s /\ reply_ok t ans r /\
  conn' = conn /\ sv_sessions s' = sv_sessions s /\ sv_stats s' = sv_stats s.
Proof.
  unfold mbind, ServerM_bind, mret, ServerM_ret. destruct (h s) as [r s']. intros (H1 & H2 & H3 & H4 & H5). done.
Qed.

Ltac respond_plain :=
  intros; destruct_and?; repeat match goal with p : (_ * _)%type |- _ => destruct p end;
  split; [reflexivity |];
  first [ apply respond_checked_ok; [reflexivity | discriminate | intros _; cbn [large_answer];
            match goal with H : fst _ = _ |- _ => by rewrite H end]
        | eapply respond_ok; [apply encode_emits; exact I | vm_compute; discriminate | lia | reflexivity | reflexivity] ].

Lemma serve_request_spec clock conn m s :
  response_type (message_type m) <> None ->
  let '((r, conn'), s') := serve_request clock conn m s in
  sv_engine s' = engine_call clock m (sv_engine s) /\ sv_max_frame_bytes s' = sv_max_frame_bytes s /\
  reply_ok (message_type m) (large_answer clock m (sv_engine s)) r /\ served_aside clock conn conn' m s s'.
Proof.
  intros Hm. destruct m as [q | | q | | q | | q | | q | | q | | q | | q | | q | | q | | q | |]; try by destruct Hm.
  - exact (serve_hello_spec clock conn q s).
  - apply stay_spec, engine_handler. respond_plain.
  - apply stay_spec, engine_handler. respond_plain.
  - apply stay_spec, engine_handler. respond_plain.
  - apply stay_spec, engine_handler. respond_plain.
  - apply stay_spec, engine_handler. respond_plain.
  - apply stay_spec, engine_handler. respond_plain.
  - apply stay_spec. unfold serve_lineage, mbind, ServerM_bind, get_server, mret, ServerM_ret.
    destruct (engine_lineage _ _) as [[[o entries] seen] dropped] eqn:E.
    split_and!; try reflexivity. apply respond_checked_ok; [done | done |]. intros _. cbn [large_answer]. by rewrite E.
  - apply stay_spec, engine_handler. intros [o seq] s' _. split; [reflexivity |].
    eapply respond_ok; [apply emits_checkpoint_response | | lia | reflexivity | reflexivity].
    unfold image_CheckpointResponse. plain_size.
  - apply stay_spec. unfold serve_stats, mbind, ServerM_bind, get_server, mret, ServerM_ret.
    split_and!; try reflexivity. eapply respond_ok; [apply emits_stats_response | apply stats_response_size | lia | reflexivity | reflexivity].
  - apply stay_spec. unfold serve_goodbye, mret, ServerM_ret.
    split_and!; try reflexivity. eapply respond_ok; [apply encode_emits; exact I | vm_compute; discriminate | lia | reflexivity | reflexivity].
Qed.

(** ** Responses *)

Lemma parse_error e :
  refusal e -> parse_frame (MkFrame MessageType.ErrorResponse 0 (image e)) = Done (MErrorResponse e).
Proof. intros He. apply (parse_message (MErrorResponse e)). by apply refusal_valid. Qed.

Lemma finish_response_spec t ans r :
  reply_ok t ans r ->
  let '(g, is_error) := finish_response r in
  f_flags g = 0 /\
  if is_error then
    exists e, refusal e /\ f_type g = MessageType.ErrorResponse /\ parse_frame g = Done (MErrorResponse e) /\
      zlen (f_payload g) <= 128
  else response_type t = Some (f_type g) /\ (large_response t = false -> zlen (f_payload g) <= 1024) /\
       (large_response t = true -> ans = Some (f_payload g)).
Proof.
  assert (forall e n, refusal e -> 128 <= n < 2 ^ 64 ->
    exists e', refusal e' /\ MessageType.ErrorResponse = MessageType.ErrorResponse /\
      parse_frame (MkFrame MessageType.ErrorResponse 0 (buf_ (encode e (new_Writer n)))) = Done (MErrorResponse e') /\
      zlen (buf_ (encode e (new_Writer n))) <= 128) as Herr.
  { intros e n He Hn. exists e. rewrite error_written by done. by split_and!; [| | apply parse_error | apply error_image_size]. }
  destruct r as [e | f]; cbn [reply_ok finish_response].
  - intros He. split; [reflexivity |]. by apply Herr.
  - intros (Ht & Hf & Hs & Ha). destruct (_ && _); [| by split_and!].
    split; [reflexivity |]. apply Herr; [by apply reject_refusal | done].
Qed.

Lemma send_response_spec g is_error delivered s :
  let '(sent, s') := send_response g is_error delivered s in
  sv_engine s' = sv_engine s /\ sv_sessions s' = sv_sessions s /\ sv_max_frame_bytes s' = sv_max_frame_bytes s /\
  match sent with
  | Some bytes =>
      response_bytes g = Some bytes /\ delivered = true /\
      sv_stats s' = bump (if is_error then RequestsRejected else RequestsServed) (sv_stats s)
  | None => sv_stats s' = sv_stats s /\ (delivered = false \/ response_bytes g = None)
  end.
Proof.
  unfold send_response. destruct (response_bytes g) as [bytes |] eqn:E; [| by split_and!; try right].
  destruct delivered; cbn [negb]; [done | by split_and!; try left].
Qed.

(** A request that reached its handler. *)
Record served (clock : nat -> WallNs) (conn conn' : ConnectionState) (f : Frame) (m : Message) (s s' : Server) : Prop := {
  sd_parsed : parse_frame f = Done m;
  sd_type : message_type m = f_type f;
  sd_engine : sv_engine s' = engine_call clock m (sv_engine s);
  sd_session :
    match request_token m with
    | Some t =>
        conn' = conn /\ cn_established conn = true /\ tk_session t = cn_session conn /\
        (validate (tk_session t) (tk_client_boot t) (tk_client_incarnation t) (tk_seq t) (sv_sessions s)).1.1 = Ok
    | None =>
        (exists q, m = MHelloRequest q) /\ cn_established conn = false \/ (exists q, m = MGoodbyeRequest q) /\ conn' = conn
    end;
}.

(** The whole of a dispatch. *)
Record dispatched (clock : nat -> WallNs) (conn : ConnectionState) (f : Frame) (delivered : bool) (s : Server)
  (sent : option (list byte)) (conn' : ConnectionState) (s' : Server) : Prop := {
  dp_acts : sv_engine s' = sv_engine s /\ conn' = conn \/ exists m, served clock conn conn' f m s s';
  dp_answer :
    exists g is_error, f_flags g = 0 /\
      (if is_error : bool then
         exists e, refusal e /\ f_type g = MessageType.ErrorResponse /\ parse_frame g = Done (MErrorResponse e) /\
           zlen (f_payload g) <= 128
       else response_type (f_type f) = Some (f_type g) /\
            (large_response (f_type f) = false -> zlen (f_payload g) <= 1024) /\
            (large_response (f_type f) = true ->
             exists m, parse_frame f = Done m /\ large_answer clock m (sv_engine s) = Some (f_payload g))) /\
      match sent with
      | Some bytes =>
          response_bytes g = Some bytes /\ delivered = true /\
          ss_requests_served (sv_stats s') = (if is_error then id else incr) (ss_requests_served (sv_stats s)) /\
          ss_requests_rejected (sv_stats s') = (if is_error then incr else id) (ss_requests_rejected (sv_stats s))
      | None =>
          (delivered = false \/ response_bytes g = None) /\
          ss_requests_served (sv_stats s') = ss_requests_served (sv_stats s) /\
          ss_requests_rejected (sv_stats s') = ss_requests_rejected (sv_stats s)
      end;
  dp_decoder : cn_decoder conn' = cn_decoder conn;
  dp_bound : sv_max_frame_bytes s' = sv_max_frame_bytes s;
}.

Lemma admitted_request conn f s m s' : admitted conn f s (inr m) s' -> response_type (message_type m) <> None.
Proof.
  intros (_ & _ & _ & H). destruct m; try discriminate; cbn [request_token] in H;
    destruct H as [_ [[[q Hq] _] | [q Hq]]]; discriminate.
Qed.

Lemma dispatch_spec clock conn f delivered s :
  let '((sent, conn'), s') := dispatch_frame clock conn f delivered s in
  dispatched clock conn f delivered s sent conn' s'.
Proof.
  unfold dispatch_frame, mbind, ServerM_bind, mret, ServerM_ret.
  pose proof (admit_request_spec conn f s) as Ha. destruct (admit_request conn f s) as [[e | m] s1]; cbn [fst snd] in Ha.
  - destruct Ha as [(E1 & E2 & E3) He]. pose proof (finish_response_spec (f_type f) None (inl e) He) as Hr.
    destruct (finish_response (inl e)) as [g is_error]. destruct Hr as [Hf Hr].
    pose proof (send_response_spec g is_error delivered s1) as Hs.
    destruct (send_response g is_error delivered s1) as [sent s2]. destruct Hs as (S1 & _ & S3 & S4).
    split; [left; split; congruence | | done | congruence].
    exists g, is_error. split; [exact Hf |].
    split; [destruct is_error; [exact Hr | destruct Hr as (? & ? & Hn); split_and!; try done; intros Hl; discriminate (Hn Hl)] |].
    destruct sent as [bytes |].
    + destruct S4 as (B1 & B2 & ->). rewrite E2. by destruct is_error.
    + destruct S4 as (-> & B). by rewrite E2.
  - pose proof (admitted_request _ _ _ _ _ Ha) as Hm. destruct Ha as [(E1 & E2 & E3) (P1 & P2 & P3)].
    pose proof (serve_request_spec clock conn m s1 Hm) as Hq.
    destruct (serve_request clock conn m s1) as [[r conn'] s2]. destruct Hq as (Q1 & Q2 & Q3 & Q4).
    rewrite P2 in Q3. pose proof (finish_response_spec (f_type f) _ r Q3) as Hr.
    destruct (finish_response r) as [g is_error]. destruct Hr as [Hf Hr].
    pose proof (send_response_spec g is_error delivered s2) as Hs.
    destruct (send_response g is_error delivered s2) as [sent s3]. destruct Hs as (S1 & S2 & S3 & S4).
    destruct (served_traffic _ _ _ _ _ _ Q4) as [(T1 & T2 & T3 & T4) Hd].
    split; [right; exists m; split; [done | done | congruence |] | | done | congruence].
    + destruct (request_token m) as [t |] eqn:Et.
      * destruct P3 as [U1 U2 U3 _]. split_and!; try done. destruct m; try discriminate; apply Q4.
      * destruct P3 as [_ [[Hh Hc] | [q ->]]]; [left; by split | right; split; [by exists q | apply Q4]].
    + exists g, is_error. split; [exact Hf |]. rewrite E1 in Hr.
      split; [destruct is_error; [exact Hr | destruct Hr as (? & ? & Hn); split_and!; try done; intros Hl; exists m; auto] |].
      destruct sent as [bytes |].
      * destruct S4 as (B1 & B2 & ->). rewrite <- E2, <- T3, <- T4. by destruct is_error.
      * destruct S4 as (-> & B). split; [exact B |]. split; congruence.
Qed.
