(* ===== verification/Service.v ===== *)
(** * The guarantees of the server

    The theorems about [Server]: a request acts only under its own connection's session,
    every frame gets exactly one readable answer, and how the bytes were cut does not
    matter. *)
From Stdlib Require Import Strings.String.
From S2P Require Import Prelude OrderedMap Core Checked Codec Counted Hash Ids Domain Policy Fixtures Ledger Classifier.
From S2P Require Import Localizer Fence Authority Record Journal Snapshot Durable Store Frame Session Messages Wire Engine Coordinator.
From S2P Require Import Server ServerSpec.
Local Open Scope string_scope.
Local Open Scope list_scope.
Local Open Scope Z_scope.

(** ** Frames, however the bytes are cut *)

Section Stream.
Context (clock : nat -> WallNs) (delivered : nat -> bool).

(** The frames of a connection, dispatched one after another until a response cannot be sent. *)
Fixpoint serve_stream (fs : list Frame) (out : list (list byte)) (conn : ConnectionState)
  : ServerM (list (list byte) * bool * ConnectionState) :=
  match fs with
  | [] => mret (out, false, conn)
  | f :: fs =>
      note FramesDecoded ;;
      '(sent, conn) ← dispatch_frame clock conn f (delivered (length out));
      match sent with
      | None => mret (out, true, conn)
      | Some bytes => serve_stream fs (out ++ [bytes]) conn
      end
  end.

(** The decoder is not read by a dispatch. *)
Lemma dispatch_with_decoder d conn f b s :
  dispatch_frame clock (with_decoder d conn) f b s =
  let '((sent, conn'), s') := dispatch_frame clock conn f b s in ((sent, with_decoder d conn'), s').
Proof.
  unfold dispatch_frame, mbind, ServerM_bind, mret, ServerM_ret.
  change (admit_request (with_decoder d conn) f s) with (admit_request conn f s).
  destruct (admit_request conn f s) as [[e | m] s1].
  - destruct (finish_response _) as [g is_error]. by destruct (send_response _ _ _ _).
  - assert (serve_request clock (with_decoder d conn) m s1 =
      let '((r, c), s2) := serve_request clock conn m s1 in ((r, with_decoder d c), s2)) as ->.
    { destruct m; cbn [serve_request]; unfold mbind, ServerM_bind, mret, ServerM_ret; try reflexivity;
        try (match goal with |- context [let '(_, _) := ?x in _] => destruct x end; reflexivity).
      unfold serve_hello, mbind, ServerM_bind, mret, ServerM_ret, on_engine, on_sessions. cbn [read_now].
      destruct (establish _ _ _ _ _) as [[eo id] t]. by destruct (negb _). }
    destruct (serve_request clock conn m s1) as [[r c] s2]. destruct (finish_response r) as [g is_error].
    by destruct (send_response _ _ _ _).
Qed.

(** The connection as the session code sees it. *)
Definition same_party (n1 n2 : ConnectionState) : Prop :=
  cn_session n1 = cn_session n2 /\ cn_established n1 = cn_established n2.

Lemma same_party_with d n1 n2 : same_party n1 n2 -> with_decoder d n1 = with_decoder d n2.
Proof. intros [H1 H2]. unfold with_decoder. by rewrite H1, H2. Qed.
Lemma same_party_decoder d n1 n2 : same_party n1 n2 -> same_party (with_decoder d n1) n2.
Proof. done. Qed.

(** Two runs that differ at most in the decoder, which the first left as [d] if it goes on. *)
Definition same_run (d : FrameDecoder) (r1 r2 : list (list byte) * bool * ConnectionState * Server) : Prop :=
  let '((o1, c1, n1), s1) := r1 in
  let '((o2, c2, n2), s2) := r2 in
  o1 = o2 /\ c1 = c2 /\ s1 = s2 /\ same_party n1 n2 /\ (c2 = false -> cn_decoder n1 = d).

Lemma dispatch_parties d n1 n2 f b s :
  same_party n1 n2 ->
  let '((sent1, c1), s1) := dispatch_frame clock (with_decoder d n1) f b s in
  let '((sent2, c2), s2) := dispatch_frame clock n2 f b s in
  sent1 = sent2 /\ s1 = s2 /\ same_party c1 c2 /\ cn_decoder c1 = d.
Proof.
  intros Hp. rewrite (same_party_with d n1 n2 Hp), dispatch_with_decoder.
  by destruct (dispatch_frame clock n2 f b s) as [[sent c] s'].
Qed.

Lemma serve_frames_drain fuel : forall out n1 n2 s fs d',
  in_u32 (fd_max (cn_decoder n1)) -> same_party n1 n2 ->
  drain fuel (cn_decoder n1) = (fs, d') -> failure_ d' = Ok ->
  same_run d' (serve_frames clock delivered fuel out n1 s) (serve_stream fs out n2 s).
Proof.
  induction fuel as [| fuel IH]; intros out n1 n2 s fs d' Hm Hp; cbn [drain serve_frames].
  { by intros [= <- <-] _. }
  destruct (next_spec_holds _ Hm) as [f tail _ _ _ | _ | o Ho].
  - destruct (drain fuel _) as [gs d''] eqn:Ed. intros [= <- <-] Hok.
    cbn [serve_stream]. unfold mbind, ServerM_bind, note, mret, ServerM_ret.
    match goal with |- context [dispatch_frame clock _ f _ ?s'] =>
      pose proof (dispatch_parties (MkDecoder (fd_max (cn_decoder n1)) tail Ok) n1 n2 f (delivered (length out)) s' Hp) as Hd;
      destruct (dispatch_frame clock (with_decoder _ n1) f _ s') as [[sent1 c1] s1];
      destruct (dispatch_frame clock n2 f _ s') as [[sent2 c2] s2]
    end.
    destruct Hd as (-> & -> & Hc & Hcd). destruct sent2 as [bytes |]; [| by split_and!].
    apply IH; [by rewrite Hcd | exact Hc | by rewrite Hcd | exact Hok].
  - intros [= <- <-] _. by split_and!.
  - intros [= <- <-]. cbn [failure_]. done.
Qed.

Lemma feed_max c d : fd_max (feed c d).2 = fd_max d.
Proof.
  unfold feed, fd_fail. destruct (failure_ d != Ok); [done |]. destruct (checked_add size_t _ _); [| done]. by destruct (_ <? _).
Qed.

Lemma feed_failed c d : failure_ d = Ok -> (feed c d).1 <> Ok -> failure_ (feed c d).2 <> Ok.
Proof.
  intros Hd. unfold feed, fd_fail. rewrite Hd, beq_refl. cbn [negb].
  destruct (checked_add size_t _ _); [| done]. by destruct (_ <? _).
Qed.

Lemma drain_max fuel : forall d, in_u32 (fd_max d) -> fd_max (drain fuel d).2 = fd_max d.
Proof.
  induction fuel as [| fuel IH]; intros d Hm; [done |]. cbn [drain].
  destruct (next_spec_holds d Hm) as [f tail _ _ _ | _ | o _]; [| done | done].
  specialize (IH (MkDecoder (fd_max d) tail Ok) Hm). by destruct (drain fuel _).
Qed.

Lemma serve_stream_app gs : forall gs' out n s,
  serve_stream (gs ++ gs') out n s =
  let '((o, c, n'), s') := serve_stream gs out n s in
  if c : bool then ((o, true, n'), s') else serve_stream gs' o n' s'.
Proof.
  induction gs as [| g gs IH]; intros gs' out n s; [done |]. cbn [app serve_stream].
  unfold mbind, ServerM_bind, note, mret, ServerM_ret.
  destruct (dispatch_frame clock n g _ _) as [[sent n'] s']. destruct sent; [apply IH | done].
Qed.

Lemma serve_chunks_receive chunks : forall out n1 n2 s fs d',
  in_u32 (fd_max (cn_decoder n1)) -> failure_ (cn_decoder n1) = Ok -> same_party n1 n2 ->
  receive_all chunks (cn_decoder n1) = (fs, d') -> failure_ d' = Ok ->
  let '((o1, c1), s1) := serve_chunks clock delivered chunks out n1 s in
  let '((o2, _, c2), s2) := serve_stream fs out n2 s in
  o1 = o2 /\ s1 = s2 /\ same_party c1 c2.
Proof.
  induction chunks as [| c chunks IH]; intros out n1 n2 s fs d' Hm Hok Hp; cbn [receive_all serve_chunks].
  { by intros [= <- <-] _. }
  unfold receive, serve_chunk. pose proof (feed_max c (cn_decoder n1)) as Hfm. pose proof (feed_failed c (cn_decoder n1) Hok) as Hff.
  destruct (feed c (cn_decoder n1)) as [fo d1]. cbn [fst snd] in *.
  destruct (is_affirmative fo) eqn:Eo; [apply is_affirmative_Ok in Eo as -> | apply is_affirmative_false in Eo]; cbn [negb].
  2:{ assert (match fo with Ok => drain (S (length (pending d1))) d1 | _ => ([], d1) end = ([], d1)) as -> by (destruct fo; done).
      specialize (Hff Eo). destruct (receive_all chunks d1) as [gs d2] eqn:E. rewrite receive_all_failed in E by exact Hff.
      injection E as <- <-. intros [= _ <-] Hd. congruence. }
  pose proof (drain_max (S (length (pending d1))) d1 ltac:(by rewrite Hfm)) as Hdm.
  destruct (drain _ d1) as [gs d2] eqn:Ed. cbn [snd] in Hdm. destruct (receive_all chunks d2) as [gs' d3] eqn:Er. intros [= <- <-] Hd.
  assert (failure_ d2 = Ok) as Hd2.
  { destruct (decide (failure_ d2 = Ok)) as [| Hn]; [done |]. rewrite receive_all_failed in Er by exact Hn. injection Er as _ <-. done. }
  pose proof (serve_frames_drain (S (length (pending d1))) out (with_decoder d1 n1) n2 s gs d2 ltac:(cbn; by rewrite Hfm)
    (same_party_decoder d1 n1 n2 Hp) Ed Hd2) as Hr.
  unfold mbind, ServerM_bind, mret, ServerM_ret.
  destruct (serve_frames clock delivered _ out (with_decoder d1 n1) s) as [[[o1 c1] m1] s1].
  destruct (serve_stream gs out n2 s) as [[[o2 c2] m2] s2] eqn:Es. destruct Hr as (-> & -> & -> & Hm2 & Hdec).
  rewrite serve_stream_app, Es. destruct c2; [done |].
  rewrite <- (Hdec eq_refl) in Er, Hdm. apply (IH o2 m1 m2 s2 gs' d3); [| | exact Hm2 | exact Er | exact Hd].
  - by rewrite Hdm, Hfm.
  - by rewrite (Hdec eq_refl).
Qed.

(** A connection given whole frames. *)
Definition serve_whole (fs : list Frame) : ServerM (list (list byte)) :=
  s ← get_server;
  '(out, _, conn) ← serve_stream fs [] (new_Connection s);
  teardown conn ;;
  mret out.

End Stream.

(** ** Fixtures *)

Definition fx_server : Server := new_Server fx_failing.
Definition fx_hello : Frame :=
  MkFrame MessageType.HelloRequest 0 (image (MkHelloRequest (MkToken (MkId 0) (MkId 1) (MkSeq 0) (MkId 2) (MkId 3)) [x6f] Provenance.Synthetic)).
Definition fx_established : option (list byte) * ConnectionState * Server :=
  dispatch_frame fx_clock (new_Connection fx_server) fx_hello true fx_server.
Definition fx_request_token (seq : Z) : SessionToken :=
  MkToken (cn_session fx_established.1.2) (MkId (seq + 1)) (MkSeq seq) (MkId 2) (MkId 3).
Definition fx_evaluate_frame (seq : Z) : Frame :=
  MkFrame MessageType.EvaluateRequest 0 (image (MkEvaluateRequest (fx_request_token seq) fx_scope fx_gens)).
Definition fx_goodbye_frame : Frame := MkFrame MessageType.GoodbyeRequest 0 (image (fx_request_token 2)).

(** ** Claims *)

(** C17: a frame acts on the engine only as the request it parses to, and, apart from the
    greeting that reads the clock, only on a connection that established a session, under
    that session and no other, with the client identity and the next number the session
    table holds for it; in every other case engine and connection are untouched. *)
Theorem frames_act_under_their_session clock conn f delivered s sent conn' s' :
  dispatch_frame clock conn f delivered s = ((sent, conn'), s') ->
  (sv_engine s' = sv_engine s /\ conn' = conn) \/
  exists m, parse_frame f = Done m /\ message_type m = f_type f /\ sv_engine s' = engine_call clock m (sv_engine s) /\
    match request_token m with
    | Some t =>
        conn' = conn /\ cn_established conn = true /\ tk_session t = cn_session conn /\
        exists r, map_find (tk_session t) (sessions_ (sv_sessions s)) = Some r /\
          tk_client_boot t = client_boot r /\ tk_client_incarnation t = client_incarnation r /\
          seq_value (tk_seq t) = incr (seq_value (sr_last_seq r))
    | None => (exists q, m = MHelloRequest q) /\ cn_established conn = false \/ (exists q, m = MGoodbyeRequest q) /\ conn' = conn
    end.
Proof.
  intros E. pose proof (dispatch_spec clock conn f delivered s) as Hd. rewrite E in Hd.
  destruct Hd as [[H | (m & [H1 H2 H3 H4])] _ _ _]; [by left |]. right. exists m. split_and!; try done.
  destruct (request_token m) as [t |]; [| done]. destruct H4 as (H5 & H6 & H7 & H8).
  apply validate_Ok in H8 as (r & Hr & _ & Hb & Hi & Hq). split_and!; try done. by exists r.
Qed.

Example frames_act_under_their_session_witness :
  let '((_, conn), s) := fx_established in
  let '((sent, conn'), s') := dispatch_frame fx_clock conn (fx_evaluate_frame 1) true s in
  sv_engine s' <> sv_engine s /\
  exists m r, parse_frame (fx_evaluate_frame 1) = Done m /\ sv_engine s' = engine_call fx_clock m (sv_engine s) /\
    map_find (cn_session conn) (sessions_ (sv_sessions s)) = Some r.
Proof.
  destruct fx_established as [[b conn] s] eqn:E0.
  destruct (dispatch_frame fx_clock conn (fx_evaluate_frame 1) true s) as [[sent conn'] s'] eqn:E.
  assert (eg_ticks (sv_engine s').1 <> eg_ticks (sv_engine s).1 /\
    exists q, parse_frame (fx_evaluate_frame 1) = Done (MEvaluateRequest q)) as (Hn & q & Hq).
  { replace s' with (dispatch_frame fx_clock fx_established.1.2 (fx_evaluate_frame 1) true fx_established.2).2
      by (rewrite E0; cbn [fst snd]; by rewrite E).
    replace s with fx_established.2 by by rewrite E0.
    split; [vm_compute; discriminate |]. eexists. vm_compute. reflexivity. }
  split; [congruence |].
  destruct (frames_act_under_their_session fx_clock conn (fx_evaluate_frame 1) true s sent conn' s' E) as [[H _] | (m & H1 & _ & H2 & H3)];
    [congruence |].
  rewrite Hq in H1. injection H1 as <-. cbn [request_token] in H3. destruct H3 as (_ & _ & Hs & r & Hr & _).
  rewrite Hs in Hr. exists (MEvaluateRequest q), r. split; [exact Hq |]. split; [exact H2 | exact Hr].
Defined.

(** C18: a dispatched frame gets exactly one answer: an error that parses, whose outcome is
    never [Ok] and which counts as rejected, or a response of the type that belongs to the
    request, which counts as served; a type that is no request always gets the error. The
    response to an evaluation, localization, restoration or lineage request is the encoding
    of what the engine answered. On a connection that delivers, an answer is missing only
    for such a request, when that encoding no longer fits the largest document behind the
    header of its frame. *)
Theorem every_frame_answered clock conn f delivered s sent conn' s' :
  dispatch_frame clock conn f delivered s = ((sent, conn'), s') ->
  match sent with
  | Some bytes =>
      exists g, response_bytes g = Some bytes /\ f_flags g = 0 /\
        ((exists e, parse_frame g = Done (MErrorResponse e) /\ xr_outcome e <> Ok /\
            ss_requests_rejected (sv_stats s') = incr (ss_requests_rejected (sv_stats s)) /\
            ss_requests_served (sv_stats s') = ss_requests_served (sv_stats s)) \/
         (response_type (f_type f) = Some (f_type g) /\
            (large_response (f_type f) = true ->
             exists m, parse_frame f = Done m /\ large_answer clock m (sv_engine s) = Some (f_payload g)) /\
            ss_requests_served (sv_stats s') = incr (ss_requests_served (sv_stats s)) /\
            ss_requests_rejected (sv_stats s') = ss_requests_rejected (sv_stats s)))
  | None =>
      (delivered = true ->
       exists m payload, parse_frame f = Done m /\ large_response (f_type f) = true /\
         large_answer clock m (sv_engine s) = Some payload /\
         kDefaultMaxDocumentBytes < kFrameHeaderSize + zlen payload) /\
      ss_requests_served (sv_stats s') = ss_requests_served (sv_stats s) /\
      ss_requests_rejected (sv_stats s') = ss_requests_rejected (sv_stats s)
  end.
Proof.
  intros E. pose proof (dispatch_spec clock conn f delivered s) as Hd. rewrite E in Hd.
  destruct Hd as [_ (g & is_error & Hf & Hg & Hs) _ _]. destruct sent as [bytes |].
  - destruct Hs as (Hb & _ & Hv & Hr). exists g. split; [exact Hb |]. split; [exact Hf |]. destruct is_error.
    + left. destruct Hg as (e & [He _] & _ & Hp & _). by exists e.
    + right. destruct Hg as (? & _ & ?). by split_and!.
  - destruct Hs as (Hb & Hv & Hr). split; [| by split]. intros ->. destruct Hb as [? | Hb]; [done |].
    assert (1024 < zlen (f_payload g)) as Hl.
    { apply Z.nle_gt. intros Hl. by rewrite (small_sent g Hl) in Hb. }
    destruct is_error; [destruct Hg as (_ & _ & _ & _ & ?); lia |]. destruct Hg as (_ & Hsmall & Hg).
    destruct (large_response (f_type f)) eqn:El; [| specialize (Hsmall eq_refl); lia].
    destruct (Hg eq_refl) as (m & Hm & Ha). exists m, (f_payload g).
    split_and!; try done. apply Z.nle_gt. intros Hfit. change kFrameHeaderSize with 20 in Hfit.
    rewrite response_bytes_spec in Hb by (unfold kDefaultMaxDocumentBytes in Hfit; lia).
    rewrite zlen_frame_image in Hb. destruct (Z.leb_spec (20 + zlen (f_payload g)) kDefaultMaxDocumentBytes); [done | lia].
Qed.

Example every_frame_answered_witness :
  let '((sent, _), s') := dispatch_frame fx_clock (new_Connection fx_server) (fx_evaluate_frame 1) true fx_server in
  exists bytes g e, sent = Some bytes /\ response_bytes g = Some bytes /\ parse_frame g = Done (MErrorResponse e) /\ xr_outcome e <> Ok.
Proof.
  destruct (dispatch_frame fx_clock (new_Connection fx_server) (fx_evaluate_frame 1) true fx_server) as [[sent conn'] s'] eqn:E.
  assert (ss_requests_served (sv_stats s') = 0 /\ sent <> None) as [Hs Hn].
  { change s' with ((sent, conn'), s').2. change sent with ((sent, conn'), s').1.1 at 2. rewrite <- E. split; [vm_compute; reflexivity | vm_compute; discriminate]. }
  pose proof (every_frame_answered fx_clock (new_Connection fx_server) (fx_evaluate_frame 1) true fx_server sent conn' s' E) as H.
  destruct sent as [bytes |]; [| done]. destruct H as (g & Hb & _ & [(e & Hp & He & _) | (_ & _ & Hv & _)]); [by exists bytes, g, e |].
  rewrite Hs in Hv. discriminate.
Defined.

(** C19: how the network cuts the bytes makes no difference: a connection that receives the
    frames of [fs] in any chunks that leave room for a partial frame sends the same
    responses and leaves engine, session table and counters in the same state as one given
    the frames one by one, also when a response cannot be sent and the rest is abandoned. *)
Theorem chunking_is_irrelevant clock delivered m fs chunks s :
  in_u32 (sv_max_frame_bytes s) -> 0 <= m <= sv_max_frame_bytes s -> Forall (frame_ok m) fs ->
  Forall (fun c => zlen c <= sv_max_frame_bytes s + 1 - m) chunks -> concat chunks = stream_image fs ->
  serve_connection clock delivered chunks s = serve_whole clock delivered fs s.
Proof.
  intros Hmax Hm Hfs Hc Hb.
  destruct (receive_all_complete (sv_max_frame_bytes s) m chunks fs [] [] Hmax Hm Hfs Hc) as (k & P & _ & H1 & H2 & H3);
    [cbn [app]; by rewrite app_nil_r | apply partial_nil |].
  rewrite app_nil_r in H2. apply partial_end in H3 as Hd; [| exact H2]. apply (f_equal length) in Hd. rewrite length_drop in Hd.
  rewrite (take_ge fs k) in H1 by (cbn in Hd; lia).
  unfold serve_connection, serve_whole, mbind, ServerM_bind, mret, ServerM_ret, get_server.
  pose proof (serve_chunks_receive clock delivered chunks [] (new_Connection s) (new_Connection s) s fs _ Hmax eq_refl
    ltac:(done) H1 eq_refl) as Hr.
  destruct (serve_chunks clock delivered chunks [] (new_Connection s) s) as [[o1 n1] s1].
  destruct (serve_stream clock delivered fs [] (new_Connection s) s) as [[[o2 c2] n2] s2].
  destruct Hr as (-> & -> & Hp1 & Hp2). unfold teardown, release_session. by rewrite Hp1, Hp2.
Qed.

Definition fx_session_frames : list Frame := [fx_hello; fx_evaluate_frame 1; fx_goodbye_frame].

Example chunking_is_irrelevant_witness :
  serve_connection fx_clock (fun _ => true)
    [take 100 (stream_image fx_session_frames); drop 100 (stream_image fx_session_frames)] fx_server =
  serve_whole fx_clock (fun _ => true) fx_session_frames fx_server.
Proof.
  apply (chunking_is_irrelevant fx_clock (fun _ => true) 1000).
  - vm_compute. split; [discriminate | reflexivity].
  - vm_compute. split; discriminate.
  - repeat constructor; vm_compute; discriminate.
  - repeat constructor; vm_compute; discriminate.
  - cbn [concat]. rewrite app_nil_r. apply take_drop.
Defined.
