(* ===== verification/System.v ===== *)
(** * The running server

    The connections of [Server] interleaved. Every served connection has a thread of its own
    and shares the engine, the session table and the counters, each behind a mutex, so a run
    is a sequence of the steps below on any of the connections, in any order: receive bytes,
    take a frame and admit it, serve it, send the answer, release the session, close; two for a
    localization, which leaves the engine's lock in between; and the calls others make of the
    engine. A connection may be turned away although fewer than the bound are live: a finished
    one holds its slot until it is reaped (Lifecycle.v). The theorems hold for every such
    sequence. *)
From Stdlib Require Import Strings.String.
From S2P Require Import Prelude OrderedMap Core Checked Codec Counted Hash Ids Domain Policy Fixtures Ledger Classifier.
From S2P Require Import Localizer Fence Authority Record Journal Snapshot Durable Store Frame Session Messages Wire Engine EngineSpec Coordinator.
From S2P Require Import Server ServerSpec Service.
Local Open Scope string_scope.
Local Open Scope list_scope.
Local Open Scope Z_scope.

(** ** The steps *)

(** Where the thread of a connection is: reading, between two locks of a dispatch, behind its
    loop ([Leaving]), behind the release of its session ([Released]), or done. The flag of the
    last three: it abandoned a response it could not send. *)
Inductive Phase :=
| Reading
| Serving (m : Message)
| Localizing (q : LocalizeRequest) (d : Decision)
| Replying (r : Reply)
| Leaving (abandoned : bool)
| Released (abandoned : bool)
| Finished (abandoned : bool).

Record Link := MkLink { lk_conn : ConnectionState; lk_phase : Phase }.

Record System := MkSystem {
  sy_server : Server;
  sy_links : list Link;
}.

Inductive SysOp :=
| SysAccept
| SysTurnAway
| SysReceive (i : nat) (chunk : list byte)
| SysNext (i : nat)
| SysServe (i : nat)
| SysReply (i : nat) (delivered : bool)
| SysRelease (i : nat)
| SysClose (i : nat)
| SysEngine (op : EngineOp)
| SysStop.

Section System.
Context (clock : nat -> WallNs) (cfg : ServerConfig).

Definition put_link (i : nat) (l : Link) (s : Server) (y : System) : System := MkSystem s (<[i := l]> (sy_links y)).

Definition finished (l : Link) : bool := match lk_phase l with Finished _ => true | _ => false end.

(** The connections that hold a slot: a finished one is reaped at the next accept.
    src/service/server.cpp:43-52 Server::live_connections *)
Definition live_connections (y : System) : Z := zlen (filter (fun l => finished l = false) (sy_links y)).

(** src/service/server.cpp:117-144 Server::accept_loop (one connection) *)
Definition accept (y : System) : System :=
  let s := sy_server y in
  if sc_max_connections cfg <=? live_connections y then MkSystem (note AcceptRejected s).2 (sy_links y)
  else MkSystem (note Accepted s).2 (sy_links y ++ [MkLink (new_Connection s) Reading]).

(** Behind the loop of its thread. *)
Definition left_loop (l : Link) : bool := match lk_phase l with Leaving _ | Released _ | Finished _ => true | _ => false end.

(** The session of the connection is released. src/service/server.cpp:194-194 Server::serve_connection (released) *)
Definition sys_release (i : nat) (conn : ConnectionState) (abandoned : bool) (y : System) : System :=
  put_link i (MkLink conn (Released abandoned)) (release_session conn (sy_server y)).2 y.

(** Its end is counted. src/service/server.cpp:196-199 Server::serve_connection (closed) *)
Definition sys_close (i : nat) (conn : ConnectionState) (abandoned : bool) (y : System) : System :=
  put_link i (MkLink conn (Finished abandoned)) (note ConnectionsClosed (sy_server y)).2 y.

(** Bytes arrive, at most a buffer of them. src/service/server.cpp:159-162 Server::serve_connection (buffer) *)
Definition received (chunk : list byte) : list byte := take (Z.to_nat kRecvChunk) chunk.

(** src/service/server.cpp:164-170 Server::serve_connection (feed) *)
Definition sys_receive (i : nat) (chunk : list byte) (conn : ConnectionState) (y : System) : System :=
  let '(fo, d) := feed chunk (cn_decoder conn) in
  if negb (is_affirmative fo) then
    put_link i (MkLink (with_decoder d conn) (Leaving false)) (note FramesRejected (sy_server y)).2 y
  else put_link i (MkLink (with_decoder d conn) Reading) (sy_server y) y.

(** A frame is taken and admitted, or refused. src/service/server.cpp:172-186 Server::serve_connection (next) *)
Definition sys_next (i : nat) (conn : ConnectionState) (y : System) : System :=
  let s := sy_server y in
  match next (cn_decoder conn) with
  | (NotFound, _, d) => put_link i (MkLink (with_decoder d conn) Reading) s y
  | (Ok, Some f, d) =>
      let conn := with_decoder d conn in
      let '(r, s) := admit_request conn f (note FramesDecoded s).2 in
      put_link i (MkLink conn (match r with inl e => Replying (inl e) | inr m => Serving m end)) s y
  | (_, _, d) => put_link i (MkLink (with_decoder d conn) (Leaving false)) (note FramesRejected s).2 y
  end.

(** The admitted request is served; a localization only up to its evaluation. *)
Definition sys_serve (i : nat) (conn : ConnectionState) (m : Message) (y : System) : System :=
  match m with
  | MLocalizeRequest q =>
      let '((o, d), s) := on_engine (evaluate clock (lq_scope q) (lq_gens q)) (sy_server y) in
      put_link i (MkLink conn (Localizing q d)) s y
  | _ =>
      let '((r, conn), s) := serve_request clock conn m (sy_server y) in
      put_link i (MkLink conn (Replying r)) s y
  end.

(** The rest of a localization: the search without the lock and the publication. *)
Definition sys_publish (i : nat) (conn : ConnectionState) (q : LocalizeRequest) (d : Decision) (y : System) : System :=
  let s := sy_server y in
  let found := localize_search (eg_policy (sv_engine s).1) (lq_hop_count q) (lq_probes q) in
  let '((o, d), s) := on_engine (localize_publish found d) s in
  put_link i (MkLink conn (Replying (respond_checked MessageType.LocalizeResponse (MkLocalizeResponse o d)))) s y.

(** The answer is sent; if it is not, the connection ends. src/service/server.cpp:186-189 Server::serve_connection (dispatched) *)
Definition sys_reply (i : nat) (conn : ConnectionState) (r : Reply) (delivered : bool) (y : System) : System :=
  let '(response, is_error) := finish_response r in
  let '(sent, s) := send_response response is_error delivered (sy_server y) in
  match sent with
  | None => put_link i (MkLink conn (Leaving true)) s y
  | Some _ => put_link i (MkLink conn Reading) s y
  end.

Definition sys_step (op : SysOp) (y : System) : System :=
  match op with
  | SysAccept => accept y
  | SysTurnAway => MkSystem (note AcceptRejected (sy_server y)).2 (sy_links y)
  | SysReceive i chunk =>
      match sy_links y !! i with
      | Some (MkLink conn Reading) => sys_receive i (received chunk) conn y
      | _ => y
      end
  | SysNext i =>
      match sy_links y !! i with
      | Some (MkLink conn Reading) => sys_next i conn y
      | _ => y
      end
  | SysServe i =>
      match sy_links y !! i with
      | Some (MkLink conn (Serving m)) => sys_serve i conn m y
      | Some (MkLink conn (Localizing q d)) => sys_publish i conn q d y
      | _ => y
      end
  | SysReply i delivered =>
      match sy_links y !! i with
      | Some (MkLink conn (Replying r)) => sys_reply i conn r delivered y
      | _ => y
      end
  | SysRelease i =>
      match sy_links y !! i with
      | Some (MkLink conn Reading) => sys_release i conn false y
      | Some (MkLink conn (Leaving b)) => sys_release i conn b y
      | _ => y
      end
  | SysClose i =>
      match sy_links y !! i with
      | Some (MkLink conn (Released b)) => sys_close i conn b y
      | _ => y
      end
  | SysEngine op =>
      let s := sy_server y in
      MkSystem (MkServer (engine_step clock op (sv_engine s)) (sv_sessions s) (sv_stats s) (sv_max_frame_bytes s)) (sy_links y)
  | SysStop =>
      let s := sy_server y in
      MkSystem (MkServer (sv_engine s) (st_clear (sv_sessions s)) (sv_stats s) (sv_max_frame_bytes s)) (sy_links y)
  end.

Inductive sys_reachable (c : EngineConfig) : System -> Prop :=
| sys_new w : engine_reachable clock c w -> sys_reachable c (MkSystem (new_Server w) [])
| sys_more op y : sys_reachable c y -> sys_reachable c (sys_step op y).

End System.
