(* ===== verification/SystemSpec.v ===== *)
(** * The running server, specified

    The lemmas about [System]: every interleaving is a run of the engine and a run of the
    session table, every request in service is under its connection's session, the counters
    account for every frame, and what the connections hold is bounded. *)
From Stdlib Require Import Strings.String.
From S2P Require Import Prelude OrderedMap Core Checked Codec Counted Hash Ids Domain Policy Fixtures Ledger Classifier.
From S2P Require Import Localizer Fence Authority Record Journal Snapshot Durable Store Frame Session Messages Wire Engine EngineSpec Coordinator.
From S2P Require Import Server ServerSpec Service System.
Local Open Scope string_scope.
Local Open Scope list_scope.
Local Open Scope Z_scope.

(** Arithmetic of counters modulo their width. *)
Ltac drift_arith :=
  repeat match goal with
  | |- context [bool_decide (?a = ?b :> Counter)] =>
      let r := eval vm_compute in (a == b) in change (a == b) with r
  end; cbv iota;
  unfold wrap in *; change (2 ^ 64) with 18446744073709551616 in *; Z.div_mod_to_equations; lia.

Section Spec.
Context (clock : nat -> WallNs) (cfg : ServerConfig).

(** ** What a step does to the parts *)

(** The session operation of a frame that is admitted on [conn]. *)
Definition admission_ops (conn : ConnectionState) (f : Frame) : list SessionOp :=
  match parse_frame f with
  | Done m =>
      match request_token m with
      | Some t =>
          if cn_established conn && (tk_session t == cn_session conn) then
            [OpValidate (tk_session t) (tk_client_boot t) (tk_client_incarnation t) (tk_seq t)]
          else []
      | None => []
      end
  | Refuse _ => []
  end.

Lemma admit_under_table {A} `{Codec A} conn (token : A -> SessionToken) (wrap : A -> Message) f s :
  (forall q, request_token (wrap q) = Some (token q)) -> parse_frame f = result_map wrap (decode_message A f) ->
  sv_sessions (admit_under conn token wrap f s).2 = run_sessions (admission_ops conn f) (sv_sessions s).
Proof.
  intros Ht Hp. unfold admit_under, admission_ops, decode_request. rewrite Hp.
  destruct (decode_message A f) as [q | o]; cbn [result_map]; [| done]. rewrite Ht.
  unfold require_session, mbind, ServerM_bind, mret, ServerM_ret, on_sessions.
  destruct (cn_established conn); cbn [negb andb]; [| done].
  destruct (tk_session (token q) == cn_session conn); cbn [negb]; [| done].
  cbn [run_sessions foldl run_session].
  destruct (validate _ _ _ _ _) as [[vo reason] t']. by destruct (negb _).
Qed.

Lemma no_admission conn f :
  (forall m, parse_frame f = Done m -> request_token m = None) -> admission_ops conn f = [].
Proof. intros H. unfold admission_ops. destruct (parse_frame f) as [m |]; [| done]. by rewrite (H m eq_refl). Qed.

Lemma admission_table conn f s :
  sv_sessions (admit_request conn f s).2 = run_sessions (admission_ops conn f) (sv_sessions s).
Proof.
  unfold admit_request. destruct (f_type f) eqn:Et;
    try (apply admit_under_table; [done | unfold parse_frame; rewrite Et; reflexivity]);
    (rewrite no_admission; [reflexivity |]); unfold parse_frame; rewrite Et; intros m Hm;
    apply result_map_done in Hm as (q & _ & ->); reflexivity.
Qed.

Definition release_ops (conn : ConnectionState) : list SessionOp :=
  if cn_established conn then [OpRelease (cn_session conn)] else [].

(** The operations of the session table in a step. *)
Definition session_ops (op : SysOp) (y : System) : list SessionOp :=
  match op with
  | SysNext i =>
      match sy_links y !! i with
      | Some (MkLink conn Reading) =>
          match next (cn_decoder conn) with
          | (Ok, Some f, _) => admission_ops conn f
          | _ => []
          end
      | _ => []
      end
  | SysServe i =>
      match sy_links y !! i with
      | Some (MkLink conn (Serving (MHelloRequest q))) =>
          [OpEstablish (tk_client_boot (hq_token q)) (tk_client_incarnation (hq_token q)) (hq_label q)
             (clock (eg_ticks (sv_engine (sy_server y)).1))]
      | _ => []
      end
  | SysRelease i =>
      match sy_links y !! i with
      | Some (MkLink conn Reading) | Some (MkLink conn (Leaving _)) => release_ops conn
      | _ => []
      end
  | SysStop => [OpClear]
  | _ => []
  end.

Lemma release_server conn s :
  (release_session conn s).2 =
  MkServer (sv_engine s) (run_sessions (release_ops conn) (sv_sessions s)) (sv_stats s) (sv_max_frame_bytes s).
Proof. unfold release_session, release_ops, mret, ServerM_ret. destruct (cn_established conn); [done | by destruct s]. Qed.

Lemma serve_request_server conn m s :
  let s' := (serve_request clock conn m s).2 in
  sv_engine s' = engine_call clock m (sv_engine s) /\
  sv_sessions s' = run_sessions
    match m with
    | MHelloRequest q =>
        [OpEstablish (tk_client_boot (hq_token q)) (tk_client_incarnation (hq_token q)) (hq_label q) (clock (eg_ticks (sv_engine s).1))]
    | _ => []
    end (sv_sessions s) /\
  sv_max_frame_bytes s' = sv_max_frame_bytes s /\ same_traffic (sv_stats s) (sv_stats s').
Proof.
  destruct (response_type (message_type m)) eqn:Et; [| by destruct m].
  pose proof (serve_request_spec clock conn m s ltac:(by rewrite Et)) as H.
  destruct (serve_request clock conn m s) as [[r conn'] s']. cbn [snd]. destruct H as (H1 & H2 & _ & H4).
  split; [exact H1 |]. split; [| split; [exact H2 | by apply served_traffic in H4 as []]].
  destruct m; try (by destruct H4 as (_ & -> & _)). by destruct H4 as [-> _].
Qed.

Lemma send_response_server g b delivered s : sv_sessions (send_response g b delivered s).2 = sv_sessions s.
Proof. pose proof (send_response_spec g b delivered s) as H. destruct (send_response g b delivered s). by destruct H as (_ & H & _). Qed.

Lemma step_sessions op y :
  sv_sessions (sy_server (sys_step clock cfg op y)) = run_sessions (session_ops op y) (sv_sessions (sy_server y)).
Proof.
  destruct op as [| | i chunk | i | i | i delivered | i | i | op |]; cbn [sys_step session_ops]; try reflexivity.
  - unfold accept. by destruct (_ <=? _).
  - destruct (sy_links y !! i) as [[conn [| m | q d | r | b | b | b]] |]; try reflexivity. unfold sys_receive.
    destruct (feed (received chunk) (cn_decoder conn)) as [fo d]. cbn [fst]. by destruct (is_affirmative fo).
  - destruct (sy_links y !! i) as [[conn [| m | q d | r | b | b | b]] |]; try reflexivity. unfold sys_next.
    destruct (next (cn_decoder conn)) as [[o [f |]] d]; destruct o; try reflexivity.
    pose proof (admission_table (with_decoder d conn) f (note FramesDecoded (sy_server y)).2) as Ha.
    destruct (admit_request _ f _) as [r s']. cbn [put_link sy_server snd] in *. rewrite Ha. reflexivity.
  - destruct (sy_links y !! i) as [[conn [| m | q d | r | b | b | b]] |]; try reflexivity.
    + pose proof (serve_request_server conn m (sy_server y)) as (_ & Hs & _).
      destruct m; cbn [sys_serve]; try (destruct (serve_request clock conn _ (sy_server y)) as [[r conn'] s']; exact Hs).
      rewrite on_engine_run. by destruct (evaluate clock _ _ _) as [[o d] w].
    + unfold sys_publish. rewrite on_engine_run. by destruct (localize_publish _ _ _) as [[o d'] w].
  - destruct (sy_links y !! i) as [[conn [| m | q d | r | b | b | b]] |]; try reflexivity. unfold sys_reply.
    destruct (finish_response r) as [g is_error]. cbn [fst snd].
    pose proof (send_response_server g is_error delivered (sy_server y)) as Hs.
    by destruct (send_response g is_error delivered (sy_server y)) as [[bytes |] s].
  - destruct (sy_links y !! i) as [[conn [| m | q d | r | b | b | b]] |]; try reflexivity;
      unfold sys_release; cbn [put_link sy_server]; by rewrite release_server.
  - by destruct (sy_links y !! i) as [[conn [| m | q d | r | b | b | b]] |].
Qed.

(** ** The steps of one connection *)

Inductive link_step : Link -> Server -> Link -> Server -> Prop :=
| ls_received conn chunk d s :
    feed (received chunk) (cn_decoder conn) = (Ok, d) ->
    link_step (MkLink conn Reading) s (MkLink (with_decoder d conn) Reading) s
| ls_refused_bytes conn chunk o d s :
    feed (received chunk) (cn_decoder conn) = (o, d) ->
    link_step (MkLink conn Reading) s (MkLink (with_decoder d conn) (Leaving false)) (note FramesRejected s).2
| ls_waits conn f d s :
    next (cn_decoder conn) = (NotFound, f, d) ->
    link_step (MkLink conn Reading) s (MkLink (with_decoder d conn) Reading) s
| ls_refused_frame conn o f d s :
    next (cn_decoder conn) = (o, f, d) ->
    link_step (MkLink conn Reading) s (MkLink (with_decoder d conn) (Leaving false)) (note FramesRejected s).2
| ls_refused conn f d e s s' :
    next (cn_decoder conn) = (Ok, Some f, d) ->
    admit_request (with_decoder d conn) f (note FramesDecoded s).2 = (inl e, s') ->
    link_step (MkLink conn Reading) s (MkLink (with_decoder d conn) (Replying (inl e))) s'
| ls_admitted conn f d m s s' :
    next (cn_decoder conn) = (Ok, Some f, d) ->
    admit_request (with_decoder d conn) f (note FramesDecoded s).2 = (inr m, s') ->
    link_step (MkLink conn Reading) s (MkLink (with_decoder d conn) (Serving m)) s'
| ls_served conn conn' m r s s' :
    serve_request clock conn m s = ((r, conn'), s') ->
    link_step (MkLink conn (Serving m)) s (MkLink conn' (Replying r)) s'
| ls_evaluated conn q o d s s' :
    on_engine (evaluate clock (lq_scope q) (lq_gens q)) s = ((o, d), s') ->
    link_step (MkLink conn (Serving (MLocalizeRequest q))) s (MkLink conn (Localizing q d)) s'
| ls_published conn q d found o d' s s' :
    on_engine (localize_publish found d) s = ((o, d'), s') ->
    link_step (MkLink conn (Localizing q d)) s
      (MkLink conn (Replying (respond_checked MessageType.LocalizeResponse (MkLocalizeResponse o d')))) s'
| ls_answered conn r delivered bytes s s' :
    send_response (finish_response r).1 (finish_response r).2 delivered s = (Some bytes, s') ->
    link_step (MkLink conn (Replying r)) s (MkLink conn Reading) s'
| ls_abandoned conn r delivered s s' :
    send_response (finish_response r).1 (finish_response r).2 delivered s = (None, s') ->
    link_step (MkLink conn (Replying r)) s (MkLink conn (Leaving true)) s'
| ls_stopped conn s :
    link_step (MkLink conn Reading) s (MkLink conn (Released false)) (release_session conn s).2
| ls_released conn b s :
    link_step (MkLink conn (Leaving b)) s (MkLink conn (Released b)) (release_session conn s).2
| ls_closed conn b s :
    link_step (MkLink conn (Released b)) s (MkLink conn (Finished b)) (note ConnectionsClosed s).2.

(** A step of the system is nothing, an acceptance, a step of one connection, a call of the
    engine or the stop. *)
Inductive sys_stepped (y : System) : System -> Prop :=
| sp_idle : sys_stepped y y
| sp_turned_away :
    sys_stepped y (MkSystem (note AcceptRejected (sy_server y)).2 (sy_links y))
| sp_accepted :
    live_connections y < sc_max_connections cfg ->
    sys_stepped y (MkSystem (note Accepted (sy_server y)).2 (sy_links y ++ [MkLink (new_Connection (sy_server y)) Reading]))
| sp_link i l l' s' :
    sy_links y !! i = Some l -> link_step l (sy_server y) l' s' -> sys_stepped y (put_link i l' s' y)
| sp_engine op :
    sys_stepped y (MkSystem (MkServer (engine_step clock op (sv_engine (sy_server y))) (sv_sessions (sy_server y))
      (sv_stats (sy_server y)) (sv_max_frame_bytes (sy_server y))) (sy_links y))
| sp_stop :
    sys_stepped y (MkSystem (MkServer (sv_engine (sy_server y)) (st_clear (sv_sessions (sy_server y)))
      (sv_stats (sy_server y)) (sv_max_frame_bytes (sy_server y))) (sy_links y)).

Lemma step_cases op y : sys_stepped y (sys_step clock cfg op y).
Proof.
  destruct op as [| | i chunk | i | i | i delivered | i | i | op |]; cbn [sys_step];
    try (destruct (sy_links y !! i) as [[conn [| m | q d | r | b | b | b]] |] eqn:Ei; try apply sp_idle).
  - unfold accept. destruct (Z.leb_spec (sc_max_connections cfg) (live_connections y)); by constructor.
  - apply sp_turned_away.
  - unfold sys_receive. destruct (feed (received chunk) (cn_decoder conn)) as [fo d] eqn:Ef.
    destruct (is_affirmative fo) eqn:Eo; cbn [negb].
    + apply is_affirmative_Ok in Eo as ->. eapply sp_link; [exact Ei |]. by eapply ls_received.
    + eapply sp_link; [exact Ei |]. by eapply ls_refused_bytes.
  - unfold sys_next. destruct (next (cn_decoder conn)) as [[o f] d] eqn:En.
    assert (sys_stepped y (put_link i (MkLink (with_decoder d conn) (Leaving false)) (note FramesRejected (sy_server y)).2 y)) as Hbad
      by (eapply sp_link; [exact Ei |]; by eapply ls_refused_frame).
    destruct o; try (destruct f; exact Hbad).
    + destruct f as [f |]; [| exact Hbad]. destruct (admit_request _ f _) as [[e | m] s'] eqn:Ea;
        (eapply sp_link; [exact Ei |]); [by eapply ls_refused | by eapply ls_admitted].
    + destruct f; (eapply sp_link; [exact Ei |]; by eapply ls_waits).
  - destruct m; cbn [sys_serve];
      try (destruct (serve_request clock conn _ (sy_server y)) as [[r conn'] s'] eqn:Es; eapply sp_link; [exact Ei |]; by apply ls_served).
    destruct (on_engine _ (sy_server y)) as [[o d] s'] eqn:Ee. eapply sp_link; [exact Ei |]. by eapply ls_evaluated.
  - unfold sys_publish. destruct (on_engine _ (sy_server y)) as [[o d'] s'] eqn:Ee. eapply sp_link; [exact Ei |]. by eapply ls_published.
  - unfold sys_reply. destruct (finish_response r) as [g is_error] eqn:Er.
    destruct (send_response g is_error delivered (sy_server y)) as [[bytes |] s'] eqn:Es; (eapply sp_link; [exact Ei |]).
    + eapply ls_answered. rewrite Er. exact Es.
    + eapply ls_abandoned. rewrite Er. exact Es.
  - eapply sp_link; [exact Ei |]. apply ls_stopped.
  - eapply sp_link; [exact Ei |]. apply ls_released.
  - eapply sp_link; [exact Ei |]. apply ls_closed.
  - apply sp_engine.
  - apply sp_stop.
Qed.

(** ** Every interleaving is a run of the engine *)

Lemma engine_call_reachable c m w : engine_reachable clock c w -> engine_reachable clock c (engine_call clock m w).
Proof.
  intros Hw. destruct m as [q | | q | | q | | q | | q | | q | | q | | q | | q | | q | | q | |]; cbn [engine_call]; try exact Hw.
  - exact (engine_next clock c ENow w Hw).
  - exact (engine_next clock c (ESubmit (sq_evidence q)) w Hw).
  - exact (engine_next clock c (EEvaluate (eq_scope q) (eq_gens q)) w Hw).
  - unfold engine_localize, mbind, EngineM_bind, get_engine.
    pose proof (engine_next clock c (EEvaluate (lq_scope q) (lq_gens q)) w Hw) as H. cbn [engine_step] in H.
    destruct (evaluate clock _ _ w) as [[o d] w1]. cbn [snd] in H.
    exact (engine_next clock c (EPublish _ d) w1 H).
  - exact (engine_next clock c (EAck (aq_fence q) (aq_downstream q)) w Hw).
  - exact (engine_next clock c (EEffect (fq_fence q) (fq_downstream q) (fq_verified q)) w Hw).
  - exact (engine_next clock c (ERestore (rq_scope q) (rq_gens q)) w Hw).
  - exact (engine_next clock c ECheckpoint w Hw).
Qed.

Lemma admit_request_aside conn f s r s' : admit_request conn f s = (r, s') -> aside s s'.
Proof. intros E. pose proof (admit_request_spec conn f s) as [H _]. by rewrite E in H. Qed.

Lemma link_step_engine c l s l' s' :
  link_step l s l' s' -> engine_reachable clock c (sv_engine s) -> engine_reachable clock c (sv_engine s').
Proof.
  intros Hs Hr. destruct Hs as [| | | | conn f d e s s' _ Ea | conn f d m s s' _ Ea | conn conn' m r s s' Es
    | conn q o d s s' Ee | conn q d found o d' s s' Ee | conn r b bytes s s' Es | conn r b s s' Es | | |];
    rewrite ?release_server; cbn [sv_engine note snd]; try exact Hr.
  - apply admit_request_aside in Ea as (-> & _). exact Hr.
  - apply admit_request_aside in Ea as (-> & _). exact Hr.
  - pose proof (serve_request_server conn m s) as [H _]. rewrite Es in H. cbn [snd] in H. rewrite H. by apply engine_call_reachable.
  - rewrite on_engine_run in Ee. injection Ee as _ <-.
    exact (engine_next clock c (EEvaluate (lq_scope q) (lq_gens q)) _ Hr).
  - rewrite on_engine_run in Ee. injection Ee as _ <-. exact (engine_next clock c (EPublish found d) _ Hr).
  - pose proof (send_response_spec (finish_response r).1 (finish_response r).2 b s) as H. rewrite Es in H.
    destruct H as (-> & _). exact Hr.
  - pose proof (send_response_spec (finish_response r).1 (finish_response r).2 b s) as H. rewrite Es in H.
    destruct H as (-> & _). exact Hr.
Qed.

Lemma link_step_bound l s l' s' : link_step l s l' s' -> sv_max_frame_bytes s' = sv_max_frame_bytes s.
Proof.
  intros Hs. destruct Hs as [| | | | conn f d e s s' _ Ea | conn f d m s s' _ Ea | conn conn' m r s s' Es
    | conn q o d s s' Ee | conn q d found o d' s s' Ee | conn r b bytes s s' Es | conn r b s s' Es | | |];
    rewrite ?release_server; cbn [sv_max_frame_bytes note snd]; try reflexivity.
  - by apply admit_request_aside in Ea as (_ & _ & ->).
  - by apply admit_request_aside in Ea as (_ & _ & ->).
  - pose proof (serve_request_server conn m s) as (_ & _ & H & _). by rewrite Es in H.
  - rewrite on_engine_run in Ee. by injection Ee as _ <-.
  - rewrite on_engine_run in Ee. by injection Ee as _ <-.
  - pose proof (send_response_spec (finish_response r).1 (finish_response r).2 b s) as H. rewrite Es in H. by destruct H as (_ & _ & -> & _).
  - pose proof (send_response_spec (finish_response r).1 (finish_response r).2 b s) as H. rewrite Es in H. by destruct H as (_ & _ & -> & _).
Qed.

(** ** What a connection holds *)

(** A decoder of bound [max] that holds at most one frame; a request in service that is under
    the session its connection established. *)
Definition in_service (conn : ConnectionState) (m : Message) : Prop :=
  forall t, request_token m = Some t -> cn_established conn = true /\ tk_session t = cn_session conn.

Record link_ok (max : Z) (l : Link) : Prop := {
  lo_bound : fd_max (cn_decoder (lk_conn l)) = max;
  lo_pending : zlen (pending (cn_decoder (lk_conn l))) <= max + kFrameHeaderSize;
  lo_request :
    match lk_phase l with
    | Serving m => in_service (lk_conn l) m
    | Localizing q _ => in_service (lk_conn l) (MLocalizeRequest q)
    | _ => True
    end;
}.

Lemma received_u64 chunk : in_u64 (zlen (received chunk)).
Proof.
  unfold received, zlen, kRecvChunk. rewrite length_take. unfold in_u. split; [lia |].
  apply (Z.le_lt_trans _ (16 * 1024)); [lia | reflexivity].
Qed.

Lemma fd_fail_ok o d : decoder_ok d -> decoder_ok (fd_fail o d).2.
Proof. intros [H1 H2]. by split. Qed.

Lemma feed_decoder_ok c d : in_u64 (zlen c) -> decoder_ok d -> decoder_ok (feed c d).2.
Proof.
  intros Hc Hd. destruct (bool_decide_reflect (failure_ d = Ok)) as [Hf | Hf].
  - pose proof Hd as [H1 H2]. rewrite feed_ok by done.
    destruct (Z.ltb_spec (fd_max d + kFrameHeaderSize) (zlen (pending d) + zlen c)); split; try done.
    cbn [snd pending fd_max]. by rewrite zlen_app.
  - unfold feed. by rewrite bool_decide_false.
Qed.

Lemma next_decoder_ok d : decoder_ok d -> decoder_ok (next d).2 /\ fd_max (next d).2 = fd_max d.
Proof.
  intros Hd. pose proof Hd as [H1 H2]. destruct (next_spec_holds d H1) as [f tail _ [_ Hf] Hp | _ | o _]; [| done | done].
  split; [| reflexivity]. split; [exact H1 |]. cbn [snd pending fd_max]. rewrite Hp, zlen_app, zlen_frame_image in H2.
  pose proof (zlen_nonneg (f_payload f)). lia.
Qed.

Lemma link_ok_decoder max l : in_u32 max -> link_ok max l -> decoder_ok (cn_decoder (lk_conn l)).
Proof. intros Hm [H1 H2 _]. split; rewrite H1; done. Qed.

Lemma link_ok_intro max conn phase :
  decoder_ok (cn_decoder conn) -> fd_max (cn_decoder conn) = max ->
  match phase with
  | Serving m => in_service conn m
  | Localizing q _ => in_service conn (MLocalizeRequest q)
  | _ => True
  end -> link_ok max (MkLink conn phase).
Proof. intros [H1 H2] <- H3. by split. Qed.

Lemma serve_request_decoder conn m s : cn_decoder (serve_request clock conn m s).1.2 = cn_decoder conn.
Proof.
  destruct (response_type (message_type m)) eqn:Et; [| by destruct m].
  pose proof (serve_request_spec clock conn m s ltac:(by rewrite Et)) as H.
  destruct (serve_request clock conn m s) as [[r conn'] s']. destruct H as (_ & _ & _ & H). by apply served_traffic in H as [].
Qed.

Lemma link_step_ok max l s l' s' : in_u32 max -> link_ok max l -> link_step l s l' s' -> link_ok max l'.
Proof.
  intros Hm Hl Hs. pose proof (link_ok_decoder max l Hm Hl) as Hd. pose proof (lo_bound _ _ Hl) as Hb.
  destruct Hs as [conn chunk d s E | conn chunk o d s E | conn f d s E | conn o f d s E
    | conn f d e s s' E Ea | conn f d m s s' E Ea | conn conn' m r s s' Es | conn q o d s s' Ee | conn q d found o d' s s' Ee
    | conn r b bytes s s' Es | conn r b s s' Es | conn s | conn b s | conn b s];
    cbn [lk_conn lk_phase] in *;
    try (pose proof (feed_decoder_ok (received chunk) _ (received_u64 chunk) Hd) as Hd'; pose proof (feed_max (received chunk) (cn_decoder conn)) as Hb';
         rewrite E in Hd', Hb'; cbn [snd] in Hd', Hb');
    try (pose proof (next_decoder_ok _ Hd) as [Hd' Hb']; rewrite E in Hd', Hb'; cbn [snd] in Hd', Hb');
    try (apply link_ok_intro; cbn [with_decoder cn_decoder]; [assumption | congruence | exact I]).
  - apply link_ok_intro; cbn [with_decoder cn_decoder]; [assumption | congruence |]. intros t Ht.
    pose proof (admit_request_spec (with_decoder d conn) f (note FramesDecoded s).2) as H. rewrite Ea in H.
    destruct H as [_ (_ & _ & H)]. rewrite Ht in H. by destruct H.
  - assert (cn_decoder conn' = cn_decoder conn) as Hc.
    { pose proof (serve_request_decoder conn m s) as H. by rewrite Es in H. }
    apply link_ok_intro; [by rewrite Hc | by rewrite Hc | exact I].
  - apply link_ok_intro; [assumption | assumption |]. exact (lo_request _ _ Hl).
Qed.

(** ** Every frame is accounted for *)

(** A frame taken whose answer has not been counted. *)
Definition owed (l : Link) : Z :=
  match lk_phase l with
  | Serving _ | Localizing _ _ | Replying _ | Leaving true | Released true | Finished true => 1
  | Reading | Leaving false | Released false | Finished false => 0
  end.

Definition drift (s : ServerStats) : Z := ss_frames_decoded s - ss_requests_served s - ss_requests_rejected s.

Lemma same_traffic_drift s s' : same_traffic s s' -> drift s' = drift s.
Proof. unfold drift. by intros (-> & _ & -> & ->). Qed.

Lemma wrap_incr x : wrap 64 (incr x) = wrap 64 (x + 1).
Proof. unfold incr, u64_add, wrap. by rewrite Z.mod_mod. Qed.

Lemma drift_incr s : wrap 64 (drift (bump FramesDecoded s)) = wrap 64 (drift s + 1).
Proof. pose proof (wrap_incr (ss_frames_decoded s)). unfold drift. cbn -[incr wrap]. drift_arith. Qed.

Lemma drift_send (b : bool) s : wrap 64 (drift (bump (if b then RequestsRejected else RequestsServed) s)) = wrap 64 (drift s - 1).
Proof.
  pose proof (wrap_incr (ss_requests_served s)). pose proof (wrap_incr (ss_requests_rejected s)).
  unfold drift. destruct b; cbn -[incr wrap]; drift_arith.
Qed.

Lemma link_step_drift l s l' s' :
  link_step l s l' s' -> wrap 64 (drift (sv_stats s') - owed l') = wrap 64 (drift (sv_stats s) - owed l).
Proof.
  assert (forall x y a, wrap 64 x = wrap 64 (y + a) -> wrap 64 (x - a) = wrap 64 y) as Hshift.
  { intros x y a. drift_arith. }
  intros Hs. destruct Hs as [| | | | conn f d e s s' _ Ea | conn f d m s s' _ Ea | conn conn' m r s s' Es
    | conn q o d s s' Ee | conn q d found o d' s s' Ee | conn r b bytes s s' Es | conn r b s s' Es | | |];
    rewrite ?release_server; cbn [owed lk_phase sv_stats]; try reflexivity.
  - apply admit_request_aside in Ea as (_ & E & _). rewrite E, Z.sub_0_r. apply Hshift, drift_incr.
  - apply admit_request_aside in Ea as (_ & E & _). rewrite E, Z.sub_0_r. apply Hshift, drift_incr.
  - pose proof (serve_request_server conn m s) as (_ & _ & _ & H). rewrite Es in H. cbn [snd] in H.
    by rewrite (same_traffic_drift _ _ H).
  - rewrite on_engine_run in Ee. by injection Ee as _ <-.
  - rewrite on_engine_run in Ee. by injection Ee as _ <-.
  - pose proof (send_response_spec (finish_response r).1 (finish_response r).2 b s) as H. rewrite Es in H.
    destruct H as (_ & _ & _ & _ & _ & ->). rewrite Z.sub_0_r. apply drift_send.
  - pose proof (send_response_spec (finish_response r).1 (finish_response r).2 b s) as H. rewrite Es in H.
    by destruct H as (_ & _ & _ & -> & _).
Qed.

(** ** Sums over the connections *)

Definition total_of (f : Link -> Z) (ls : list Link) : Z := foldr (fun l acc => f l + acc) 0 ls.

Lemma total_of_insert f ls i l l' : ls !! i = Some l -> total_of f (<[i := l']> ls) = total_of f ls - f l + f l'.
Proof.
  revert i. induction ls as [| x ls IH]; intros [| i] H; [done | done | |].
  - injection H as ->. cbn. lia.
  - change (f x + total_of f (<[i := l']> ls) = f x + total_of f ls - f l + f l'). rewrite (IH i H). lia.
Qed.

Lemma total_of_snoc f ls l : total_of f (ls ++ [l]) = total_of f ls + f l.
Proof.
  induction ls as [| x ls IH]; [cbn; lia |]. change (f x + total_of f (ls ++ [l]) = f x + total_of f ls + f l). lia.
Qed.

Definition live (l : Link) : Z := if finished l then 0 else 1.

Lemma live_total y : live_connections y = total_of live (sy_links y).
Proof.
  unfold live_connections. induction (sy_links y) as [| l ls IH]; [done |].
  change (total_of live (l :: ls)) with (live l + total_of live ls). rewrite filter_cons. unfold live at 1. destruct (finished l); cbn [decide_rel]; [by rewrite decide_False by done |].
  rewrite decide_True by done. rewrite zlen_cons, IH. reflexivity.
Qed.

Lemma link_step_live l s l' s' : link_step l s l' s' -> live l = 1 /\ live l' <= 1.
Proof. intros Hs. destruct Hs; unfold live; cbn; split; lia. Qed.

(** ** Reachable systems *)

Record sys_inv (c : EngineConfig) (y : System) : Prop := {
  yi_engine : engine_reachable clock c (sv_engine (sy_server y));
  yi_sessions : session_reachable (ec_policy c) (sv_sessions (sy_server y));
  yi_bound : sv_max_frame_bytes (sy_server y) = max_frame_bytes (ec_policy c);
  yi_links : Forall (link_ok (max_frame_bytes (ec_policy c))) (sy_links y);
  yi_live : total_of live (sy_links y) <= Z.max 0 (sc_max_connections cfg);
  yi_traffic : wrap 64 (drift (sv_stats (sy_server y))) = wrap 64 (total_of owed (sy_links y));
}.

Lemma run_sessions_reachable p ops t : session_reachable p t -> session_reachable p (run_sessions ops t).
Proof. revert t. induction ops as [| op ops IH]; intros t Ht; [exact Ht |]. apply IH. by constructor. Qed.

Lemma sys_inv_step c op y : in_u32 (max_frame_bytes (ec_policy c)) -> sys_inv c y -> sys_inv c (sys_step clock cfg op y).
Proof.
  intros Hm [H1 H2 H3 H4 H5 H6].
  assert (session_reachable (ec_policy c) (sv_sessions (sy_server (sys_step clock cfg op y)))) as Hs
    by (rewrite step_sessions; by apply run_sessions_reachable).
  destruct (step_cases op y) as [| | Hc | i l l' s' Hi Hl | eop |]; split; cbn [sy_server sy_links put_link note snd sv_engine sv_max_frame_bytes sv_stats];
    try assumption.
  - apply Forall_app. split; [assumption |]. constructor; [| constructor].
    apply link_ok_intro; cbn [new_Connection cn_decoder new_FrameDecoder fd_max]; [| by rewrite H3 | exact I].
    split; rewrite H3; [exact Hm |]. change (zlen (@nil byte) <= max_frame_bytes (ec_policy c) + kFrameHeaderSize). rewrite zlen_nil. unfold in_u, kFrameHeaderSize in *. lia.
  - rewrite total_of_snoc. rewrite live_total in Hc. unfold live at 2. cbn [finished lk_phase]. lia.
  - rewrite total_of_snoc. cbn [owed lk_phase]. by rewrite Z.add_0_r.
  - by apply (link_step_engine c l (sy_server y) l').
  - by rewrite (link_step_bound _ _ _ _ Hl).
  - apply Forall_insert; [assumption |]. apply (link_step_ok _ l (sy_server y) l' s'); [exact Hm | | exact Hl].
    rewrite Forall_lookup in H4. by apply (H4 i).
  - rewrite (total_of_insert live _ i l l' Hi). apply link_step_live in Hl as [-> Hl]. lia.
  - rewrite (total_of_insert owed _ i l l' Hi). pose proof (link_step_drift _ _ _ _ Hl) as Hd. revert Hd H6. drift_arith.
  - by constructor.
Qed.

Lemma sys_reachable_inv c y :
  in_u32 (max_frame_bytes (ec_policy c)) -> sys_reachable clock cfg c y -> sys_inv c y.
Proof.
  intros Hm. induction 1 as [w Hw | op y _ IH]; [| by apply sys_inv_step].
  destruct (engine_reachable_inv clock c w Hw) as [_ Hp _ _].
  split; cbn [sy_server sy_links new_Server sv_engine sv_sessions sv_max_frame_bytes sv_stats total_of foldr];
    rewrite ?Hp; [exact Hw | constructor | reflexivity | constructor | lia | reflexivity].
Qed.

(** ** Every connection is accounted for *)

Definition held_open (s : ServerStats) : Z := ss_accepted s - ss_connections_closed s.

Lemma held_open_closed s : wrap 64 (held_open (bump ConnectionsClosed s)) = wrap 64 (held_open s - 1).
Proof. pose proof (wrap_incr (ss_connections_closed s)). unfold held_open. cbn -[incr wrap]. drift_arith. Qed.
Lemma held_open_accepted s : wrap 64 (held_open (bump Accepted s)) = wrap 64 (held_open s + 1).
Proof. pose proof (wrap_incr (ss_accepted s)). unfold held_open. cbn -[incr wrap]. drift_arith. Qed.

Lemma serve_request_held conn m s : held_open (sv_stats (serve_request clock conn m s).2) = held_open (sv_stats s).
Proof.
  destruct (response_type (message_type m)) eqn:Et; [| by destruct m].
  pose proof (serve_request_spec clock conn m s ltac:(by rewrite Et)) as H.
  destruct (serve_request clock conn m s) as [[r conn'] s']. destruct H as (_ & _ & _ & H). revert H. unfold served_aside. cbn [snd].
  destruct m; try (by intros (_ & _ & ->)). intros [_ H]. destruct (is_affirmative _); destruct H as [_ ->]; reflexivity.
Qed.

Lemma link_step_held l s l' s' :
  link_step l s l' s' -> wrap 64 (held_open (sv_stats s') - live l') = wrap 64 (held_open (sv_stats s) - live l).
Proof.
  intros Hs. destruct Hs as [| | | | conn f d e s s' _ Ea | conn f d m s s' _ Ea | conn conn' m r s s' Es
    | conn q o d s s' Ee | conn q d found o d' s s' Ee | conn r b bytes s s' Es | conn r b s s' Es | | |];
    rewrite ?release_server; unfold live; cbn [finished lk_phase sv_stats]; try reflexivity.
  - apply admit_request_aside in Ea as (_ & -> & _). reflexivity.
  - apply admit_request_aside in Ea as (_ & -> & _). reflexivity.
  - pose proof (serve_request_held conn m s) as H. rewrite Es in H. cbn [snd] in H. by rewrite H.
  - rewrite on_engine_run in Ee. by injection Ee as _ <-.
  - rewrite on_engine_run in Ee. by injection Ee as _ <-.
  - pose proof (send_response_spec (finish_response r).1 (finish_response r).2 b s) as H. rewrite Es in H.
    destruct H as (_ & _ & _ & _ & _ & ->). by destruct (finish_response r).2.
  - pose proof (send_response_spec (finish_response r).1 (finish_response r).2 b s) as H. rewrite Es in H.
    by destruct H as (_ & _ & _ & -> & _).
  - rewrite Z.sub_0_r. apply held_open_closed.
Qed.

Lemma sys_connections_accounted c y :
  sys_reachable clock cfg c y -> wrap 64 (held_open (sv_stats (sy_server y))) = wrap 64 (live_connections y).
Proof.
  intros Hy. rewrite live_total. induction Hy as [w Hw | op y _ IH]; [reflexivity |].
  destruct (step_cases op y) as [| | Hc | i l l' s' Hi Hl | eop |]; cbn [sy_server sy_links put_link note snd sv_stats]; try exact IH.
  - rewrite held_open_accepted, total_of_snoc. unfold live at 2. cbn [finished lk_phase]. revert IH. drift_arith.
  - rewrite (total_of_insert live _ i l l' Hi). pose proof (link_step_held _ _ _ _ Hl) as Hd. revert Hd IH. drift_arith.
Qed.

(** ** The requests put into service under one session *)

Definition token_of (id : SessionId) (m : Message) : list (BootId * IncarnationId * Z) :=
  match request_token m with
  | Some t => if tk_session t == id then [(tk_client_boot t, tk_client_incarnation t, seq_value (tk_seq t))] else []
  | None => []
  end.

(** The request a step puts into service. *)
Definition put_in_service (op : SysOp) (y : System) : option Message :=
  match op with
  | SysNext i =>
      match sy_links y !! i, sy_links (sys_step clock cfg op y) !! i with
      | Some (MkLink _ Reading), Some (MkLink _ (Serving m)) => Some m
      | _, _ => None
      end
  | _ => None
  end.

Definition served_under (id : SessionId) (op : SysOp) (y : System) : list (BootId * IncarnationId * Z) :=
  match put_in_service op y with Some m => token_of id m | None => [] end.

Definition sys_run (ops : list SysOp) (y : System) : System := foldl (fun y op => sys_step clock cfg op y) y ops.

Fixpoint served_all (id : SessionId) (ops : list SysOp) (y : System) : list (BootId * IncarnationId * Z) :=
  match ops with
  | [] => []
  | op :: ops => served_under id op y ++ served_all id ops (sys_step clock cfg op y)
  end.

Fixpoint session_trace (ops : list SysOp) (y : System) : list SessionOp :=
  match ops with
  | [] => []
  | op :: ops => session_ops op y ++ session_trace ops (sys_step clock cfg op y)
  end.

Lemma honoured_all_app id ops ops' : forall t,
  honoured_all id (ops ++ ops') t = honoured_all id ops t ++ honoured_all id ops' (run_sessions ops t).
Proof. induction ops as [| op ops IH]; intros t; [done |]. cbn [app honoured_all]. rewrite IH, app_assoc. reflexivity. Qed.

Lemma admit_under_honoured {A} `{Codec A} id conn (token : A -> SessionToken) (wrap : A -> Message) f s :
  (forall q, request_token (wrap q) = Some (token q)) -> parse_frame f = result_map wrap (decode_message A f) ->
  honoured_all id (admission_ops conn f) (sv_sessions s) =
  match (admit_under conn token wrap f s).1 with inr m => token_of id m | inl _ => [] end.
Proof.
  intros Ht Hp. unfold admit_under, admission_ops, decode_request. rewrite Hp.
  destruct (decode_message A f) as [q | o]; cbn [result_map]; [| done]. rewrite Ht.
  unfold require_session, mbind, ServerM_bind, mret, ServerM_ret, on_sessions, token_of.
  destruct (cn_established conn); cbn [negb andb]; [| done].
  destruct (tk_session (token q) == cn_session conn); cbn [negb]; [| done].
  cbn [honoured_all honoured]. destruct (validate _ _ _ _ _) as [[vo reason] t'] eqn:Ev. cbn [fst snd].
  destruct (is_affirmative vo); cbn [negb fst]; [| by rewrite andb_false_r].
  rewrite Ht, andb_true_r, app_nil_r. reflexivity.
Qed.

Lemma admission_honoured id conn f s :
  honoured_all id (admission_ops conn f) (sv_sessions s) =
  match (admit_request conn f s).1 with inr m => token_of id m | inl _ => [] end.
Proof.
  unfold admit_request. destruct (f_type f) eqn:Et;
    try (apply admit_under_honoured; [done | unfold parse_frame; rewrite Et; reflexivity]);
    (rewrite no_admission; [| unfold parse_frame; rewrite Et; intros m Hm; apply result_map_done in Hm as (q & _ & ->); reflexivity]);
    try reflexivity.
  - unfold mret, ServerM_ret. cbn [fst]. destruct (decode_request HelloRequest f); [done |]. by destruct (cn_established conn).
  - unfold mret, ServerM_ret. cbn [fst]. by destruct (decode_request GoodbyeRequest f).
Qed.

Lemma release_honours id conn t : honoured_all id (release_ops conn) t = [].
Proof. unfold release_ops. by destruct (cn_established conn). Qed.

Lemma step_honoured id op y : honoured_all id (session_ops op y) (sv_sessions (sy_server y)) = served_under id op y.
Proof.
  destruct op as [| | i chunk | i | i | i delivered | i | i | op |]; unfold served_under; cbn [session_ops put_in_service]; try reflexivity.
  - destruct (sy_links y !! i) as [[conn [| m | q d | r | b | b | b]] |] eqn:Ei; try reflexivity.
    assert (forall l s, sy_links (put_link i l s y) !! i = Some l) as Hput.
    { intros l s. cbn. apply list_lookup_insert_eq. by apply lookup_lt_Some in Ei. }
    cbn [sys_step]. rewrite Ei. unfold sys_next.
    destruct (next (cn_decoder conn)) as [[o [f |]] d]; destruct o; rewrite ?Hput; try reflexivity.
    pose proof (admission_honoured id (with_decoder d conn) f (note FramesDecoded (sy_server y)).2) as Ha.
    destruct (admit_request _ f _) as [[e | m] s']; rewrite Hput; exact Ha.
  - destruct (sy_links y !! i) as [[conn [| m | q d | r | b | b | b]] |]; try reflexivity. by destruct m.
  - destruct (sy_links y !! i) as [[conn [| m | q d | r | b | b | b]] |]; try reflexivity; apply release_honours.
Qed.

Lemma run_honoured id ops : forall y,
  honoured_all id (session_trace ops y) (sv_sessions (sy_server y)) = served_all id ops y.
Proof.
  induction ops as [| op ops IH]; intros y; [done |]. cbn [session_trace served_all].
  by rewrite honoured_all_app, step_honoured, <- step_sessions, IH.
Qed.

Lemma release_ops_length conn : (length (release_ops conn) <= 1)%nat.
Proof. unfold release_ops. destruct (cn_established conn); cbn; lia. Qed.

Lemma session_ops_length op y : (length (session_ops op y) <= 1)%nat.
Proof.
  assert (forall conn f, (length (admission_ops conn f) <= 1)%nat) as Ha.
  { intros conn f. unfold admission_ops. destruct (parse_frame f) as [m |]; [| cbn; lia].
    destruct (request_token m); [| cbn; lia]. destruct (_ && _); cbn; lia. }
  assert (forall conn, (length (release_ops conn) <= 1)%nat) as Hr by apply release_ops_length.
  destruct op as [| | i chunk | i | i | i delivered | i | i | op |]; cbn [session_ops]; try (cbn; lia);
    (destruct (sy_links y !! i) as [[conn [| m | q d | r | b | b | b]] |]; try (cbn; lia)).
  - destruct (next _) as [[o [f |]] d]; destruct o; try apply Ha; cbn; lia.
  - destruct m; cbn; lia.
  - apply Hr.
  - apply Hr.
Qed.

Lemma session_trace_length ops : forall y, zlen (session_trace ops y) <= zlen ops.
Proof.
  induction ops as [| op ops IH]; intros y; [done |]. cbn [session_trace]. rewrite zlen_app, zlen_cons.
  pose proof (IH (sys_step clock cfg op y)). pose proof (session_ops_length op y). unfold zlen in *. lia.
Qed.

End Spec.
