(* ===== verification/Deployment.v ===== *)
(** * The guarantees of the running server

    The theorems about [System], for every interleaving of the connections' threads. *)
From Stdlib Require Import Strings.String.
From S2P Require Import Prelude OrderedMap Core Checked Codec Counted Hash Ids Domain Policy Fixtures Ledger Classifier.
From S2P Require Import Localizer Fence Authority Record Journal Snapshot Durable Store Frame Session Messages Wire Engine EngineSpec Coordinator.
From S2P Require Import Server ServerSpec Service System SystemSpec.
Local Open Scope string_scope.
Local Open Scope list_scope.
Local Open Scope Z_scope.

(** ** Fixtures: two connections, one of which establishes a session *)

Definition fx_server_config : ServerConfig := MkServerConfig 0 16 2.
Definition fx_greeting : list SysOp :=
  [SysAccept; SysAccept; SysReceive 0 (frame_image fx_hello); SysNext 0; SysServe 0; SysReply 0 true].
Definition fx_system : System := sys_run fx_clock fx_server_config fx_greeting (MkSystem fx_server []).

(** A request; the other connection tries the same token; the first repeats it, then goes on. *)
Definition fx_traffic : list SysOp :=
  [SysReceive 0 (frame_image (fx_evaluate_frame 1)); SysNext 0;
   SysReceive 1 (frame_image (fx_evaluate_frame 2)); SysNext 1; SysServe 0; SysReply 1 true; SysReply 0 true;
   SysReceive 0 (frame_image (fx_evaluate_frame 1)); SysNext 0; SysReply 0 true;
   SysReceive 0 (frame_image (fx_evaluate_frame 2)); SysNext 0].

Lemma sys_run_reachable clock cfg c ops y : sys_reachable clock cfg c y -> sys_reachable clock cfg c (sys_run clock cfg ops y).
Proof. revert y. induction ops as [| op ops IH]; intros y Hy; [exact Hy |]. apply IH. by constructor. Qed.

Lemma fx_system_reachable : sys_reachable fx_clock fx_server_config fx_engine_config fx_system.
Proof. apply sys_run_reachable, sys_new, fx_failing_reachable. Qed.

Lemma fx_bound : in_u32 (max_frame_bytes (ec_policy fx_engine_config)).
Proof. vm_compute. split; [discriminate | reflexivity]. Qed.

(** ** Claims *)

(** Under any interleaving of connections, engine calls and stops, the engine is in a
    state of its own runs and the table in one of its own, so their guarantees hold behind
    the network, and every request in service acts under the session that its own
    connection established. *)
Theorem interleavings_are_runs clock cfg c y :
  in_u32 (max_frame_bytes (ec_policy c)) -> sys_reachable clock cfg c y ->
  engine_reachable clock c (sv_engine (sy_server y)) /\
  session_reachable (ec_policy c) (sv_sessions (sy_server y)) /\
  forall i conn m t, sy_links y !! i = Some (MkLink conn (Serving m)) -> request_token m = Some t ->
    cn_established conn = true /\ tk_session t = cn_session conn.
Proof.
  intros Hm Hy. destruct (sys_reachable_inv clock cfg c y Hm Hy) as [H1 H2 _ H4 _ _]. split; [exact H1 |]. split; [exact H2 |].
  intros i conn m t Hi. rewrite Forall_lookup in H4. apply (lo_request _ _ (H4 i _ Hi)).
Qed.

Example interleavings_are_runs_witness :
  engine_reachable fx_clock fx_engine_config (sv_engine (sy_server (sys_run fx_clock fx_server_config fx_traffic fx_system))).
Proof.
  apply (interleavings_are_runs fx_clock fx_server_config fx_engine_config); [exact fx_bound |].
  apply sys_run_reachable, fx_system_reachable.
Defined.

(** C35: the server's resources are bounded: never more live connections than configured,
    never more buffered bytes on a connection than one frame, and never more sessions than
    the policy allows, whatever the clients send. *)
Theorem server_resources_bounded clock cfg c y :
  in_u32 (max_frame_bytes (ec_policy c)) -> sys_reachable clock cfg c y ->
  live_connections y <= Z.max 0 (sc_max_connections cfg) /\
  (forall i l, sy_links y !! i = Some l ->
     zlen (pending (cn_decoder (lk_conn l))) <= max_frame_bytes (ec_policy c) + kFrameHeaderSize) /\
  zlen (sessions_ (sv_sessions (sy_server y))) <= Z.max 0 (max_sessions (ec_policy c)).
Proof.
  intros Hm Hy. destruct (sys_reachable_inv clock cfg c y Hm Hy) as [_ H2 _ H4 H5 _].
  split; [by rewrite live_total |]. split; [| exact (si_bound _ _ (session_reachable_inv _ _ H2))].
  intros i l Hi. rewrite Forall_lookup in H4. exact (lo_pending _ _ (H4 i l Hi)).
Qed.

Example server_resources_bounded_witness :
  live_connections fx_system = 2 /\ live_connections fx_system <= 2 /\
  zlen (sessions_ (sv_sessions (sy_server fx_system))) <= Z.max 0 (max_sessions default_policy).
Proof.
  destruct (server_resources_bounded fx_clock fx_server_config fx_engine_config fx_system fx_bound fx_system_reachable)
    as (H1 & _ & H3).
  split; [vm_compute; reflexivity |]. split; [exact H1 | exact H3].
Defined.

(** C36: every frame is accounted for: in every state of every interleaving the frames taken
    off the wire are those answered by a response, those answered by an error, and those
    still owed an answer (in service, or abandoned with their connection), as [uint64_t]
    counters count. *)
Theorem every_frame_accounted clock cfg c y :
  in_u32 (max_frame_bytes (ec_policy c)) -> sys_reachable clock cfg c y ->
  wrap 64 (ss_frames_decoded (sv_stats (sy_server y))) =
  wrap 64 (ss_requests_served (sv_stats (sy_server y)) + ss_requests_rejected (sv_stats (sy_server y)) +
           total_of owed (sy_links y)).
Proof.
  intros Hm Hy. destruct (sys_reachable_inv clock cfg c y Hm Hy) as [_ _ _ _ _ H]. unfold drift in H. revert H.
  drift_arith.
Qed.

Example every_frame_accounted_witness :
  let y := sys_run fx_clock fx_server_config fx_traffic fx_system in
  wrap 64 (ss_frames_decoded (sv_stats (sy_server y))) =
  wrap 64 (ss_requests_served (sv_stats (sy_server y)) + ss_requests_rejected (sv_stats (sy_server y)) + total_of owed (sy_links y)).
Proof.
  apply (every_frame_accounted fx_clock fx_server_config fx_engine_config); [exact fx_bound |].
  apply sys_run_reachable, fx_system_reachable.
Defined.

(** C8: at most once and in order, end to end: in any run of the server in which no step
    releases the session, whatever the interleaving and whatever the other connections
    send, the requests put into service under that session carry the identity it was
    established with and exactly the consecutive numbers behind the last one served. *)
Theorem requests_served_once_in_order clock cfg c ops y id r :
  in_u32 (max_frame_bytes (ec_policy c)) -> sys_reachable clock cfg c y ->
  map_find id (sessions_ (sv_sessions (sy_server y))) = Some r ->
  Forall (fun op => ends id op = false) (session_trace clock cfg ops y) ->
  0 <= seq_value (sr_last_seq r) -> seq_value (sr_last_seq r) + zlen ops < 2 ^ 64 ->
  exists n, 0 <= n <= zlen ops /\
    served_all clock cfg id ops y =
    map (fun q => (client_boot r, client_incarnation r, q)) (seqZ (seq_value (sr_last_seq r) + 1) n).
Proof.
  intros Hm Hy Hf He H0 Hb. destruct (sys_reachable_inv clock cfg c y Hm Hy) as [_ H2 _ _ _ _].
  pose proof (session_trace_length clock cfg ops y) as Hl.
  destruct (honoured_history (ec_policy c) (session_trace clock cfg ops y) _ id r (session_reachable_inv _ _ H2) Hf He H0 ltac:(lia))
    as (r' & n & _ & _ & _ & Hn & _ & A).
  rewrite run_honoured in A. exists n. split; [lia | exact A].
Qed.

Example requests_served_once_in_order_witness :
  let id := cn_session fx_established.1.2 in
  exists n, 0 <= n <= 12 /\
    served_all fx_clock fx_server_config id fx_traffic fx_system = map (fun q => (MkId 2, MkId 3, q)) (seqZ 1 n) /\ n = 2.
Proof.
  cbv zeta. destruct (map_find (cn_session fx_established.1.2) (sessions_ (sv_sessions (sy_server fx_system)))) as [r |] eqn:Er;
    [| vm_compute in Er; discriminate].
  assert (client_boot r = MkId 2 /\ client_incarnation r = MkId 3 /\ seq_value (sr_last_seq r) = 0) as (Hb & Hi & Hq)
    by (vm_compute in Er; injection Er as <-; repeat split).
  destruct (requests_served_once_in_order fx_clock fx_server_config fx_engine_config fx_traffic fx_system
    (cn_session fx_established.1.2) r fx_bound fx_system_reachable Er) as (n & Hn & A).
  - vm_compute. repeat constructor.
  - rewrite Hq. lia.
  - rewrite Hq. vm_compute. reflexivity.
  - exists n. rewrite Hb, Hi, Hq in A. split; [exact Hn |]. split; [exact A |].
    apply (f_equal length) in A. rewrite length_map, length_seqZ in A.
    assert (length (served_all fx_clock fx_server_config (cn_session fx_established.1.2) fx_traffic fx_system) = 2%nat) as Hl
      by (vm_compute; reflexivity).
    lia.
Defined.
