(* ===== verification/Replies.v ===== *)
(** * The size of a reply

    Every response the server has ready to send is a frame whose payload one writer filled, so
    it is at most the largest document: this bounds the bytes a thread has left to send. *)
From S2P Require Import Prelude OrderedMap Core Checked Codec Counted Hash Ids Domain Policy Fixtures Ledger Classifier.
From S2P Require Import Localizer Fence Authority Record Journal Snapshot Durable Store Frame Session Messages Wire Engine EngineSpec Coordinator.
From S2P Require Import Server ServerSpec Service System SystemSpec.
Local Open Scope list_scope.
Local Open Scope Z_scope.

(** ** Encoders that keep to the writer's bound, whatever they are given *)

Definition Bounded (e : Writer -> Writer) : Prop :=
  forall w, zlen (buf_ w) <= max_ w -> max_ (e w) = max_ w /\ zlen (buf_ (e w)) <= max_ (e w).

Lemma bounded_id : Bounded (fun w => w).
Proof. by intros w Hw. Qed.

Lemma bounded_comp e1 e2 : Bounded e1 -> Bounded e2 -> Bounded (fun w => e2 (e1 w)).
Proof. intros H1 H2 w Hw. destruct (H1 w Hw) as [<- Hw1]. by apply H2. Qed.

Lemma bounded_fail e : Bounded e -> Bounded (fun w => writer_fail (e w)).
Proof. intros He w Hw. by apply He. Qed.

Lemma bounded_put_byte b : Bounded (put_byte b).
Proof.
  intros w Hw. unfold put_byte. destruct (ok_ w); cbn [negb]; [| done]. destruct (Z.leb_spec (max_ w) (zlen (buf_ w))); [done |].
  cbn [max_ buf_]. rewrite zlen_app, zlen_cons, zlen_nil. split; [done | lia].
Qed.

Lemma bounded_seqw es : Forall Bounded es -> Bounded (seqw es).
Proof.
  unfold seqw. induction 1 as [| e es He _ IH]; [apply bounded_id |].
  exact (bounded_comp e (fun w => foldl (fun w e => e w) w es) He IH).
Qed.

Lemma bounded_put_le n v : Bounded (put_le n v).
Proof.
  unfold put_le. induction (seq 0 n) as [| i l IH]; [apply bounded_id |].
  exact (bounded_comp _ (fun w => foldl (fun w i => put_byte (byte_at v (Z.of_nat i)) w) w l) (bounded_put_byte _) IH).
Qed.

Lemma bounded_u16 v : Bounded (w_u16 v).
Proof. exact (bounded_comp _ _ (bounded_put_byte _) (bounded_put_byte _)). Qed.

Lemma bounded_map {A} (e : A -> Writer -> Writer) l : (forall x, Bounded (e x)) -> Forall Bounded (map e l).
Proof. intros He. induction l; by constructor. Qed.

Ltac bounded_step :=
  lazymatch goal with
  | |- Forall _ [] => apply List.Forall_nil
  | |- Forall _ (_ :: _) => apply List.Forall_cons
  | |- Forall _ (map _ _) => apply bounded_map; intros ?
  | |- Bounded (fun w => w) => exact bounded_id
  | |- Bounded (put_byte _) => exact (bounded_put_byte _)
  | |- Bounded (put_le _ _) => exact (bounded_put_le _ _)
  | |- Bounded (w_u16 _) => exact (bounded_u16 _)
  | |- Bounded (seqw _) => apply bounded_seqw
  | |- Bounded (if ?b then _ else _) => destruct b
  | |- Bounded ?e => let t := eval red in e in change (Bounded t)
  end.
Ltac bounded := repeat bounded_step.

Lemma bounded_answer {A} `{Codec A} (a : A) payload :
  Bounded (encode a) -> encode_bounded kDefaultMaxDocumentBytes a = Some payload -> zlen payload <= kDefaultMaxDocumentBytes.
Proof.
  intros He. unfold encode_bounded. destruct (ok_ _); [| done]. intros [= <-].
  destruct (He (new_Writer kDefaultMaxDocumentBytes)) as [Hm Hb]; [by vm_compute |]. rewrite Hm in Hb. exact Hb.
Qed.

Lemma large_answer_bounded clock m w payload :
  large_answer clock m w = Some payload -> zlen payload <= kDefaultMaxDocumentBytes.
Proof.
  destruct m as [q | | q | | q | | q | | q | | q | | q | | q | | q | | q | | q | |]; try discriminate; cbn [large_answer].
  - destruct (evaluate _ _ _ _) as [[o d] w']. cbn [fst]. apply bounded_answer. bounded.
  - destruct (engine_localize _ _ _ _ _ _) as [[o d] w']. cbn [fst]. apply bounded_answer. bounded.
  - destruct (restore _ _ _ _) as [[o d] w']. cbn [fst]. apply bounded_answer. bounded.
  - destruct (engine_lineage _ _) as [[[o es] n] k]. apply bounded_answer. bounded.
Qed.

(** ** Replies that are ready to send *)

Definition fits (r : Reply) : Prop := zlen (f_payload (finish_response r).1) <= kDefaultMaxDocumentBytes.

Lemma reply_fits t ans r :
  reply_ok t ans r -> (forall payload, ans = Some payload -> zlen payload <= kDefaultMaxDocumentBytes) -> fits r.
Proof.
  intros Hr Ha. pose proof (finish_response_spec t ans r Hr) as Hs. unfold fits. destruct (finish_response r) as [g is_error].
  destruct Hs as [_ Hs]. cbn [fst]. destruct is_error; [destruct Hs as (e & _ & _ & _ & Hz); unfold kDefaultMaxDocumentBytes; lia |].
  destruct Hs as (_ & Hs & Hl). destruct (large_response t); [by apply Ha, Hl |]. specialize (Hs eq_refl). unfold kDefaultMaxDocumentBytes. lia.
Qed.

(** The bytes of a reply that fits are bounded. *)
Lemma response_bytes_bounded r bytes :
  fits r -> response_bytes (finish_response r).1 = Some bytes -> zlen bytes <= kDefaultMaxDocumentBytes.
Proof.
  unfold fits. intros Hf. rewrite response_bytes_spec by (unfold kDefaultMaxDocumentBytes in Hf; lia).
  destruct (Z.leb_spec (zlen (frame_image (finish_response r).1)) kDefaultMaxDocumentBytes); [| done]. by intros [= <-].
Qed.

Section Replies.
Context (clock : nat -> WallNs) (cfg : ServerConfig).

(** A request that is served has a response, and a reply that is ready fits. *)
Definition phase_fits (l : Link) : Prop :=
  match lk_phase l with
  | Serving m => response_type (message_type m) <> None
  | Replying r => fits r
  | _ => True
  end.

Lemma refused_fits e : refusal e -> fits (inl e).
Proof. intros He. by apply (reply_fits MessageType.HelloRequest None). Qed.

Lemma link_step_fits l s l' s' : phase_fits l -> link_step clock l s l' s' -> phase_fits l'.
Proof.
  intros Hl Hs. destruct Hs as [| | | | conn f d e s s' _ Ea | conn f d m s s' _ Ea | conn conn' m r s s' Es
    | conn q o d s s' Ee | conn q d found o d' s s' Ee | conn r b bytes s s' Es | conn r b s s' Es | | |];
    unfold phase_fits in *; cbn [lk_phase] in *; try exact I.
  - pose proof (admit_request_spec (with_decoder d conn) f (note FramesDecoded s).2) as Ha. rewrite Ea in Ha. destruct Ha as [_ Ha]. by apply refused_fits.
  - pose proof (admit_request_spec (with_decoder d conn) f (note FramesDecoded s).2) as Ha. rewrite Ea in Ha. by apply admitted_request in Ha.
  - pose proof (serve_request_spec clock conn m s Hl) as Hr. rewrite Es in Hr. destruct Hr as (_ & _ & Hr & _).
    apply (reply_fits _ _ _ Hr). intros payload. apply large_answer_bounded.
  - unfold respond_checked. destruct (encode_bounded _ _) as [payload |] eqn:E.
    + unfold fits. apply (bounded_answer (MkLocalizeResponse o d')) in E; [| bounded]. cbn [finish_response f_payload f_type].
      destruct (_ && _); [by vm_compute | exact E].
    + apply refused_fits, reject_refusal; [discriminate | reflexivity].
Qed.

Lemma sys_fits c y : sys_reachable clock cfg c y -> Forall phase_fits (sy_links y).
Proof.
  induction 1 as [w Hw | op y _ IH]; [constructor |].
  destruct (step_cases clock cfg op y) as [| | Hc | i l l' s' Hi Hl | eop |]; try exact IH; cbn [sy_links put_link].
  - apply Forall_app. split; [exact IH |]. by constructor.
  - apply Forall_insert; [exact IH |]. rewrite Forall_lookup in IH. exact (link_step_fits l _ l' _ (IH i l Hi) Hl).
Qed.
End Replies.
