(* ===== verification/Lifecycle.v ===== *)
(** * The threads of the server

    Models the lifecycle of [include/blackhole/service/server.hpp] and
    [src/service/server.cpp]: [start] and [stop], the accept thread, one thread per connection
    and the slots that keep them, over the socket calls of [Sockets] and the data of [System].
    A thread is where it is in its function; a step of a thread is the code from there to the
    next call, lock or atomic, and a thread that waits (in [accept], [send] or [recv], in a
    join) has no step. A run is any interleaving of the threads with the rest of the process, which may open and
    close handles of its own and call the engine. *)
From Stdlib Require Import Strings.String.
From stdpp Require Import gmap.
From S2P Require Import Prelude OrderedMap Core Checked Codec Counted Hash Ids Domain Policy Fixtures Ledger Classifier.
From S2P Require Import Localizer Fence Authority Record Journal Snapshot Durable Store Net Sockets Frame Session Messages Wire.
From S2P Require Import Engine EngineSpec Coordinator Server ServerSpec Service System SystemSpec.
Local Open Scope string_scope.
Local Open Scope list_scope.
Local Open Scope Z_scope.

(** The readiness slice. src/service/server.cpp:18-18 kReadinessSliceMs *)
Definition kReadinessSliceMs : Z := 50.

(** ** The threads *)

(** Where the thread of a connection is: at the top of its loop, waiting for bytes, receiving,
    in the loop over frames, sending the rest of a response, and behind the loop: shutting down, releasing the session,
    closing, counting the end, and setting [done]. [TDone]: [done] is set, the last thing the
    thread does.
    src/service/server.cpp:148-201 Server::serve_connection (thread) *)
Inductive ThreadPhase := TTop | TWait | TRecv | TFrames | TSend (rest : list byte) | TShut | TRelease | TClose | TCount | TMark | TDone.
#[export] Instance ThreadPhase_eq_dec : EqDecision ThreadPhase.
Proof. solve_decision. Defined.

Record Thread := MkThread { th_socket : Z; th_phase : ThreadPhase }.

(** A slot: the socket and the thread that serves it; [done] is that thread's [TDone].
    include/blackhole/service/server.hpp:80-84 Server::ConnectionSlot *)
Record Slot := MkSlot { sl_socket : Z; sl_thread : nat }.

(** Where the accept thread is. [AOff]: there is none, or it was joined; [AExit]: its function
    returned. src/service/server.cpp:103-146 Server::accept_loop (thread) *)
Inductive AcceptPhase :=
| AOff | ATop | AAccept | AGot (s : Z) | AReap (s : Z) | ACheck (s : Z) | APush (i : nat) | AExit.

(** Where the owning thread is: outside the server, or in [stop].
    src/service/server.cpp:569-601 Server::stop (thread) *)
Inductive OwnerPhase :=
| OFree | OWake | OSweep | OShut (l : list Z) | OJoinAccept | OJoin (l : list nat).
#[export] Instance OwnerPhase_eq_dec : EqDecision OwnerPhase.
Proof. solve_decision. Defined.

(** The server with its threads: the data of [System], the sockets of the process, the members of
    the server, and where each thread is. include/blackhole/service/server.hpp:101-109 Server (threads) *)
Record Life (W : Type) := MkLife {
  lf_sys : System;
  lf_os : W;
  lf_listener : Z;
  lf_port : Z;
  lf_running : bool;
  lf_stopping : bool;
  lf_accept : AcceptPhase;
  lf_owner : OwnerPhase;
  lf_slots : list Slot;
  lf_threads : list Thread;
}.
Arguments MkLife {W}.
Arguments lf_sys {W}. Arguments lf_os {W}. Arguments lf_listener {W}. Arguments lf_port {W}. Arguments lf_running {W}.
Arguments lf_stopping {W}. Arguments lf_accept {W}. Arguments lf_owner {W}. Arguments lf_slots {W}. Arguments lf_threads {W}.

Inductive LifeOp :=
| LStart
| LStop
| LOwner
| LAccept
| LThread (i : nat)
| LEngine (op : EngineOp).

Section Lifecycle.
Context {W : Type} `{SocketOs W} (clock : nat -> WallNs) (cfg : ServerConfig).
Implicit Types y : Life W.

Definition put_sys (s : System) (y : Life W) : Life W :=
  MkLife s (lf_os y) (lf_listener y) (lf_port y) (lf_running y) (lf_stopping y) (lf_accept y) (lf_owner y) (lf_slots y) (lf_threads y).
Definition put_os (w : W) (y : Life W) : Life W :=
  MkLife (lf_sys y) w (lf_listener y) (lf_port y) (lf_running y) (lf_stopping y) (lf_accept y) (lf_owner y) (lf_slots y) (lf_threads y).
Definition put_listener (h port : Z) (y : Life W) : Life W :=
  MkLife (lf_sys y) (lf_os y) h port (lf_running y) (lf_stopping y) (lf_accept y) (lf_owner y) (lf_slots y) (lf_threads y).
Definition put_flags (running stopping : bool) (y : Life W) : Life W :=
  MkLife (lf_sys y) (lf_os y) (lf_listener y) (lf_port y) running stopping (lf_accept y) (lf_owner y) (lf_slots y) (lf_threads y).
Definition put_accept (a : AcceptPhase) (y : Life W) : Life W :=
  MkLife (lf_sys y) (lf_os y) (lf_listener y) (lf_port y) (lf_running y) (lf_stopping y) a (lf_owner y) (lf_slots y) (lf_threads y).
Definition put_owner (o : OwnerPhase) (y : Life W) : Life W :=
  MkLife (lf_sys y) (lf_os y) (lf_listener y) (lf_port y) (lf_running y) (lf_stopping y) (lf_accept y) o (lf_slots y) (lf_threads y).
Definition put_slots (l : list Slot) (y : Life W) : Life W :=
  MkLife (lf_sys y) (lf_os y) (lf_listener y) (lf_port y) (lf_running y) (lf_stopping y) (lf_accept y) (lf_owner y) l (lf_threads y).
Definition put_threads (l : list Thread) (y : Life W) : Life W :=
  MkLife (lf_sys y) (lf_os y) (lf_listener y) (lf_port y) (lf_running y) (lf_stopping y) (lf_accept y) (lf_owner y) (lf_slots y) l.

(** A server that was never started, on a process with its sockets. *)
Definition new_Life (e : EngineWorld) (w : W) : Life W :=
  MkLife (MkSystem (new_Server e) []) w kInvalidSocketHandle 0 false false AOff OFree [] [].

(** ** Start and stop *)

(** The outcome, the bound port and the server. src/service/server.cpp:54-67 Server::start *)
Definition server_start (y : Life W) : Outcome * Z * Life W :=
  if lf_running y then (Invalid, 0, y)
  else if negb sys_startup then (Unavailable, 0, y)
  else
    let '(lr, w) := net_listen_loopback (sc_port cfg) (sc_backlog cfg) (lf_os y) in
    let y := put_os w y in
    if negb (is_affirmative (li_outcome lr)) then (li_outcome lr, 0, y)
    else
      (Ok, li_port lr, put_accept ATop (put_flags true false (put_listener (li_handle lr) (li_port lr) y))).

(** The start of [stop]: it returns at once, or goes on. src/service/server.cpp:570-571 Server::stop (entry) *)
Definition stop_begin (y : Life W) : Life W :=
  if negb (lf_running y) && (lf_listener y =? kInvalidSocketHandle) then y
  else put_owner OWake (put_flags (lf_running y) true y).

(** The wake-up connection. src/service/server.cpp:575-581 Server::stop (wake) *)
Definition stop_wake (y : Life W) : Life W :=
  let '(o, s, _, w) := net_connect_loopback (lf_port y) (lf_os y) in
  put_owner OSweep (put_os (if is_affirmative o then (net_close s w).2 else w) y).

Definition thread_done (y : Life W) (i : nat) : bool :=
  match lf_threads y !! i with Some t => th_phase t == TDone | None => true end.

(** [join_all_connections] takes the threads out of their slots, and joins them.
    src/service/server.cpp:89-101 Server::join_all_connections *)
Definition take_all (y : Life W) : Life W := put_owner (OJoin (map sl_thread (lf_slots y))) (put_slots [] y).

(** The end of [stop]. src/service/server.cpp:597-600 Server::stop (end) *)
Definition stop_end (y : Life W) : Life W :=
  let '(h, w) := net_close (lf_listener y) (lf_os y) in
  put_owner OFree (put_flags false (lf_stopping y)
    (put_listener h (lf_port y) (put_os w (put_sys (sys_step clock cfg SysStop (lf_sys y)) y)))).

(** The next step of [stop]; a join waits for its thread. src/service/server.cpp:569-601 Server::stop *)
Definition owner_step (y : Life W) : option (Life W) :=
  match lf_owner y with
  | OFree => None
  | OWake => Some (stop_wake y)
  | OSweep => Some (put_owner (OShut (map sl_socket (lf_slots y))) y)
  | OShut (h :: l) => Some (put_owner (OShut l) (put_os (net_shutdown h (lf_os y)) y))
  | OShut [] => Some (put_owner OJoinAccept y)
  | OJoinAccept =>
      match lf_accept y with
      | AOff | AExit => Some (take_all (put_accept AOff y))
      | _ => None
      end
  | OJoin (i :: l) => if thread_done y i then Some (put_owner (OJoin l) y) else None
  | OJoin [] => Some (stop_end y)
  end.

(** ** The accept thread *)

(** Finished threads leave their slots, and their join does not wait.
    src/service/server.cpp:69-87 Server::reap_finished *)
Definition reap_finished (y : Life W) : Life W :=
  put_slots (filter (fun sl => thread_done y (sl_thread sl) = false) (lf_slots y)) y.

(** A connection is dropped: shut down and closed. *)
Definition drop_socket (s : Z) (w : W) : W := (net_close s (net_shutdown s w)).2.

(** The socket is over capacity, or gets a thread.
    src/service/server.cpp:118-140 Server::accept_loop (admission) *)
Definition admit_socket (s : Z) (y : Life W) : Life W :=
  if sc_max_connections cfg <=? zlen (lf_slots y) then
    put_accept ATop (put_os (drop_socket s (lf_os y)) (put_sys (sys_step clock cfg SysTurnAway (lf_sys y)) y))
  else
    put_accept (APush (length (lf_threads y)))
      (put_threads (lf_threads y ++ [MkThread s TTop]) (put_sys (sys_step clock cfg SysAccept (lf_sys y)) y)).

(** The socket of thread [i]. *)
Definition socket_of (y : Life W) (i : nat) : Z :=
  match lf_threads y !! i with Some t => th_socket t | None => kInvalidSocketHandle end.

(** src/service/server.cpp:103-146 Server::accept_loop *)
Definition accept_step (y : Life W) : option (Life W) :=
  match lf_accept y with
  | AOff | AExit => None
  | ATop => Some (put_accept (if lf_stopping y then AExit else AAccept) y)
  | AAccept =>
      if sys_waits (lf_listener y) (lf_os y) then None
      else
        let '(o, s, _, w) := net_accept (lf_listener y) (lf_os y) in
        let a := if is_affirmative o then AGot s else if lf_stopping y then AExit else ATop in
        Some (put_accept a (put_os w y))
  | AGot s =>
      if lf_stopping y then Some (put_accept AExit (put_os (drop_socket s (lf_os y)) y))
      else Some (put_accept (AReap s) y)
  | AReap s => Some (put_accept (ACheck s) (reap_finished y))
  | ACheck s => Some (admit_socket s y)
  | APush i => Some (put_accept ATop (put_slots (lf_slots y ++ [MkSlot (socket_of y i) i]) y))
  end.

(** ** The threads of the connections *)

Definition put_phase (i : nat) (p : ThreadPhase) (y : Life W) : Life W :=
  match lf_threads y !! i with
  | Some t => put_threads (<[i := MkThread (th_socket t) p]> (lf_threads y)) y
  | None => y
  end.

(** The flag [closed] of the thread: connection [i] is behind its loop. *)
Definition ended (i : nat) (z : System) : bool := match sy_links z !! i with Some l => left_loop l | None => true end.

(** Where the thread goes on behind a step on its connection. *)
Definition after_step (i : nat) (p : ThreadPhase) (y : Life W) : Life W :=
  put_phase i (if ended i (lf_sys y) then TShut else p) y.

(** A step on the connection. *)
Definition on_link (op : SysOp) (y : Life W) : Life W := put_sys (sys_step clock cfg op (lf_sys y)) y.

(** The response of connection [i] is written and the thread goes on to send it, or it does not
    fit. src/service/server.cpp:203-206 Server::send_response (writing) *)
Definition reply_step (i : nat) (r : Reply) (y : Life W) : Life W :=
  match response_bytes (finish_response r).1 with
  | Some bytes => put_phase i (TSend bytes) y
  | None => after_step i TFrames (on_link (SysReply i false) y)
  end.

(** One pass of [net_send_all] on the rest of the response; [send] may wait.
    src/service/server.cpp:207-219 Server::send_response (sending) *)
Definition send_step (i : nat) (s : Z) (rest : list byte) (y : Life W) : option (Life W) :=
  if zlen rest =? 0 then Some (after_step i TFrames (on_link (SysReply i true) y))
  else
    match send_some (H := handle_api s) rest (lf_os y) with
    | None => None
    | Some (None, w) => Some (after_step i TFrames (put_os w (on_link (SysReply i false) y)))
    | Some (Some rest, w) => Some (put_phase i (TSend rest) (put_os w y))
    end.

(** The loop over the frames that have arrived.
    src/service/server.cpp:172-190 Server::serve_connection (frames) *)
Definition frames_step (i : nat) (y : Life W) : Life W :=
  match sy_links (lf_sys y) !! i with
  | Some (MkLink conn Reading) =>
      let p := if (next (cn_decoder conn)).1.1 == NotFound then TTop else TFrames in
      after_step i p (on_link (SysNext i) y)
  | Some (MkLink _ (Replying r)) => reply_step i r y
  | Some (MkLink _ (Leaving _)) | Some (MkLink _ (Released _)) | Some (MkLink _ (Finished _)) | None => put_phase i TShut y
  | Some _ => after_step i TFrames (on_link (SysServe i) y)
  end.

(** src/service/server.cpp:148-201 Server::serve_connection *)
Definition thread_step (i : nat) (y : Life W) : option (Life W) :=
  match lf_threads y !! i with
  | None | Some (MkThread _ TDone) => None
  | Some (MkThread _ TTop) => Some (put_phase i (if lf_stopping y then TShut else TWait) y)
  | Some (MkThread s TWait) =>
      let '(o, readable, w) := net_wait_readable s kReadinessSliceMs (lf_os y) in
      let p := if negb (is_affirmative o) then TShut else if readable then TRecv else TTop in
      Some (put_phase i p (put_os w y))
  | Some (MkThread s TRecv) =>
      match net_recv_some (H := handle_api s) kRecvChunk (lf_os y) with
      | None => None
      | Some (o, bytes, _, w) =>
          let y := put_os w y in
          if negb (is_affirmative o) || (zlen bytes =? 0) then Some (put_phase i TShut y)
          else Some (after_step i TFrames (on_link (SysReceive i bytes) y))
      end
  | Some (MkThread _ TFrames) => Some (frames_step i y)
  | Some (MkThread s (TSend rest)) => send_step i s rest y
  | Some (MkThread s TShut) => Some (put_phase i TRelease (put_os (net_shutdown s (lf_os y)) y))
  | Some (MkThread _ TRelease) => Some (put_phase i TClose (on_link (SysRelease i) y))
  | Some (MkThread s TClose) => Some (put_phase i TCount (put_os (net_close s (lf_os y)).2 y))
  | Some (MkThread _ TCount) => Some (put_phase i TMark (on_link (SysClose i) y))
  | Some (MkThread _ TMark) => Some (put_phase i TDone y)
  end.

(** ** Runs *)

Definition life_step (op : LifeOp) (y : Life W) : option (Life W) :=
  match op with
  | LStart => match lf_owner y with OFree => Some (server_start y).2 | _ => None end
  | LStop => match lf_owner y with OFree => Some (stop_begin y) | _ => None end
  | LOwner => owner_step y
  | LAccept => accept_step y
  | LThread i => thread_step i y
  | LEngine op => Some (put_sys (sys_step clock cfg (SysEngine op) (lf_sys y)) y)
  end.

(** The steps of the server's own threads and of [stop]. *)
Definition server_op (op : LifeOp) : bool :=
  match op with LOwner | LAccept | LThread _ => true | _ => false end.

(** Who holds a handle: the listener, a socket just accepted, and the socket of every thread
    that has not closed it. *)
Inductive Holder := HListener | HAccept | HThread (i : nat).
#[export] Instance Holder_eq_dec : EqDecision Holder.
Proof. solve_decision. Defined.

(** The thread has not closed its socket. *)
Definition holds_socket (p : ThreadPhase) : bool := match p with TCount | TMark | TDone => false | _ => true end.

Definition handle_of (y : Life W) (o : Holder) : option Z :=
  match o with
  | HListener => if lf_listener y =? kInvalidSocketHandle then None else Some (lf_listener y)
  | HAccept => match lf_accept y with AGot s | AReap s | ACheck s => Some s | _ => None end
  | HThread i =>
      match lf_threads y !! i with
      | Some t => if holds_socket (th_phase t) then Some (th_socket t) else None
      | None => None
      end
  end.

Section Runs.
Context (view : W -> OsView).

(** What the rest of the world may do: anything but close, or take connections of, what the
    server holds. *)
Definition others_may (y : Life W) (w : W) : Prop :=
  (forall o h, handle_of y o = Some h -> h ∈ os_open (view (lf_os y)) -> h ∈ os_open (view w)) /\
  os_ports (view w) !! lf_listener y = os_ports (view (lf_os y)) !! lf_listener y /\
  (lf_listener y ∈ os_pending (view (lf_os y)) -> lf_listener y ∈ os_pending (view w)).

Inductive life_reachable (c : EngineConfig) : Life W -> Prop :=
| life_new e w : engine_reachable clock c e -> life_reachable c (new_Life e w)
| life_next op y y' : life_reachable c y -> life_step op y = Some y' -> life_reachable c y'
| life_others y w : life_reachable c y -> others_may y w -> life_reachable c (put_os w y).
End Runs.
End Lifecycle.
