(* ===== verification/LifecycleSpec.v ===== *)
(** * The threads of the server, specified

    The lemmas about [Lifecycle]: what each thread may be doing while the others are where
    they are, that a thread is in step with its connection, and that every running thread is in
    a slot, about to get one, or about to be joined. *)
From Stdlib Require Import Strings.String.
From stdpp Require Import gmap.
From S2P Require Import Prelude OrderedMap Core Checked Codec Counted Hash Ids Domain Policy Fixtures Ledger Classifier.
From S2P Require Import Localizer Fence Authority Record Journal Snapshot Durable Store Net Sockets Frame Session Messages Wire.
From S2P Require Import Engine EngineSpec Coordinator Server ServerSpec Service System SystemSpec Replies Lifecycle.
Local Open Scope string_scope.
Local Open Scope list_scope.
Local Open Scope Z_scope.

Section Spec.
Context {W : Type} `{SocketOs W} (clock : nat -> WallNs) (cfg : ServerConfig).
Implicit Types y : Life W.

(** ** What a step of [System] does to the connections *)

Definition op_index (op : SysOp) : option nat :=
  match op with
  | SysReceive i _ | SysNext i | SysServe i | SysReply i _ | SysRelease i | SysClose i => Some i
  | _ => None
  end.

Lemma step_at op i (z : System) :
  op_index op = Some i -> exists l, sy_links (sys_step clock cfg op z) = <[i := l]> (sy_links z).
Proof.
  assert (exists l, sy_links z = <[i := l]> (sy_links z)) as Hid.
  { destruct (sy_links z !! i) as [l |] eqn:E; [exists l; by rewrite list_insert_id |].
    exists (MkLink (new_Connection (sy_server z)) Reading). symmetry. apply list_insert_ge. by apply lookup_ge_None. }
  destruct op as [| | j chunk | j | j | j delivered | j | j | op |]; intros [= ->]; cbn [sys_step];
    destruct (sy_links z !! i) as [[conn [| m | q d | r | b | b | b]] |]; try exact Hid.
  - unfold sys_receive. destruct (feed _ _) as [fo d]. destruct (is_affirmative fo); by eexists.
  - unfold sys_next. destruct (next _) as [[[] [f |]] d]; try by eexists. destruct (admit_request _ _ _) as [[e | m] s]; by eexists.
  - destruct m; cbn [sys_serve]; try (destruct (serve_request _ _ _ _) as [[r conn'] s]; by eexists).
    destruct (on_engine _ _) as [[o d] s]; by eexists.
  - unfold sys_publish. destruct (on_engine _ _) as [[o d'] s]; by eexists.
  - unfold sys_reply. destruct (finish_response r) as [g e]. destruct (send_response _ _ _ _) as [[bytes |] s]; by eexists.
  - by eexists.
  - by eexists.
  - by eexists.
Qed.

Lemma step_length op i z : op_index op = Some i -> length (sy_links (sys_step clock cfg op z)) = length (sy_links z).
Proof. intros Hi. destruct (step_at op i z Hi) as [l ->]. apply length_insert. Qed.

Lemma step_other op i j z : op_index op = Some i -> i <> j -> sy_links (sys_step clock cfg op z) !! j = sy_links z !! j.
Proof. intros Hi Hj. destruct (step_at op i z Hi) as [l ->]. by apply list_lookup_insert_ne. Qed.

(** The steps of one reply at most: every pass of the loop that sends it sends a byte. *)
Definition reply_cost : Z := kDefaultMaxDocumentBytes + 3.

(** What a thread has left to do for the frames that have arrived: every frame that is taken
    removes at least a byte, and is served in at most two steps and a reply. *)
Definition frames_weight (l : Link) : Z := (reply_cost + 3) * zlen (pending (cn_decoder (lk_conn l))).

(** What a thread has left to do on its connection. *)
Definition link_weight (l : Link) : Z :=
  frames_weight l +
  match lk_phase l with Serving _ => reply_cost + 2 | Localizing _ _ => reply_cost + 1 | Replying _ => reply_cost | _ => 0 end.

Ltac weigh := unfold link_weight, frames_weight, reply_cost, kDefaultMaxDocumentBytes in *; cbn [lk_conn lk_phase with_decoder cn_decoder pending] in *.

Ltac looked_up H := rewrite list_lookup_insert_eq in H by (by eapply lookup_lt_Some); injection H as <-.

Lemma next_waits_phase i z conn l' :
  sy_links z !! i = Some (MkLink conn Reading) -> (next (cn_decoder conn)).1.1 = NotFound ->
  sy_links (sys_step clock cfg (SysNext i) z) !! i = Some l' -> lk_phase l' = Reading.
Proof.
  intros Hi. cbn [sys_step]. rewrite Hi. unfold sys_next. destruct (next _) as [[o f] d]. cbn [fst]. intros -> Hl.
  destruct f; cbn [put_link sy_links] in Hl; by looked_up Hl.
Qed.

Lemma next_weight i z conn l' :
  in_u32 (fd_max (cn_decoder conn)) -> sy_links z !! i = Some (MkLink conn Reading) ->
  (next (cn_decoder conn)).1.1 <> NotFound -> sy_links (sys_step clock cfg (SysNext i) z) !! i = Some l' ->
  left_loop l' = true \/ link_weight l' < link_weight (MkLink conn Reading).
Proof.
  intros Hm Hi. cbn [sys_step]. rewrite Hi. unfold sys_next.
  destruct (next_spec_holds (cn_decoder conn) Hm) as [f tail _ _ Hp | Hf | o _]; cbn [fst]; intros Ho Hl; [| done |].
  - right. assert (zlen tail + kFrameHeaderSize <= zlen (pending (cn_decoder conn))) as Hz.
    { rewrite Hp, zlen_app, zlen_frame_image. pose proof (zlen_nonneg (f_payload f)). unfold kFrameHeaderSize. lia. }
    unfold kFrameHeaderSize in Hz. destruct (admit_request _ _ _) as [[e | m] s]; cbn [put_link sy_links] in Hl; looked_up Hl;
      weigh; lia.
  - left. destruct o; try done; cbn [put_link sy_links] in Hl; by looked_up Hl.
Qed.

Lemma serve_weight i z l l' :
  sy_links z !! i = Some l -> match lk_phase l with Serving _ | Localizing _ _ => True | _ => False end ->
  sy_links (sys_step clock cfg (SysServe i) z) !! i = Some l' -> left_loop l' = false /\ link_weight l' < link_weight l.
Proof.
  intros Hi Hp. cbn [sys_step]. rewrite Hi. destruct l as [conn [| m | q d | r | b | b | b]]; try done.
  - assert (forall r conn' s, serve_request clock conn m (sy_server z) = ((r, conn'), s) ->
      sy_links (put_link i (MkLink conn' (Replying r)) s z) !! i = Some l' -> left_loop l' = false /\ link_weight l' < link_weight (MkLink conn (Serving m))) as Hs.
    { intros r conn' s E Hl. cbn [put_link sy_links] in Hl. looked_up Hl. pose proof (serve_request_decoder clock conn m (sy_server z)) as Hd.
      rewrite E in Hd. cbn [fst snd] in Hd. weigh. rewrite Hd. split; [done | lia]. }
    destruct m; cbn [sys_serve]; try (destruct (serve_request _ _ _ _) as [[r conn'] s]; by eapply Hs).
    destruct (on_engine _ _) as [[o d] s]. intros Hl. cbn [put_link sy_links] in Hl. looked_up Hl.
    split; [done |]. weigh. lia.
  - unfold sys_publish. destruct (on_engine _ _) as [[o d'] s]. intros Hl. cbn [put_link sy_links] in Hl. looked_up Hl.
    split; [done |]. weigh. lia.
Qed.

Lemma reply_weight i delivered z conn r l' :
  sy_links z !! i = Some (MkLink conn (Replying r)) -> sy_links (sys_step clock cfg (SysReply i delivered) z) !! i = Some l' ->
  left_loop l' = true \/ (lk_phase l' = Reading /\ link_weight l' = frames_weight (MkLink conn (Replying r))).
Proof.
  intros Hi. cbn [sys_step]. rewrite Hi. unfold sys_reply. destruct (finish_response r) as [g e].
  destruct (send_response _ _ _ _) as [[bytes |] s]; cbn [put_link sy_links]; intros Hl; looked_up Hl; [right | by left].
  split; [done |]. weigh. lia.
Qed.

Definition may_release (l : Link) : Prop := lk_phase l = Reading \/ exists b, lk_phase l = Leaving b.

Lemma release_phase i z l l' :
  sy_links z !! i = Some l -> may_release l -> sy_links (sys_step clock cfg (SysRelease i) z) !! i = Some l' ->
  exists b, lk_phase l' = Released b.
Proof.
  intros Hi Hp. cbn [sys_step]. rewrite Hi. destruct l as [conn p]. destruct Hp as [Hp | [b Hp]]; cbn [lk_phase] in Hp; subst p;
    cbn [sys_release put_link sy_links]; intros Hl; looked_up Hl; by eexists.
Qed.

Lemma close_phase i z l l' b :
  sy_links z !! i = Some l -> lk_phase l = Released b -> sy_links (sys_step clock cfg (SysClose i) z) !! i = Some l' ->
  finished l' = true.
Proof.
  intros Hi Hp. cbn [sys_step]. rewrite Hi. destruct l as [conn p]. cbn [lk_phase] in Hp. subst p.
  cbn [sys_close put_link sy_links]. intros Hl. by looked_up Hl.
Qed.

Lemma received_phase i chunk z l l' :
  sy_links z !! i = Some l -> lk_phase l = Reading -> sy_links (sys_step clock cfg (SysReceive i chunk) z) !! i = Some l' ->
  left_loop l' = false -> lk_phase l' = Reading.
Proof.
  intros Hi Hp. cbn [sys_step]. rewrite Hi. destruct l as [conn p]. cbn [lk_phase] in Hp. subst p. unfold sys_receive.
  destruct (feed _ _) as [fo d]. destruct (is_affirmative fo); cbn [negb put_link sy_links]; intros Hl; by looked_up Hl.
Qed.

(** The loop is left for the release. *)
Lemma loop_left op i z l l' :
  match op with SysReceive j _ | SysNext j | SysServe j | SysReply j _ => j = i | _ => False end ->
  sy_links z !! i = Some l -> left_loop l = false -> sy_links (sys_step clock cfg op z) !! i = Some l' ->
  left_loop l' = true -> may_release l'.
Proof.
  intros Hop Hi Hl Hl'.
  assert (l' = l -> left_loop l' = true -> may_release l') as Hsame by (intros ->; congruence).
  destruct op as [| | j chunk | j | j | j delivered | j | j | op |]; try done; subst j; cbn [sys_step] in Hl'; rewrite Hi in Hl';
    destruct l as [conn [| m | q d | r | b | b | b]]; try done; try (rewrite Hi in Hl'; injection Hl' as <-; by apply Hsame).
  - unfold sys_receive in Hl'. destruct (feed _ _) as [fo d]. destruct (is_affirmative fo); cbn [negb put_link sy_links] in Hl'; looked_up Hl'; [done |].
    intros _. right. by eexists.
  - unfold sys_next in Hl'. destruct (next _) as [[[] [f |]] d]; cbn [put_link sy_links] in Hl';
      try (looked_up Hl'; intros He; first [done | right; by eexists]).
    destruct (admit_request _ _ _) as [[e | m] s]; cbn [put_link sy_links] in Hl'; by looked_up Hl'.
  - destruct (serve_weight i z _ l' Hi I) as [-> _]; [cbn [sys_step]; by rewrite Hi | done].
  - destruct (serve_weight i z _ l' Hi I) as [-> _]; [cbn [sys_step]; by rewrite Hi | done].
  - unfold sys_reply in Hl'. destruct (finish_response r) as [g e]. destruct (send_response _ _ _ _) as [[bytes |] s]; cbn [put_link sy_links] in Hl';
      looked_up Hl'; [done |]. intros _. right. by eexists.
Qed.

(** ** The steps of a connection's thread *)

(** Thread [i] moved on, with the data and the sockets as they are then. *)
Definition moved_on (i : nat) (t : Thread) (z : System) (w : W) (y : Life W) : Life W :=
  MkLife z w (lf_listener y) (lf_port y) (lf_running y) (lf_stopping y) (lf_accept y) (lf_owner y) (lf_slots y)
    (<[i := t]> (lf_threads y)).

Inductive thread_move (i : nat) (s : Z) (y : Life W) : ThreadPhase -> ThreadPhase -> System -> W -> Prop :=
| tm_top : thread_move i s y TTop (if lf_stopping y then TShut else TWait) (lf_sys y) (lf_os y)
| tm_wait o b w p :
    net_wait_readable s kReadinessSliceMs (lf_os y) = (o, b, w) -> p = TShut \/ p = TRecv \/ p = TTop ->
    thread_move i s y TWait p (lf_sys y) w
| tm_eof o bytes d w :
    net_recv_some (H := handle_api s) kRecvChunk (lf_os y) = Some (o, bytes, d, w) -> thread_move i s y TRecv TShut (lf_sys y) w
| tm_received o bytes d w z :
    net_recv_some (H := handle_api s) kRecvChunk (lf_os y) = Some (o, bytes, d, w) ->
    z = sys_step clock cfg (SysReceive i bytes) (lf_sys y) ->
    thread_move i s y TRecv (if ended i z then TShut else TFrames) z w
| tm_ended : ended i (lf_sys y) = true -> thread_move i s y TFrames TShut (lf_sys y) (lf_os y)
| tm_next conn z :
    sy_links (lf_sys y) !! i = Some (MkLink conn Reading) -> z = sys_step clock cfg (SysNext i) (lf_sys y) ->
    thread_move i s y TFrames
      (if ended i z then TShut else if (next (cn_decoder conn)).1.1 == NotFound then TTop else TFrames) z (lf_os y)
| tm_write conn r bytes :
    sy_links (lf_sys y) !! i = Some (MkLink conn (Replying r)) -> response_bytes (finish_response r).1 = Some bytes ->
    thread_move i s y TFrames (TSend bytes) (lf_sys y) (lf_os y)
| tm_too_large conn r z :
    sy_links (lf_sys y) !! i = Some (MkLink conn (Replying r)) -> z = sys_step clock cfg (SysReply i false) (lf_sys y) ->
    thread_move i s y TFrames (if ended i z then TShut else TFrames) z (lf_os y)
| tm_send rest n w :
    zlen rest <> 0 -> send_some (H := handle_api s) rest (lf_os y) = Some (Some (drop n rest), w) ->
    thread_move i s y (TSend rest) (TSend (drop n rest)) (lf_sys y) w
| tm_replied rest b w z :
    w = lf_os y \/ send_some (H := handle_api s) rest (lf_os y) = Some (None, w) -> z = sys_step clock cfg (SysReply i b) (lf_sys y) ->
    thread_move i s y (TSend rest) (if ended i z then TShut else TFrames) z w
| tm_serve l z :
    sy_links (lf_sys y) !! i = Some l -> match lk_phase l with Serving _ | Localizing _ _ => True | _ => False end ->
    z = sys_step clock cfg (SysServe i) (lf_sys y) ->
    thread_move i s y TFrames (if ended i z then TShut else TFrames) z (lf_os y)
| tm_shut : thread_move i s y TShut TRelease (lf_sys y) (net_shutdown s (lf_os y))
| tm_release : thread_move i s y TRelease TClose (sys_step clock cfg (SysRelease i) (lf_sys y)) (lf_os y)
| tm_close : thread_move i s y TClose TCount (lf_sys y) (net_close s (lf_os y)).2
| tm_count : thread_move i s y TCount TMark (sys_step clock cfg (SysClose i) (lf_sys y)) (lf_os y)
| tm_mark : thread_move i s y TMark TDone (lf_sys y) (lf_os y).

Lemma put_phase_moved i s p0 p z w y :
  lf_threads y !! i = Some (MkThread s p0) -> put_phase i p (put_os w (put_sys z y)) = moved_on i (MkThread s p) z w y.
Proof. intros Hi. unfold put_phase. cbn [lf_threads put_os put_sys]. by rewrite Hi. Qed.

Lemma thread_cases i y y' :
  thread_step clock cfg i y = Some y' ->
  exists s p p' z w, lf_threads y !! i = Some (MkThread s p) /\ thread_move i s y p p' z w /\ y' = moved_on i (MkThread s p') z w y.
Proof.
  unfold thread_step. destruct (lf_threads y !! i) as [[s p] |] eqn:Hi; [| done].
  pose proof (fun p' z w => put_phase_moved i s p p' z w y Hi) as Hput.
  assert (forall p' z w y0, thread_move i s y p p' z w -> y0 = put_phase i p' (put_os w (put_sys z y)) -> Some y0 = Some y' ->
    exists s0 p0 p1 z0 w0, Some (MkThread s p) = Some (MkThread s0 p0) /\ thread_move i s0 y p0 p1 z0 w0 /\ y' = moved_on i (MkThread s0 p1) z0 w0 y) as Hgo.
  { intros p' z w y0 Hm -> [= <-]. exists s, p, p', z, w. by rewrite Hput. }
  assert (forall p' w, put_phase i p' (put_os w y) = put_phase i p' (put_os w (put_sys (lf_sys y) y))) as Hsys by (intros; by destruct y).
  assert (forall p', put_phase i p' y = put_phase i p' (put_os (lf_os y) (put_sys (lf_sys y) y))) as Hid by (intros; by destruct y).
  destruct p as [| | | | rest | | | | | |]; [| | | | | | | | | | done].
  - eapply (Hgo _ (lf_sys y) (lf_os y)); [apply tm_top | apply Hid].
  - destruct (net_wait_readable _ _ _) as [[o b] w] eqn:E. eapply (Hgo _ (lf_sys y) w); [| apply Hsys].
    apply (tm_wait i s y o b w _ E). destruct (is_affirmative o), b; auto.
  - destruct (net_recv_some _ _) as [[[[o bytes] d] w] |] eqn:E; [| done]. destruct (negb (is_affirmative o) || (zlen bytes =? 0)).
    + eapply (Hgo _ (lf_sys y) w); [by eapply tm_eof | apply Hsys].
    + eapply (Hgo _ _ w); [eapply tm_received; [exact E | reflexivity] | reflexivity].
  - unfold frames_step. destruct (sy_links (lf_sys y) !! i) as [[conn [| m | q d | r | b | b | b]] |] eqn:El.
    + eapply (Hgo _ _ (lf_os y)); [by eapply tm_next | by destruct y].
    + eapply (Hgo _ _ (lf_os y)); [by eapply tm_serve | by destruct y].
    + eapply (Hgo _ _ (lf_os y)); [by eapply tm_serve | by destruct y].
    + unfold reply_step. destruct (response_bytes _) as [bytes |] eqn:Eb.
      * eapply (Hgo _ (lf_sys y) (lf_os y)); [by eapply tm_write | apply Hid].
      * eapply (Hgo _ _ (lf_os y)); [by eapply tm_too_large | by destruct y].
    + eapply (Hgo _ (lf_sys y) (lf_os y)); [apply tm_ended; unfold ended; by rewrite El | apply Hid].
    + eapply (Hgo _ (lf_sys y) (lf_os y)); [apply tm_ended; unfold ended; by rewrite El | apply Hid].
    + eapply (Hgo _ (lf_sys y) (lf_os y)); [apply tm_ended; unfold ended; by rewrite El | apply Hid].
    + eapply (Hgo _ (lf_sys y) (lf_os y)); [apply tm_ended; unfold ended; by rewrite El | apply Hid].
  - unfold send_step. destruct (Z.eqb_spec (zlen rest) 0) as [Ez | Ez].
    { eapply (Hgo _ _ (lf_os y)); [by eapply (tm_replied _ _ _ rest true); [left |] | by destruct y]. }
    destruct (send_some rest (lf_os y)) as [[[rest' |] w] |] eqn:Es; [| | done].
    + destruct (send_some_drop _ _ _ _ Es) as [n ->]. eapply (Hgo _ (lf_sys y) w); [by eapply tm_send | apply Hsys].
    + eapply (Hgo _ _ w); [by eapply (tm_replied _ _ _ rest false); [right |] | by destruct y].
  - eapply (Hgo _ (lf_sys y) (net_shutdown s (lf_os y))); [apply tm_shut | apply Hsys].
  - eapply (Hgo _ _ (lf_os y)); [apply tm_release | by destruct y].
  - eapply (Hgo _ (lf_sys y) (net_close s (lf_os y)).2); [apply tm_close | apply Hsys].
  - eapply (Hgo _ _ (lf_os y)); [apply tm_count | by destruct y].
  - eapply (Hgo _ (lf_sys y) (lf_os y)); [apply tm_mark | apply Hid].
Qed.

(** ** What each thread may be doing *)

(** The flags, the listener and the accept thread, by where the owner is. *)
Definition control (y : Life W) : Prop :=
  match lf_owner y with
  | OFree =>
      if lf_running y then lf_stopping y = false /\ lf_listener y <> -1 /\ lf_accept y <> AOff /\ lf_accept y <> AExit
      else lf_listener y = -1 /\ lf_accept y = AOff /\ lf_slots y = []
  | OJoin _ => lf_running y = true /\ lf_stopping y = true /\ lf_listener y <> -1 /\ lf_accept y = AOff /\ lf_slots y = []
  | _ => lf_running y = true /\ lf_stopping y = true /\ lf_listener y <> -1 /\ lf_accept y <> AOff
  end.

(** A thread is in step with its connection. *)
Definition in_step (p : ThreadPhase) (l : Link) : Prop :=
  match p with
  | TTop | TWait | TRecv => lk_phase l = Reading
  | TFrames => left_loop l = false
  | TSend rest =>
      exists r bytes k, lk_phase l = Replying r /\ response_bytes (finish_response r).1 = Some bytes /\ rest = drop k bytes
  | TShut | TRelease => may_release l
  | TClose | TCount => exists b, lk_phase l = Released b
  | TMark | TDone => finished l = true
  end.

Record coherent (y : Life W) : Prop := {
  ch_length : length (lf_threads y) = length (sy_links (lf_sys y));
  ch_phase : forall i t l, lf_threads y !! i = Some t -> sy_links (lf_sys y) !! i = Some l -> in_step (th_phase t) l;
}.

(** A thread that runs is in a slot, about to get one, or about to be joined. *)
Definition covered (y : Life W) (i : nat) : Prop :=
  i ∈ map sl_thread (lf_slots y) \/ lf_accept y = APush i \/ exists l, lf_owner y = OJoin l /\ i ∈ l.

Definition room_taken (y : Life W) : Z := zlen (lf_slots y) + match lf_accept y with APush _ => 1 | _ => 0 end.

Record coverage (y : Life W) : Prop := {
  cv_covered : forall i, thread_done y i = false -> covered y i;
  cv_slots : forall sl, sl ∈ lf_slots y -> (sl_thread sl < length (lf_threads y))%nat;
  cv_push : forall i, lf_accept y = APush i -> (i < length (lf_threads y))%nat;
  cv_room : room_taken y <= Z.max 0 (sc_max_connections cfg);
}.

Lemma thread_done_false y i : thread_done y i = false <-> exists t, lf_threads y !! i = Some t /\ th_phase t <> TDone.
Proof.
  unfold thread_done. destruct (lf_threads y !! i) as [t |]; [| split; [done | by intros (t & [=] & _)]].
  rewrite bool_decide_eq_false. split; [eauto | by intros (t' & [= <-] & Ht)].
Qed.

(** *** The data steps keep a thread in step *)

Lemma move_in_step i s y p p' z w l l' :
  thread_move i s y p p' z w -> sy_links (lf_sys y) !! i = Some l -> sy_links z !! i = Some l' ->
  in_step p l -> in_step p' l'.
Proof.
  intros Hm Hl Hl' Hp.
  destruct Hm as [| o b w p Hw Hp' | o bytes d w Hr | o bytes d w z Hr -> | He | conn z Hc -> | conn r bytes Hc Hd | conn r z Hc ->
    | rest n w Hz Hd | rest b w z Hd -> | l0 z Hc Hs -> | | | | |];
    unfold ended in *; rewrite ?Hl'; try (rewrite Hl in Hl'; injection Hl' as <-); try (rewrite Hl in Hc; injection Hc as ->);
    try rewrite Hl in He; cbn [in_step] in *.
  - destruct (lf_stopping y); cbn; [by left | exact Hp].
  - destruct Hp' as [-> | [-> | ->]]; cbn; [by left | exact Hp | exact Hp].
  - by left.
  - assert (left_loop l = false) as Hr' by (unfold left_loop; by rewrite Hp).
    destruct (left_loop l') eqn:Ef; cbn [in_step]; [by apply (loop_left (SysReceive i bytes) i _ l) in Hl' | exact Ef].
  - congruence.
  - destruct (left_loop l') eqn:Ef; cbn [in_step]; [by apply (loop_left (SysNext i) i _ _ _ eq_refl Hl) in Hl' |].
    destruct (bool_decide_reflect ((next (cn_decoder conn)).1.1 = NotFound)) as [En | En]; [| exact Ef].
    exact (next_waits_phase i _ conn l' Hl En Hl').
  - by exists r, bytes, 0%nat.
  - destruct (left_loop l') eqn:Ef; cbn [in_step]; [by apply (loop_left (SysReply i false) i _ _ _ eq_refl Hl) in Hl' | exact Ef].
  - destruct Hp as (r & bytes & k & H1 & H2 & ->). exists r, bytes, (k + n)%nat. by rewrite drop_drop.
  - destruct Hp as (r & bytes & k & H1 & _). assert (left_loop l = false) as Hr' by (unfold left_loop; by rewrite H1).
    destruct (left_loop l') eqn:Ef; cbn [in_step]; [by apply (loop_left (SysReply i b) i _ l) in Hl' | exact Ef].
  - destruct (left_loop l') eqn:Ef; cbn [in_step]; [by apply (loop_left (SysServe i) i _ _ _ eq_refl Hl) in Hl' | exact Ef].
  - exact Hp.
  - exact (release_phase i _ l l' Hl Hp Hl').
  - exact Hp.
  - destruct Hp as [b Hp]. exact (close_phase i _ l l' b Hl Hp Hl').
  - exact Hp.
Qed.

Lemma move_links i s y p p' z w :
  thread_move i s y p p' z w ->
  length (sy_links z) = length (sy_links (lf_sys y)) /\ forall j, i <> j -> sy_links z !! j = sy_links (lf_sys y) !! j.
Proof.
  intros Hm. destruct Hm as [| | | o bytes d w z Hr -> | | conn z Hc -> | | conn r z Hc -> | | rest b w z Hd -> | l0 z Hc Hs -> | | | | |]; try done;
    (split; [by apply (step_length _ i) | intros j Hj; by apply (step_other _ i)]).
Qed.

Lemma coherent_moved i s p p' z w y :
  lf_threads y !! i = Some (MkThread s p) -> thread_move i s y p p' z w -> coherent y ->
  coherent (moved_on i (MkThread s p') z w y).
Proof.
  intros Hi Hm [H1 H2]. destruct (move_links _ _ _ _ _ _ _ Hm) as [H3 H4]. split; cbn [moved_on lf_threads lf_sys].
  - rewrite length_insert. congruence.
  - intros j t l Ht Hl. destruct (decide (i = j)) as [<- | Hj].
    + rewrite list_lookup_insert_eq in Ht by (by eapply lookup_lt_Some). injection Ht as <-. cbn [th_phase].
      destruct (lookup_lt_is_Some_2 (sy_links (lf_sys y)) i) as [l0 Hl0]; [rewrite <- H1; by eapply lookup_lt_Some |].
      exact (move_in_step _ _ _ _ _ _ _ _ _ Hm Hl0 Hl (H2 i _ _ Hi Hl0)).
    + rewrite list_lookup_insert_ne in Ht by done. rewrite H4 in Hl by done. by apply (H2 j).
Qed.

(** *** The live connections are in slots *)

Lemma live_at_most (ls : list Link) (k : nat) (ks : list nat) :
  (forall i l, ls !! i = Some l -> finished l = false -> (k + i)%nat ∈ ks) -> total_of live ls <= zlen ks.
Proof.
  revert k ks. induction ls as [| l ls IH]; intros k ks Hk; [apply zlen_nonneg |].
  change (total_of live (l :: ls)) with (live l + total_of live ls).
  assert (forall j l', ls !! j = Some l' -> finished l' = false -> (S k + j)%nat ∈ ks) as Ht.
  { intros j l' Hj Hl. replace (S k + j)%nat with (k + S j)%nat by lia. by apply (Hk (S j) l'). }
  unfold live at 1. destruct (finished l) eqn:El; [by apply (IH (S k)) |].
  assert (k ∈ ks) as Hin by (replace k with (k + 0)%nat by lia; by apply (Hk 0%nat l)).
  pose proof (IH (S k) (filter (fun j => j <> k) ks)) as Hf.
  assert (length (filter (fun j => j <> k) ks) < length ks)%nat as Hlt.
  { apply (length_filter_lt _ _ k); [exact Hin |]. intros Hn. by apply Hn. }
  unfold zlen in *. pose proof (Hf ltac:(intros j l' Hj Hl; apply list_elem_of_filter; split; [lia | by apply (Ht j l')])). lia.
Qed.

Lemma coverage_moved i s p p' z w y :
  lf_threads y !! i = Some (MkThread s p) -> thread_move i s y p p' z w -> coverage y ->
  coverage (moved_on i (MkThread s p') z w y).
Proof.
  intros Hi Hm [H1 H2 H3 H4]. assert (p <> TDone) as Hp by (by destruct Hm).
  split; cbn [moved_on lf_threads lf_slots lf_accept]; rewrite ?length_insert; try done.
  intros j Hj. apply (H1 j). apply thread_done_false in Hj as (t & Ht & Hd). apply thread_done_false. cbn [moved_on lf_threads] in Ht.
  destruct (decide (i = j)) as [<- | Hn]; [by eexists |]. rewrite list_lookup_insert_ne in Ht by done. by exists t.
Qed.

(** *** The invariant of the threads *)

Record ordered (c : EngineConfig) (y : Life W) : Prop := {
  or_sys : sys_reachable clock cfg c (lf_sys y);
  or_control : control y;
  or_coherent : coherent y;
  or_coverage : coverage y;
}.

Lemma live_in_slots c y :
  ordered c y -> match lf_accept y with APush _ | AOff => False | _ => True end ->
  live_connections (lf_sys y) <= zlen (lf_slots y).
Proof.
  intros [_ Hc [C1 C2] [V1 _ _ _]] Ha. rewrite live_total. unfold zlen. rewrite <- (length_map sl_thread). apply (live_at_most _ 0).
  intros i l Hl Hf. cbn [Nat.add]. destruct (lookup_lt_is_Some_2 (lf_threads y) i) as [t Ht]; [rewrite C1; by eapply lookup_lt_Some |].
  destruct (V1 i) as [Hs | [Hs | (k & Hs & _)]]; [| exact Hs | by rewrite Hs in Ha |].
  - apply thread_done_false. exists t. split; [exact Ht |]. intros Hd. pose proof (C2 i t l Ht Hl) as Hp. rewrite Hd in Hp. cbn in Hp. congruence.
  - exfalso. unfold control in Hc. rewrite Hs in Hc. destruct Hc as (_ & _ & _ & Hc & _). by rewrite Hc in Ha.
Qed.

Lemma ordered_thread c i y y' : ordered c y -> thread_step clock cfg i y = Some y' -> ordered c y'.
Proof.
  intros [H1 H2 H3 H4] E. destruct (thread_cases i y y' E) as (s & p & p' & z & w & Hi & Hm & ->).
  split; [| exact H2 | by eapply coherent_moved | by eapply coverage_moved]. cbn [moved_on lf_sys].
  destruct Hm as [| | | o bytes d w z Hr -> | | conn z Hc -> | | conn r z Hc -> | | rest b w z Hd -> | l0 z Hc Hs -> | | | | |]; try exact H1; by apply sys_more.
Qed.

Lemma control_flow y y' :
  lf_running y' = lf_running y -> lf_stopping y' = lf_stopping y -> lf_listener y' = lf_listener y ->
  lf_owner y' = lf_owner y -> lf_accept y <> AOff -> lf_accept y' <> AOff -> (lf_accept y' = AExit -> lf_stopping y = true) ->
  control y -> control y'.
Proof.
  unfold control. intros -> -> -> -> Ha Ha' Hx. destruct (lf_owner y); try tauto.
  destruct (lf_running y); [| tauto]. intros (H1 & H2 & _ & _). split_and!; try done. intros Hx'. specialize (Hx Hx'). congruence.
Qed.

(** Steps that leave the data, the threads and the slots alone. *)
Lemma coherent_same y y' : lf_sys y' = lf_sys y -> lf_threads y' = lf_threads y -> coherent y -> coherent y'.
Proof. intros Hs Ht [H1 H2]. split; by rewrite Hs, Ht. Qed.

Lemma coverage_same y y' :
  lf_threads y' = lf_threads y -> lf_slots y' = lf_slots y ->
  (forall i, thread_done y i = false -> covered y i -> covered y' i) ->
  lf_accept y' = lf_accept y \/ (forall i, lf_accept y' <> APush i) -> coverage y -> coverage y'.
Proof.
  intros Ht Hs Hc Ha [H1 H2 H3 H4]. split.
  - intros i Hi. assert (thread_done y i = false) as Hi' by (unfold thread_done in *; by rewrite <- Ht). apply Hc, H1; done.
  - rewrite Hs, Ht. exact H2.
  - intros i Hi. rewrite Ht. destruct Ha as [Ha | Ha]; [apply H3; congruence | by destruct (Ha i)].
  - unfold room_taken in *. rewrite Hs. destruct Ha as [-> | Ha]; [exact H4 |].
    destruct (lf_accept y') eqn:E; try (by destruct (Ha i)); destruct (lf_accept y); lia.
Qed.

Lemma covered_accept a y i : (forall i, lf_accept y <> APush i) -> covered y i -> covered (put_accept a y) i.
Proof. intros Ha [Hc | [Hc | Hc]]; [by left | by destruct (Ha i) | by right; right]. Qed.

Lemma accept_admits z :
  live_connections z < sc_max_connections cfg ->
  sys_step clock cfg SysAccept z =
    MkSystem (note Accepted (sy_server z)).2 (sy_links z ++ [MkLink (new_Connection (sy_server z)) Reading]).
Proof. intros Hr. cbn [sys_step]. unfold accept. destruct (Z.leb_spec (sc_max_connections cfg) (live_connections z)); [lia | done]. Qed.

Lemma ordered_accept c y y' : ordered c y -> accept_step clock cfg y = Some y' -> ordered c y'.
Proof.
  intros Ho E. pose proof Ho as [H1 H2 H3 H4]. unfold accept_step in E.
  assert (forall a w, lf_accept y <> AOff -> (forall i, lf_accept y <> APush i) -> a <> AOff -> (forall i, a <> APush i) ->
    (a = AExit -> lf_stopping y = true) -> ordered c (put_accept a (put_os w y))) as Hflow.
  { intros a w A1 A2 A3 A4 A5. split; [exact H1 | by eapply control_flow; [..| exact H2] | by apply (coherent_same y) | ].
    eapply coverage_same; [..| exact H4]; [done | done | | right; exact A4]. intros i _ Hi. exact (covered_accept a y i A2 Hi). }
  assert (forall a, put_accept a y = put_accept a (put_os (lf_os y) y)) as Hid by (intros; by destruct y).
  destruct (lf_accept y) as [| | | s | s | s | k |] eqn:Ea; [done | | | | | | | done].
  - injection E as <-. rewrite Hid. apply Hflow; try done; destruct (lf_stopping y) eqn:Es; done.
  - destruct (sys_waits _ _); [done |]. destruct (net_accept _ _) as [[[o s] d] w]. injection E as <-.
    apply Hflow; try done; destruct (is_affirmative o); try done; destruct (lf_stopping y) eqn:Es; done.
  - destruct (lf_stopping y) eqn:Es; injection E as <-; [by apply Hflow |]. rewrite Hid. by apply Hflow.
  - injection E as <-. split; [exact H1 | | by apply (coherent_same y) |].
    + unfold control in *. cbn [reap_finished put_accept put_slots lf_owner lf_running lf_stopping lf_listener lf_accept lf_slots].
      rewrite Ea in H2. destruct (lf_owner y); [destruct (lf_running y) | ..]; intuition congruence.
    + destruct H4 as [V1 V2 V3 V4]. split; cbn [reap_finished put_accept put_slots lf_threads lf_slots lf_accept]; try done.
      * intros i Hi. change (thread_done y i = false) in Hi. destruct (V1 i Hi) as [Hs | [Hs | Hs]]; [left | congruence | by right; right].
        apply list_elem_of_fmap in Hs as (sl & -> & Hs). apply list_elem_of_fmap. exists sl. split; [done |]. by apply list_elem_of_filter.
      * intros sl Hsl. apply list_elem_of_filter in Hsl as [_ Hsl]. by apply V2.
      * unfold room_taken in *. cbn. rewrite Ea in V4. pose proof (length_filter (fun sl => thread_done y (sl_thread sl) = false) (lf_slots y)).
        unfold zlen in *. lia.
  - injection E as <-. unfold admit_socket. pose proof (live_in_slots c y Ho ltac:(by rewrite Ea)) as Hlive.
    destruct (Z.leb_spec (sc_max_connections cfg) (zlen (lf_slots y))) as [Hfull | Hroom].
    + split; [by apply sys_more | | destruct H3 as [C1 C2]; by split |].
      * eapply control_flow; [..| exact H2]; try done. by rewrite Ea.
      * eapply coverage_same; [..| exact H4]; try done; [| by right]. intros i _ Hi.
        exact (covered_accept ATop y i ltac:(intros; congruence) Hi).
    + destruct H3 as [C1 C2], H4 as [V1 V2 V3 V4].
      pose proof (accept_admits (lf_sys y) ltac:(lia)) as Hacc.
      split.
      * by apply sys_more.
      * eapply control_flow; [..| exact H2]; try done. by rewrite Ea.
      * cbn [put_accept put_threads put_sys lf_threads lf_sys]. rewrite Hacc. split; cbn [put_accept put_threads put_sys lf_threads lf_sys sy_links].
        -- by rewrite !length_app, C1.
        -- intros i t l Ht Hl. apply lookup_app_Some in Ht as [Ht | [Hge Ht]].
           ++ rewrite lookup_app_l in Hl by (rewrite <- C1; by eapply lookup_lt_Some). by apply (C2 i).
           ++ rewrite lookup_app_r in Hl by (rewrite <- C1; lia). rewrite <- C1 in Hl. destruct (i - length (lf_threads y))%nat; [| done].
              injection Ht as <-. injection Hl as <-. done.
      * split; cbn [put_accept put_threads put_sys lf_threads lf_slots lf_accept]; rewrite ?length_app.
        -- intros i Hi. apply thread_done_false in Hi as (t & Ht & Hd). cbn [put_accept put_threads put_sys lf_threads] in Ht.
           apply lookup_app_Some in Ht as [Ht | [Hge Ht]].
           ++ destruct (V1 i) as [Hs | [Hs | Hs]]; [apply thread_done_false; by exists t | by left | congruence | by right; right].
           ++ right; left. cbn. destruct (i - length (lf_threads y))%nat eqn:En; [| done]. f_equal. lia.
        -- intros sl Hsl. specialize (V2 sl Hsl). lia.
        -- intros i [= <-]. cbn. lia.
        -- unfold room_taken in *. cbn. lia.
  - injection E as <-. destruct H4 as [V1 V2 V3 V4]. split; [exact H1 | | by apply (coherent_same y) |].
    + unfold control in *. cbn [put_accept put_slots lf_owner lf_running lf_stopping lf_listener lf_accept lf_slots].
      rewrite Ea in H2. destruct (lf_owner y); [destruct (lf_running y) | ..]; intuition congruence.
    + split; cbn [put_accept put_slots lf_threads lf_slots lf_accept]; try done.
      * intros i Hi. change (thread_done y i = false) in Hi. unfold covered. cbn [put_accept put_slots lf_slots lf_accept lf_owner].
        rewrite map_app, elem_of_app. destruct (V1 i Hi) as [Hs | [Hs | Hs]]; [by left; left | | by right; right].
        left; right. rewrite Ea in Hs. injection Hs as ->. by apply list_elem_of_singleton.
      * intros sl [Hsl | Hsl]%elem_of_app; [by apply V2 |]. apply list_elem_of_singleton in Hsl as ->. cbn. by apply V3.
      * unfold room_taken in *. cbn. rewrite Ea in V4. rewrite zlen_app. change (zlen [MkSlot (socket_of y k) k]) with 1. lia.
Qed.

Lemma coverage_owner y y' :
  lf_threads y' = lf_threads y -> lf_slots y' = lf_slots y -> lf_accept y' = lf_accept y ->
  (forall l, lf_owner y <> OJoin l) -> coverage y -> coverage y'.
Proof.
  intros Ht Hs Ha Hl. apply coverage_same; [exact Ht | exact Hs | | by left].
  intros i _ [Hc | [Hc | (l & Hc & _)]]; [left; by rewrite Hs | right; left; by rewrite Ha | by destruct (Hl l)].
Qed.

Lemma ordered_owner c y y' : ordered c y -> owner_step clock cfg y = Some y' -> ordered c y'.
Proof.
  intros [H1 H2 H3 H4] E. unfold owner_step in E.
  destruct (lf_owner y) as [| | | [| h l] | | [| i l]] eqn:Eo; [done | ..].
  - injection E as <-. unfold stop_wake. destruct (net_connect_loopback _ _) as [[[o s] d] w].
    split; [exact H1 | | by apply (coherent_same y) |]; [unfold control in *; by rewrite Eo in H2 |].
    apply (coverage_owner y); try done; by intros k; rewrite Eo.
  - injection E as <-. split; [exact H1 | | by apply (coherent_same y) |]; [unfold control in *; by rewrite Eo in H2 |].
    apply (coverage_owner y); try done; by intros k; rewrite Eo.
  - injection E as <-. split; [exact H1 | | by apply (coherent_same y) |]; [unfold control in *; by rewrite Eo in H2 |].
    apply (coverage_owner y); try done; by intros k; rewrite Eo.
  - injection E as <-. split; [exact H1 | | by apply (coherent_same y) |]; [unfold control in *; by rewrite Eo in H2 |].
    apply (coverage_owner y); try done; by intros k; rewrite Eo.
  - assert (lf_accept y = AExit /\ y' = take_all (put_accept AOff y)) as [Ea ->].
    { unfold control in H2. rewrite Eo in H2. destruct H2 as (_ & _ & _ & Ha). destruct (lf_accept y); try done. by injection E as <-. }
    split; [exact H1 | | by apply (coherent_same y) |].
    + unfold control in *. rewrite Eo in H2. cbn. tauto.
    + destruct H4 as [V1 V2 V3 V4]. split; cbn [take_all put_owner put_slots put_accept lf_slots lf_threads lf_accept]; try done.
      * intros i Hi. change (thread_done y i = false) in Hi. right; right. eexists. split; [reflexivity |].
        destruct (V1 i Hi) as [Hs | [Hs | (l & Hs & _)]]; [exact Hs | congruence | congruence].
      * intros sl Hsl. by apply elem_of_nil in Hsl.
      * change (0 + 0 <= Z.max 0 (sc_max_connections cfg)). lia.
  - injection E as <-. unfold stop_end. unfold control in H2. rewrite Eo in H2. destruct H2 as (R1 & R2 & R3 & R4 & R5).
    destruct (net_close (lf_listener y) (lf_os y)) as [h w] eqn:En.
    assert (h = -1) as ->.
    { unfold net_close, kInvalidSocketHandle in En. destruct (Z.eqb_spec (lf_listener y) (-1)); [done |]. by injection En as <- _. }
    split; [by apply sys_more | by unfold control | destruct H3 as [C1 C2]; by split |].
    destruct H4 as [V1 V2 V3 V4]. split; cbn [put_owner put_flags put_listener put_os put_sys lf_slots lf_threads lf_accept]; try done.
    intros i Hi. change (thread_done y i = false) in Hi. destruct (V1 i Hi) as [Hs | [Hs | (l & Hs & Hl)]].
    + rewrite R5 in Hs. by apply elem_of_nil in Hs.
    + congruence.
    + rewrite Eo in Hs. injection Hs as <-. by apply elem_of_nil in Hl.
  - destruct (thread_done y i) eqn:Ed; [| done]. injection E as <-.
    split; [exact H1 | | by apply (coherent_same y) |]; [unfold control in *; by rewrite Eo in H2 |].
    apply (coverage_same y); try done; [| by left]. intros j Hj [Hs | [Hs | (k & Hs & Hk)]]; [by left | by right; left |].
    rewrite Eo in Hs. injection Hs as <-. apply elem_of_cons in Hk as [-> | Hk]; [congruence |]. right; right. by exists l.
Qed.

Lemma ordered_begin c y : ordered c y -> lf_owner y = OFree -> ordered c (stop_begin y).
Proof.
  intros [H1 H2 H3 H4] Eo. unfold stop_begin, kInvalidSocketHandle. unfold control in H2. rewrite Eo in H2.
  destruct (lf_running y) eqn:Er; cbn [negb andb].
  2:{ destruct H2 as (E2 & E3 & E4). rewrite E2. cbn [Z.eqb Pos.eqb]. split; try done. unfold control. by rewrite Eo, Er. }
  destruct H2 as (E1 & E2 & E3 & E4). split; [exact H1 | by unfold control | by apply (coherent_same y) |].
  apply (coverage_owner y); try done. by intros k; rewrite Eo.
Qed.

Lemma ordered_engine c op y : ordered c y -> ordered c (put_sys (sys_step clock cfg (SysEngine op) (lf_sys y)) y).
Proof.
  intros [H1 H2 [C1 C2] H4]. split; [by apply sys_more | exact H2 | by split |].
  destruct H4 as [V1 V2 V3 V4]. by split.
Qed.

Lemma ordered_os c w y : ordered c y -> ordered c (put_os w y).
Proof. intros [H1 H2 [C1 C2] [V1 V2 V3 V4]]. split; [exact H1 | exact H2 | by split | by split]. Qed.

End Spec.
