(* ===== verification/Handles.v ===== *)
(** * The handles of the server

    What [Lifecycle] does to the sockets of the process, under the laws of [SocketOsLaws]: the
    invariant of [LifecycleSpec] over whole runs, and that every handle the server holds is
    open and has one holder, so that it is closed once. *)
From Stdlib Require Import Strings.String.
From stdpp Require Import gmap.
From S2P Require Import Prelude OrderedMap Core Checked Codec Counted Hash Ids Domain Policy Fixtures Ledger Classifier.
From S2P Require Import Localizer Fence Authority Record Journal Snapshot Durable Store Net Sockets Frame Session Messages Wire.
From S2P Require Import Engine EngineSpec Coordinator Server ServerSpec Service System SystemSpec Replies Lifecycle LifecycleSpec.
Local Open Scope string_scope.
Local Open Scope list_scope.
Local Open Scope Z_scope.

Section Handles.
Context {W : Type} `{SocketOs W} (clock : nat -> WallNs) (cfg : ServerConfig).
Context (view : W -> OsView) `{!SocketOsLaws W view}.
Implicit Types y : Life W.

Lemma ordered_start c y : ordered clock cfg c y -> lf_owner y = OFree -> ordered clock cfg c (server_start cfg y).2.
Proof.
  intros Ho Eo. unfold server_start. destruct (lf_running y) eqn:Er; [exact Ho |]. destruct (negb sys_startup); [exact Ho |].
  pose proof (net_listen_handles view (sc_port cfg) (sc_backlog cfg) (lf_os y)) as Hl.
  destruct (net_listen_loopback _ _ _) as [lr w]. destruct Hl as [(-> & Hh & _) | (-> & _)]; [| by apply (ordered_os clock cfg c w)].
  change (ordered clock cfg c (put_accept ATop (put_flags true false (put_listener (li_handle lr) (li_port lr) (put_os w y))))).
  destruct Ho as [H1 H2 H3 H4]. unfold control in H2. rewrite Eo, Er in H2. destruct H2 as (E1 & E2 & E3).
  split; [exact H1 | | by apply (coherent_same y) |].
  - unfold control. cbn. rewrite Eo. split_and!; try done. lia.
  - apply (coverage_same cfg y); try done; [| by right]. intros i _ [Hc | [Hc | Hc]]; [by left | congruence | by right; right].
Qed.

Lemma ordered_step c op y y' : ordered clock cfg c y -> life_step clock cfg op y = Some y' -> ordered clock cfg c y'.
Proof.
  intros Ho. destruct op as [| | | | i | op]; cbn [life_step].
  - destruct (lf_owner y) eqn:Eo; try done. intros [= <-]. by apply ordered_start.
  - destruct (lf_owner y) eqn:Eo; try done. intros [= <-]. by apply ordered_begin.
  - by apply ordered_owner.
  - by apply ordered_accept.
  - by apply ordered_thread.
  - intros [= <-]. by apply ordered_engine.
Qed.

Lemma life_ordered c y : life_reachable clock cfg view c y -> ordered clock cfg c y.
Proof.
  induction 1 as [e w He | op y y' _ IH E | y w _ IH _]; [| by eapply ordered_step | by apply ordered_os].
  split; [by apply sys_new | done | done |]. split; try done.
  - intros sl Hsl. by apply elem_of_nil in Hsl.
  - change (0 + 0 <= Z.max 0 (sc_max_connections cfg)). lia.
Qed.

(** ** Every handle has one holder *)

Record holding (y : Life W) : Prop := {
  hd_open : forall o h, handle_of y o = Some h -> 0 <= h /\ h ∈ os_open (view (lf_os y));
  hd_one : forall o1 o2 h, handle_of y o1 = Some h -> handle_of y o2 = Some h -> o1 = o2;
  hd_port : lf_listener y <> -1 -> os_ports (view (lf_os y)) !! lf_listener y = Some (lf_port y);
}.

Lemma listener_held y : lf_listener y <> -1 -> handle_of y HListener = Some (lf_listener y).
Proof. intros Hl. cbn. unfold kInvalidSocketHandle. by destruct (Z.eqb_spec (lf_listener y) (-1)). Qed.

(** A handle of the process that is not the server's. *)
Definition foreign (y : Life W) (h : Z) : Prop := h ∈ os_open (view (lf_os y)) /\ forall o, handle_of y o <> Some h.

(** A step is safe when the handles stay in order, and those that are not the server's stay
    open and not the server's: nothing is leaked, nothing of another's is closed. *)
Definition safe (y y' : Life W) : Prop := holding y' /\ forall h, foreign y' h <-> foreign y h.

Definition listener_kept (y y' : Life W) : Prop :=
  lf_listener y' <> -1 ->
  lf_listener y' = lf_listener y /\ lf_port y' = lf_port y /\
  os_ports (view (lf_os y')) !! lf_listener y = os_ports (view (lf_os y)) !! lf_listener y.

Lemma port_kept y y' :
  holding y -> listener_kept y y' -> lf_listener y' <> -1 -> os_ports (view (lf_os y')) !! lf_listener y' = Some (lf_port y').
Proof. intros [_ _ H3] Hp Hl. destruct (Hp Hl) as (E1 & E2 & E3). rewrite E1 in Hl. rewrite E1, E2, E3. by apply H3. Qed.

(** The handles stay where they are, or change holders. *)
Lemma safe_moved (f : Holder -> Holder) y y' :
  holding y -> (forall o, f (f o) = o) -> (forall o, handle_of y' o = handle_of y (f o)) ->
  os_open (view (lf_os y')) = os_open (view (lf_os y)) -> listener_kept y y' -> safe y y'.
Proof.
  intros Hy Hf Hh V Hp. pose proof Hy as [H1 H2 _]. split; [split; [.. | by apply (port_kept y)] |].
  - intros o h. rewrite Hh, V. apply H1.
  - intros o1 o2 h. rewrite !Hh. intros Ho1 Ho2. rewrite <- (Hf o1), <- (Hf o2). f_equal. by eapply H2.
  - intros h. unfold foreign. rewrite V. split; intros [Hin Hn]; (split; [exact Hin |]); intros o.
    + rewrite <- (Hf o), <- Hh. apply Hn.
    + rewrite Hh. apply Hn.
Qed.

Lemma safe_kept y y' :
  holding y -> (forall o, handle_of y' o = handle_of y o) -> os_open (view (lf_os y')) = os_open (view (lf_os y)) ->
  listener_kept y y' -> safe y y'.
Proof. intros Hy Hh. by apply (safe_moved id). Qed.

(** A holder lets go of its handle and closes it. *)
Lemma safe_drop o s y y' :
  holding y -> handle_of y o = Some s -> handle_of y' o = None -> (forall o', o' <> o -> handle_of y' o' = handle_of y o') ->
  os_open (view (lf_os y')) = os_open (view (lf_os y)) ∖ {[s]} -> listener_kept y y' -> safe y y'.
Proof.
  intros Hy Ho Ho' Hh V Hp. pose proof Hy as [H1 H2 _].
  assert (forall o' h, handle_of y' o' = Some h -> handle_of y o' = Some h /\ h <> s) as Hold.
  { intros o' h E. destruct (decide (o' = o)) as [-> | Hn]; [congruence |]. rewrite Hh in E by done. split; [exact E |]. intros ->. by apply Hn, (H2 _ _ s). }
  split; [split; [.. | by apply (port_kept y)] |].
  - intros o' h [Ho1 Hn]%Hold. destruct (H1 _ _ Ho1) as [H3 H4]. rewrite V, elem_of_difference, elem_of_singleton. done.
  - intros o1 o2 h [Ho1 _]%Hold [Ho2 _]%Hold. by apply (H2 _ _ h).
  - intros h. unfold foreign. rewrite V, elem_of_difference, elem_of_singleton. split.
    + intros [[Hin Hs] Hn]. split; [exact Hin |]. intros o' E. destruct (decide (o' = o)) as [-> | Hne]; [congruence |].
      apply (Hn o'). by rewrite Hh.
    + intros [Hin Hn]. assert (h <> s) as Hs by (intros ->; by apply (Hn o)). split; [done |]. intros o' [E _]%Hold. by apply (Hn o').
Qed.

(** A holder takes a handle that was not open. *)
Lemma safe_take o s y y' :
  holding y -> handle_of y o = None -> handle_of y' o = Some s -> (forall o', o' <> o -> handle_of y' o' = handle_of y o') ->
  0 <= s -> (s ∉ os_open (view (lf_os y))) -> os_open (view (lf_os y')) = {[s]} ∪ os_open (view (lf_os y)) ->
  (lf_listener y' <> -1 -> os_ports (view (lf_os y')) !! lf_listener y' = Some (lf_port y')) -> safe y y'.
Proof.
  intros [H1 H2 _] Ho Ho' Hh Hs Hfresh V Hp.
  assert (forall o' h, o' <> o -> handle_of y' o' = Some h -> handle_of y o' = Some h /\ h <> s) as Hold.
  { intros o' h Hn E. rewrite Hh in E by done. split; [exact E |]. intros ->. by apply Hfresh, (H1 o'). }
  split; [split; [.. | exact Hp] |].
  - intros o' h E. rewrite V, elem_of_union, elem_of_singleton. destruct (decide (o' = o)) as [-> | Hn].
    + rewrite Ho' in E. injection E as <-. auto.
    + destruct (Hold _ _ Hn E) as [E' _]. destruct (H1 _ _ E'). auto.
  - intros o1 o2 h E1 E2. destruct (decide (o1 = o)) as [-> | N1], (decide (o2 = o)) as [-> | N2]; [done | ..].
    + destruct (Hold _ _ N2 E2) as [_ Ne]. congruence.
    + destruct (Hold _ _ N1 E1) as [_ Ne]. congruence.
    + destruct (Hold _ _ N1 E1) as [F1 _], (Hold _ _ N2 E2) as [F2 _]. by apply (H2 _ _ h).
  - intros h. unfold foreign. rewrite V, elem_of_union, elem_of_singleton. split.
    + intros [[-> | Hin] Hn]; [by destruct (Hn o) |]. split; [exact Hin |]. intros o' E.
      destruct (decide (o' = o)) as [-> | Hne]; [congruence |]. apply (Hn o'). by rewrite Hh.
    + intros [Hin Hn]. split; [by right |]. intros o' E. destruct (decide (o' = o)) as [-> | Hne]; [congruence |].
      apply (Hn o'). by rewrite <- Hh.
Qed.

(** The listener is not among the handles that the others drop. *)
Lemma listener_not_dropped o s y y' :
  holding y -> handle_of y o = Some s -> o <> HListener -> lf_listener y' = lf_listener y -> lf_port y' = lf_port y ->
  (forall l, l <> s -> os_ports (view (lf_os y')) !! l = os_ports (view (lf_os y)) !! l) -> listener_kept y y'.
Proof.
  intros [_ Hone _] Ho Hl E1 E2 V2. unfold listener_kept. rewrite E1. intros Hn. split_and!; [done | done |]. apply V2. intros E.
  apply Hl, (Hone _ _ s); [exact Ho |]. rewrite <- E. by apply listener_held.
Qed.

(** *** The steps *)

Lemma move_view i s y p p' z w : thread_move clock cfg i s y p p' z w -> p <> TClose -> view_grows (view (lf_os y)) (view w).
Proof.
  intros Hm Hp.
  destruct Hm as [| o b w p Hw Hp' | o bytes d w Hr | o bytes d w z Hr -> | He | conn z Hc -> | conn r bytes Hc Hd | conn r z Hc ->
    | rest n w Hz Hd | rest b w z Hd -> | l0 z Hc Hs -> | | | | |];
    try apply view_grows_refl; try done.
  - pose proof (net_wait_view view s kReadinessSliceMs (lf_os y)) as Hv. by rewrite Hw in Hv.
  - by apply (net_recv_view view _ _ _ _ _ _ _ Hr).
  - by apply (net_recv_view view _ _ _ _ _ _ _ Hr).
  - by apply (send_some_view view _ _ _ _ _ Hd).
  - destruct Hd as [-> | Hd]; [apply view_grows_refl | by apply (send_some_view view _ _ _ _ _ Hd)].
  - by apply net_shutdown_view.
Qed.

Lemma move_holds i s y p p' z w :
  thread_move clock cfg i s y p p' z w -> p <> TClose -> holds_socket p' = holds_socket p.
Proof.
  intros Hm Hp.
  destruct Hm as [| o b w p Hw Hp' | | | | | | | | | | | | | |]; try done; [by destruct (lf_stopping y) | by destruct Hp' as [-> | [-> | ->]] | ..];
    destruct (ended _ _); try done. by destruct (bool_decide_reflect ((next (cn_decoder conn)).1.1 = NotFound)).
Qed.

Lemma net_close_open s w : s <> -1 ->
  os_open (view (net_close s w).2) = os_open (view w) ∖ {[s]} /\
  (forall l, l <> s -> os_ports (view (net_close s w).2) !! l = os_ports (view w) !! l).
Proof.
  intros Hs. unfold net_close, kInvalidSocketHandle. destruct (Z.eqb_spec s (-1)); [done |]. cbn [snd].
  destruct (law_close s w) as (H1 & H2 & _). done.
Qed.

Lemma drop_view s w : s <> -1 ->
  os_open (view (drop_socket s w)) = os_open (view w) ∖ {[s]} /\
  (forall l, l <> s -> os_ports (view (drop_socket s w)) !! l = os_ports (view w) !! l).
Proof.
  intros Hs. unfold drop_socket. destruct (net_close_open s (net_shutdown s w) Hs) as [-> H2].
  destruct (net_shutdown_view view s w) as (-> & V2 & _). split; [done |]. intros l Hl. rewrite H2 by done. by rewrite V2.
Qed.

Lemma thread_handle i y s p : lf_threads y !! i = Some (MkThread s p) -> handle_of y (HThread i) = if holds_socket p then Some s else None.
Proof. intros Hi. cbn. by rewrite Hi. Qed.

Lemma moved_handle i s p p' z w y o :
  lf_threads y !! i = Some (MkThread s p) ->
  handle_of (moved_on i (MkThread s p') z w y) o =
    if decide (o = HThread i) then if holds_socket p' then Some s else None else handle_of y o.
Proof.
  intros Hi. case_decide as Ho; [subst o; apply (thread_handle i _ s p'); cbn; apply list_lookup_insert_eq; by eapply lookup_lt_Some |].
  destruct o as [| | j]; [done | done |]. cbn [handle_of moved_on lf_threads]. by rewrite list_lookup_insert_ne by congruence.
Qed.

Lemma safe_thread i y y' : holding y -> thread_step clock cfg i y = Some y' -> safe y y'.
Proof.
  intros Hy E. destruct (thread_cases clock cfg i y y' E) as (s & p & p' & z & w & Hi & Hm & ->).
  pose proof (thread_handle i y s p Hi) as Hs. destruct (decide (p = TClose)) as [-> | Hc].
  - assert (0 <= s) as H0 by (by apply (hd_open y Hy (HThread i))).
    assert (p' = TCount /\ w = (net_close s (lf_os y)).2) as [-> ->] by (by inversion Hm).
    destruct (net_close_open s (lf_os y) ltac:(lia)) as [V1 V2].
    apply (safe_drop (HThread i) s y); [done | done | | | done | by apply (listener_not_dropped (HThread i) s)].
    + rewrite (moved_handle _ _ _ _ _ _ _ _ Hi). by rewrite decide_True.
    + intros o Ho. rewrite (moved_handle _ _ _ _ _ _ _ _ Hi). by rewrite decide_False.
  - destruct (move_view _ _ _ _ _ _ _ Hm Hc) as (V1 & V2 & _). apply (safe_kept y); [done | | done | by intros _; cbn; rewrite V2].
    intros o. rewrite (moved_handle _ _ _ _ _ _ _ _ Hi). case_decide as Ho; [| done]. subst o.
    by rewrite Hs, (move_holds _ _ _ _ _ _ _ Hm Hc).
Qed.

(** The accepted socket is handed to the thread made for it. *)
Definition handed_over (n : nat) (o : Holder) : Holder :=
  if decide (o = HThread n) then HAccept else if decide (o = HAccept) then HThread n else o.

Lemma handed_over_back n o : handed_over n (handed_over n o) = o.
Proof. unfold handed_over. repeat case_decide; congruence. Qed.

Lemma handed_thread n s y z :
  lf_accept y = ACheck s -> n = length (lf_threads y) -> forall o,
  handle_of (put_accept (APush n) (put_threads (lf_threads y ++ [MkThread s TTop]) (put_sys z y))) o = handle_of y (handed_over n o).
Proof.
  intros Ea -> [| | i]; [done | |]; unfold handed_over.
  - rewrite decide_False, decide_True by done. cbn [handle_of put_accept put_threads put_sys lf_threads lf_accept].
    by rewrite lookup_ge_None_2.
  - cbn [handle_of put_accept put_threads put_sys lf_threads]. destruct (decide (i = length (lf_threads y))) as [-> | Hi].
    + rewrite decide_True by done. rewrite lookup_app_r, Nat.sub_diag by lia. cbn. by rewrite Ea.
    + rewrite !decide_False by congruence. cbn [handle_of].
      destruct (decide (i < length (lf_threads y))%nat) as [Hl | Hl]; [by rewrite lookup_app_l |].
      rewrite !lookup_ge_None_2; [done | lia |]. rewrite length_app. cbn [length]. lia.
Qed.

Lemma safe_accept y y' : holding y -> accept_step clock cfg y = Some y' -> safe y y'.
Proof.
  intros Hy E. pose proof Hy as [H1 H2 H3]. unfold accept_step in E.
  assert (forall s y1, handle_of y HAccept = Some s -> lf_os y1 = drop_socket s (lf_os y) -> handle_of y1 HAccept = None ->
    (forall o, o <> HAccept -> handle_of y1 o = handle_of y o) -> lf_listener y1 = lf_listener y -> lf_port y1 = lf_port y -> safe y y1) as Hdrop.
  { intros s y1 Hs Hw Hn Hh E1 E2. destruct (drop_view s (lf_os y)) as [V1 V2]; [destruct (H1 _ _ Hs); lia |].
    rewrite <- Hw in V1, V2. apply (safe_drop HAccept s y); try done. by apply (listener_not_dropped HAccept s). }
  assert (forall y1, handle_of y1 HAccept = handle_of y HAccept -> lf_os y1 = lf_os y -> lf_threads y1 = lf_threads y ->
    lf_listener y1 = lf_listener y -> lf_port y1 = lf_port y -> safe y y1) as Hkeep.
  { intros y1 Ha E1 E2 E3 E4. apply (safe_kept y); [done | | by rewrite E1 | intros _; by rewrite E1].
    intros [| | i]; [cbn; by rewrite E3 | exact Ha | cbn; by rewrite E2]. }
  destruct (lf_accept y) as [| | | s | s | s | k |] eqn:Ea; [done | | | | | | | done].
  - injection E as <-. apply Hkeep; try done. cbn. rewrite Ea. by destruct (lf_stopping y).
  - destruct (sys_waits _ _); [done |]. pose proof (net_accept_view view (lf_listener y) (lf_os y)) as Hv.
    destruct (net_accept _ _) as [[[o s] d] w]. destruct Hv as (V1 & _ & _ & [(-> & V2 & V3 & V4) | (-> & V2 & V3)]); injection E as <-.
    + apply (safe_take HAccept s y); try done; [cbn; by rewrite Ea | by intros [] | cbn; by rewrite V1].
    + apply (safe_kept y); [done | | done | by intros _; cbn; rewrite V1].
      intros [| | i]; [done | | done]. cbn. rewrite Ea. by destruct (lf_stopping y).
  - destruct (lf_stopping y); injection E as <-; [| by apply Hkeep; try done; cbn; rewrite Ea].
    apply (Hdrop s); try done; [cbn; by rewrite Ea | by intros []].
  - injection E as <-. apply Hkeep; try done. cbn. by rewrite Ea.
  - injection E as <-. unfold admit_socket. destruct (sc_max_connections cfg <=? zlen (lf_slots y)).
    + apply (Hdrop s); try done; [cbn; by rewrite Ea | by intros []].
    + apply (safe_moved (handed_over (length (lf_threads y))) y); try done; [apply handed_over_back | by apply handed_thread].
  - injection E as <-. apply Hkeep; try done. cbn. by rewrite Ea.
Qed.

(** *** Starting and stopping *)

Lemma stop_wake_frame y :
  lf_accept (stop_wake y) = lf_accept y /\ lf_threads (stop_wake y) = lf_threads y /\ lf_listener (stop_wake y) = lf_listener y /\
  lf_port (stop_wake y) = lf_port y /\ lf_slots (stop_wake y) = lf_slots y /\ lf_sys (stop_wake y) = lf_sys y /\ lf_owner (stop_wake y) = OSweep.
Proof. unfold stop_wake. by destruct (net_connect_loopback _ _) as [[[o s] d] w]. Qed.

Lemma wake_view y : lf_listener y <> -1 -> holding y ->
  os_open (view (lf_os (stop_wake y))) = os_open (view (lf_os y)) /\
  os_ports (view (lf_os (stop_wake y))) !! lf_listener y = os_ports (view (lf_os y)) !! lf_listener y /\
  (is_affirmative (net_connect_loopback (lf_port y) (lf_os y)).1.1.1 = true ->
    lf_listener y ∈ os_pending (view (lf_os (stop_wake y)))).
Proof.
  intros Hl [H1 H2 H3]. destruct (H1 _ _ (listener_held y Hl)) as [_ Ho].
  unfold stop_wake. pose proof (net_connect_handles view (lf_port y) (lf_os y)) as Hc.
  destruct (net_connect_loopback _ _) as [[[o s] d] w]. cbn [fst].
  destruct Hc as [(-> & V1 & V2 & V3 & V4 & V5 & _ & V6) | (-> & V1 & V2 & V3)].
  - change (is_affirmative Ok) with true. cbn [put_owner put_os lf_os].
    destruct (net_close_open s w ltac:(lia)) as [C1 C2]. assert (lf_listener y <> s) as Hn by congruence. split_and!.
    + rewrite C1, V3. apply leibniz_equiv. intros h. rewrite elem_of_difference, elem_of_union, elem_of_singleton.
      split; [by intros [[|]] | intros Hh; split; [by right | congruence]].
    + rewrite C2 by done. by rewrite V4.
    + intros _. unfold net_close, kInvalidSocketHandle. destruct (Z.eqb_spec s (-1)); [lia |]. cbn [snd].
      destruct (law_close s w) as (_ & _ & C3 & _). apply C3, elem_of_difference. split; [by apply V6, H3 | by rewrite elem_of_singleton].
  - change (is_affirmative Unavailable) with false. cbn [put_owner put_os lf_os]. split_and!; [done | by apply V3 | done].
Qed.

Lemma safe_owner c y y' : ordered clock cfg c y -> holding y -> owner_step clock cfg y = Some y' -> safe y y'.
Proof.
  intros [_ Hc _ _] Hy E. unfold owner_step in E. unfold control in Hc.
  destruct (lf_owner y) as [| | | [| h l] | | [| i l]] eqn:Eo; [done | ..].
  - injection E as <-. destruct (wake_view y (proj1 (proj2 (proj2 Hc))) Hy) as (V1 & V2 & _).
    destruct (stop_wake_frame y) as (F1 & F2 & F3 & F4 & _). apply (safe_kept y); try done.
    intros [| | i]; cbn; by rewrite ?F1, ?F2, ?F3.
  - injection E as <-. by apply (safe_kept y).
  - injection E as <-. by apply (safe_kept y).
  - injection E as <-. destruct (net_shutdown_view view h (lf_os y)) as (V1 & V2 & _).
    apply (safe_kept y); [done.. | by intros _; cbn; rewrite V2].
  - assert (lf_accept y = AExit /\ y' = take_all (put_accept AOff y)) as [Ea ->].
    { destruct Hc as (_ & _ & _ & Ha). destruct (lf_accept y); try done. by injection E as <-. }
    apply (safe_kept y); try done. intros [| | i]; [done | | done]. cbn. by rewrite Ea.
  - injection E as <-. destruct Hc as (_ & _ & Hl & _). unfold stop_end.
    destruct (net_close_open (lf_listener y) (lf_os y) Hl) as [V1 V2].
    assert ((net_close (lf_listener y) (lf_os y)).1 = -1) as Hn.
    { unfold net_close, kInvalidSocketHandle. by destruct (Z.eqb_spec (lf_listener y) (-1)). }
    destruct (net_close _ _) as [h w]. cbn [fst snd] in *. subst h.
    apply (safe_drop HListener (lf_listener y) y); try done; [by apply listener_held | by intros []].
  - destruct (thread_done y i); [| done]. injection E as <-. by apply (safe_kept y).
Qed.

Lemma safe_start c y : ordered clock cfg c y -> lf_owner y = OFree -> holding y -> safe y (server_start cfg y).2.
Proof.
  intros [_ Hc _ _] Eo Hy. unfold control in Hc. rewrite Eo in Hc. unfold server_start.
  destruct (lf_running y) eqn:Er; [by apply (safe_kept y) |]. destruct (negb sys_startup); [by apply (safe_kept y) |]. destruct Hc as (Hl & Ha & _).
  pose proof (net_listen_handles view (sc_port cfg) (sc_backlog cfg) (lf_os y)) as Hn.
  destruct (net_listen_loopback _ _ _) as [lr w]. destruct Hn as [(-> & V1 & V2 & V3 & V4 & _) | (-> & V1 & V2 & V3)].
  2:{ by apply (safe_kept y (put_os w y)). }
  change (safe y (put_accept ATop (put_flags true false (put_listener (li_handle lr) (li_port lr) (put_os w y))))).
  apply (safe_take HListener (li_handle lr) y); try done.
  - cbn. by rewrite Hl.
  - cbn. unfold kInvalidSocketHandle. by destruct (Z.eqb_spec (li_handle lr) (-1)); [lia |].
  - intros [| | i] Ho; [done | cbn; by rewrite Ha | done].
Qed.

Lemma safe_step c op y y' : ordered clock cfg c y -> holding y -> life_step clock cfg op y = Some y' -> safe y y'.
Proof.
  intros Ho Hy. destruct op as [| | | | i | op]; cbn [life_step].
  - destruct (lf_owner y) eqn:Eo; try done. intros [= <-]. by eapply safe_start.
  - destruct (lf_owner y) eqn:Eo; try done. intros [= <-]. unfold stop_begin. destruct (_ && _); by apply (safe_kept y).
  - by eapply safe_owner.
  - by apply safe_accept.
  - by apply safe_thread.
  - intros [= <-]. by apply (safe_kept y).
Qed.

Lemma holding_others y w : holding y -> others_may view y w -> holding (put_os w y).
Proof.
  intros [H1 H2 H3] (V1 & V2 & _). split; [| exact H2 | intros Hl; cbn in *; rewrite V2; by apply H3].
  intros o h Ho. change (handle_of y o = Some h) in Ho. destruct (H1 _ _ Ho) as [H4 H5]. split; [exact H4 | by apply (V1 o)].
Qed.

Lemma life_holding c y : life_reachable clock cfg view c y -> holding y.
Proof.
  induction 1 as [e w He | op y y' Hy IH E | y w _ IH Hw].
  - split; [by intros [| | i] h Ho | by intros [| | i] o2 h Ho | done].
  - eapply safe_step; [by apply life_ordered | exact IH | exact E].
  - by apply holding_others.
Qed.

End Handles.
