(* ===== verification/Shutdown.v ===== *)
(** * Stopping the server

    What [stop] of [Lifecycle] reaches: every thread has a bounded number of steps left once
    the server is stopping, and some thread always has one until the owner is free, so that
    [stop] returns; a stopped server has no thread, no connection, no session and no handle. *)
From Stdlib Require Import Strings.String.
From stdpp Require Import gmap.
From S2P Require Import Prelude OrderedMap Core Checked Codec Counted Hash Ids Domain Policy Fixtures Ledger Classifier.
From S2P Require Import Localizer Fence Authority Record Journal Snapshot Durable Store Net Sockets Frame Session Messages Wire.
From S2P Require Import Engine EngineSpec Coordinator Server ServerSpec Service System SystemSpec Replies Lifecycle LifecycleSpec Handles.
From S2P Require Import SimSockets Deployment.
Local Open Scope string_scope.
Local Open Scope list_scope.
Local Open Scope Z_scope.

Section Shutdown.
Context {W : Type} `{SocketOs W} (clock : nat -> WallNs) (cfg : ServerConfig) (c : EngineConfig).
Implicit Types y : Life W.

(** ** What is left to do *)

(** A decoder that waits for the rest of a frame holds at most this much. *)
Definition max_pending : Z := max_frame_bytes (ec_policy c) + kFrameHeaderSize.

(** The steps a connection's thread has left at most, once the server is stopping. *)
Definition thread_left (t : Thread) (l : Link) : Z :=
  match th_phase t with
  | TDone => 0
  | TMark => 1
  | TCount => 2
  | TClose => 3
  | TRelease => 4
  | TShut => 5
  | TTop => 6
  | TFrames => 7 + link_weight l
  | TSend rest => 8 + zlen rest + frames_weight l
  | TRecv => 8 + (reply_cost + 3) * max_pending
  | TWait => 9 + (reply_cost + 3) * max_pending
  end.

(** The most it can have left. *)
Definition thread_cost : Z := 9 + (reply_cost + 3) * (max_pending + 1).

Fixpoint threads_left (ts : list Thread) (ls : list Link) : Z :=
  match ts, ls with
  | t :: ts, l :: ls => thread_left t l + threads_left ts ls
  | _, _ => 0
  end.

Definition accept_left (a : AcceptPhase) : Z :=
  match a with
  | AOff | AExit => 0
  | ATop => 1
  | AGot _ => 2
  | AAccept => 3
  | APush _ => 5
  | ACheck _ => 12
  | AReap _ => 13
  end.

Definition owner_left (y : Life W) : Z :=
  match lf_owner y with
  | OFree => 0
  | OWake => 5 + 3 * zlen (lf_slots y)
  | OSweep => 4 + 3 * zlen (lf_slots y)
  | OShut l => 3 + zlen l + 2 * zlen (lf_slots y)
  | OJoinAccept => 2 + 2 * zlen (lf_slots y)
  | OJoin l => 1 + zlen l
  end.

Definition steps_left (y : Life W) : Z :=
  owner_left y + accept_left (lf_accept y) + threads_left (lf_threads y) (sy_links (lf_sys y)).

Lemma threads_left_insert ts ls i t t' l l' :
  ts !! i = Some t -> ls !! i = Some l ->
  threads_left (<[i := t']> ts) (<[i := l']> ls) = threads_left ts ls - thread_left t l + thread_left t' l'.
Proof.
  revert ls i. induction ts as [| x ts IH]; intros [| k ls] [| i] Ht Hl; try done.
  - injection Ht as ->. injection Hl as ->. cbn. lia.
  - change (thread_left x k + threads_left (<[i := t']> ts) (<[i := l']> ls) =
      thread_left x k + threads_left ts ls - thread_left t l + thread_left t' l').
    rewrite (IH ls i Ht Hl). lia.
Qed.

Lemma threads_left_snoc ts ls t l :
  length ts = length ls -> threads_left (ts ++ [t]) (ls ++ [l]) = threads_left ts ls + thread_left t l.
Proof. revert ls. induction ts as [| x ts IH]; intros [| k ls] Hn; try done; cbn [app threads_left]; [lia |].
  injection Hn as Hn. rewrite (IH ls Hn). lia. Qed.

Lemma frames_weight_nonneg l : 0 <= frames_weight l.
Proof. unfold frames_weight, reply_cost, kDefaultMaxDocumentBytes. pose proof (zlen_nonneg (pending (cn_decoder (lk_conn l)))). lia. Qed.

Lemma link_weight_more l : frames_weight l <= link_weight l <= frames_weight l + reply_cost + 2.
Proof. unfold link_weight, reply_cost, kDefaultMaxDocumentBytes. destruct (lk_phase l); lia. Qed.

Lemma frames_weight_most l :
  zlen (pending (cn_decoder (lk_conn l))) <= max_pending -> frames_weight l <= (reply_cost + 3) * max_pending.
Proof. unfold frames_weight, reply_cost, kDefaultMaxDocumentBytes. lia. Qed.

Context (Hmax : in_u32 (max_frame_bytes (ec_policy c))).

Lemma max_pending_nonneg : 0 <= max_pending.
Proof. unfold max_pending, kFrameHeaderSize. unfold in_u in Hmax. lia. Qed.

Lemma reachable_pending z i l :
  sys_reachable clock cfg c z -> sy_links z !! i = Some l ->
  fd_max (cn_decoder (lk_conn l)) = max_frame_bytes (ec_policy c) /\ zlen (pending (cn_decoder (lk_conn l))) <= max_pending.
Proof.
  intros Hz Hi. destruct (sys_reachable_inv _ _ _ _ Hmax Hz) as [_ _ _ Hl _ _]. rewrite Forall_lookup in Hl.
  destruct (Hl i l Hi) as [H1 H2 _]. done.
Qed.

(** What a thread has left to send is part of a response that fits. *)
Lemma sending_bounded z i l rest :
  sys_reachable clock cfg c z -> sy_links z !! i = Some l -> in_step (TSend rest) l -> zlen rest <= kDefaultMaxDocumentBytes.
Proof.
  intros Hz Hi (r & bytes & k & Hl & Hb & ->). pose proof (sys_fits clock cfg c z Hz) as Hf. rewrite Forall_lookup in Hf.
  specialize (Hf i l Hi). unfold phase_fits in Hf. rewrite Hl in Hf. pose proof (response_bytes_bounded r bytes Hf Hb).
  unfold zlen in *. rewrite length_drop. lia.
Qed.

Lemma thread_left_bounds z i t l :
  sys_reachable clock cfg c z -> sy_links z !! i = Some l -> in_step (th_phase t) l -> 0 <= thread_left t l <= thread_cost.
Proof.
  intros Hz Hi Ht. destruct (reachable_pending z i l Hz Hi) as [_ Hp]. pose proof (frames_weight_most l Hp) as H1.
  pose proof (link_weight_more l) as H2. pose proof (frames_weight_nonneg l) as H3. pose proof max_pending_nonneg as H4.
  unfold thread_left, thread_cost. destruct t as [s []]; cbn [th_phase] in *;
    try pose proof (sending_bounded z i l _ Hz Hi Ht); try pose proof (zlen_nonneg rest); unfold reply_cost, kDefaultMaxDocumentBytes in *; lia.
Qed.

Lemma threads_left_bounds ts ls :
  (forall i t l, ts !! i = Some t -> ls !! i = Some l -> 0 <= thread_left t l <= thread_cost) ->
  0 <= threads_left ts ls <= zlen ts * thread_cost.
Proof.
  assert (0 <= thread_cost) as H0 by (pose proof max_pending_nonneg; unfold thread_cost, reply_cost, kDefaultMaxDocumentBytes; lia).
  revert ls. induction ts as [| t ts IH]; intros ls Hp; [by destruct ls |].
  rewrite zlen_cons. pose proof (zlen_nonneg ts) as Hts. destruct ls as [| l ls]; cbn [threads_left]; [nia |].
  pose proof (Hp 0%nat t l eq_refl eq_refl). pose proof (IH ls (fun i => Hp (S i))). nia.
Qed.

Lemma ordered_left y :
  ordered clock cfg c y -> 0 <= threads_left (lf_threads y) (sy_links (lf_sys y)) <= zlen (lf_threads y) * thread_cost.
Proof.
  intros [H1 _ [_ C2] _]. apply threads_left_bounds. intros i t l Ht Hl. by apply (thread_left_bounds (lf_sys y) i), (C2 i).
Qed.

(** *** Every step of the server's threads leaves less *)

Lemma thread_left_moved i s y p p' z w l l' :
  lf_stopping y = true -> sys_reachable clock cfg c (lf_sys y) -> sys_reachable clock cfg c z ->
  thread_move clock cfg i s y p p' z w -> sy_links (lf_sys y) !! i = Some l -> sy_links z !! i = Some l' ->
  in_step p l -> thread_left (MkThread s p') l' < thread_left (MkThread s p) l.
Proof.
  intros Hs Hy Hz Hm Hl Hl' Hp. destruct (reachable_pending _ _ _ Hy Hl) as [Hd Hb]. destruct (reachable_pending _ _ _ Hz Hl') as [_ Hb'].
  pose proof (link_weight_more l) as H0. pose proof (link_weight_more l') as H0'.
  pose proof (frames_weight_nonneg l) as H1. pose proof (frames_weight_most l' Hb') as H1'.
  pose proof (sending_bounded (lf_sys y) i l) as Hsend. pose proof (sending_bounded z i l') as Hsend'.
  assert (reply_cost = kDefaultMaxDocumentBytes + 3) as HR by done. pose proof max_pending_nonneg as H2.
  destruct Hm as [| o b w p Hw Hp' | o bytes d w Hr | o bytes d w z Hr -> | He | conn z Hc -> | conn r bytes Hc Hd' | conn r z Hc ->
    | rest n w Hz' Hd' | rest b w z Hd' -> | l0 z Hc Hs' -> | | | | |];
    unfold ended in *; rewrite ?Hl'; try (rewrite Hl in Hl'; injection Hl' as <-); try (rewrite Hl in Hc; injection Hc as ->);
    unfold thread_left; cbn [th_phase].
  - rewrite Hs. lia.
  - unfold reply_cost, kDefaultMaxDocumentBytes. destruct Hp' as [-> | [-> | ->]]; lia.
  - unfold reply_cost, kDefaultMaxDocumentBytes. lia.
  - assert (link_weight l' = frames_weight l') as Hw.
    { destruct (left_loop l') eqn:Ef; unfold link_weight; [unfold left_loop in Ef; destruct (lk_phase l'); try done; lia |].
      rewrite (received_phase clock cfg i bytes _ l l' Hl Hp Hl' Ef). lia. }
    destruct (left_loop l'); unfold reply_cost, kDefaultMaxDocumentBytes in *; lia.
  - lia.
  - destruct (left_loop l') eqn:Ef; [lia |]. case_bool_decide as Hn; [lia |]. cbn [lk_conn] in Hd.
    destruct (next_weight clock cfg i _ conn l' ltac:(by rewrite Hd) Hl Hn Hl'); [congruence | lia].
  - assert (zlen bytes <= kDefaultMaxDocumentBytes) by (apply (Hsend' bytes Hy Hl); by exists r, bytes, 0%nat).
    unfold link_weight. cbn [lk_phase]. lia.
  - assert (link_weight (MkLink conn (Replying r)) = frames_weight (MkLink conn (Replying r)) + reply_cost) as -> by done.
    unfold reply_cost, kDefaultMaxDocumentBytes.
    destruct (reply_weight clock cfg i false _ conn r l' Hl Hl') as [-> | [_ Hlt]]; [lia |]. destruct (left_loop l'); lia.
  - pose proof (send_some_shorter (H := handle_api s) _ _ _ _ Hd' ltac:(pose proof (zlen_nonneg rest); lia)). lia.
  - destruct Hp as (r & bytes & k & Hr & _). destruct l as [conn p]. cbn [lk_phase] in Hr. subst p. pose proof (zlen_nonneg rest).
    destruct (reply_weight clock cfg i b _ conn r l' Hl Hl') as [-> | [_ Hlt]]; [lia |]. destruct (left_loop l'); lia.
  - destruct (serve_weight clock cfg i _ _ l' Hl Hs' Hl') as [-> Hlt]. lia.
  - lia.
  - lia.
  - lia.
  - lia.
  - lia.
Qed.

Lemma move_reachable i s y p p' z w :
  sys_reachable clock cfg c (lf_sys y) -> thread_move clock cfg i s y p p' z w -> sys_reachable clock cfg c z.
Proof. intros Hy Hm. destruct Hm; subst; try exact Hy; by apply sys_more. Qed.

Lemma move_updates i s y p p' z w l :
  thread_move clock cfg i s y p p' z w -> sy_links (lf_sys y) !! i = Some l ->
  exists l', sy_links z !! i = Some l' /\ sy_links z = <[i := l']> (sy_links (lf_sys y)).
Proof.
  intros Hm Hl.
  assert (forall op, op_index op = Some i -> exists l', sy_links (sys_step clock cfg op (lf_sys y)) !! i = Some l' /\
    sy_links (sys_step clock cfg op (lf_sys y)) = <[i := l']> (sy_links (lf_sys y))) as Hop.
  { intros op Hi. destruct (step_at clock cfg op i (lf_sys y) Hi) as [l' E]. exists l'. split; [| exact E].
    rewrite E. apply list_lookup_insert_eq. by eapply lookup_lt_Some. }
  destruct Hm; subst; try (by apply Hop); exists l; by rewrite list_insert_id.
Qed.

Lemma left_thread i y y' :
  ordered clock cfg c y -> lf_stopping y = true -> thread_step clock cfg i y = Some y' -> steps_left y' < steps_left y.
Proof.
  intros [H1 _ [C1 C2] _] Hs E. destruct (thread_cases clock cfg i y y' E) as (s & p & p' & z & w & Hi & Hm & ->).
  destruct (lookup_lt_is_Some_2 (sy_links (lf_sys y)) i) as [l Hl]; [rewrite <- C1; by eapply lookup_lt_Some |].
  destruct (move_updates _ _ _ _ _ _ _ _ Hm Hl) as (l' & Hl' & E').
  pose proof (thread_left_moved i s y p p' z w l l' Hs H1 (move_reachable _ _ _ _ _ _ _ H1 Hm) Hm Hl Hl' (C2 i _ _ Hi Hl)) as Hlt.
  unfold steps_left. change (owner_left (moved_on i (MkThread s p') z w y)) with (owner_left y). cbn [moved_on lf_accept lf_threads lf_sys].
  rewrite E', (threads_left_insert _ _ _ _ _ _ _ Hi Hl). lia.
Qed.

Lemma left_accept y y' :
  ordered clock cfg c y -> lf_stopping y = true -> lf_owner y <> OFree -> accept_step clock cfg y = Some y' ->
  steps_left y' < steps_left y.
Proof.
  intros Ho Hs Hf E. pose proof Ho as [H1 H2 [C1 C2] _]. unfold accept_step in E. rewrite Hs in E.
  assert (forall y1, owner_left y1 <= owner_left y -> accept_left (lf_accept y1) < accept_left (lf_accept y) ->
    lf_threads y1 = lf_threads y -> sy_links (lf_sys y1) = sy_links (lf_sys y) -> steps_left y1 < steps_left y) as Hless.
  { intros y1 L1 L2 E1 E2. unfold steps_left. rewrite E1, E2. lia. }
  destruct (lf_accept y) as [| | | s | s | s | k |] eqn:Ea; [done | ..].
  - injection E as <-. by apply Hless.
  - destruct (sys_waits _ _); [done |]. destruct (net_accept _ _) as [[[o s] d] w]. injection E as <-.
    apply Hless; try done. cbn. by destruct (is_affirmative o).
  - injection E as <-. by apply Hless.
  - injection E as <-. apply Hless; try done. unfold owner_left. cbn [reap_finished put_accept put_slots lf_owner lf_slots].
    pose proof (length_filter (fun sl => thread_done y (sl_thread sl) = false) (lf_slots y)). unfold zlen. destruct (lf_owner y); lia.
  - injection E as <-. unfold admit_socket. pose proof (live_in_slots clock cfg c y Ho ltac:(by rewrite Ea)) as Hlive.
    destruct (Z.leb_spec (sc_max_connections cfg) (zlen (lf_slots y))) as [Hfull | Hroom]; [by apply Hless |].
    unfold steps_left. rewrite Ea. match goal with |- context [owner_left ?u] => change (owner_left u) with (owner_left y) end.
    cbn [put_accept put_threads put_sys lf_accept lf_threads lf_sys accept_left].
    rewrite (accept_admits clock cfg (lf_sys y) ltac:(lia)). cbn [sy_links]. rewrite (threads_left_snoc _ _ _ _ C1).
    cbn [thread_left th_phase]. lia.
  - injection E as <-. unfold steps_left. rewrite Ea. cbn [put_accept put_slots lf_accept lf_threads lf_sys accept_left].
    unfold owner_left. cbn [put_accept put_slots lf_owner lf_slots]. rewrite zlen_app. change (zlen [MkSlot (socket_of y k) k]) with 1.
    destruct (lf_owner y); lia || done.
  - done.
Qed.

Lemma left_owner y y' :
  ordered clock cfg c y -> owner_step clock cfg y = Some y' -> steps_left y' < steps_left y.
Proof.
  intros [H1 H2 _ _] E. unfold owner_step in E.
  assert (forall y1, owner_left y1 < owner_left y -> accept_left (lf_accept y1) <= accept_left (lf_accept y) ->
    lf_threads y1 = lf_threads y -> sy_links (lf_sys y1) = sy_links (lf_sys y) -> steps_left y1 < steps_left y) as Hless.
  { intros y1 L1 L2 E1 E2. unfold steps_left. rewrite E1, E2. lia. }
  pose proof (zlen_nonneg (lf_slots y)) as H0. unfold owner_left in Hless.
  destruct (lf_owner y) as [| | | [| h l] | | [| i l]] eqn:Eo; [done | ..].
  - injection E as <-. destruct (stop_wake_frame y) as (F1 & F2 & F3 & F4 & F5 & F6 & F7).
    apply Hless; rewrite ?F1, ?F2, ?F5, ?F6, ?F7; try done; lia.
  - injection E as <-. apply Hless; try done. cbn [put_owner lf_owner lf_slots]. unfold zlen in *. rewrite length_map. lia.
  - injection E as <-. apply Hless; try done. cbn [put_owner lf_owner lf_slots]. rewrite zlen_nil. lia.
  - injection E as <-. apply Hless; try done. cbn [put_owner put_os lf_owner lf_slots]. rewrite zlen_cons. lia.
  - assert (y' = take_all (put_accept AOff y)) as -> by (destruct (lf_accept y); try done; by injection E as <-).
    apply Hless; try done; [| by destruct (lf_accept y)].
    cbn [take_all put_owner put_slots put_accept lf_owner lf_slots]. unfold zlen in *. rewrite length_map. lia.
  - injection E as <-. unfold stop_end. destruct (net_close _ _) as [h w]. apply Hless; try done.
  - destruct (thread_done y i); [| done]. injection E as <-. apply Hless; try done. cbn [put_owner lf_owner]. rewrite zlen_cons. lia.
Qed.

(** ** Until the owner is free *)

Section Returns.
Context (view : W -> OsView) `{!SocketOsLaws W view}.

(** The wake-up connection was made, and the accept thread has not missed it. *)
Definition woken (y : Life W) : Prop :=
  match lf_owner y with
  | OFree | OWake => False
  | _ => lf_accept y = AAccept -> lf_listener y ∈ os_pending (view (lf_os y))
  end.

(** Past the check of the stop flag at the head of its loop. *)
Definition in_loop (p : ThreadPhase) : bool := match p with TWait | TRecv | TFrames | TSend _ => true | _ => false end.

(** The socket of thread [i], which is in its loop, will be shut down by [stop], or was. *)
Definition will_return (y : Life W) (i : nat) (s : Z) : Prop :=
  match lf_owner y with
  | OFree => True
  | OWake | OSweep => i ∈ map sl_thread (lf_slots y)
  | OShut l => s ∈ l \/ s ∈ os_shut (view (lf_os y))
  | OJoinAccept | OJoin _ => s ∈ os_shut (view (lf_os y))
  end.

Definition swept (y : Life W) : Prop :=
  forall i s p, lf_threads y !! i = Some (MkThread s p) -> in_loop p = true -> will_return y i s.

Lemma thread_has_step i y :
  thread_done y i = false -> (forall s p, lf_threads y !! i = Some (MkThread s p) -> in_loop p = true -> s ∈ os_shut (view (lf_os y))) ->
  exists y', thread_step clock cfg i y = Some y'.
Proof.
  intros (t & Hi & Hd)%thread_done_false Hs. unfold thread_step. rewrite Hi. destruct t as [s p]. specialize (Hs s p Hi).
  destruct p as [| | | | rest | | | | | |]; try done; try by eexists.
  - destruct (net_wait_readable _ _ _) as [[o b] w]. by eexists.
  - destruct (shut_returns view s [] kRecvChunk (lf_os y) (Hs eq_refl)) as [_ [[[[o bytes] d] w] ->]]. destruct (_ || _); by eexists.
  - unfold send_step. destruct (zlen rest =? 0); [by eexists |].
    destruct (shut_returns view s rest 0 (lf_os y) (Hs eq_refl)) as [[[[rest' |] w] ->] _]; by eexists.
Qed.

Lemma woken_progress y : woken y -> swept y -> exists op y', server_op op = true /\ life_step clock cfg op y = Some y'.
Proof.
  unfold woken. intros Hw Hsw.
  assert (forall y', owner_step clock cfg y = Some y' -> exists op y', server_op op = true /\ life_step clock cfg op y = Some y') as Hown.
  { intros y' E. by exists LOwner, y'. }
  destruct (lf_owner y) as [| | | [| h l] | | [| i l]] eqn:Eo; try done; try (by eapply Hown; unfold owner_step; rewrite Eo).
  - assert ((exists y', owner_step clock cfg y = Some y') \/ exists y', accept_step clock cfg y = Some y') as [[y' E] | [y' E]];
      [| by exists LOwner, y' | by exists LAccept, y'].
    unfold owner_step, accept_step. rewrite Eo. destruct (lf_accept y) eqn:Ea; try (by left; eexists); try (by right; eexists).
    + right. rewrite (law_waits _ _ (Hw eq_refl)). destruct (net_accept _ _) as [[[o s] d] w]. by eexists.
    + right. destruct (lf_stopping y); by eexists.
  - destruct (thread_done y i) eqn:Ed.
    + eapply Hown. unfold owner_step. by rewrite Eo, Ed.
    + destruct (thread_has_step i y Ed) as [y' E]; [| by exists (LThread i), y'].
      intros s p Hi Hp. specialize (Hsw i s p Hi Hp). unfold will_return in Hsw. by rewrite Eo in Hsw.
Qed.

Lemma move_pending i s y p p' z w l :
  thread_move clock cfg i s y p p' z w -> (p = TClose -> l <> s) -> l ∈ os_pending (view (lf_os y)) -> l ∈ os_pending (view w).
Proof.
  intros Hm Hl Hp. destruct (decide (p = TClose)) as [-> | Hc].
  - assert (w = (net_close s (lf_os y)).2) as -> by (by inversion Hm). unfold net_close. destruct (s =? kInvalidSocketHandle); [exact Hp |].
    cbn [snd]. destruct (law_close s (lf_os y)) as (_ & _ & V & _). apply V, elem_of_difference. rewrite elem_of_singleton. auto.
  - destruct (move_view clock cfg view _ _ _ _ _ _ _ Hm Hc) as (_ & _ & V & _). by apply V.
Qed.

Lemma woken_thread i y y' : holding view y -> lf_listener y <> -1 -> woken y -> thread_step clock cfg i y = Some y' -> woken y'.
Proof.
  intros [_ Hone _] Hl Hw E. destruct (thread_cases clock cfg i y y' E) as (s & p & p' & z & w & Hi & Hm & ->).
  assert (p = TClose -> lf_listener y <> s) as Hs.
  { intros -> Es. pose proof (thread_handle i y s TClose Hi) as Hh. cbn [holds_socket] in Hh. rewrite <- Es in Hh.
    by pose proof (Hone _ _ _ Hh (listener_held y Hl)). }
  unfold woken in *. cbn [moved_on lf_owner lf_accept lf_listener lf_os].
  destruct (lf_owner y); try done; intros Ha; apply (move_pending _ _ _ _ _ _ _ _ Hm Hs); by apply Hw.
Qed.

Lemma woken_accept y y' : lf_stopping y = true -> woken y -> accept_step clock cfg y = Some y' -> woken y'.
Proof.
  intros Hs Hw E.
  assert (lf_owner y' = lf_owner y /\ lf_accept y' <> AAccept) as [Eo Ha].
  { unfold accept_step, admit_socket in E. rewrite Hs in E. destruct (lf_accept y); try done; try (by injection E as <-).
    - destruct (sys_waits _ _); [done |]. destruct (net_accept _ _) as [[[o s] d] w]. injection E as <-. by destruct (is_affirmative o).
    - destruct (_ <=? _); by injection E as <-. }
  unfold woken in *. rewrite Eo. by destruct (lf_owner y).
Qed.

Lemma woken_owner y y' : woken y -> owner_step clock cfg y = Some y' -> lf_owner y' = OFree \/ woken y'.
Proof.
  unfold woken, owner_step. intros Hw E. destruct (lf_owner y) as [| | | [| h l] | | [| i l]]; try done.
  - injection E as <-. by right.
  - injection E as <-. by right.
  - injection E as <-. right. intros Ha. destruct (net_shutdown_view view h (lf_os y)) as (_ & _ & V & _). by apply V, Hw.
  - right. destruct (lf_accept y); try done; injection E as <-; by intros [=].
  - injection E as <-. left. unfold stop_end. by destruct (net_close _ _) as [h w].
  - destruct (thread_done y i); [| done]. injection E as <-. by right.
Qed.

(** *** A slot has the socket of its thread *)

Definition slots_match (y : Life W) : Prop :=
  forall sl, sl ∈ lf_slots y -> exists p, lf_threads y !! sl_thread sl = Some (MkThread (sl_socket sl) p).

Lemma slots_match_kept y y' :
  (forall i s p, lf_threads y !! i = Some (MkThread s p) -> exists p', lf_threads y' !! i = Some (MkThread s p')) ->
  (forall sl, sl ∈ lf_slots y' -> sl ∈ lf_slots y) -> slots_match y -> slots_match y'.
Proof. intros Ht Hs Hy sl Hsl. destruct (Hy sl (Hs sl Hsl)) as [p Hp]. exact (Ht _ _ _ Hp). Qed.

Lemma slots_match_accept y y' :
  ordered clock cfg c y -> slots_match y -> accept_step clock cfg y = Some y' -> slots_match y'.
Proof.
  intros [_ _ _ [_ _ V3 _]] Hy E. unfold accept_step in E.
  assert (forall y1, lf_threads y1 = lf_threads y -> lf_slots y1 = lf_slots y -> slots_match y1) as Hsame.
  { intros y1 E1 E2. apply (slots_match_kept y); [rewrite E1; eauto | by rewrite E2 | exact Hy]. }
  destruct (lf_accept y) as [| | | s | s | s | k |] eqn:Ea; try done.
  - injection E as <-. by apply Hsame.
  - destruct (sys_waits _ _); [done |]. destruct (net_accept _ _) as [[[o s] d] w]. injection E as <-. by apply Hsame.
  - destruct (lf_stopping y); injection E as <-; by apply Hsame.
  - injection E as <-. apply (slots_match_kept y); [eauto | | exact Hy]. intros sl Hsl. by apply list_elem_of_filter in Hsl as [_ Hsl].
  - injection E as <-. unfold admit_socket. destruct (_ <=? _); [by apply Hsame |].
    apply (slots_match_kept y); [| done | exact Hy]. intros i s' p Hi. exists p. cbn. by apply lookup_app_l_Some.
  - injection E as <-. intros sl Hsl. cbn [put_accept put_slots lf_slots lf_threads] in *. apply elem_of_app in Hsl as [Hsl | Hsl]; [by apply Hy |].
    apply list_elem_of_singleton in Hsl as ->. cbn [sl_thread sl_socket]. unfold socket_of.
    destruct (lookup_lt_is_Some_2 (lf_threads y) k (V3 k eq_refl)) as [[s p] Ht]. rewrite Ht. by exists p.
Qed.

Lemma slots_match_server op y y' :
  ordered clock cfg c y -> slots_match y -> server_op op = true -> life_step clock cfg op y = Some y' -> slots_match y'.
Proof.
  intros Ho Hy Hop E. pose proof (slots_match_accept y y' Ho Hy) as Ha.
  assert (forall y1, lf_threads y1 = lf_threads y -> (forall sl, sl ∈ lf_slots y1 -> sl ∈ lf_slots y) -> slots_match y1) as Hsame.
  { intros y1 E1 E2. apply (slots_match_kept y); [rewrite E1; eauto | exact E2 | exact Hy]. }
  destruct op as [| | | | i | op]; try done; cbn [life_step] in E.
  - unfold owner_step in E. destruct (lf_owner y) as [| | | [| h l] | | [| i l]]; try done; try (injection E as <-; by apply Hsame).
    + injection E as <-. destruct (stop_wake_frame y) as (_ & F2 & _ & _ & F5 & _). apply Hsame; [done | by rewrite F5].
    + destruct (lf_accept y); try done; injection E as <-; apply Hsame; try done; intros sl Hsl; by apply elem_of_nil in Hsl.
    + injection E as <-. unfold stop_end. destruct (net_close _ _) as [h w]. by apply Hsame.
    + destruct (thread_done y i); [| done]. injection E as <-. by apply Hsame.
  - by apply Ha.
  - destruct (thread_cases clock cfg i y y' E) as (s & p & p' & z & w & Hi & Hm & ->). apply (slots_match_kept y); [| done | exact Hy].
    intros j s' q Hj. cbn [moved_on lf_threads]. destruct (decide (i = j)) as [<- | Hn]; [| rewrite list_lookup_insert_ne by done; eauto].
    rewrite Hi in Hj. injection Hj as <- <-. exists p'. apply list_lookup_insert_eq. by eapply lookup_lt_Some.
Qed.

Lemma life_slots y : life_reachable clock cfg view c y -> slots_match y.
Proof.
  induction 1 as [e w He | op y y' Hy IH E | y w _ IH _]; [intros sl Hsl; by apply elem_of_nil in Hsl | | exact IH].
  pose proof (life_ordered _ _ _ _ _ Hy) as Ho. destruct (server_op op) eqn:Hop; [by eapply slots_match_server |].
  assert (forall y1, lf_threads y1 = lf_threads y -> lf_slots y1 = lf_slots y -> slots_match y1) as Hsame.
  { intros y1 E1 E2. apply (slots_match_kept y); [rewrite E1; eauto | by rewrite E2 | exact IH]. }
  destruct op as [| | | | i | op]; try done; cbn [life_step] in E.
  - destruct (lf_owner y); try done. injection E as <-. unfold server_start. destruct (lf_running y); [done |]. destruct (negb sys_startup); [done |].
    destruct (net_listen_loopback _ _ _) as [lr w]. destruct (negb (is_affirmative (li_outcome lr))); by apply Hsame.
  - destruct (lf_owner y); try done. injection E as <-. unfold stop_begin. destruct (_ && _); by apply Hsame.
  - injection E as <-. by apply Hsame.
Qed.

(** *** The sweep reaches every thread in its loop *)

Lemma swept_kept y y' :
  lf_owner y' = lf_owner y ->
  (forall i s p, lf_threads y' !! i = Some (MkThread s p) -> in_loop p = true ->
     exists p0, lf_threads y !! i = Some (MkThread s p0) /\ in_loop p0 = true /\
       (i ∈ map sl_thread (lf_slots y) -> i ∈ map sl_thread (lf_slots y')) /\
       (s ∈ os_shut (view (lf_os y)) -> s ∈ os_shut (view (lf_os y')))) ->
  swept y -> swept y'.
Proof.
  intros Eo Ht Hy i s p Hi Hp. destruct (Ht i s p Hi Hp) as (p0 & Hi0 & Hp0 & H1 & H2). specialize (Hy i s p0 Hi0 Hp0).
  unfold will_return in *. rewrite Eo. destruct (lf_owner y); try done; auto. destruct Hy; auto.
Qed.

Lemma move_in_loop i s y p p' z w :
  lf_stopping y = true -> thread_move clock cfg i s y p p' z w -> in_loop p' = true -> in_loop p = true.
Proof. intros Hs Hm. destruct Hm; try done. by rewrite Hs. Qed.

Lemma close_shut s h w : s <> h -> h ∈ os_shut (view w) -> h ∈ os_shut (view (net_close s w).2).
Proof.
  intros Hn Hh. unfold net_close. destruct (s =? kInvalidSocketHandle); [exact Hh |]. cbn [snd].
  destruct (law_close s w) as (_ & _ & _ & V). apply V, elem_of_difference. rewrite elem_of_singleton. auto.
Qed.

Lemma drop_shut s h w : s <> h -> h ∈ os_shut (view w) -> h ∈ os_shut (view (drop_socket s w)).
Proof. intros Hn Hh. apply close_shut; [exact Hn |]. destruct (net_shutdown_view view s w) as (_ & _ & _ & V). by apply V. Qed.

Lemma in_loop_holds i s p y : lf_threads y !! i = Some (MkThread s p) -> in_loop p = true -> handle_of y (HThread i) = Some s.
Proof. intros Hi Hp. rewrite (thread_handle i y s p Hi). by destruct p. Qed.

Lemma swept_thread i y y' :
  holding view y -> lf_stopping y = true -> swept y -> thread_step clock cfg i y = Some y' -> swept y'.
Proof.
  intros Hh Hs Hy E. destruct (thread_cases clock cfg i y y' E) as (s & p & p' & z & w & Hi & Hm & ->).
  apply (swept_kept y); [done | | exact Hy]. intros j sj q Hj Hq. cbn [moved_on lf_threads lf_slots lf_os] in *.
  destruct (decide (i = j)) as [<- | Hn].
  - rewrite list_lookup_insert_eq in Hj by (by eapply lookup_lt_Some). injection Hj as <- <-.
    pose proof (move_in_loop _ _ _ _ _ _ _ Hs Hm Hq) as Hp. exists p. split_and!; [exact Hi | exact Hp | done |].
    destruct (move_view clock cfg view _ _ _ _ _ _ _ Hm ltac:(by intros ->)) as (_ & _ & _ & V). by apply V.
  - rewrite list_lookup_insert_ne in Hj by done. exists q. split_and!; [exact Hj | exact Hq | done |]. intros Hsh.
    destruct (decide (p = TClose)) as [-> | Hc].
    + assert (w = (net_close s (lf_os y)).2) as -> by (by inversion Hm). apply close_shut; [| exact Hsh]. intros ->.
      pose proof (hd_one view y Hh (HThread i) (HThread j) sj (thread_handle i y sj TClose Hi) (in_loop_holds j sj q y Hj Hq)). congruence.
    + destruct (move_view clock cfg view _ _ _ _ _ _ _ Hm Hc) as (_ & _ & _ & V). by apply V.
Qed.

Lemma swept_accept y y' : holding view y -> swept y -> accept_step clock cfg y = Some y' -> swept y'.
Proof.
  intros Hh Hy E. unfold accept_step in E.
  assert (forall y1, lf_owner y1 = lf_owner y -> lf_threads y1 = lf_threads y -> lf_slots y1 = lf_slots y ->
    (forall i s p, lf_threads y !! i = Some (MkThread s p) -> in_loop p = true ->
       s ∈ os_shut (view (lf_os y)) -> s ∈ os_shut (view (lf_os y1))) -> swept y1) as Hos.
  { intros y1 E1 E2 E3 V. apply (swept_kept y); [exact E1 | | exact Hy]. rewrite E2, E3. intros i s p Hi Hp. exists p. eauto. }
  assert (forall s y1, handle_of y HAccept = Some s -> lf_os y1 = drop_socket s (lf_os y) -> lf_owner y1 = lf_owner y ->
    lf_threads y1 = lf_threads y -> lf_slots y1 = lf_slots y -> swept y1) as Hdrop.
  { intros s y1 Hs Hw E1 E2 E3. apply Hos; [exact E1 | exact E2 | exact E3 |]. intros i si p Hi Hp. rewrite Hw. apply drop_shut. intros ->.
    by pose proof (hd_one view y Hh HAccept (HThread i) si Hs (in_loop_holds i si p y Hi Hp)). }
  destruct (lf_accept y) as [| | | s | s | s | k |] eqn:Ea; try done.
  - injection E as <-. by apply Hos.
  - destruct (sys_waits _ _); [done |]. pose proof (net_accept_view view (lf_listener y) (lf_os y)) as Hv.
    destruct (net_accept _ _) as [[[o s] d] w]. destruct Hv as (_ & _ & V & _). injection E as <-. apply Hos; try done.
    intros i si p Hi Hp. apply V. by destruct (hd_open view y Hh (HThread i) si (in_loop_holds i si p y Hi Hp)).
  - destruct (lf_stopping y); injection E as <-; [| by apply Hos]. apply (Hdrop s); try done. cbn. by rewrite Ea.
  - injection E as <-. apply (swept_kept y); [done | | exact Hy]. intros i s' p Hi Hp. exists p. split_and!; try done.
    cbn [reap_finished put_accept put_slots lf_slots]. intros (sl & -> & Hsl)%list_elem_of_fmap. apply list_elem_of_fmap. exists sl. split; [done |].
    apply list_elem_of_filter. split; [| exact Hsl]. apply thread_done_false. eexists. split; [exact Hi |]. by destruct p.
  - injection E as <-. unfold admit_socket. destruct (_ <=? _); [apply (Hdrop s); try done; cbn; by rewrite Ea |].
    apply (swept_kept y); [done | | exact Hy]. intros i s' p Hi Hp. cbn [put_accept put_threads put_sys lf_threads lf_slots lf_os] in *.
    apply lookup_app_Some in Hi as [Hi | [_ Hi]]; [by exists p |]. destruct (i - length (lf_threads y))%nat; [| done]. by injection Hi as _ <-.
  - injection E as <-. apply (swept_kept y); [done | | exact Hy]. intros i s p Hi Hp. exists p. split_and!; try done.
    cbn [put_accept put_slots lf_slots]. rewrite map_app, elem_of_app. by left.
Qed.

Lemma swept_owner y y' :
  holding view y -> slots_match y -> lf_owner y <> OWake -> swept y -> owner_step clock cfg y = Some y' -> swept y'.
Proof.
  intros Hh Hm Hw Hy E. unfold owner_step in E. unfold swept, will_return in Hy.
  destruct (lf_owner y) as [| | | [| h l] | | [| i l]] eqn:Eo; try done.
  - injection E as <-. intros i s p Hi Hp. unfold will_return. cbn [put_owner lf_owner lf_os]. left.
    pose proof (Hy i s p Hi Hp) as (sl & -> & Hsl)%list_elem_of_fmap. apply list_elem_of_fmap. exists sl. split; [| exact Hsl].
    destruct (Hm sl Hsl) as [q Hq]. cbn [put_owner lf_threads] in Hi. rewrite Hq in Hi. by injection Hi as <- _.
  - injection E as <-. intros i s p Hi Hp. destruct (Hy i s p Hi Hp) as [Hs | Hs]; [by apply elem_of_nil in Hs | exact Hs].
  - injection E as <-. intros i s p Hi Hp. unfold will_return. cbn [put_owner put_os lf_owner lf_os].
    destruct (net_shutdown_view view h (lf_os y)) as (_ & _ & _ & V).
    destruct (Hy i s p Hi Hp) as [[-> | Hs]%elem_of_cons | Hs]; [right | by left | right; by apply V].
    destruct (hd_open view y Hh (HThread i) h (in_loop_holds i h p y Hi Hp)) as [H0 Ho]. apply (net_shutdown_shut view h (lf_os y)); [lia | exact Ho].
  - destruct (lf_accept y); try done; injection E as <-; exact Hy.
  - injection E as <-. intros i s p Hi Hp. unfold will_return, stop_end. by destruct (net_close _ _) as [h w].
  - destruct (thread_done y i); [| done]. injection E as <-. exact Hy.
Qed.

(** A run of everybody until the owner is free; [n] counts the steps of the server's threads
    and of [stop]. *)
Inductive stop_run (y : Life W) : nat -> Life W -> Prop :=
| stop_run_start : stop_run y 0 y
| stop_run_server op n y1 y2 :
    stop_run y n y1 -> lf_owner y1 <> OFree -> server_op op = true -> life_step clock cfg op y1 = Some y2 -> stop_run y (S n) y2
| stop_run_engine op n y1 y2 :
    stop_run y n y1 -> lf_owner y1 <> OFree -> server_op op = false -> life_step clock cfg op y1 = Some y2 -> stop_run y n y2
| stop_run_others n y1 w :
    stop_run y n y1 -> lf_owner y1 <> OFree -> others_may view y1 w ->
    (forall o h, handle_of y1 o = Some h -> h ∈ os_shut (view (lf_os y1)) -> h ∈ os_shut (view w)) -> stop_run y n (put_os w y1).

Record stopping_well (y : Life W) (budget : Z) : Prop := {
  sw_ordered : ordered clock cfg c y;
  sw_holding : holding view y;
  sw_slots : slots_match y;
  sw_woken : lf_owner y = OFree \/ woken y /\ swept y;
  sw_budget : steps_left y <= budget;
}.

Lemma steps_left_nonneg y : ordered clock cfg c y -> 0 <= steps_left y.
Proof.
  intros Ho. pose proof (proj1 (ordered_left y Ho)) as Ht. pose proof (zlen_nonneg (lf_slots y)).
  unfold steps_left, owner_left. assert (0 <= accept_left (lf_accept y)) by (by destruct (lf_accept y)).
  destruct (lf_owner y) as [| | | l | | l]; try pose proof (zlen_nonneg l); lia.
Qed.

Lemma busy_control y : ordered clock cfg c y -> lf_owner y <> OFree -> lf_stopping y = true /\ lf_listener y <> -1.
Proof. intros [_ Hc _ _] Hf. unfold control in Hc. destruct (lf_owner y); try done; tauto. Qed.

Lemma stopping_server op y y' b :
  stopping_well y b -> lf_owner y <> OFree -> server_op op = true -> life_step clock cfg op y = Some y' -> stopping_well y' (b - 1).
Proof.
  intros [H1 H2 H3 H4 H5] Hf Hop E. destruct H4 as [H4 | [H4 H6]]; [done |]. destruct (busy_control y H1 Hf) as [Hs Hl].
  assert (lf_owner y <> OWake) as Hw by (intros Ew; unfold woken in H4; by rewrite Ew in H4). split.
  - by eapply ordered_step.
  - by eapply safe_step.
  - by eapply slots_match_server.
  - destruct op; try done.
    + destruct (woken_owner y y' H4 E) as [| Hw']; [by left | right]. split; [exact Hw' | by eapply swept_owner].
    + right. split; [by eapply woken_accept | by eapply swept_accept].
    + right. split; [by eapply woken_thread | by eapply swept_thread].
  - assert (steps_left y' < steps_left y); [| lia].
    destruct op; try done; [by apply left_owner | by apply left_accept | by eapply left_thread].
Qed.

Lemma stopping_engine op y y' b :
  stopping_well y b -> lf_owner y <> OFree -> server_op op = false -> life_step clock cfg op y = Some y' -> stopping_well y' b.
Proof.
  intros [H1 H2 H3 H4 H5] Hf Hop E. split; [by eapply ordered_step | by eapply safe_step | ..];
    (destruct op; try done; cbn [life_step] in E; [by destruct (lf_owner y) | by destruct (lf_owner y) |]); by injection E as <-.
Qed.

Lemma stopping_others y w b :
  stopping_well y b -> others_may view y w ->
  (forall o h, handle_of y o = Some h -> h ∈ os_shut (view (lf_os y)) -> h ∈ os_shut (view w)) -> stopping_well (put_os w y) b.
Proof.
  intros [H1 H2 H3 H4 H5] Hw Hsh. split; [by apply ordered_os | by apply holding_others | exact H3 | | exact H5].
  destruct H4 as [H4 | [H4 H6]]; [by left | right]. destruct Hw as (_ & _ & Hp). split.
  - unfold woken in *. cbn [put_os lf_owner lf_accept lf_listener lf_os]. destruct (lf_owner y); try done; intros Ha; by apply Hp, H4.
  - apply (swept_kept y); [done | | exact H6]. intros i s p Hi Hq. exists p. split_and!; [exact Hi | exact Hq | done |].
    apply (Hsh (HThread i)). by apply (in_loop_holds i s p).
Qed.

Lemma stopping_run y n y' b : stopping_well y b -> stop_run y n y' -> stopping_well y' (b - Z.of_nat n).
Proof.
  intros Hy. induction 1 as [| op n y1 y2 _ IH Hf Hop E | op n y1 y2 _ IH Hf Hop E | n y1 w _ IH Hf Hw Hsh].
  - by rewrite Z.sub_0_r.
  - replace (b - Z.of_nat (S n)) with (b - Z.of_nat n - 1) by lia. by eapply stopping_server.
  - by eapply stopping_engine.
  - by apply stopping_others.
Qed.

(** No thread that is about to get its slot is in its loop. *)
Definition none_unseen (y : Life W) : Prop :=
  forall i s p, lf_accept y = APush i -> lf_threads y !! i = Some (MkThread s p) -> in_loop p = false.

Lemma swept_wake y :
  ordered clock cfg c y -> lf_owner y = OWake -> none_unseen y -> swept (stop_wake y).
Proof.
  intros [_ _ _ [V1 _ _ _]] Eo Hn i s p Hi Hp. destruct (stop_wake_frame y) as (F1 & F2 & F3 & F4 & F5 & F6 & F7).
  unfold will_return. rewrite F7, F5. rewrite F2 in Hi. destruct (V1 i) as [Hs | [Hs | (l & Hs & _)]].
  - apply thread_done_false. exists (MkThread s p). split; [exact Hi | by destruct p].
  - exact Hs.
  - by rewrite (Hn i s p Hs Hi) in Hp.
  - congruence.
Qed.

(** *** A stopped server *)

Lemma life_sessions y :
  life_reachable clock cfg view c y -> lf_owner y = OFree -> lf_running y = false -> sessions_ (sv_sessions (sy_server (lf_sys y))) = [].
Proof.
  induction 1 as [e w He | op y y' Hy IH E | y w _ IH _]; [done | | exact IH].
  pose proof (life_ordered _ _ _ _ _ Hy) as [_ Hc _ [V1 _ _ _]]. intros Eo Er. unfold control in Hc. destruct op as [| | | | i | op]; cbn [life_step] in E.
  - destruct (lf_owner y) eqn:Eo'; try done. injection E as <-. unfold server_start in *. destruct (lf_running y) eqn:Er'; [cbn in Er; congruence |].
    destruct (negb sys_startup); [by apply IH |]. destruct (net_listen_loopback _ _ _) as [lr w].
    destruct (negb (is_affirmative (li_outcome lr))); [by apply IH | done].
  - destruct (lf_owner y) eqn:Eo'; try done. injection E as <-. unfold stop_begin in *. destruct (_ && _); [by apply IH | done].
  - unfold owner_step in E. destruct (lf_owner y) as [| | | [| h l] | | [| i l]]; try done; try by injection E as <-.
    + injection E as <-. destruct (stop_wake_frame y) as (_ & _ & _ & _ & _ & _ & F). by rewrite F in Eo.
    + by destruct (lf_accept y); try done; injection E as <-.
    + injection E as <-. unfold stop_end. by destruct (net_close _ _) as [h w].
    + destruct (thread_done y i); [| done]. by injection E as <-.
  - unfold accept_step, admit_socket in E. exfalso.
    assert (lf_owner y' = lf_owner y /\ lf_running y' = lf_running y) as [F1 F2].
    { destruct (lf_accept y); try done; try (by injection E as <-); [| | by destruct (_ <=? _); injection E as <-].
      - destruct (sys_waits _ _); [done |]. destruct (net_accept _ _) as [[[o s] d] w]. by injection E as <-.
      - destruct (lf_stopping y); by injection E as <-. }
    rewrite <- F1, Eo, <- F2, Er in Hc. destruct Hc as (_ & Ha & _). by rewrite Ha in E.
  - exfalso. destruct (thread_cases clock cfg i y y' E) as (s & p & p' & z & w & Hi & Hm & ->). cbn [moved_on lf_owner lf_running] in *.
    assert (thread_done y i = false) as Hd by (apply thread_done_false; eexists; split; [exact Hi | by destruct Hm]).
    rewrite Eo, Er in Hc. destruct Hc as (_ & Ha & Hs). destruct (V1 i Hd) as [Hc | [Hc | (l & Hc & _)]]; [| congruence | congruence].
    rewrite Hs in Hc. by apply elem_of_nil in Hc.
  - injection E as <-. by apply IH.
Qed.

Lemma finished_dead ls : (forall i l, ls !! i = Some l -> finished l = true) -> total_of live ls = 0.
Proof.
  induction ls as [| l ls IH]; intros Hl; [done |]. change (live l + total_of live ls = 0). unfold live at 1.
  rewrite (Hl 0%nat l eq_refl). apply IH. intros i. exact (Hl (S i)).
Qed.

Lemma stopped_threads y :
  ordered clock cfg c y -> lf_owner y = OFree -> lf_running y = false ->
  (forall i t, lf_threads y !! i = Some t -> th_phase t = TDone) /\ live_connections (lf_sys y) = 0.
Proof.
  intros [_ Hc [C1 C2] [V1 _ _ _]] Eo Er. unfold control in Hc. rewrite Eo, Er in Hc. destruct Hc as (_ & Ha & Hs).
  assert (forall i t, lf_threads y !! i = Some t -> th_phase t = TDone) as Hdone.
  { intros i t Hi. destruct (decide (th_phase t = TDone)) as [| Hn]; [done | exfalso].
    destruct (V1 i) as [Hc | [Hc | (l & Hc & _)]]; [apply thread_done_false; eauto | | congruence | congruence].
    rewrite Hs in Hc. by apply elem_of_nil in Hc. }
  split; [exact Hdone |]. rewrite live_total. apply finished_dead. intros i l Hl.
  destruct (lookup_lt_is_Some_2 (lf_threads y) i) as [t Ht]; [rewrite C1; by eapply lookup_lt_Some |].
  pose proof (C2 i t l Ht Hl) as Hp. by rewrite (Hdone i t Ht) in Hp.
Qed.

End Returns.
End Shutdown.

(** ** Fixtures: a server on the simulated sockets *)

Inductive Event := Ours (op : LifeOp) | Opens | Arrives (l : Z).

Definition event_step (ev : Event) (y : Life SimOs) : option (Life SimOs) :=
  match ev with
  | Ours op => life_step fx_clock fx_server_config op y
  | Opens => Some (put_os (sim_new (lf_os y)).2 y)
  | Arrives l => Some (put_os (sim_arrive {[l]} (lf_os y)) y)
  end.

Fixpoint events (evs : list Event) (y : Life SimOs) : option (Life SimOs) :=
  match evs with
  | [] => Some y
  | ev :: evs => event_step ev y ≫= events evs
  end.

Lemma events_others ev y y' :
  match ev with Ours _ => False | _ => True end -> event_step ev y = Some y' -> exists w, y' = put_os w y /\ others_may sim_view y w.
Proof.
  destruct ev as [op | | l]; [done | |]; intros _ [= <-]; eexists; (split; [reflexivity |]).
  - destruct (sim_new_handle (lf_os y)) as [(H1 & _ & H2) H3]. split_and!; [| by cbn in *; rewrite H1 | by cbn; rewrite H3].
    intros o h _ Hh. destruct H2 as [[_ ->] | (_ & _ & ->)]; [exact Hh | apply elem_of_union; by right].
  - split_and!; [done | done |]. intros Hl. cbn. apply elem_of_union. by left.
Qed.

Lemma events_reachable c evs y y' :
  life_reachable fx_clock fx_server_config sim_view c y -> events evs y = Some y' ->
  life_reachable fx_clock fx_server_config sim_view c y'.
Proof.
  revert y. induction evs as [| ev evs IH]; intros y Hy E; [by injection E as <- |]. cbn [events] in E.
  destruct (event_step ev y) as [y1 |] eqn:E1; [| done].
  apply (IH y1); [| exact E]. destruct ev as [op | | l]; [by eapply life_next | destruct (events_others Opens y y1 I E1) as (w & -> & Hw) |
    destruct (events_others (Arrives l) y y1 I E1) as (w & -> & Hw)]; by apply life_others.
Qed.

Definition fx_unstarted (w : SimOs) : Life SimOs := new_Life fx_failing w.
Definition fx_after (evs : list Event) (w : SimOs) : Life SimOs := default (fx_unstarted w) (events evs (fx_unstarted w)).

Lemma fx_after_reachable evs w : life_reachable fx_clock fx_server_config sim_view fx_engine_config (fx_after evs w).
Proof.
  assert (life_reachable fx_clock fx_server_config sim_view fx_engine_config (fx_unstarted w)) as Hw by apply life_new, fx_failing_reachable.
  unfold fx_after. destruct (events evs (fx_unstarted w)) as [y |] eqn:E; [| exact Hw]. exact (events_reachable _ _ _ _ Hw E).
Qed.

(** Peers that close at once, and a peer of handle 1 that says hello and then reads nothing. *)
Definition fx_quiet (limit : Z) : SimOs := sim_world limit ∅ ∅.
Definition fx_deaf : SimOs := sim_world 8 {[1 := frame_image fx_hello]} {[1]}.

(** Steps of the server's threads and of [stop], until the owner is free. *)
Fixpoint server_steps (ops : list LifeOp) (y : Life SimOs) : option (Life SimOs) :=
  match ops with
  | [] => Some y
  | op :: ops =>
      if server_op op && negb (bool_decide (lf_owner y = OFree)) then life_step fx_clock fx_server_config op y ≫= server_steps ops
      else None
  end.

Lemma server_steps_run ops y0 n y y' :
  stop_run fx_clock fx_server_config sim_view y0 n y -> server_steps ops y = Some y' ->
  stop_run fx_clock fx_server_config sim_view y0 (n + length ops) y'.
Proof.
  revert n y. induction ops as [| op ops IH]; intros n y Hr E; [injection E as <-; by rewrite Nat.add_0_r |].
  cbn [server_steps] in E. destruct (server_op op) eqn:Hop; [| done]. case_bool_decide as Hf; [done |]. cbn [andb negb] in E.
  destruct (life_step fx_clock fx_server_config op y) as [y1 |] eqn:E1; [| done]. cbn [length]. rewrite Nat.add_succ_r, <- Nat.add_succ_l.
  apply (IH _ y1); [| exact E]. by eapply stop_run_server.
Qed.

(** A server whose one thread is blocked in [send] when the owner calls [stop]. *)
Definition fx_accept : list Event := [Ours LStart; Ours LAccept; Arrives 0] ++ repeat (Ours LAccept) 4.
Definition fx_until_stop : list Event :=
  fx_accept ++ repeat (Ours LAccept) 2 ++ repeat (Ours (LThread 0)) 6 ++ [Ours LStop].
Definition fx_from_stop : list LifeOp :=
  repeat LOwner 3 ++ repeat LAccept 2 ++ [LOwner] ++ repeat (LThread 0) 6 ++ repeat LOwner 2.

Definition fx_stopping : Life SimOs := fx_after fx_until_stop fx_deaf.
Definition fx_stopped : Life SimOs := default fx_stopping (server_steps fx_from_stop (stop_wake fx_stopping)).

Lemma fx_stopping_reachable : life_reachable fx_clock fx_server_config sim_view fx_engine_config fx_stopping.
Proof. apply fx_after_reachable. Qed.

Example fx_blocked : life_step fx_clock fx_server_config (LThread 0) fx_stopping = None /\ thread_done fx_stopping 0 = false.
Proof. vm_compute. by split. Qed.

Lemma fx_stop_run : stop_run fx_clock fx_server_config sim_view (stop_wake fx_stopping) 14 fx_stopped.
Proof.
  assert (server_steps fx_from_stop (stop_wake fx_stopping) = Some fx_stopped) as E by (vm_compute; reflexivity).
  exact (server_steps_run fx_from_stop _ 0 _ _ (stop_run_start _ _ _ _) E).
Qed.

Lemma stop_run_reachable clock cfg c (view : SimOs -> OsView) y n y' :
  life_reachable clock cfg view c y -> stop_run clock cfg view y n y' -> life_reachable clock cfg view c y'.
Proof. intros Hy. induction 1; [exact Hy | by eapply life_next | by eapply life_next | by apply life_others]. Qed.

Lemma fx_stopped_reachable : life_reachable fx_clock fx_server_config sim_view fx_engine_config fx_stopped.
Proof.
  eapply stop_run_reachable; [| exact fx_stop_run]. eapply (life_next _ _ _ _ LOwner); [exact fx_stopping_reachable |]. reflexivity.
Qed.

(** ** Claims *)


Lemma fx_none_unseen : none_unseen fx_stopping.
Proof.
  intros i s p Ha. assert (lf_accept fx_stopping = AAccept) as E by (vm_compute; reflexivity). rewrite E in Ha. discriminate Ha.
Qed.


(** C16: a stopped server is empty: whenever the owner is outside [stop] and the server does
    not run, nothing listens, every thread has finished and been joined, no socket is held,
    no session is left, no connection is live, the connections accepted were all counted
    closed, and another [stop] does nothing. *)
Theorem stopped_server_is_empty {W} `{SocketOs W} clock cfg c (view : W -> OsView) `{!SocketOsLaws W view} y :
  life_reachable clock cfg view c y -> lf_owner y = OFree -> lf_running y = false ->
  lf_listener y = kInvalidSocketHandle /\ lf_slots y = [] /\
  (forall i t, lf_threads y !! i = Some t -> th_phase t = TDone) /\
  (forall o, handle_of y o = None) /\
  sessions_ (sv_sessions (sy_server (lf_sys y))) = [] /\
  live_connections (lf_sys y) = 0 /\
  wrap 64 (ss_accepted (sv_stats (sy_server (lf_sys y))) - ss_connections_closed (sv_stats (sy_server (lf_sys y)))) = 0 /\
  stop_begin y = y.
Proof.
  intros Hy Eo Er. pose proof (life_ordered _ _ _ _ _ Hy) as Ho. destruct (stopped_threads _ _ _ _ Ho Eo Er) as [Hd Hl].
  pose proof Ho as [Hs Hc _ _]. unfold control in Hc. rewrite Eo, Er in Hc. destruct Hc as (E1 & E2 & E3).
  split_and!; try done.
  - intros [| | i]; cbn; [by rewrite E1 | by rewrite E2 |]. destruct (lf_threads y !! i) as [t |] eqn:Et; [| done]. by rewrite (Hd i t Et).
  - by eapply life_sessions.
  - pose proof (sys_connections_accounted clock cfg c _ Hs) as Ha. by rewrite Hl in Ha.
  - unfold stop_begin. by rewrite Er, E1.
Qed.

Example stopped_server_is_empty_witness :
  (forall o, handle_of fx_stopped o = None) /\ sessions_ (sv_sessions (sy_server (lf_sys fx_stopped))) = [] /\
  zlen (lf_threads fx_stopped) = 1.
Proof.
  destruct (stopped_server_is_empty fx_clock fx_server_config fx_engine_config sim_view fx_stopped fx_stopped_reachable)
    as (_ & _ & _ & H1 & H2 & _); [vm_compute; reflexivity | vm_compute; reflexivity |].
  split; [exact H1 |]. split; [exact H2 | vm_compute; reflexivity].
Defined.

(** C15: no handle is leaked or closed twice: in every run, with the rest of the process
    opening and closing handles of its own, what the server holds is open and has one
    holder, and no step of the server leaves a handle open without a holder, or closes one
    that is not its own. *)
Theorem handles_owned {W} `{SocketOs W} clock cfg c (view : W -> OsView) `{!SocketOsLaws W view} y :
  life_reachable clock cfg view c y ->
  (forall o h, handle_of y o = Some h -> h ∈ os_open (view (lf_os y))) /\
  (forall o1 o2 h, handle_of y o1 = Some h -> handle_of y o2 = Some h -> o1 = o2) /\
  forall op y', life_step clock cfg op y = Some y' -> forall h, foreign view y' h <-> foreign view y h.
Proof.
  intros Hy. pose proof (life_holding _ _ _ _ _ Hy) as Hh. split_and!.
  - intros o h Ho. by apply (hd_open view y Hh o).
  - exact (hd_one view y Hh).
  - intros op y' E. exact (proj2 (safe_step clock cfg view c op y y' (life_ordered _ _ _ _ _ Hy) Hh E)).
Qed.

Example handles_owned_witness :
  handle_of fx_stopping HListener = Some 0 /\ 0 ∈ os_open (sim_view (lf_os fx_stopping)) /\
  handle_of fx_stopping (HThread 0) = Some 1 /\ 1 ∈ os_open (sim_view (lf_os fx_stopping)).
Proof.
  destruct (handles_owned fx_clock fx_server_config fx_engine_config sim_view fx_stopping fx_stopping_reachable) as (H1 & _ & _).
  assert (handle_of fx_stopping HListener = Some 0) as E0 by (vm_compute; reflexivity).
  assert (handle_of fx_stopping (HThread 0) = Some 1) as E1 by (vm_compute; reflexivity).
  split; [exact E0 |]. split; [exact (H1 _ _ E0) |]. split; [exact E1 | exact (H1 _ _ E1)].
Defined.

(** *** What the code does not promise *)

(** [stop] shuts down the sockets of all slots, also of a connection whose thread has closed
    its socket and was not reaped yet: the handle may be another's by then. *)
Definition fx_reused : list Event :=
  fx_accept ++ [Ours LAccept] ++ repeat (Ours (LThread 0)) 8 ++ [Opens; Ours LStop; Ours LOwner; Ours LOwner].

Definition fx_reusing : Life SimOs := fx_after fx_reused (fx_quiet 8).

Example stop_shuts_down_anothers_handle :
  life_reachable fx_clock fx_server_config sim_view fx_engine_config fx_reusing /\ lf_owner fx_reusing = OShut [1] /\
  foreign sim_view fx_reusing 1.
Proof.
  split; [apply fx_after_reachable |]. split; [vm_compute; reflexivity |]. split; [apply (bool_decide_unpack (1 ∈ so_open (lf_os fx_reusing))); by vm_compute |].
  intros [| | [| i]]; by vm_compute.
Qed.

(** When the wake-up connection cannot be made while the accept thread waits, [stop] waits for
    the accept thread, and none of the server's threads has a step to take. *)
Definition fx_no_wake_up : list Event := [Ours LStart; Ours LAccept; Ours LStop; Ours LOwner; Ours LOwner; Ours LOwner].

Definition fx_waiting : Life SimOs := fx_after fx_no_wake_up (fx_quiet 1).

Example stop_waits_without_wake_up :
  life_reachable fx_clock fx_server_config sim_view fx_engine_config fx_waiting /\ lf_owner fx_waiting = OJoinAccept /\
  forall op, server_op op = true -> life_step fx_clock fx_server_config op fx_waiting = None.
Proof.
  split; [apply fx_after_reachable |]. split; [vm_compute; reflexivity |]. intros [| | | | i | op] Hop; try discriminate Hop; vm_compute; reflexivity.
Qed.

(** A thread that is in its loop before its slot is filed: when [stop] collects the sockets in
    between and the thread blocks in [send], nobody shuts its socket down, and [stop] waits for
    it, with the wake-up connection made. *)
Definition fx_unseen : list Event :=
  fx_accept ++ repeat (Ours (LThread 0)) 6 ++ [Ours LStop] ++ repeat (Ours LOwner) 3 ++ repeat (Ours LAccept) 2 ++ [Ours LOwner].

Definition fx_hanging : Life SimOs := fx_after fx_unseen fx_deaf.

Example stop_waits_for_unseen_thread :
  life_reachable fx_clock fx_server_config sim_view fx_engine_config fx_hanging /\ lf_owner fx_hanging = OJoin [0%nat] /\
  forall op, server_op op = true -> life_step fx_clock fx_server_config op fx_hanging = None.
Proof.
  split; [apply fx_after_reachable |]. split; [vm_compute; reflexivity |].
  intros [| | | | [| i] | op] Hop; try discriminate Hop; vm_compute; reflexivity.
Qed.
