(* ===== verification/Client.v ===== *)
(** * The client

    Models [include/blackhole/service/client.hpp] and [src/service/client.cpp]: one
    connection, one session, and one request at a time. The socket is the interface of
    [Net], whose calls block; what connecting comes to is an argument, which [Dial]
    discharges. *)
From Stdlib Require Import Strings.String.
From S2P Require Import Prelude OrderedMap Core Checked Codec Counted Hash Ids Domain Policy Fixtures Ledger Classifier.
From S2P Require Import Localizer Fence Authority Record Durable Net Frame Session Messages Wire.
Local Open Scope string_scope.
Local Open Scope list_scope.
Local Open Scope Z_scope.

(** include/blackhole/service/client.hpp:61-74 Client *)
Record Client := MkClient {
  cl_label : Provenance.t;
  cl_decoder : FrameDecoder;
  cl_hello : HelloResponse;
  cl_connected : bool;
  cl_established : bool;
  cl_seq : Z;
  cl_request : Z;
  cl_boot : BootId;
  cl_incarnation : IncarnationId;
  cl_last_error : list byte;
}.

Definition zero_hello : HelloResponse :=
  MkHelloResponse (MkId 0) (MkId 0) (MkId 0) (MkGen 0) (MkId 0) 0 0 Provenance.Synthetic.

(** The bound a decoder has by default. include/blackhole/protocol/frame.hpp:113 FrameDecoder::FrameDecoder (default) *)
Definition kDefaultMaxFrameBytes : Z := 2 ^ 20.

(** src/service/client.cpp:7-11 Client::Client *)
Definition new_Client (label : Provenance.t) (nonce1 nonce2 : Z) : Client :=
  MkClient label (new_FrameDecoder kDefaultMaxFrameBytes) zero_hello false false 0 0 (MkId nonce1) (MkId nonce2) [].

Definition set_error (text : list byte) (c : Client) : Client :=
  MkClient (cl_label c) (cl_decoder c) (cl_hello c) (cl_connected c) (cl_established c) (cl_seq c) (cl_request c)
    (cl_boot c) (cl_incarnation c) text.
Definition set_decoder (d : FrameDecoder) (c : Client) : Client :=
  MkClient (cl_label c) d (cl_hello c) (cl_connected c) (cl_established c) (cl_seq c) (cl_request c)
    (cl_boot c) (cl_incarnation c) (cl_last_error c).
Definition set_link (connected established : bool) (c : Client) : Client :=
  MkClient (cl_label c) (cl_decoder c) (cl_hello c) connected established (cl_seq c) (cl_request c)
    (cl_boot c) (cl_incarnation c) (cl_last_error c).
Definition set_counters (seq request : Z) (c : Client) : Client :=
  MkClient (cl_label c) (cl_decoder c) (cl_hello c) (cl_connected c) (cl_established c) seq request
    (cl_boot c) (cl_incarnation c) (cl_last_error c).
Definition set_hello (h : HelloResponse) (c : Client) : Client :=
  MkClient (cl_label c) (cl_decoder c) h (cl_connected c) (cl_established c) (cl_seq c) (cl_request c)
    (cl_boot c) (cl_incarnation c) (cl_last_error c).

(** src/service/client.cpp:15-22 Client::close *)
Definition client_close (c : Client) : Client := set_link false false c.

(** [o] and [detail] are what [net_connect_loopback] answers. src/service/client.cpp:24-37 Client::connect_loopback *)
Definition connect_loopback (o : Outcome) (detail : list byte) (c : Client) : Outcome * Client :=
  let c := client_close c in
  if negb (is_affirmative o) then (o, set_error detail c)
  else (Ok, set_counters 0 0 (set_link true false (set_decoder (new_FrameDecoder kDefaultMaxFrameBytes) c))).

(** ** The monad of client operations *)

Section Operations.
Context {P : Type} `{SocketApi P}.

(** [None]: a call of the socket does not return, and neither does the operation. *)
Definition ClientM (A : Type) : Type := Client * P -> option (A * (Client * P)).

#[local] Instance ClientM_ret : MRet ClientM := fun A a w => Some (a, w).
#[local] Instance ClientM_bind : MBind ClientM := fun A B k m w =>
  match m w with Some (a, w) => k a w | None => None end.

Definition get_client : ClientM Client := fun w => Some (w.1, w).
Definition change (f : Client -> Client) : ClientM unit := fun w => Some (tt, (f w.1, w.2)).
Definition send (data : list byte) : ClientM (Outcome * list byte) := fun w =>
  match net_send_all data w.2 with Some (o, detail, p) => Some ((o, detail), (w.1, p)) | None => None end.
Definition recv (size : Z) : ClientM (Outcome * list byte * list byte) := fun w =>
  match net_recv_some size w.2 with Some (o, bytes, detail, p) => Some ((o, bytes, detail), (w.1, p)) | None => None end.

(** src/service/client.cpp:39-47 Client::next_token *)
Definition next_token : ClientM SessionToken :=
  change (fun c => set_counters (incr (cl_seq c)) (incr (cl_request c)) c) ;;
  c ← get_client;
  mret (MkToken (hr_session (cl_hello c)) (MkId (cl_request c)) (MkSeq (cl_seq c)) (cl_boot c) (cl_incarnation c)).

(** [Writer out(kDefaultMaxDocumentBytes); encode_frame(out, request);] *)
Definition request_bytes (t : MessageType.t) (body : list byte) : option (list byte) :=
  let w := encode_frame (MkFrame t 0 body) (new_Writer kDefaultMaxDocumentBytes) in if ok_ w then Some (buf_ w) else None.

(** A frame that arrived. src/service/client.cpp:79-93 Client::exchange (response) *)
Definition take_response (expected : MessageType.t) (f : Frame) : ClientM (Outcome * list byte) :=
  match f_type f with
  | MessageType.ErrorResponse =>
      match decode_all (decode (A := ErrorResponse)) (f_payload f) with
      | Refuse o => mret (o, [])
      | Done e => change (set_error (xr_detail e)) ;; mret (xr_outcome e, [])
      end
  | t =>
      if t != expected then change (set_error (list_byte_of_string "unexpected response type")) ;; mret (Malformed, [])
      else mret (Ok, f_payload f)
  end.

(** The verdict, or [None] when more passes are needed. src/service/client.cpp:74-115 Client::exchange (loop) *)
Fixpoint await_response (fuel : nat) (expected : MessageType.t) : ClientM (option (Outcome * list byte)) :=
  match fuel with
  | O => mret None
  | S fuel =>
      c ← get_client;
      match next (cl_decoder c) with
      | (Ok, Some f, d) => change (set_decoder d) ;; r ← take_response expected f; mret (Some r)
      | (NotFound, _, d) =>
          change (set_decoder d) ;;
          '(o, bytes, detail) ← recv (16 * 1024);
          if negb (is_affirmative o) then change (set_error detail) ;; mret (Some (o, []))
          else if zlen bytes =? 0 then
            change (fun c => set_link false (cl_established c) (set_error (list_byte_of_string "peer closed") c)) ;;
            mret (Some (Unavailable, []))
          else
            c ← get_client;
            let '(fo, d) := feed bytes (cl_decoder c) in
            change (set_decoder d) ;;
            if negb (is_affirmative fo) then
              change (set_error (list_byte_of_string "decoder refused bytes")) ;; mret (Some (fo, []))
            else await_response fuel expected
      | (no, _, d) =>
          change (set_decoder d) ;; change (set_error (list_byte_of_string "frame rejected")) ;; mret (Some (no, []))
      end
  end.

(** Every pass that goes on buffers a byte, and a decoder never holds more than one frame. *)
Definition exchange_fuel (c : Client) : nat := S (S (Z.to_nat (fd_max (cl_decoder c) + kFrameHeaderSize))).

(** The outcome and the response's body. src/service/client.cpp:49-116 Client::exchange *)
Definition exchange (t : MessageType.t) (body : list byte) (expected : MessageType.t) : ClientM (Outcome * list byte) :=
  c ← get_client;
  if negb (cl_connected c) then change (set_error (list_byte_of_string "not connected")) ;; mret (Unavailable, [])
  else
    match request_bytes t body with
    | None => change (set_error (list_byte_of_string "request too large")) ;; mret (Oversized, [])
    | Some bytes =>
        '(o, detail) ← send bytes;
        if negb (is_affirmative o) then change (set_error detail) ;; mret (o, [])
        else
          r ← await_response (exchange_fuel c) expected;
          mret (default (Unavailable, []) r)
    end.

(** src/service/client.cpp:118-121 Client::send_raw *)
Definition send_raw (t : MessageType.t) (body : list byte) (expected : MessageType.t) : ClientM (Outcome * list byte) :=
  exchange t body expected.

(** What every request does with an encoded body: exchange it and decode the response.
    src/service/client.cpp:161-169 Client::submit (exchange) *)
Definition call (B : Type) `{Codec B} (t : MessageType.t) (body : list byte) (expected : MessageType.t)
  : ClientM (Outcome * option B) :=
  '(o, response) ← exchange t body expected;
  if negb (is_affirmative o) then mret (o, None)
  else
    match decode_all decode response with
    | Refuse d => mret (d, None)
    | Done b => mret (Ok, Some b)
    end.

(** A request under the session: token, writer of [n] bytes, exchange.
    src/service/client.cpp:154-170 Client::submit (request) *)
Definition request {A : Type} `{Codec A} (B : Type) `{Codec B} (t : MessageType.t) (n : Z) (q : SessionToken -> A)
  (expected : MessageType.t) : ClientM (Outcome * option B) :=
  token ← next_token;
  match encode_bounded n (q token) with
  | None => mret (Exhausted, None)
  | Some body => call B t body expected
  end.

(** src/service/client.cpp:123-152 Client::hello *)
Definition client_hello (name : list byte) : ClientM (Outcome * option HelloResponse) :=
  change (fun c => set_counters (cl_seq c) (incr (cl_request c)) c) ;;
  c ← get_client;
  let q := MkHelloRequest (MkToken (MkId 0) (MkId (cl_request c)) (MkSeq 0) (cl_boot c) (cl_incarnation c))
             (take (Z.to_nat kMaxClientNameBytes) name) (cl_label c) in
  match encode_bounded 256 q with
  | None => mret (Exhausted, None)
  | Some body =>
      '(o, r) ← call HelloResponse MessageType.HelloRequest body MessageType.HelloResponse;
      match r with
      | None => mret (o, None)
      | Some h =>
          change (fun c => set_counters 0 (cl_request c) (set_link (cl_connected c) true (set_hello h c))) ;;
          mret (Ok, Some h)
      end
  end.

(** src/service/client.cpp:154-170 Client::submit *)
Definition client_submit (ev : DeliveryEvidence) : ClientM (Outcome * option SubmitEvidenceResponse) :=
  request SubmitEvidenceResponse MessageType.SubmitEvidenceRequest 2048 (fun t => MkSubmitRequest t ev)
    MessageType.SubmitEvidenceResponse.

(** src/service/client.cpp:172-189 Client::evaluate *)
Definition client_evaluate (scope : Scope) (gens : GenerationVector) : ClientM (Outcome * option EvaluateResponse) :=
  request EvaluateResponse MessageType.EvaluateRequest 512 (fun t => MkEvaluateRequest t scope gens) MessageType.EvaluateResponse.

(** src/service/client.cpp:191-211 Client::localize *)
Definition client_localize (scope : Scope) (gens : GenerationVector) (hop_count : Z) (probes : list HopProbe)
  : ClientM (Outcome * option LocalizeResponse) :=
  request LocalizeResponse MessageType.LocalizeRequest 4096 (fun t => MkLocalizeRequest t scope gens hop_count probes)
    MessageType.LocalizeResponse.

(** src/service/client.cpp:213-230 Client::ack_fence *)
Definition client_ack_fence (id : FenceId) (downstream : EvidenceSourceId) : ClientM (Outcome * option AckFenceResponse) :=
  request AckFenceResponse MessageType.AckFenceRequest 256 (fun t => MkAckRequest t id downstream) MessageType.AckFenceResponse.

(** src/service/client.cpp:232-251 Client::report_effect *)
Definition client_report_effect (id : FenceId) (downstream : EvidenceSourceId) (verified : bool)
  : ClientM (Outcome * option ReportEffectResponse) :=
  request ReportEffectResponse MessageType.ReportEffectRequest 256 (fun t => MkEffectRequest t id downstream verified)
    MessageType.ReportEffectResponse.

(** src/service/client.cpp:253-270 Client::restore *)
Definition client_restore (scope : Scope) (gens : GenerationVector) : ClientM (Outcome * option RestoreResponse) :=
  request RestoreResponse MessageType.RestoreRequest 512 (fun t => MkRestoreRequest t scope gens) MessageType.RestoreResponse.

(** src/service/client.cpp:272-288 Client::lineage *)
Definition client_lineage (limit : Z) : ClientM (Outcome * option LineageResponse) :=
  request LineageResponse MessageType.LineageRequest 256 (fun t => MkLineageRequest t limit) MessageType.LineageResponse.

(** src/service/client.cpp:290-305 Client::checkpoint *)
Definition client_checkpoint : ClientM (Outcome * option CheckpointResponse) :=
  request CheckpointResponse MessageType.CheckpointRequest 128 MkCheckpointRequest MessageType.CheckpointResponse.

(** src/service/client.cpp:307-322 Client::stats *)
Definition client_stats : ClientM (Outcome * option StatsResponse) :=
  request StatsResponse MessageType.StatsRequest 128 MkStatsRequest MessageType.StatsResponse.

(** src/service/client.cpp:324-340 Client::goodbye *)
Definition client_goodbye : ClientM (Outcome * option GoodbyeResponse) :=
  request GoodbyeResponse MessageType.GoodbyeRequest 128 MkGoodbyeRequest MessageType.GoodbyeResponse.

End Operations.
