(* ===== verification/Dial.v ===== *)
(** * The client's socket

    [Client::connect_loopback], [Client::close] and the destructor of [src/service/client.cpp]
    with the handle they keep, over [Sockets]: the [Client] of [Client.v] next to its socket
    and the sockets of the process. *)
From Stdlib Require Import Strings.String.
From stdpp Require Import gmap.
From S2P Require Import Prelude Core Checked Codec Ids Domain Fixtures Ledger Frame Session Messages Wire Net Sockets SimSockets Client.
Local Open Scope list_scope.
Local Open Scope Z_scope.

(** include/blackhole/service/client.hpp:61-74 Client (with its socket) *)
Record Dialer (W : Type) := MkDialer {
  dl_client : Client;
  dl_socket : Z;
  dl_os : W;
}.
Arguments MkDialer {W}. Arguments dl_client {W}. Arguments dl_socket {W}. Arguments dl_os {W}.

Section Dial.
Context {W : Type} `{SocketOs W}.

Definition new_Dialer (label : Provenance.t) (nonce1 nonce2 : Z) (w : W) : Dialer W :=
  MkDialer (new_Client label nonce1 nonce2) kInvalidSocketHandle w.

(** src/service/client.cpp:13-22 Client::close (socket) *)
Definition hang_up (d : Dialer W) : Dialer W :=
  let '(h, w) :=
    if dl_socket d =? kInvalidSocketHandle then (dl_socket d, dl_os d)
    else net_close (dl_socket d) (net_shutdown (dl_socket d) (dl_os d)) in
  MkDialer (client_close (dl_client d)) h w.

(** src/service/client.cpp:24-37 Client::connect_loopback (socket) *)
Definition dial (port : Z) (d : Dialer W) : Outcome * Dialer W :=
  let d := hang_up d in
  let '(o, h, detail, w) := net_connect_loopback port (dl_os d) in
  let '(o, c) := connect_loopback o detail (dl_client d) in
  (o, MkDialer c h w).

(** ** What a client holds *)

Section Laws.
Context (view : W -> OsView) `{!SocketOsLaws W view}.

(** The socket of the client is open, or there is none and the client is not connected. *)
Record dialer_ok (d : Dialer W) : Prop := {
  dk_open : dl_socket d <> kInvalidSocketHandle -> 0 <= dl_socket d /\ dl_socket d ∈ os_open (view (dl_os d));
  dk_idle : dl_socket d = kInvalidSocketHandle -> cl_connected (dl_client d) = false;
}.

(** A handle of the process that is not the client's. *)
Definition not_clients (d : Dialer W) (h : Z) : Prop := 0 <= h /\ h ∈ os_open (view (dl_os d)) /\ h <> dl_socket d.

Lemma hang_up_spec d :
  dialer_ok d ->
  dl_socket (hang_up d) = kInvalidSocketHandle /\ cl_connected (dl_client (hang_up d)) = false /\
  (forall h, not_clients (hang_up d) h <-> not_clients d h) /\
  (forall l, l <> dl_socket d -> os_ports (view (dl_os (hang_up d))) !! l = os_ports (view (dl_os d)) !! l).
Proof.
  intros [H1 H2]. unfold hang_up, not_clients, kInvalidSocketHandle in *. destruct (Z.eqb_spec (dl_socket d) (-1)) as [E | E].
  - cbn [dl_socket dl_client dl_os]. split_and!; [exact E | done | done | done].
  - unfold net_close, kInvalidSocketHandle. destruct (Z.eqb_spec (dl_socket d) (-1)); [done |]. cbn [dl_socket dl_client dl_os].
    destruct (net_shutdown_view view (dl_socket d) (dl_os d)) as (V1 & V2 & _).
    destruct (law_close (dl_socket d) (net_shutdown (dl_socket d) (dl_os d))) as (C1 & C2 & _). split_and!; [done | done | |].
    + intros h. rewrite C1, V1, elem_of_difference, elem_of_singleton. split; [intuition | intros (? & ? & ?); split_and!; [lia | done | done | lia]].
    + intros l Hl. by rewrite C2, V2.
Qed.

(** A client that connects closes the connection it had and holds exactly the one it gets,
    which every listener of the port finds waiting; when it cannot connect it holds none. No
    handle is leaked, and none of another part of the process is closed. *)
Lemma dial_spec port d :
  dialer_ok d ->
  let '(o, d') := dial port d in
  dialer_ok d' /\ (forall h, not_clients d' h <-> not_clients d h) /\
  match o with
  | Ok => cl_connected (dl_client d') = true /\ 0 <= dl_socket d' /\
      forall l, l <> dl_socket d -> os_ports (view (dl_os d)) !! l = Some port -> l ∈ os_pending (view (dl_os d'))
  | _ => cl_connected (dl_client d') = false /\ dl_socket d' = kInvalidSocketHandle
  end.
Proof.
  intros Hd. destruct (hang_up_spec d Hd) as (E1 & E2 & E3 & E4). unfold dial. set (u := hang_up d) in *.
  pose proof (net_connect_handles view port (dl_os u)) as Hc. destruct (net_connect_loopback _ _) as [[[o h] detail] w].
  destruct Hc as [(-> & V1 & V2 & V3 & V4 & V5 & _ & V6) | (-> & -> & V2 & V3)]; unfold connect_loopback.
  - change (negb (is_affirmative Ok)) with false. cbn iota. split; [split | split].
    + cbn [dl_socket dl_os]. intros _. split; [exact V1 |]. rewrite V3, elem_of_union, elem_of_singleton. by left.
    + cbn [dl_socket]. unfold kInvalidSocketHandle. lia.
    + intros k. rewrite <- E3. unfold not_clients. cbn [dl_socket dl_os]. rewrite V3, elem_of_union, elem_of_singleton, E1. split.
      * intros (A & [B | B] & C); [done |]. split_and!; [done | done | unfold kInvalidSocketHandle; lia].
      * intros (A & B & _). split_and!; [done | by right | congruence].
    + cbn [dl_socket dl_os dl_client]. split_and!; [done | exact V1 |]. intros l Hl Hp. apply V6. by rewrite E4.
  - change (negb (is_affirmative Unavailable)) with true. cbn iota. split; [split | split]; try done.
    intros k. rewrite <- E3. unfold not_clients. cbn [dl_socket dl_os]. by rewrite V2, E1.
Qed.

End Laws.
End Dial.

(** A client of the simulated sockets: it connects, connects again, and hangs up. *)
Example dial_runs :
  let w := (sys_listen 0 16 (sys_bind 0 4100 (sys_socket (sim_world 8 ∅ ∅)).2).2).2 in
  let '(o1, d1) := dial 4100 (new_Dialer Provenance.Synthetic 1 2 w) in
  let '(o2, d2) := dial 4100 d1 in
  let '(o3, d3) := dial 4101 d2 in
  (o1, dl_socket d1) = (Ok, 1) /\ (o2, dl_socket d2) = (Ok, 1) /\ (o3, dl_socket d3) = (Unavailable, -1) /\
  elements (so_open (dl_os d2)) = [1; 0] /\ elements (so_open (dl_os d3)) = [0].
Proof. vm_compute. by split_and!. Qed.
