(* ===== verification/Loopback.v ===== *)
(** * Client and server together

    The client of [Client] at one end of a stream socket whose other end is a connection of
    the server of [Server]. The socket is a parameter: [ServerSocket] states what a stream
    between two live ends promises, whatever pieces the bytes are cut into and whenever the
    server's thread runs. The lemmas follow one request through both programs. *)
From Stdlib Require Import Strings.String.
From S2P Require Import Prelude OrderedMap Core Checked Codec Counted Hash Ids Domain Policy Fixtures Ledger Classifier.
From S2P Require Import Localizer Fence Authority Record Journal Snapshot Durable Store Net Frame Session Messages Wire Engine.
From S2P Require Import Server ServerSpec Service Client.
Local Open Scope string_scope.
Local Open Scope list_scope.
Local Open Scope Z_scope.

(** ** The loop that waits for a response *)

(** The buffer of the client. *)
Definition kClientBuffer : Z := 16 * 1024.

Section Termination.
Context {P : Type} `{SocketApi P}.

(** [k] receives that returned, one after another. *)
Inductive received : nat -> P -> P -> Prop :=
| received_none p : received 0 p p
| received_more k p r p1 p2 : os_recv kClientBuffer p = Some (r, p1) -> received k p1 p2 -> received (S k) p p2.

(** The bytes the decoder of the client has room for. *)
Definition decoder_room (c : Client) : Z :=
  fd_max (cl_decoder c) + kFrameHeaderSize - zlen (pending (cl_decoder c)).

(** How the loop ends: with a verdict after [k] receives, or in a receive that does not
    return. *)
Definition awaited (c : Client) (p : P) (r : option (option (Outcome * list byte) * (Client * P))) : Prop :=
  match r with
  | Some (Some _, (_, p')) => exists k, received k p p' /\ Z.of_nat k <= decoder_room c + 1
  | Some (None, _) => False
  | None => exists k p', received k p p' /\ Z.of_nat k <= decoder_room c /\ os_recv kClientBuffer p' = None
  end.

Context (accepted : P -> list byte) `{!SocketLaws P accepted}.
Context (expected : MessageType.t).

Definition client_ok (c : Client) : Prop := decoder_ok (cl_decoder c) /\ failure_ (cl_decoder c) = Ok.

Lemma take_response_returns f (w : Client * P) :
  exists r c, take_response expected f w = Some (r, (c, w.2)).
Proof.
  unfold take_response, mbind, ClientM_bind, mret, ClientM_ret, change.
  destruct (f_type f); try (destruct (_ != expected); by eexists _, _).
  all: try (destruct w as [c p]; destruct (decode_all _ _); by eexists _, _).
  all: destruct w as [c p]; destruct (_ != expected); by eexists _, _.
Qed.

Lemma client_recv_spec (c : Client) p :
  recv kClientBuffer (c, p) =
  match os_recv kClientBuffer p with
  | None => None
  | Some (None, p) => Some ((Rejected, [], list_byte_of_string "recv failed: " ++ os_error p), (c, p))
  | Some (Some bytes, p) => Some ((Ok, bytes, []), (c, p))
  end.
Proof.
  unfold recv, net_recv_some, kClientBuffer. change (16 * 1024 =? 0) with false. change (kIoChunk <? 16 * 1024) with false.
  cbn [fst snd]. cbv beta iota zeta. by destruct (os_recv (16 * 1024) p) as [[[bytes |] p1] |].
Qed.

Lemma await_returns fuel : forall c p,
  client_ok c -> decoder_room c + 1 < Z.of_nat fuel -> awaited c p (await_response fuel expected (c, p)).
Proof.
  induction fuel as [| fuel IH]; intros c p [Hd Hf] Hn; pose proof Hd as [Hm Hp]; [unfold decoder_room in Hn; lia |].
  cbn [await_response]. unfold mbind, ClientM_bind, mret, ClientM_ret, get_client, change. cbn [fst snd].
  assert (0 <= decoder_room c) as Hroom by (unfold decoder_room; lia).
  destruct (next_spec_holds (cl_decoder c) Hm) as [f tail _ _ _ | _ | o Ho].
  - cbn [fst snd]. destruct (take_response_returns f (set_decoder (MkDecoder (fd_max (cl_decoder c)) tail Ok) c, p)) as (r & c' & E).
    rewrite E. exists 0%nat. split; [constructor | lia].
  - change (16 * 1024) with kClientBuffer. rewrite client_recv_spec. cbn [fst snd].
    destruct (os_recv kClientBuffer p) as [[[bytes |] p1] |] eqn:Er.
    2:{ cbv beta iota zeta. change (is_affirmative Rejected) with false. cbn [negb fst snd]. exists 1%nat.
        split; [eapply received_more; [exact Er | constructor] | lia]. }
    2:{ exists 0%nat, p. split; [constructor |]. split; [lia | exact Er]. }
    cbv beta iota zeta. change (is_affirmative Ok) with true. cbn [negb].
    pose proof (os_recv_bound kClientBuffer p bytes p1 ltac:(unfold kClientBuffer; lia) Er) as Hb.
    assert (exists k, received k p p1 /\ Z.of_nat k <= decoder_room c + 1) as Hone.
    { exists 1%nat. split; [eapply received_more; [exact Er | constructor] | lia]. }
    destruct (Z.eqb_spec (zlen bytes) 0) as [| Hz]; [exact Hone |].
    cbn [fst snd cl_decoder set_decoder]. pose proof (zlen_nonneg bytes).
    assert (in_u64 (zlen bytes)) as Hu by (unfold in_u, kClientBuffer in *; lia).
    rewrite feed_ok by done.
    destruct (Z.ltb_spec (fd_max (cl_decoder c) + kFrameHeaderSize) (zlen (pending (cl_decoder c)) + zlen bytes)); [exact Hone |].
    cbv beta iota zeta. change (is_affirmative Ok) with true. cbn [negb fst snd].
    set (c1 := set_decoder _ _). assert (decoder_room c1 = decoder_room c - zlen bytes) as Hr.
    { unfold decoder_room, c1. cbn [cl_decoder set_decoder fd_max pending]. rewrite zlen_app. lia. }
    assert (client_ok c1) as Hc1.
    { split; [| reflexivity]. split; [exact Hm |]. unfold c1. cbn [cl_decoder set_decoder fd_max pending]. rewrite zlen_app. lia. }
    specialize (IH c1 p1 Hc1 ltac:(lia)). unfold awaited in *.
    destruct (await_response fuel expected (c1, p1)) as [[[v |] [c2 p2]] |]; [| done |].
    + destruct IH as (k & Hk & Hkl). exists (S k). split; [by eapply received_more | lia].
    + destruct IH as (k & p2 & Hk & Hkl & Hw). exists (S k), p2. split; [by eapply received_more |]. split; [lia | exact Hw].
  - destruct (decide (o = NotFound)) as [-> | Hne];
      [| destruct o; try done; exists 0%nat; (split; [constructor | lia])].
    change (16 * 1024) with kClientBuffer. rewrite client_recv_spec. cbn [fst snd].
    destruct (os_recv kClientBuffer p) as [[r p1] |] eqn:Er; [| exists 0%nat, p; by split_and!; [constructor | |]].
    assert (exists k, received k p p1 /\ Z.of_nat k <= decoder_room c + 1) as Hone.
    { exists 1%nat. split; [eapply received_more; [exact Er | constructor] | lia]. }
    destruct r as [bytes |]; [| exact Hone]. cbv beta iota zeta. change (is_affirmative Ok) with true. cbn [negb].
    destruct (zlen bytes =? 0); exact Hone.
Qed.

End Termination.

(** ** The socket between the two *)

(** The server's end of the connection: the server, the state of its thread, the bytes sent
    to it that it has not received yet, and what it has answered that the client has not. *)
Record ServerEnd := MkEnd {
  se_server : Server;
  se_conn : ConnectionState;
  se_unread : list byte;
  se_inbox : list byte;
}.

Section Stream.
Context (clock : nat -> WallNs).

(** The thread of the connection receives some of the bytes that have arrived and serves
    them, and its responses go out. *)
Definition far_chunk (c : list byte) (e : ServerEnd) : list (list byte) * bool * ConnectionState * Server :=
  serve_chunk clock (fun _ => true) c [] (se_conn e) (se_server e).

(** The server's end moves on: any number of chunks, cut anywhere, none of which makes the
    server close the connection. *)
Inductive moves : ServerEnd -> ServerEnd -> Prop :=
| moves_not e : moves e e
| moves_chunk e c rest out conn s e' :
    se_unread e = c ++ rest -> c <> [] -> far_chunk c e = (out, false, conn, s) ->
    moves (MkEnd s conn rest (se_inbox e ++ concat out)) e' -> moves e e'.

Definition add_unread (bytes : list byte) (e : ServerEnd) : ServerEnd :=
  MkEnd (se_server e) (se_conn e) (se_unread e ++ bytes) (se_inbox e).
Definition set_inbox (bytes : list byte) (e : ServerEnd) : ServerEnd :=
  MkEnd (se_server e) (se_conn e) (se_unread e) bytes.

(** However the bytes that have arrived are received, the server does not close. *)
Definition keeps_open (e : ServerEnd) : Prop :=
  forall e' c rest, moves e e' -> se_unread e' = c ++ rest -> c <> [] -> (far_chunk c e').1.1.2 = false.

(** A stream socket whose other end is [far p], on a connection that is not broken and that
    no other connection of the server interferes with. As long as the server keeps it open: a
    [send] returns and takes some of its bytes, which arrive; a [recv] returns some of the
    bytes the server answered, in order, and blocks only if the server has served everything
    and there is nothing to receive. Between the calls, and during them, the server's thread
    runs as it likes. *)
Class ServerSocket (P : Type) `{SocketApi P} (far : P -> ServerEnd) := {
  far_send : forall bytes p, bytes <> [] -> keeps_open (add_unread bytes (far p)) ->
    exists n p', os_send bytes p = Some (n, p') /\ 0 < n <= zlen bytes /\
      moves (add_unread (take (Z.to_nat n) bytes) (far p)) (far p');
  far_recv : forall n p, 0 < n -> keeps_open (far p) ->
    match os_recv n p with
    | Some (Some bytes, p') => bytes <> [] /\ zlen bytes <= n /\
        exists e rest, moves (far p) e /\ se_inbox e = bytes ++ rest /\ moves (set_inbox rest e) (far p')
    | Some (None, _) => False
    | None => exists e, moves (far p) e /\ se_unread e = [] /\ se_inbox e = []
    end;
}.

(** ** One request on its way *)

Lemma with_same_decoder d conn : cn_decoder conn = d -> with_decoder d conn = conn.
Proof. intros <-. by destruct conn. Qed.

Lemma set_same_decoder d c : cl_decoder c = d -> set_decoder d c = c.
Proof. intros <-. by destruct c. Qed.

Lemma next_empty max : next (new_FrameDecoder max) = (NotFound, None, new_FrameDecoder max).
Proof. reflexivity. Qed.

(** Bytes that complete at most one frame are taken by the decoder. *)
Lemma feed_part max f R c Q :
  in_u32 max -> frame_ok max f -> R ++ c ++ Q = frame_image f ->
  feed c (MkDecoder max R Ok) = (Ok, MkDecoder max (R ++ c) Ok).
Proof.
  intros Hm [_ Hf] E. pose proof (zlen_nonneg (f_payload f)). unfold in_u in Hm.
  apply (f_equal zlen) in E. rewrite !zlen_app, zlen_frame_image in E.
  pose proof (zlen_nonneg R). pose proof (zlen_nonneg c). pose proof (zlen_nonneg Q).
  rewrite feed_ok; [| split; [exact Hm | cbn; unfold kFrameHeaderSize; lia] | unfold in_u; lia | reflexivity].
  cbn [fd_max pending]. unfold kFrameHeaderSize. destruct (Z.ltb_spec (max + 20) (zlen R + zlen c)); [lia | reflexivity].
Qed.

(** The server's thread receives a part of a frame that does not complete it. *)
Lemma serve_part max f conn R c Q s :
  in_u32 max -> frame_ok max f -> R ++ c ++ Q = frame_image f -> Q <> [] ->
  serve_chunk clock (fun _ => true) c [] (with_decoder (MkDecoder max R Ok) conn) s =
  (([], false, with_decoder (MkDecoder max (R ++ c) Ok) conn), s).
Proof.
  intros Hm Hf E HQ. unfold serve_chunk. change (cn_decoder (with_decoder (MkDecoder max R Ok) conn)) with (MkDecoder max R Ok).
  rewrite (feed_part max f R c Q) by done. change (is_affirmative Ok) with true. cbn [negb pending serve_frames].
  change (cn_decoder (with_decoder (MkDecoder max (R ++ c) Ok) (with_decoder (MkDecoder max R Ok) conn))) with (MkDecoder max (R ++ c) Ok).
  rewrite (next_short max f (R ++ c) Q) by (try done; by rewrite <- app_assoc). reflexivity.
Qed.

Lemma admit_valid conn m t s :
  message_valid m -> request_token m = Some t ->
  admit_request conn (MkFrame (message_type m) 0 (message_image m)) s =
  let '(r, s') := require_session conn t s in (match r with Some e => inl e | None => inr m end, s').
Proof.
  intros Hv Ht. destruct m; try discriminate; injection Ht as <-; cbn [message_valid message_image message_type] in *;
    unfold admit_request; cbn [f_type]; unfold admit_under, decode_request;
    rewrite (decode_message_image _ _ Hv); reflexivity.
Qed.

(** The bytes that complete a request frame: it is dispatched and answered. *)
Lemma serve_last m t conn s s1 s2 g R c :
  let max := sv_max_frame_bytes s in
  message_valid m -> request_token m = Some t -> zlen (message_image m) <= max ->
  in_u32 max -> cn_decoder conn = new_FrameDecoder max ->
  require_session conn t (note FramesDecoded s).2 = (None, s1) ->
  serve_request clock conn m s1 = ((inr g, conn), s2) ->
  0 < zlen (f_payload g) <= 1024 -> R ++ c = frame_image (MkFrame (message_type m) 0 (message_image m)) ->
  serve_chunk clock (fun _ => true) c [] (with_decoder (MkDecoder max R Ok) conn) s =
  (([frame_image g], false, conn), (note RequestsServed s2).2).
Proof.
  intros max Hv Ht Hl Hm Hd Hr Hs Hg E. set (f := MkFrame (message_type m) 0 (message_image m)) in *.
  assert (frame_ok max f) as Hf by (split; [reflexivity | exact Hl]).
  unfold serve_chunk. change (cn_decoder (with_decoder (MkDecoder max R Ok) conn)) with (MkDecoder max R Ok).
  rewrite (feed_part max f R c []) by (try done; by rewrite app_nil_r). rewrite E.
  change (is_affirmative Ok) with true. cbn [negb pending].
  assert (exists n, length (frame_image f) = S n) as [n ->].
  { pose proof (zlen_frame_image f) as Hz. pose proof (zlen_nonneg (f_payload f)). unfold zlen in *.
    destruct (length (frame_image f)); [lia | by eexists]. }
  assert (next (MkDecoder max (frame_image f) Ok) = (Ok, Some f, MkDecoder max [] Ok)) as Hnext
    by (rewrite <- (app_nil_r (frame_image f)); by apply next_frame).
  cbn [serve_frames with_decoder cn_decoder]. rewrite Hnext.
  unfold mbind at 1 2, ServerM_bind at 1 2. unfold note at 1. cbn [length].
  change (MkDecoder max [] Ok) with (new_FrameDecoder max).
  match goal with |- context [with_decoder (new_FrameDecoder max) (with_decoder ?a (with_decoder ?b conn))] =>
    change (with_decoder (new_FrameDecoder max) (with_decoder a (with_decoder b conn))) with (with_decoder (new_FrameDecoder max) conn) end.
  rewrite (with_same_decoder _ conn Hd). unfold dispatch_frame, mbind, ServerM_bind, mret, ServerM_ret.
  unfold f. rewrite (admit_valid conn m t) by done.
  change (MkServer (sv_engine s) (sv_sessions s) (bump FramesDecoded (sv_stats s)) (sv_max_frame_bytes s)) with (note FramesDecoded s).2.
  rewrite Hr, Hs. cbn [finish_response].
  destruct (Z.eqb_spec (zlen (f_payload g)) 0) as [| _]; [lia |]. cbn [andb].
  unfold send_response. rewrite small_sent by lia. cbn [negb]. unfold mbind, ServerM_bind, mret, ServerM_ret.
  cbn [note app serve_frames]. rewrite Hd, next_empty. unfold mret, ServerM_ret. by rewrite with_same_decoder.
Qed.

(** *** The bytes in flight *)

(** One request between a client and a server that were in step: the frame [f] the client
    sends, the frame [g] that answers it, the state of the server's end before and after. *)
Section Transit.
Context (f g : Frame) (before after : Server) (conn : ConnectionState).
Let max := sv_max_frame_bytes before.
Context (Hmax : in_u32 max) (Hf : frame_ok max f).
Context (Hlast : forall R c, R ++ c = frame_image f ->
  serve_chunk clock (fun _ => true) c [] (with_decoder (MkDecoder max R Ok) conn) before =
  (([frame_image g], false, conn), after)).

(** [T] is still to be sent and [I] to be received: the server has received a part of the
    request and done nothing, or all of it and answered. *)
Inductive transit (T I : list byte) (e : ServerEnd) : Prop :=
| transit_going R :
    se_server e = before -> se_conn e = with_decoder (MkDecoder max R Ok) conn ->
    R ++ se_unread e ++ T = frame_image f -> se_unread e ++ T <> [] -> se_inbox e = [] -> I = frame_image g ->
    transit T I e
| transit_back :
    se_server e = after -> se_conn e = conn -> se_unread e = [] -> T = [] -> se_inbox e = I -> transit T I e.

Lemma transit_chunk T I e c rest :
  transit T I e -> se_unread e = c ++ rest -> c <> [] ->
  exists out conn' s, far_chunk c e = (out, false, conn', s) /\ transit T I (MkEnd s conn' rest (se_inbox e ++ concat out)).
Proof.
  intros [R E1 E2 E3 E4 E5 E6 | E1 E2 E3 E4 E5] Ec Hc.
  - rewrite Ec, <- app_assoc in E3. unfold far_chunk. rewrite E1, E2, E5. destruct (rest ++ T) as [| x Q] eqn:EQ.
    + apply app_nil in EQ as [-> ->]. rewrite (Hlast R c) by by rewrite app_nil_r in E3.
      eexists _, _, _. split; [reflexivity |]. apply transit_back; try done. cbn. by rewrite app_nil_r.
    + rewrite (serve_part max f conn R c (x :: Q)) by done.
      eexists _, _, _. split; [reflexivity |]. apply (transit_going _ _ _ (R ++ c)); try done; cbn [se_unread].
      * by rewrite EQ, <- app_assoc.
      * by rewrite EQ.
  - rewrite E3 in Ec. by destruct c.
Qed.

Lemma transit_moves T I e e' : moves e e' -> transit T I e -> transit T I e'.
Proof.
  induction 1 as [| e c rest out conn' s e' Hc Hn Hfar _ IH]; [done |]. intros Ht. apply IH.
  destruct (transit_chunk T I e c rest Ht Hc Hn) as (out1 & conn1 & s1 & Hfar1 & Ht1).
  rewrite Hfar in Hfar1. by injection Hfar1 as <- <- <-.
Qed.

Lemma transit_open T I e : transit T I e -> keeps_open e.
Proof.
  intros Ht e' c rest Hm Hc Hn. pose proof (transit_moves T I e e' Hm Ht) as Ht'.
  destruct (transit_chunk T I e' c rest Ht' Hc Hn) as (out & conn1 & s1 & -> & _). done.
Qed.

(** Sending the first bytes of what is left. *)
Lemma transit_send k T I e : (0 < k)%nat -> T <> [] -> transit T I e -> transit (drop k T) I (add_unread (take k T) e).
Proof.
  intros Hk HT [R E1 E2 E3 E4 E5 E6 | E1 E2 E3 E4 E5]; [| done].
  apply (transit_going _ _ _ R); cbn [add_unread se_server se_conn se_unread se_inbox]; try done.
  - by rewrite <- app_assoc, take_drop.
  - rewrite <- app_assoc, take_drop. by destruct (se_unread e).
Qed.

Context {P : Type} `{SocketApi P} (far : P -> ServerEnd) `{!ServerSocket P far}.

Lemma transit_send_loop fuel : forall T I p, (length T <= fuel)%nat -> transit T I (far p) ->
  exists p', send_loop fuel T p = Some (Ok, [], p') /\ transit [] I (far p').
Proof.
  induction fuel as [| fuel IH]; intros T I p Hl Ht; cbn [send_loop].
  { destruct T; [by exists p | cbn in Hl; lia]. }
  destruct (Z.eqb_spec (zlen T) 0) as [E | E].
  { assert (T = []) as -> by (destruct T; [done | rewrite zlen_cons in E; pose proof (zlen_nonneg T); lia]). by exists p. }
  assert (T <> []) as HT by (intros ->; done).
  unfold send_some. set (chunk := if kIoChunk <? zlen T then kIoChunk else zlen T).
  assert (0 < chunk <= zlen T) as Hc.
  { pose proof (zlen_nonneg T). unfold chunk. destruct (Z.ltb_spec kIoChunk (zlen T)); unfold kIoChunk in *; lia. }
  assert (take (Z.to_nat chunk) T <> []) as Hne.
  { intros Hn. apply (f_equal length) in Hn. rewrite length_take in Hn. unfold zlen in Hc. cbn in Hn. lia. }
  destruct (far_send (take (Z.to_nat chunk) T) p Hne) as (n & p1 & Hs & Hn & Hm).
  { apply (transit_open (drop (Z.to_nat chunk) T) I). apply transit_send; [lia | exact HT | exact Ht]. }
  rewrite Hs. destruct (Z.leb_spec n 0); [lia |].
  assert (zlen (take (Z.to_nat chunk) T) = chunk) as Hz by (unfold zlen in *; rewrite length_take; lia). rewrite Hz in Hn.
  rewrite take_take in Hm. replace (Z.to_nat n `min` Z.to_nat chunk)%nat with (Z.to_nat n) in Hm by lia.
  apply IH; [rewrite length_drop; unfold zlen in *; lia |].
  apply (transit_moves _ _ _ _ Hm), transit_send; [lia | exact HT | exact Ht].
Qed.

(** Receiving what is left, at most [n] bytes at a time. *)
Lemma transit_recv n I p :
  0 < n -> I <> [] -> transit [] I (far p) ->
  exists bytes rest p', os_recv n p = Some (Some bytes, p') /\ bytes <> [] /\ zlen bytes <= n /\
    I = bytes ++ rest /\ transit [] rest (far p').
Proof.
  intros Hn HI Ht. pose proof (far_recv n p Hn (transit_open _ _ _ Ht)) as Hr.
  destruct (os_recv n p) as [[[bytes |] p1] |]; [| done |].
  - destruct Hr as (Hb & Hz & e & rest & Hm & Hi & Hm'). exists bytes, rest, p1.
    destruct (transit_moves _ _ _ _ Hm Ht) as [R E1 E2 E3 E4 E5 E6 | E1 E2 E3 E4 E5].
    { rewrite E5 in Hi. by destruct bytes. }
    split_and!; try done; [congruence |]. apply (transit_moves _ _ _ _ Hm'). by apply transit_back.
  - exfalso. destruct Hr as (e & Hm & Hu & Hi).
    destruct (transit_moves _ _ _ _ Hm Ht) as [R E1 E2 E3 E4 E5 E6 | E1 E2 E3 E4 E5]; [| congruence].
    apply E4. by rewrite Hu.
Qed.

Lemma take_expected expected (w : Client * P) :
  f_type g = expected -> expected <> MessageType.ErrorResponse -> take_response expected g w = Some ((Ok, f_payload g), w).
Proof. intros <- Hn. unfold take_response. destruct (f_type g); try done; by rewrite beq_refl. Qed.

(** The client's half: the rest [I] of the response on its way. *)
Lemma transit_await expected fuel : forall c p R I,
  f_type g = expected -> expected <> MessageType.ErrorResponse -> frame_ok kDefaultMaxFrameBytes g ->
  transit [] I (far p) -> R ++ I = frame_image g -> (length I < fuel)%nat ->
  exists p', await_response fuel expected (set_decoder (MkDecoder kDefaultMaxFrameBytes R Ok) c, p) =
    Some (Some (Ok, f_payload g), (set_decoder (new_FrameDecoder kDefaultMaxFrameBytes) c, p')) /\ transit [] [] (far p').
Proof.
  intros c p R I Ht Hn Hok. revert R I p.
  assert (in_u32 kDefaultMaxFrameBytes) as Hm by (vm_compute; split; [discriminate | reflexivity]).
  induction fuel as [| fuel IH]; intros R I p Htr HR Hl; [lia |].
  cbn [await_response]. unfold mbind, ClientM_bind, mret, ClientM_ret, get_client, change. cbn [fst snd].
  change (cl_decoder (set_decoder (MkDecoder kDefaultMaxFrameBytes R Ok) c)) with (MkDecoder kDefaultMaxFrameBytes R Ok).
  destruct I as [| x I].
  - rewrite app_nil_r in HR. subst R.
    assert (next (MkDecoder kDefaultMaxFrameBytes (frame_image g) Ok) = (Ok, Some g, MkDecoder kDefaultMaxFrameBytes [] Ok)) as ->
      by (rewrite <- (app_nil_r (frame_image g)); by apply next_frame).
    cbn [fst snd]. rewrite take_expected by done. by exists p.
  - rewrite (next_short kDefaultMaxFrameBytes g R (x :: I)) by done.
    change (16 * 1024) with kClientBuffer. rewrite client_recv_spec. cbn [fst snd].
    destruct (transit_recv kClientBuffer (x :: I) p ltac:(unfold kClientBuffer; lia) ltac:(done) Htr)
      as (bytes & rest & p1 & Hr & Hb & Hz & E & Ht1).
    rewrite Hr. cbv beta iota zeta. change (is_affirmative Ok) with true. cbn [negb].
    destruct (Z.eqb_spec (zlen bytes) 0) as [E0 | _];
      [destruct bytes; [done | rewrite zlen_cons in E0; pose proof (zlen_nonneg bytes); lia] |].
    cbn [fst snd]. change (cl_decoder (set_decoder ?d ?c)) with d. rewrite E in HR.
    rewrite (feed_part kDefaultMaxFrameBytes g R bytes rest) by done.
    cbv beta iota zeta. change (is_affirmative Ok) with true. cbn [negb fst snd].
    apply (IH (R ++ bytes) rest p1); [exact Ht1 | by rewrite <- app_assoc |].
    apply (f_equal length) in E. rewrite length_app in E. cbn [length] in *. destruct bytes; [done | cbn in E; lia].
Qed.
End Transit.

(** ** Client and server in step *)

(** The client has a session, the server agrees on it and on its last number, and nothing is
    in flight. *)
Record in_step (c : Client) (e : ServerEnd) : Prop := {
  is_connected : cl_connected c = true;
  is_client : cl_decoder c = new_FrameDecoder kDefaultMaxFrameBytes;
  is_server : cn_decoder (se_conn e) = new_FrameDecoder (sv_max_frame_bytes (se_server e));
  is_bound : in_u32 (sv_max_frame_bytes (se_server e));
  is_unread : se_unread e = [];
  is_inbox : se_inbox e = [];
  is_established : cn_established (se_conn e) = true;
  is_session : hr_session (cl_hello c) = cn_session (se_conn e);
  is_seq : 0 <= cl_seq c;
  is_identity : in_u64 (id_value (hr_session (cl_hello c))) /\ in_u64 (id_value (cl_boot c)) /\ in_u64 (id_value (cl_incarnation c));
  is_table : exists r, map_find (cn_session (se_conn e)) (sessions_ (sv_sessions (se_server e))) = Some r /\
    active r = true /\ client_boot r = cl_boot c /\ client_incarnation r = cl_incarnation c /\
    seq_value (sr_last_seq r) = cl_seq c;
}.

(** The token of the next request. *)
Definition token_next (c : Client) : SessionToken :=
  MkToken (hr_session (cl_hello c)) (MkId (incr (cl_request c))) (MkSeq (incr (cl_seq c))) (cl_boot c) (cl_incarnation c).
Definition after_token (c : Client) : Client := set_counters (incr (cl_seq c)) (incr (cl_request c)) c.

(** What the server's half needs from the session. *)
Lemma require_in_step c p :
  in_step c p -> incr (cl_seq c) = cl_seq c + 1 ->
  exists s1, require_session (se_conn p) (token_next c) (note FramesDecoded (se_server p)).2 = (None, s1) /\
    sv_engine s1 = sv_engine (se_server p) /\ sv_max_frame_bytes s1 = sv_max_frame_bytes (se_server p) /\
    sv_stats s1 = bump FramesDecoded (sv_stats (se_server p)) /\
    exists r, map_find (cn_session (se_conn p)) (sessions_ (sv_sessions s1)) = Some r /\ active r = true /\
      client_boot r = cl_boot c /\ client_incarnation r = cl_incarnation c /\ seq_value (sr_last_seq r) = incr (cl_seq c).
Proof.
  intros [_ _ _ _ _ _ He Hs _ _ (r & Hr & Ha & Hb & Hi & Hq)] Hincr.
  assert (validate (cn_session (se_conn p)) (cl_boot c) (cl_incarnation c) (MkSeq (incr (cl_seq c))) (sv_sessions (se_server p)) =
    (Ok, ReasonCode.None, with_sessions (map_insert (cn_session (se_conn p)) (accept_record (MkSeq (incr (cl_seq c))) r)
       (sessions_ (sv_sessions (se_server p)))) (sv_sessions (se_server p)))) as Ev.
  { unfold validate. rewrite Hr, Ha, Hb, Hi, !beq_refl, Hq. cbn [negb orb seq_value]. by rewrite Z.eqb_refl. }
  unfold require_session, mbind, ServerM_bind, mret, ServerM_ret, on_sessions.
  change (tk_session (token_next c)) with (hr_session (cl_hello c)). rewrite He, Hs, beq_refl. cbn [negb].
  change (sv_sessions (note FramesDecoded (se_server p)).2) with (sv_sessions (se_server p)).
  change (tk_client_boot (token_next c)) with (cl_boot c). change (tk_client_incarnation (token_next c)) with (cl_incarnation c).
  change (tk_seq (token_next c)) with (@MkSeq SessionSeqTag (incr (cl_seq c))).
  rewrite Ev. change (is_affirmative Ok) with true. cbn [negb].
  eexists. split; [reflexivity |]. split_and!; [reflexivity .. |]. eexists. cbn [sv_sessions with_sessions sessions_].
  rewrite map_find_insert_eq. split; [reflexivity |]. cbn. by split_and!.
Qed.

Context {P : Type} `{SocketApi P} (far : P -> ServerEnd) `{!ServerSocket P far}.

Lemma next_token_in_step c (p : P) : next_token (c, p) = Some (token_next c, (after_token c, p)).
Proof. reflexivity. Qed.

(** One request of a client in step: it is served under the client's session, its answer is
    the server's, and the two stay in step. *)
Lemma request_in_step {A B} `{CodecLaws A} `{CodecLaws B} te n (q : SessionToken -> A) (wrap : A -> Message) (b : B) c p :
  let m := wrap (q (token_next c)) in
  let s := se_server (far p) in
  in_step c (far p) -> cl_seq c + 1 < 2 ^ 64 ->
  message_image m = image (q (token_next c)) -> message_valid m -> valid (q (token_next c)) ->
  request_token m = Some (token_next c) -> te <> MessageType.ErrorResponse ->
  zlen (image (q (token_next c))) <= n <= 4096 -> zlen (image (q (token_next c))) <= sv_max_frame_bytes s ->
  (forall s1, sv_engine s1 = sv_engine s ->
     serve_request clock (se_conn (far p)) m s1 =
     ((inr (MkFrame te 0 (image b)), se_conn (far p)),
      MkServer (engine_call clock m (sv_engine s1)) (sv_sessions s1) (sv_stats s1) (sv_max_frame_bytes s1))) ->
  valid b -> 0 < zlen (image b) <= 1024 ->
  exists p', request B (message_type m) n q te (c, p) = Some ((Ok, Some b), (after_token c, p')) /\
    in_step (after_token c) (far p') /\ sv_engine (se_server (far p')) = engine_call clock m (sv_engine s).
Proof.
  intros m s Hstep Hseq Him Hvm Hvq Hmt Hte Hn Hmax Hserve Hvb Hb.
  assert (incr (cl_seq c) = cl_seq c + 1) as Hincr
    by (pose proof (is_seq _ _ Hstep); unfold incr, u64_add; apply wrap_small; unfold in_u; lia).
  destruct (require_in_step c (far p) Hstep Hincr) as (s1 & Hr & E1 & E2 & E3 & Ht). fold s in E1, E2, E3.
  pose proof (Hserve s1 E1) as Hs. set (conn := se_conn (far p)) in *.
  set (g := MkFrame te 0 (image b)) in *. set (s2 := MkServer _ _ _ _) in Hs.
  assert (zlen (message_image m) <= sv_max_frame_bytes s) as Hml by by rewrite Him.
  assert (zlen (message_image m) <= 4096) as Hm4 by (rewrite Him; lia).
  pose proof (fun R k => serve_last m (token_next c) conn s s1 s2 g R k Hvm Hmt Hml (is_bound _ _ Hstep)
    (is_server _ _ Hstep) Hr Hs Hb) as Hlast. cbv zeta in Hlast.
  set (f := MkFrame (message_type m) 0 (message_image m)) in *. set (after := (note RequestsServed s2).2) in *.
  assert (frame_ok (sv_max_frame_bytes s) f) as Hf by (split; [reflexivity | exact Hml]).
  assert (frame_ok kDefaultMaxFrameBytes g) as Hg by (split; [reflexivity | cbn; unfold kDefaultMaxFrameBytes; lia]).
  assert (0 <= zlen (f_payload f) <= 4096) as Hfl
    by (change (f_payload f) with (message_image m); pose proof (zlen_nonneg (message_image m)); lia).
  assert (transit f g s after conn (frame_image f) (frame_image g) (far p)) as Htr.
  { apply (transit_going _ _ _ _ _ _ _ _ []); rewrite ?(is_unread _ _ Hstep), ?(is_inbox _ _ Hstep); try done.
    symmetry. apply with_same_decoder. exact (is_server _ _ Hstep). }
  destruct (transit_send_loop f g s after conn (is_bound _ _ Hstep) Hf Hlast far (length (frame_image f)) (frame_image f)
    (frame_image g) p ltac:(lia) Htr) as (p1 & Hsent & Htr1).
  destruct (transit_await f g s after conn (is_bound _ _ Hstep) Hf Hlast far te (exchange_fuel (after_token c)) (after_token c) p1
    [] (frame_image g) eq_refl Hte Hg Htr1 eq_refl) as (p2 & Hwait & Htr2).
  { change (cl_decoder (after_token c)) with (cl_decoder c). unfold exchange_fuel.
    change (cl_decoder (after_token c)) with (cl_decoder c). rewrite (is_client _ _ Hstep).
    pose proof (zlen_frame_image g) as Hz. change (f_payload g) with (image b) in Hz. unfold zlen in Hz at 1.
    change (fd_max (new_FrameDecoder kDefaultMaxFrameBytes)) with kDefaultMaxFrameBytes. unfold kDefaultMaxFrameBytes, kFrameHeaderSize. lia. }
  change (MkDecoder kDefaultMaxFrameBytes [] Ok) with (new_FrameDecoder kDefaultMaxFrameBytes) in Hwait.
  rewrite (set_same_decoder (new_FrameDecoder kDefaultMaxFrameBytes) (after_token c)) in Hwait by exact (is_client _ _ Hstep).
  assert (frame_image g <> []) as Hne by done.
  destruct Htr2 as [R _ _ _ _ _ E6 | F1 F2 F3 _ F5]; [by rewrite <- E6 in Hne |].
  exists p2. split; [| split].
  - unfold request, mbind, ClientM_bind, mret, ClientM_ret. rewrite next_token_in_step.
    pose proof (zlen_nonneg (image (q (token_next c)))).
    rewrite encode_bounded_spec by (done || lia). destruct (Z.leb_spec (zlen (image (q (token_next c)))) n); [| lia].
    unfold call, exchange, mbind, ClientM_bind, mret, ClientM_ret, get_client. cbn [fst snd].
    change (cl_connected (after_token c)) with (cl_connected c). rewrite (is_connected _ _ Hstep). cbn [negb].
    unfold request_bytes. rewrite <- Him. fold f.
    rewrite encode_frame_image by (rewrite ?zlen_frame_image; unfold kDefaultMaxDocumentBytes; lia). cbn [ok_ buf_].
    unfold send, net_send_all. cbn [fst snd]. rewrite Hsent. change (is_affirmative Ok) with true. cbn [negb].
    rewrite Hwait. cbn [default]. unfold id. cbv beta iota. change (is_affirmative Ok) with true. cbn [negb].
    change (f_payload g) with (image b). by rewrite (decode_all_image b Hvb).
  - destruct Hstep as [I1 I2 I3 I4 I5 I6 I7 I8 I9 I10 I11].
    split; rewrite ?F1, ?F2; cbn [after_token set_counters cl_connected cl_decoder cl_hello cl_seq after note snd sv_max_frame_bytes sv_sessions s2];
      try assumption; try (by rewrite E2).
    + rewrite Hincr. lia.
  - rewrite F1. cbn. by rewrite E1.
Qed.

Lemma token_valid c e : in_step c e -> valid (token_next c).
Proof.
  intros Hs. destruct (is_identity _ _ Hs) as (H1 & H2 & H3).
  split; [exact H1 |]. split; [exact (incr_range (cl_request c)) |]. split; [exact (incr_range (cl_seq c)) |]. by split.
Qed.

Lemma zlen_image_token (t : SessionToken) : zlen (image t) = 40.
Proof.
  change (zlen (image_SessionToken t) = 40). unfold image_SessionToken. cbn [concat].
  rewrite !zlen_app, !zlen_image_id, zlen_image_seq, zlen_nil. reflexivity.
Qed.

(** A response that fits and has a byte leaves as written. *)
Lemma respond_image {A} `{CodecLaws A} t n (a : A) :
  valid a -> zlen (image a) <= n -> n < 2 ^ 64 -> respond t n a = inr (MkFrame t 0 (image a)).
Proof. intros Ha Hl Hn. unfold respond. by rewrite (written_whole (encode a) (image a) n (encode_emits a Ha) Hl Hn). Qed.

(** A handler that calls the engine and answers with what it returned. *)
Lemma serve_call {A B} `{CodecLaws B} conn t n (op : EngineM A) (mk : A -> B) (k : A -> ServerM Reply) s :
  (forall a s, k a s = (respond t n (mk a), s)) ->
  (forall a, valid (mk a)) -> (forall a, zlen (image (mk a)) <= n) -> n < 2 ^ 64 ->
  mbind (M := ServerM) (fun r => mret (M := ServerM) (r, conn)) (mbind (M := ServerM) k (on_engine op)) s =
  ((inr (MkFrame t 0 (image (mk (op (sv_engine s)).1))), conn : ConnectionState),
   MkServer (op (sv_engine s)).2 (sv_sessions s) (sv_stats s) (sv_max_frame_bytes s)).
Proof.
  intros Hk Hv Hl Hn. unfold mbind, ServerM_bind, mret, ServerM_ret. rewrite on_engine_run, Hk. by rewrite respond_image.
Qed.

Lemma submit_image_size r : 0 < zlen (image (A := SubmitEvidenceResponse) r) <= 256.
Proof. change (0 < zlen (image_SubmitEvidenceResponse r) <= 256). unfold image_SubmitEvidenceResponse. plain_size. Qed.
Lemma ack_image_size r : 0 < zlen (image (A := AckFenceResponse) r) <= 256.
Proof. change (0 < zlen (image_AckFenceResponse r) <= 256). unfold image_AckFenceResponse. plain_size. Qed.
Lemma effect_image_size r : 0 < zlen (image (A := ReportEffectResponse) r) <= 256.
Proof. change (0 < zlen (image_ReportEffectResponse r) <= 256). unfold image_ReportEffectResponse. plain_size. Qed.

(** A remote call is the local one: it returns, [op] is what the engine does and [answer]
    how its result is told. *)
Definition remote_call {A B} (call : ClientM (Outcome * option B)) (op : EngineM A) (answer : A -> B) (c : Client) (p : P) : Prop :=
  exists p',
    call (c, p) = Some ((Ok, Some (answer (op (sv_engine (se_server (far p)))).1)), (after_token c, p')) /\
    in_step (after_token c) (far p') /\ sv_engine (se_server (far p')) = (op (sv_engine (se_server (far p)))).2.

Definition submit_answer (a : Outcome * EvidenceAdmission.t * ReasonCode.t) : SubmitEvidenceResponse :=
  MkSubmitResponse a.1.1 a.1.2 a.2.
Definition ack_answer (a : Outcome * ReasonCode.t) : AckFenceResponse := MkAckResponse a.1 a.2.
Definition effect_answer (a : Outcome * ReasonCode.t) : ReportEffectResponse := MkEffectResponse a.1 a.2.

#[local] Opaque submit acknowledge_fence engine_report_effect.

Lemma submit_remote c p ev :
  in_step c (far p) -> cl_seq c + 1 < 2 ^ 64 -> valid ev ->
  zlen (image (MkSubmitRequest (token_next c) ev)) <= Z.min 2048 (sv_max_frame_bytes (se_server (far p))) ->
  remote_call (client_submit ev) (submit clock ev) submit_answer c p.
Proof.
  intros Hs Hq Hv Hl. pose proof (conj (token_valid c (far p) Hs) Hv) as Ht.
  pose proof (submit_image_size (submit_answer (submit clock ev (sv_engine (se_server (far p)))).1)) as Hb.
  refine (request_in_step MessageType.SubmitEvidenceResponse 2048 (fun t => MkSubmitRequest t ev) MSubmitEvidenceRequest
    (submit_answer (submit clock ev (sv_engine (se_server (far p)))).1) c p Hs Hq eq_refl Ht Ht eq_refl _ _ _ _ I _);
    [discriminate | lia | lia | | lia].
  intros s E. rewrite <- E. refine (serve_call (se_conn (far p)) MessageType.SubmitEvidenceResponse 256 (submit clock ev) submit_answer _ s _ _ _ _);
    [by intros [[? ?] ?] | by intros | intros a; apply submit_image_size | lia].
Qed.

Lemma ack_remote c p id owner :
  in_step c (far p) -> cl_seq c + 1 < 2 ^ 64 -> 64 <= sv_max_frame_bytes (se_server (far p)) -> valid id -> valid owner ->
  remote_call (client_ack_fence id owner) (acknowledge_fence clock id owner) ack_answer c p.
Proof.
  intros Hs Hq Hm Hi Ho. pose proof (conj (token_valid c (far p) Hs) (conj Hi Ho)) as Ht.
  pose proof (ack_image_size (ack_answer (acknowledge_fence clock id owner (sv_engine (se_server (far p)))).1)) as Hb.
  assert (zlen (image (MkAckRequest (token_next c) id owner)) <= 64) as Hl.
  { change (zlen (image_AckFenceRequest (MkAckRequest (token_next c) id owner)) <= 64). unfold image_AckFenceRequest.
    cbn [aq_token aq_fence aq_downstream concat]. rewrite !zlen_app, zlen_image_token, !zlen_image_id, (@zlen_nil byte). lia. }
  refine (request_in_step MessageType.AckFenceResponse 256 (fun t => MkAckRequest t id owner) MAckFenceRequest
    (ack_answer (acknowledge_fence clock id owner (sv_engine (se_server (far p)))).1) c p Hs Hq eq_refl Ht Ht eq_refl _ _ _ _ I _);
    [discriminate | lia | lia | | lia].
  intros s E. rewrite <- E. refine (serve_call (se_conn (far p)) MessageType.AckFenceResponse 256 (acknowledge_fence clock id owner) ack_answer _ s _ _ _ _);
    [by intros [? ?] | by intros | intros a; apply ack_image_size | lia].
Qed.

Lemma effect_remote c p id owner verified :
  in_step c (far p) -> cl_seq c + 1 < 2 ^ 64 -> 64 <= sv_max_frame_bytes (se_server (far p)) -> valid id -> valid owner ->
  remote_call (client_report_effect id owner verified) (engine_report_effect clock id owner verified) effect_answer c p.
Proof.
  intros Hs Hq Hm Hi Ho. pose proof (conj (token_valid c (far p) Hs) (conj Hi Ho)) as Ht.
  pose proof (effect_image_size (effect_answer (engine_report_effect clock id owner verified (sv_engine (se_server (far p)))).1)) as Hb.
  assert (zlen (image (MkEffectRequest (token_next c) id owner verified)) <= 64) as Hl.
  { change (zlen (image_ReportEffectRequest (MkEffectRequest (token_next c) id owner verified)) <= 64). unfold image_ReportEffectRequest.
    cbn [fq_token fq_fence fq_downstream fq_verified concat].
    rewrite !zlen_app, zlen_image_token, !zlen_image_id, ?zlen_le_bytes, ?zlen_cons, (@zlen_nil byte). lia. }
  refine (request_in_step MessageType.ReportEffectResponse 256 (fun t => MkEffectRequest t id owner verified) MReportEffectRequest
    (effect_answer (engine_report_effect clock id owner verified (sv_engine (se_server (far p)))).1) c p Hs Hq eq_refl Ht Ht eq_refl _ _ _ _ I _);
    [discriminate | lia | lia | | lia].
  intros s E. rewrite <- E. refine (serve_call (se_conn (far p)) MessageType.ReportEffectResponse 256 (engine_report_effect clock id owner verified) effect_answer _ s _ _ _ _);
    [by intros [? ?] | by intros | intros a; apply effect_image_size | lia].
Qed.
End Stream.

(** ** A socket in small pieces *)

(** A concrete stream for [ServerSocket]: a send takes at most [size] bytes and the server
    serves them at once; a receive returns at most [size] bytes and blocks when there are
    none. *)
Record Peer := MkPeer { pr_end : ServerEnd; pr_sent : list byte }.

Section Peer.
Context (clock : nat -> WallNs) (size : nat).

(** The server's thread serves all that has arrived. *)
Definition settle (e : ServerEnd) : ServerEnd :=
  match se_unread e with
  | [] => e
  | _ => let '((out, _, conn), s) := far_chunk clock (se_unread e) e in MkEnd s conn [] (se_inbox e ++ concat out)
  end.

#[local] Instance PeerSocket : SocketApi Peer := {
  os_send := fun bytes p =>
    let taken := take (S size) bytes in
    Some (zlen taken, MkPeer (settle (add_unread taken (pr_end p))) (pr_sent p ++ taken));
  os_recv := fun n p =>
    let e := settle (pr_end p) in
    match se_inbox e with
    | [] => None
    | inbox =>
        let k := Nat.min (Z.to_nat n) (S size) in
        Some (Some (take k inbox), MkPeer (set_inbox (drop k inbox) e) (pr_sent p))
    end;
  os_error := fun _ => [];
}.

Lemma take_zlen {A} k (l : list A) : take (Z.to_nat (zlen (take k l))) l = take k l.
Proof. unfold zlen. rewrite Nat2Z.id, length_take. rewrite <- (take_drop k l) at 2. rewrite take_app. rewrite length_take.
  replace (_ - _)%nat with 0%nat by lia. rewrite take_0, app_nil_r. rewrite take_ge; [done |]. rewrite length_take; lia. Qed.

#[local] Instance PeerLaws : SocketLaws Peer pr_sent.
Proof.
  split.
  - intros bytes p n p' [= <- <-]. cbn [pr_sent]. rewrite take_zlen. unfold zlen. rewrite length_take. split; [lia | done].
  - intros n p bytes p' Hn. cbn [os_recv PeerSocket]. destruct (se_inbox _) as [| x l]; [done |].
    intros [= <- _]. unfold zlen. rewrite length_take. lia.
  - intros n p r p'. cbn [os_recv PeerSocket]. destruct (se_inbox _) as [| x l]; [done |]. by intros [= _ <-].
Qed.

Lemma settle_moves e : keeps_open clock e -> moves clock e (settle e) /\ se_unread (settle e) = [].
Proof.
  intros Hk. unfold settle. destruct (se_unread e) as [| x l] eqn:E; [by split; [constructor |] |].
  specialize (Hk e (x :: l) [] (moves_not clock e) ltac:(by rewrite E, app_nil_r) ltac:(done)).
  destruct (far_chunk clock (x :: l) e) as [[[out closed] conn] s] eqn:Ef. cbn in Hk. subst closed. split; [| done].
  eapply (moves_chunk clock e (x :: l) []); [by rewrite E, app_nil_r | done | exact Ef | constructor].
Qed.

Lemma moves_add b e e' : moves clock e e' -> moves clock (add_unread b e) (add_unread b e').
Proof.
  induction 1 as [e | e c rest out conn s e' Hu Hc Hf _ IH]; [constructor |].
  eapply (moves_chunk clock _ c (rest ++ b)); [cbn; by rewrite Hu, app_assoc | done | exact Hf | exact IH].
Qed.

Lemma add_unread_twice a b e : add_unread b (add_unread a e) = add_unread (a ++ b) e.
Proof. unfold add_unread. cbn. by rewrite app_assoc. Qed.

Lemma keeps_open_less e b : keeps_open clock (add_unread b e) -> keeps_open clock e.
Proof.
  intros Hk e' c rest Hm Hu Hc. apply (Hk (add_unread b e') c (rest ++ b)); [by apply moves_add | | done].
  cbn. by rewrite Hu, app_assoc.
Qed.

#[local] Instance PeerStream : ServerSocket clock Peer pr_end.
Proof.
  split.
  - intros bytes p Hb Hk. eexists _, _. split; [reflexivity |]. cbn [pr_end]. rewrite take_zlen.
    assert (0 < length bytes)%nat by (destruct bytes; [done | cbn; lia]).
    split; [unfold zlen; rewrite length_take; lia |].
    apply settle_moves, (keeps_open_less _ (drop (S size) bytes)). by rewrite add_unread_twice, take_drop.
  - intros n p Hn Hk. cbn [os_recv PeerSocket]. destruct (settle_moves (pr_end p) Hk) as [Hm He].
    destruct (se_inbox (settle (pr_end p))) as [| x l] eqn:E; [by exists (settle (pr_end p)) |].
    set (k := Nat.min (Z.to_nat n) (S size)). assert (1 <= k)%nat by (unfold k; lia).
    split; [by destruct k; [lia |] |]. split; [unfold zlen, k; rewrite length_take; lia |].
    exists (settle (pr_end p)), (drop k (x :: l)). rewrite E, take_drop. by split_and!; [| | constructor].
Qed.
End Peer.
