(* ===== verification/Remote.v ===== *)
(** * The guarantees of client and server together

    The theorems about [Loopback]: an exchange returns, and a remote call is the local
    one. *)
From Stdlib Require Import Strings.String.
From S2P Require Import Prelude OrderedMap Core Checked Codec Counted Hash Ids Domain Policy Fixtures Ledger Classifier.
From S2P Require Import Localizer Fence Authority Record Journal Snapshot Durable Store Net Frame Session Messages Wire Engine Coordinator.
From S2P Require Import Server ServerSpec Service Client Loopback.
Local Open Scope string_scope.
Local Open Scope list_scope.
Local Open Scope Z_scope.

(** ** Fixtures: a client that said hello *)

Definition fx_socket : SocketApi Peer := PeerSocket fx_clock 99.
Definition fx_greeted : option ((Outcome * option HelloResponse) * (Client * Peer)) :=
  client_hello (H := fx_socket) [x6f; x6b]
    ((connect_loopback Ok [] (new_Client Provenance.Synthetic 21 22)).2, MkPeer (MkEnd fx_server (new_Connection fx_server) [] []) []).
Definition fx_pair : Client * Peer :=
  default (new_Client Provenance.Synthetic 21 22, MkPeer (MkEnd fx_server (new_Connection fx_server) [] []) []) (snd <$> fx_greeted).
Definition fx_client : Client := fx_pair.1.
Definition fx_peer : Peer := fx_pair.2.

Lemma fx_in_step : in_step fx_client (pr_end fx_peer).
Proof.
  split; try (vm_compute; reflexivity).
  - vm_compute. split; [discriminate | reflexivity].
  - vm_compute. discriminate.
  - vm_compute. repeat split; discriminate.
  - destruct (map_find (cn_session (se_conn (pr_end fx_peer))) (sessions_ (sv_sessions (se_server (pr_end fx_peer))))) as [r |] eqn:Er;
      [| vm_compute in Er; discriminate].
    exists r. vm_compute in Er. injection Er as <-. repeat split.
Qed.

(** ** Claims *)

(** C38: the wait for a response ends: whatever bytes the peer sends and however the
    operating system cuts them, the client has a verdict after at most one receive more than
    its decoder has room for bytes, the bound of the longest frame less what is already
    there; the one other possibility, since the socket has no timeout, is that one of these
    receives does not return because the peer sends nothing. A peer that keeps sending
    cannot keep the client waiting. *)
Theorem exchange_returns {P : Type} `{SocketApi P} (accepted : P -> list byte) `{!SocketLaws P accepted} expected c p :
  in_u32 (fd_max (cl_decoder c)) -> failure_ (cl_decoder c) = Ok ->
  zlen (pending (cl_decoder c)) <= fd_max (cl_decoder c) + kFrameHeaderSize ->
  awaited c p (await_response (exchange_fuel c) expected (c, p)).
Proof.
  intros Hm Hf Hp. apply (await_returns accepted); [by split |]. unfold exchange_fuel, decoder_room.
  pose proof (zlen_nonneg (pending (cl_decoder c))). unfold in_u, kFrameHeaderSize in *. lia.
Qed.

Example exchange_returns_witness :
  awaited (H := fx_socket) fx_client fx_peer
    (await_response (H := fx_socket) (exchange_fuel fx_client) MessageType.StatsResponse (fx_client, fx_peer)).
Proof.
  apply (@exchange_returns Peer fx_socket pr_sent (PeerLaws fx_clock 99)).
  - vm_compute. split; [discriminate | reflexivity].
  - vm_compute. reflexivity.
  - vm_compute. discriminate.
Defined.

(** A peer that is there and says nothing: the client waits for ever. *)
Example silent_peer :
  await_response (H := fx_socket) (exchange_fuel fx_client) MessageType.StatsResponse (fx_client, fx_peer) = None.
Proof. vm_compute. reflexivity. Qed.

(** C9: a remote call is the local one: over any stream socket whose other end is the
    server, whatever pieces the bytes are sent and received in and whenever the server's
    thread runs, while no other connection calls the engine: for a client in step with the
    server, submitting evidence, acknowledging a fence and reporting an effect return, with
    exactly what the engine's own operation returns; they change the engine exactly as it
    does, and leave the two in step for the next call. Nothing is lost, repeated, reordered
    or refused on the way, provided the request fits: an acknowledgement and a report do
    under every frame bound the policy accepts (64 bytes or more), evidence does if its
    request is at most 2048 bytes, the client's own buffer, and at most the server's frame
    bound. *)
Theorem remote_calls_are_local clock {P : Type} `{SocketApi P} (far : P -> ServerEnd) `{!ServerSocket clock P far} c p :
  in_step c (far p) -> cl_seq c + 1 < 2 ^ 64 -> 64 <= sv_max_frame_bytes (se_server (far p)) ->
  (forall ev, valid ev ->
     zlen (image (MkSubmitRequest (token_next c) ev)) <= Z.min 2048 (sv_max_frame_bytes (se_server (far p))) ->
     remote_call far (client_submit ev) (submit clock ev) submit_answer c p) /\
  (forall id owner, valid id -> valid owner ->
     remote_call far (client_ack_fence id owner) (acknowledge_fence clock id owner) ack_answer c p) /\
  (forall id owner verified, valid id -> valid owner ->
     remote_call far (client_report_effect id owner verified) (engine_report_effect clock id owner verified) effect_answer c p).
Proof.
  intros Hs Hq Hm. split; [| split].
  - intros ev Hv Hl. by apply submit_remote.
  - intros id owner Hi Ho. by apply ack_remote.
  - intros id owner v Hi Ho. by apply effect_remote.
Qed.

Example remote_calls_are_local_witness :
  let e := pr_end fx_peer in
  exists p', client_ack_fence (H := fx_socket) (MkId 5) (MkId 6) (fx_client, fx_peer) =
    Some ((Ok, Some (ack_answer (acknowledge_fence fx_clock (MkId 5) (MkId 6) (sv_engine (se_server e))).1)), (after_token fx_client, p')) /\
    sv_engine (se_server (pr_end p')) = (acknowledge_fence fx_clock (MkId 5) (MkId 6) (sv_engine (se_server e))).2.
Proof.
  destruct (@remote_calls_are_local fx_clock Peer fx_socket pr_end (PeerStream fx_clock 99) fx_client fx_peer fx_in_step) as (_ & H & _).
  - vm_compute. reflexivity.
  - vm_compute. discriminate.
  - destruct (H (MkId 5) (MkId 6)) as (p' & H1 & _ & H2); [vm_compute; split; [discriminate | reflexivity] .. |].
    exists p'. split; [exact H1 | exact H2].
Defined.

(** A run of calls, one after another. *)
Definition then_call {A B} (r : option (A * (Client * Peer))) (f : ClientM (P := Peer) B) : option (B * (Client * Peer)) :=
  match r with Some (_, w) => f w | None => None end.

(** A request the server cannot parse uses up the client's number but not the session's: a
    lineage page above the limit is refused, and so is every request after it. *)
Theorem refused_payload_ends_session :
  let c1 := client_lineage (H := fx_socket) 513 (fx_client, fx_peer) in
  let c2 := then_call c1 (client_checkpoint (H := fx_socket)) in
  let c3 := then_call c2 (client_stats (H := fx_socket)) in
  (fun r => r.1.1) <$> c1 = Some Oversized /\ (fun r => r.1.1) <$> c2 = Some Rejected /\ (fun r => r.1.1) <$> c3 = Some Rejected /\
  (fun r => cl_last_error r.2.1) <$> c2 = Some (list_byte_of_string "session token refused") /\
  (fun r => eg_ticks (sv_engine (se_server (pr_end r.2.2))).1) <$> c3 = Some (eg_ticks (sv_engine (se_server (pr_end fx_peer))).1).
Proof. vm_compute. repeat split. Qed.

(** The numbers a client can ask for: after a localization every decision was committed, yet
    the payload's own check says otherwise, and the ledger's numbers are all zero. *)
Theorem stats_not_closed_after_localization :
  let c1 := client_localize (H := fx_socket) fx_scope fx_gens 6 fx_probes (fx_client, fx_peer) in
  let c2 := then_call c1 (client_stats (H := fx_socket)) in
  let reply := mbind (M := option) (fun r => r.1.2) c2 in
  (fun r => r.1.1) <$> c2 = Some Ok /\
  (fun r => es_accounting_closed (eg_stats (sv_engine (se_server (pr_end r.2.2))).1)) <$> c2 = Some true /\
  (pl_accounting_closed ∘ tr_stats) <$> reply = Some false /\
  (pl_ledger_seen ∘ tr_stats) <$> reply = Some 0 /\ (pl_evidence_submitted ∘ tr_stats) <$> reply = Some 2.
Proof. vm_compute. repeat split. Qed.
