(* ===== verification/Console.v ===== *)
(** * Programs over the engine

    The command line and the examples own an engine, call it and print. [ProgM L] is such a
    program, printing lines of type [L]; the lemmas say that whatever a program does is a run
    of its engine, so that the guarantees of [EngineSpec] hold for it, and that the engine of
    a program that ended is closed. *)
From S2P Require Import Prelude OrderedMap Core Ids Domain Ledger Localizer Fence Authority Record Journal Snapshot Durable Store Engine EngineSpec.
Local Open Scope Z_scope.

(** ** The monad of programs *)

(** What a program acts on: the engine it owns, the files, and what it has printed. *)
Definition ProgWorld (L : Type) : Type := EngineWorld * list L.
Definition ProgM (L A : Type) : Type := ProgWorld L -> A * ProgWorld L.

#[export] Instance ProgM_ret L : MRet (ProgM L) := fun A a w => (a, w).
#[export] Instance ProgM_bind L : MBind (ProgM L) := fun A B k m w => let '(a, w) := m w in k a w.

Section Programs.
Context {L : Type}.

Definition print (l : list L) : ProgM L unit := fun w => (tt, (w.1, w.2 ++ l)).
Definition engine {A} (m : EngineM A) : ProgM L A := fun w => let '(a, e) := m w.1 in (a, (e, w.2)).

(** The engine is closed when it goes out of scope, and its store after it.
    src/service/engine.cpp:16-16 Engine::~Engine *)
Definition scoped {A} (m : ProgM L A) : ProgM L A :=
  a ← m; engine engine_close ;; engine (on_store store_close) ;; mret a.

(** An engine that does not open ends the program with [code]. *)
Definition opening (clock : nat -> WallNs) (nonce1 nonce2 : Z) (refused : Outcome -> L) (code : Z) (k : ProgM L Z)
  : ProgM L Z :=
  o ← engine (engine_open clock nonce1 nonce2);
  if negb (is_affirmative o) then print [refused o] ;; mret code else k.

End Programs.

(** ** A program is a run of its engine *)

Create HintDb command discriminated.
#[export] Hint Constants Opaque : command.

(** [honest] is what holds of every line a program prints. *)
Section Lawful.
Context {L : Type} (honest : L -> Prop) (clock : nat -> WallNs) (nonce1 nonce2 : Z) (c : EngineConfig).

Definition sound (w : ProgWorld L) : Prop := engine_reachable clock c w.1 /\ Forall honest w.2.

(** [m] keeps the world sound and ends as [Q] says. *)
Definition ensures {A} (m : ProgM L A) (Q : A -> ProgWorld L -> Prop) : Prop :=
  forall w, sound w -> sound (m w).2 /\ Q (m w).1 (m w).2.
Definition lawful {A} (m : ProgM L A) : Prop := ensures m (fun _ _ => True).

Lemma ensures_bind {A B} (P : A -> Prop) (m : ProgM L A) (k : A -> ProgM L B) Q :
  ensures m (fun a _ => P a) -> (forall a, P a -> ensures (k a) Q) -> ensures (m ≫= k) Q.
Proof.
  intros Hm Hk w Hw. specialize (Hm w Hw). unfold mbind, ProgM_bind. destruct (m w) as [a w1]. cbn in Hm.
  destruct Hm as [Hs HP]. exact (Hk a HP w1 Hs).
Qed.

Lemma ensures_then {A B} (m : ProgM L A) (k : A -> ProgM L B) Q :
  lawful m -> (forall a, ensures (k a) Q) -> ensures (m ≫= k) Q.
Proof. intros Hm Hk. apply (ensures_bind (fun _ => True)); [exact Hm |]. intros a _. apply Hk. Qed.

Lemma ensures_ret {A} (a : A) (Q : A -> ProgWorld L -> Prop) : (forall w, sound w -> Q a w) -> ensures (mret a) Q.
Proof. intros HQ w Hw. split; [exact Hw | by apply HQ]. Qed.

Lemma lawful_print l : Forall honest l -> lawful (print l).
Proof. intros Hl w [H1 H2]. split; [| done]. split; [exact H1 |]. by apply Forall_app. Qed.

Lemma ensures_engine {A} (m : EngineM A) (Q : A -> Prop) :
  (forall w, engine_reachable clock c w -> engine_reachable clock c (m w).2 /\ Q (m w).1) ->
  ensures (engine m) (fun a _ => Q a).
Proof.
  intros Hm w [H1 H2]. specialize (Hm w.1 H1). unfold engine. destruct (m w.1) as [a e]. cbn in *.
  by destruct Hm as [Hm HQ].
Qed.

Lemma lawful_engine {A} (m : EngineM A) op : (forall w, (m w).2 = engine_step clock op w) -> lawful (engine m).
Proof.
  intros Hm. apply (ensures_engine m (fun _ => True)). intros w Hw. split; [| done]. rewrite Hm. by constructor.
Qed.

Lemma lawful_localize s g n probes : lawful (engine (engine_localize clock s g n probes)).
Proof.
  apply (ensures_engine _ (fun _ => True)). intros w Hw. split; [| done].
  unfold engine_localize, mbind, EngineM_bind, get_engine.
  pose proof (engine_next clock c (EEvaluate s g) w Hw) as H1. cbn [engine_step] in H1.
  destruct (evaluate clock s g w) as [[o d] w1]. cbn [snd fst] in *.
  exact (engine_next clock c (EPublish (localize_search (eg_policy w1.1) n probes) d) w1 H1).
Qed.

Lemma ensures_get :
  ensures (engine get_engine) (fun e _ => es_accounting_closed (eg_stats e) = true).
Proof.
  apply (ensures_engine get_engine (fun e => es_accounting_closed (eg_stats e) = true)). intros w Hw. split; [exact Hw |].
  exact (balanced_closed _ (reachable_balanced clock c w Hw)).
Qed.

(** What a closed engine holds. *)
Definition released (w : ProgWorld L) : Prop :=
  eg_opened w.1.1 = false /\ records_ (eg_fences w.1.1) = [] /\ scopes_ (eg_ledger w.1.1) = [].

(** How a program ends: honest, as [Q] says, and with nothing held. *)
Definition ends {A} (m : ProgM L A) (Q : A -> Prop) : Prop :=
  forall w, sound w -> Forall honest (m w).2.2 /\ Q (m w).1 /\ released (m w).2.

Lemma close_released w : engine_reachable clock c w -> released ((engine_close w).2, @nil L).
Proof.
  intros H1. pose proof (engine_next clock c EClose w H1) as Hc. cbn [engine_step] in Hc.
  destruct (engine_reachable_inv clock c _ Hc) as [_ _ _ Hcl]. unfold released. cbn [fst].
  assert (eg_opened (engine_close w).2.1 = false) as Ho; [| split; [exact Ho | by apply Hcl]].
  unfold engine_close, mbind, EngineM_bind, get_engine, on_store, update. cbn [fst snd].
  destruct (eg_opened w.1) eqn:E0; cbn [negb]; [| exact E0]. by destruct (store_close _) as [o' [t d]].
Qed.

Lemma ends_scoped {A} (m : ProgM L A) Q : ensures m (fun a _ => Q a) -> ends (scoped m) Q.
Proof.
  intros Hm w Hw. specialize (Hm w Hw). unfold scoped, mbind, ProgM_bind. destruct (m w) as [a w1]. cbn in Hm.
  destruct Hm as [[H1 H2] HQ]. pose proof (close_released w1.1 H1) as Hc. unfold engine.
  destruct (engine_close w1.1) as [o e]. unfold on_store, released in *. cbn [fst snd] in *.
  destruct (store_close _) as [o' [t d]]. split_and!; [exact H2 | exact HQ | apply Hc..].
Qed.

Lemma lawful_now : lawful (engine (read_now clock)).
Proof. by apply (lawful_engine _ ENow). Qed.
Lemma lawful_get : lawful (engine get_engine).
Proof. by apply (ensures_engine _ (fun _ => True)). Qed.
Lemma lawful_open : lawful (engine (engine_open clock nonce1 nonce2)).
Proof. by apply (lawful_engine _ (EOpen nonce1 nonce2)). Qed.
Lemma lawful_submit ev : lawful (engine (submit clock ev)).
Proof. by apply (lawful_engine _ (ESubmit ev)). Qed.
Lemma lawful_evaluate s g : lawful (engine (evaluate clock s g)).
Proof. by apply (lawful_engine _ (EEvaluate s g)). Qed.
Lemma lawful_ack id o : lawful (engine (acknowledge_fence clock id o)).
Proof. by apply (lawful_engine _ (EAck id o)). Qed.
Lemma lawful_effect id o v : lawful (engine (engine_report_effect clock id o v)).
Proof. by apply (lawful_engine _ (EEffect id o v)). Qed.
Lemma lawful_restore s g : lawful (engine (restore clock s g)).
Proof. by apply (lawful_engine _ (ERestore s g)). Qed.
Lemma lawful_checkpoint : lawful (engine (engine_checkpoint clock)).
Proof. by apply (lawful_engine _ ECheckpoint). Qed.
Lemma lawful_close : lawful (engine engine_close).
Proof. by apply (lawful_engine _ EClose). Qed.

Lemma ensures_opening refused code k (Q : Z -> Prop) :
  (forall o, honest (refused o)) -> Q code -> ensures k (fun a _ => Q a) ->
  ensures (opening clock nonce1 nonce2 refused code k) (fun a _ => Q a).
Proof.
  intros Hr Hc Hk. unfold opening. apply ensures_then; [apply lawful_open | intros o].
  destruct (negb _); [| exact Hk].
  apply ensures_then; [apply lawful_print; by repeat constructor | intros _]. by apply ensures_ret.
Qed.
End Lawful.

#[export] Hint Resolve lawful_now lawful_get lawful_open lawful_submit lawful_evaluate lawful_ack lawful_effect lawful_restore
  lawful_checkpoint lawful_close lawful_localize : command.

(** Follow a command to its end. *)
Ltac command_step :=
  match goal with
  | |- ensures ?h ?clock ?c ?m (fun _ _ => True) => change (lawful h clock c m)
  | |- lawful _ _ _ (print _) => apply lawful_print; repeat constructor
  | |- lawful _ _ _ (mret _) => by apply ensures_ret
  | |- lawful _ _ _ (_ ≫= _) => apply ensures_then; [command_step | intros ?]
  | |- lawful _ _ _ (match ?x with _ => _ end) => destruct x
  | |- lawful _ _ _ _ => solve [eauto with command nocore]
  | |- ensures _ _ _ (_ ≫= _) _ => apply ensures_then; [command_step | intros ?]
  | |- ensures _ _ _ (match ?x with _ => _ end) _ => destruct x
  end.
Ltac command := repeat (cbn beta zeta; command_step).

