(* ===== verification/Cli.v ===== *)
(** * The command line

    Models [tools/bhg_cli.cpp]: the argument parser with the number parser of the C library,
    and the commands [demo], [report] and [serve] as programs over [Engine] and [System]. A
    command prints: a [Line] is one format string of the program with the arguments it is
    given. The clock, the nonces, the directories, the listening socket and what the clients
    of [serve] do are external. *)
From Stdlib Require Import Strings.String Strings.Ascii.
From stdpp Require Import gmap strings.
From S2P Require Import Prelude OrderedMap Core Checked Codec Hash Ids Domain Policy Fixtures Ledger Classifier.
From S2P Require Import Localizer Fence Authority Record Journal Snapshot Durable Store Frame Session Engine EngineSpec Coordinator.
From S2P Require Import Server System SystemSpec Console.
Local Open Scope string_scope.
Local Open Scope list_scope.
Local Open Scope Z_scope.

(** ** Arguments *)

(** tools/bhg_cli.cpp:24-35 Args *)
Definition Args : Type := gmap string string.

(** tools/bhg_cli.cpp:27-30 Args::get *)
Definition get (a : Args) (k fallback : string) : string := default fallback (a !! k).

(** [isspace] in the C locale. *)
Definition is_space (c : ascii) : bool :=
  let n := Z.of_nat (nat_of_ascii c) in (n =? 32) || ((9 <=? n) && (n <=? 13)).
Definition is_digit (c : ascii) : bool :=
  let n := Z.of_nat (nat_of_ascii c) in (48 <=? n) && (n <=? 57).

Fixpoint skip_spaces (s : string) : string :=
  match s with
  | String c s' => if is_space c then skip_spaces s' else s
  | EmptyString => s
  end.

(** The number the digits at the front of [s] spell behind [acc]. *)
Fixpoint leading_digits (acc : Z) (s : string) : Z :=
  match s with
  | String c s => if is_digit c then leading_digits (10 * acc + char_digit c) s else acc
  | EmptyString => acc
  end.

(** [std::strtoull] in base 10: spaces, a sign, digits; too large a number saturates, and a
    minus sign negates in [uint64_t]. *)
Definition strtoull (s : string) : Z :=
  let read neg s :=
    let v := leading_digits 0 s in
    if 2 ^ 64 <=? v then 2 ^ 64 - 1 else if (neg : bool) then wrap 64 (- v) else v in
  match skip_spaces s with
  | String "-" s => read true s
  | String "+" s => read false s
  | s => read false s
  end.

(** tools/bhg_cli.cpp:31-34 Args::number *)
Definition number (a : Args) (k : string) (fallback : Z) : Z :=
  let v := get a k "" in if v == "" then fallback else strtoull v.

(** Values that come in pairs; a key without a value is ignored. *)
Fixpoint parse_pairs (l : list string) (a : Args) : Args :=
  match l with
  | k :: v :: l => parse_pairs l (<[k := v]> a)
  | _ => a
  end.

(** tools/bhg_cli.cpp:37-41 parse *)
Definition parse (argv : list string) : Args := parse_pairs (drop 2 argv) ∅.

(** tools/bhg_cli.cpp:43-45 label_of *)
Definition label_of (a : Args) : Provenance.t :=
  if get a "--label" "synthetic" == "real" then Provenance.Real else Provenance.Synthetic.

(** tools/bhg_cli.cpp:47-52 path_scope_of *)
Definition path_scope_of (path : Z) : Scope := MkScope ScopeKind.Path (MkId path) (MkId 0) (MkId 0) 0 0.

(** tools/bhg_cli.cpp:54-62 gens_of *)
Definition gens_of (path_gen topo link epoch : Z) : GenerationVector :=
  MkGens (MkGen path_gen) (MkGen topo) (MkGen link) (MkGen epoch).

(** tools/bhg_cli.cpp:64-84 failure_from *)
Definition failure_from (source : Z) (scope : Scope) (g : GenerationVector) (seq : Z) (at_ : WallNs) (attempts : Z)
  : DeliveryEvidence :=
  let e id :=
    MkEvidence id (MkSource (MkId source) (MkId (wrap 64 (source * 31 + 1))) (MkId source) (MkGen 1)) scope g
      (MkSeq seq) (MkId seq) EvidenceKind.DeliveryFailure EvidenceQuality.Exact Provenance.Synthetic attempts attempts
      kLossTotalPpm 0 at_ (MkWindow at_ (MkWall (wall_ns at_ + 600 * 1000000000))) (MkId 0) in
  e (derive_evidence_id (e (MkId 0))).

(** ** What a command prints *)

Inductive Line :=
| LUsage
| LVersion (product version : string) (format protocol : Z)
| LOpenFailed (outcome : string)
| LListenFailed
| LListening (port : Z)
| LBoot (boot incarnation : string) (epoch fingerprint : Z)
| LDecision (prefix kind outcome classification stage : string) (corroborated intent : bool)
| LEvidence (prefix decision reason : string) (fresh complete_failures success : Z)
| LLocalization (prefix status : string) (size : Z) (proven truncated : bool) (elements : list Z)
| LFence (prefix fence scope_kind : string) (expires_at : Z)
| LDownstream (reason : string)
| LCheckpoint (outcome : string) (snapshot_seq : Z)
| LStats (submitted admitted rejected evaluations committed fenced : Z) (closed : bool)
| LOutcome (outcome detail : string)
| LIdentity (boot incarnation : string) (epoch boots opens : Z)
| LRestart (restart snapshot torn : bool) (reclaimed : Z) (policy : bool) (fenced : Z)
| LLineage (seen dropped shown : Z) (closed : bool)
| LEntry (seq : Z) (type outcome classification reason : string) (prior : bool) (decision : string)
| LServed (served rejected frames frames_rejected : Z).

(** tools/bhg_cli.cpp:86-110 print_decision *)
Definition decision_lines (d : Decision) (prefix : string) : list Line :=
  let l := dc_localization d in
  [LDecision prefix (DecisionKind.to_string (dc_kind d)) (outcome_to_string (dc_outcome d))
     (Classification.to_string (dc_classification d)) (AuthorityStage.to_string (av_stage (dc_authority d)))
     (dc_corroborated d) (dc_has_intent d);
   LEvidence prefix (to_text_DecisionId (dc_id d)) (ReasonCode.to_string (dc_primary_reason d))
     (fresh_current (dc_census d)) (complete_failures (dc_census d)) (clean_successes (dc_census d))] ++
  (if dc_has_localization d then
     [LLocalization prefix (LocalizationStatus.to_string (status l)) (optimal_size l) (optimality_proven l)
        (solutions_truncated l) (elements l)]
   else []) ++
  (if dc_has_intent d then
     [LFence prefix (to_text_FenceId (fi_id (dc_intent d))) (ScopeKind.to_string (s_kind (fi_scope (dc_intent d))))
        (wall_ns (fi_expires_at (dc_intent d)))]
   else []).

(** ** Commands *)

Abbreviation CliM := (ProgM Line).

Definition print_decision (d : Decision) (prefix : string) : CliM unit := print (decision_lines d prefix).

Section Commands.
Context (clock : nat -> WallNs) (nonce1 nonce2 : Z).

(** The opening every command starts with. tools/bhg_cli.cpp:118-122 cmd_demo (open) *)
Definition opened (k : CliM Z) : CliM Z :=
  opening clock nonce1 nonce2 (fun o => LOpenFailed (outcome_to_string o)) 3 k.

(** tools/bhg_cli.cpp:131-152 cmd_demo (detection) *)
Definition demo_detect (scope : Scope) (gens : GenerationVector) : CliM unit :=
  at_ ← engine (read_now clock);
  '(_, d) ← engine (evaluate clock scope gens);
  print_decision d "[no-evidence]" ;;
  engine (submit clock (failure_from 1 scope gens 1 at_ 32)) ;;
  '(_, d) ← engine (evaluate clock scope gens);
  print_decision d "[one-source]" ;;
  engine (submit clock (failure_from 2 scope gens 1 at_ 32)) ;;
  '(_, d) ← engine (evaluate clock scope gens);
  print_decision d "[corroborated]" ;;
  if dc_has_intent d then
    engine (acknowledge_fence clock (fi_id (dc_intent d)) (MkId 99)) ;;
    '(_, reason) ← engine (engine_report_effect clock (fi_id (dc_intent d)) (MkId 99) true);
    print [LDownstream (ReasonCode.to_string reason)]
  else mret tt.

(** tools/bhg_cli.cpp:154-156 cmd_demo (probes) *)
Definition demo_probes : list HopProbe := [MkProbe 0 2 true; MkProbe 2 6 false; MkProbe 4 6 false].

(** tools/bhg_cli.cpp:157-162 cmd_demo (localization and restoration) *)
Definition demo_resolve (scope : Scope) (gens : GenerationVector) : CliM unit :=
  '(_, d) ← engine (engine_localize clock scope gens 6 demo_probes);
  print_decision d "[localized]" ;;
  '(_, restored) ← engine (restore clock scope gens);
  print_decision restored "[restore-refused]".

(** tools/bhg_cli.cpp:111-180 cmd_demo *)
Definition cmd_demo : CliM Z :=
  scoped (opened (
    e ← engine get_engine;
    let r := open_report e in
    print [LBoot (to_text_BootId (or_boot r)) (to_text_IncarnationId (or_incarnation r)) (gen_value (or_epoch r))
             (engine_fingerprint e)] ;;
    let scope := path_scope_of 1 in
    let gens := gens_of 1 1 1 1 in
    demo_detect scope gens ;;
    demo_resolve scope gens ;;
    '(o, snapshot) ← engine (engine_checkpoint clock);
    print [LCheckpoint (outcome_to_string o) (seq_value snapshot)] ;;
    e ← engine get_engine;
    let s := eg_stats e in
    print [LStats (es_evidence_submitted s) (es_evidence_admitted s) (es_evidence_rejected s) (es_evaluations s)
             (es_decisions_committed s) (es_fence_intents_issued s) (es_accounting_closed s)] ;;
    engine engine_close ;;
    mret (if es_accounting_closed s then 0 else 4))).

(** The line of a lineage entry. tools/bhg_cli.cpp:216-222 cmd_report (entry) *)
Definition entry_line (x : LineageEntry) : Line :=
  LEntry (seq_value (ln_seq x)) (RecordType.to_string (ln_type x)) (outcome_to_string (ln_outcome x))
    (Classification.to_string (ln_classification x)) (ReasonCode.to_string (ln_reason x)) (ln_from_prior x)
    (to_text_DecisionId (ln_decision x)).

(** What [report] shows of the lineage. tools/bhg_cli.cpp:208-215 cmd_report (lineage) *)
Definition lineage_line (entries : list LineageEntry) (seen dropped : Z) : Line :=
  LLineage seen dropped (zlen entries) (seen =? u64_add (zlen entries) dropped).

(** tools/bhg_cli.cpp:182-225 cmd_report *)
Definition cmd_report : CliM Z :=
  scoped (opened (
    e ← engine get_engine;
    let r := open_report e in
    print [LOutcome (outcome_to_string (or_outcome r)) (or_detail r);
           LIdentity (to_text_BootId (or_boot r)) (to_text_IncarnationId (or_incarnation r)) (gen_value (or_epoch r))
             (or_boot_count r) (or_open_count r);
           LRestart (or_restart_detected r) (or_snapshot_present r) (or_torn_tail_recovered r) (or_reclaimed_tail_bytes r)
             (or_policy_restored r) (or_fenced_prior_fences r)] ;;
    let '(_, entries, seen, dropped) := engine_lineage 64 e in
    print (lineage_line entries seen dropped :: map entry_line entries) ;;
    engine engine_close ;;
    mret 0)).

(** [static_cast<std::uint16_t>(a.number("--port", 0))]. tools/bhg_cli.cpp:240-240 cmd_serve (port) *)
Definition port_of (a : Args) : Z := wrap 16 (number a "--port" 0).

Definition serve_config (port : Z) : ServerConfig := MkServerConfig port 16 64.

(** The server serves [traffic] until the input ends, and is stopped.
    tools/bhg_cli.cpp:249-253 cmd_serve (run) *)
Definition serve_until_closed (port : Z) (traffic : list SysOp) : CliM ServerStats := fun w =>
  let y := sys_run clock (serve_config port) (traffic ++ [SysStop]) (MkSystem (new_Server w.1) []) in
  (sv_stats (sy_server y), (sv_engine (sy_server y), w.2)).

(** [start port] is what listening on a port comes to, and the port it is bound to.
    tools/bhg_cli.cpp:227-261 cmd_serve *)
Definition cmd_serve (start : Z -> Outcome * Z) (traffic : list SysOp) (a : Args) : CliM Z :=
  scoped (opened (
    let port := port_of a in
    let '(o, bound) := start port in
    if negb (is_affirmative o) then print [LListenFailed] ;; mret 4
    else
      print [LListening bound] ;;
      s ← serve_until_closed port traffic;
      print [LServed (ss_requests_served s) (ss_requests_rejected s) (ss_frames_decoded s) (ss_frames_rejected s)] ;;
      engine engine_close ;;
      mret 0)).

(** ** The program *)

(** The configuration of an engine the commands own. *)
Definition cli_config (label : Provenance.t) : EngineConfig := MkEngineConfig default_config default_policy label.

(** The program: its exit code, what it printed, and the directory it worked in with the
    engine and files it leaves. *)
Definition Run : Type := Z * list Line * option (string * EngineWorld).

Definition launch (root : string) (label : Provenance.t) (disk : Disk) (m : CliM Z) : Run :=
  let '(code, (w, out)) := m ((new_Engine (cli_config label), disk), []) in (code, out, Some (root, w)).

(** tools/bhg_cli.cpp:263-273 usage *)
Definition usage : Run := (2, [LUsage], None).

(** tools/bhg_cli.cpp:277-290 main *)
Definition main (disks : string -> Disk) (start : Z -> Outcome * Z) (traffic : list SysOp) (argv : list string) : Run :=
  match argv with
  | _ :: mode :: _ =>
      let a := parse argv in
      if mode == "version" then (0, [LVersion "Blackhole Guard" "1.0.1" 1 kProtocolVersion], None)
      else if mode == "demo" then
        let root := get a "--root" "./bhg-demo-state" in launch root (label_of a) (disks root) cmd_demo
      else if mode == "report" then
        let root := get a "--root" "./bhg-demo-state" in launch root Provenance.Synthetic (disks root) cmd_report
      else if mode == "serve" then
        let root := get a "--root" "./bhg-state" in launch root (label_of a) (disks root) (cmd_serve start traffic a)
      else usage
  | _ => usage
  end.

End Commands.

(** ** Arguments are read as they are written *)

Lemma decimal_char d :
  0 <= d < 10 ->
  is_digit (digit_char d) = true /\ is_space (digit_char d) = false /\ digit_char d <> "-"%char /\ digit_char d <> "+"%char.
Proof.
  intros Hd.
  pose (ok d := is_digit (digit_char d) && negb (is_space (digit_char d)) &&
    negb (Ascii.eqb (digit_char d) "-") && negb (Ascii.eqb (digit_char d) "+")).
  assert (ok d = true) as H by (apply (raw_range 0 9 ok); [reflexivity | lia]).
  unfold ok in H. rewrite !andb_true_iff, !negb_true_iff, !Ascii.eqb_neq in H. tauto.
Qed.

Lemma leading_digits_digits n v acc :
  leading_digits acc (digits 10 n v) = acc * 10 ^ Z.of_nat n + v mod 10 ^ Z.of_nat n.
Proof.
  rewrite <- (digits_value_digits 10) by lia. revert acc. induction n as [| n IH]; intros acc; [done |].
  cbn [digits leading_digits digits_value]. destruct (decimal_char (v / 10 ^ Z.of_nat n mod 10)) as [-> _]; [| apply IH].
  by apply Z.mod_pos_bound.
Qed.

Lemma strtoull_decimal v : in_u64 v -> strtoull (hex_dec v) = v.
Proof.
  intros [H0 H1]. unfold hex_dec.
  assert (v < 10 ^ Z.of_nat (dec_width 20 v)) as Hw
    by (apply dec_width_enough; split; [done | eapply Z.lt_trans; [exact H1 | done]]).
  set (n := dec_width 20 v) in *.
  assert (exists m, n = S m) as [m Em] by (subst n; cbn; destruct (v <? 10); eauto).
  clearbody n. subst n. pose proof (leading_digits_digits (S m) v 0) as Hl. revert Hl. cbn [digits].
  destruct (decimal_char (v / 10 ^ Z.of_nat m mod 10)) as (_ & Hs & H2 & H3); [by apply Z.mod_pos_bound |].
  unfold strtoull. cbn [skip_spaces]. rewrite Hs. rewrite (Z.mod_small v) by done.
  set (c := digit_char _) in *. intros Hl. rewrite Z.mul_0_l, Z.add_0_l in Hl.
  assert ((2 ^ 64 <=? v) = false) as Hb by (apply Z.leb_gt; exact H1).
  destruct c as [[] [] [] [] [] [] [] []]; try (rewrite Hl, Hb; done); contradiction.
Qed.

Lemma get_insert (a : Args) k v fallback : get (<[k := v]> a) k fallback = v.
Proof. unfold get, Args in *. by rewrite lookup_insert_eq. Qed.

(** A number written in decimal is the number an argument is read as. *)
Theorem number_decimal a k n fallback : in_u64 n -> number (<[k := hex_dec n]> a) k fallback = n.
Proof.
  intros Hn. unfold number. rewrite get_insert.
  pose proof (strtoull_decimal n Hn) as H. destruct (bool_decide_reflect (hex_dec n = "")) as [E |]; [| exact H].
  unfold hex_dec in E. cbn in E. by destruct (n <? 10).
Qed.

(** A port is served on as it is written, and only modulo 65536 when it is no port. *)
Theorem port_as_written a n : in_u64 n -> port_of (<["--port" := hex_dec n]> a) = n mod 65536.
Proof. intros Hn. unfold port_of. by rewrite number_decimal. Qed.

(** [--port 65537] is port 1, [--port -1] is port 65535, and no number is port 0. *)
Example port_out_of_range :
  map (fun v => port_of (parse ["bhg-cli"; "serve"; "--port"; v])) ["65537"; "-1"; "http"; " +8080 "; "99999999999999999999999"] =
  [1; 65535; 0; 8080; 65535].
Proof. vm_compute. reflexivity. Qed.

(** ** Commands are runs of their engines *)

(** The statistics a command prints are closed. *)
Definition honest (l : Line) : Prop := match l with LStats _ _ _ _ _ _ closed => closed = true | _ => True end.

Section Lawful.
Context (clock : nat -> WallNs) (nonce1 nonce2 : Z) (c : EngineConfig).
Local Abbreviation ensures := (ensures honest clock c).
Local Abbreviation ends := (ends honest clock c).
Local Abbreviation lawful := (lawful honest clock c).

Lemma lawful_decision d prefix : lawful (print_decision d prefix).
Proof.
  apply lawful_print. unfold decision_lines. destruct (dc_has_localization d), (dc_has_intent d); repeat constructor.
Qed.
Hint Resolve lawful_decision : command.

Lemma lawful_detect s g : lawful (demo_detect clock s g).
Proof. unfold demo_detect. command. Qed.
Lemma lawful_resolve s g : lawful (demo_resolve clock s g).
Proof. unfold demo_resolve. command. Qed.
Hint Resolve lawful_detect lawful_resolve : command.

Lemma ensures_opened k (Q : Z -> Prop) :
  Q 3 -> ensures k (fun a _ => Q a) -> ensures (opened clock nonce1 nonce2 k) (fun a _ => Q a).
Proof. intros H3 Hk. unfold opened. apply ensures_opening; [intros o; exact I | exact H3 | exact Hk]. Qed.

Lemma demo_ends : ends (cmd_demo clock nonce1 nonce2) (fun code => code = 0 \/ code = 3).
Proof.
  apply ends_scoped, (ensures_opened _ (fun code => code = 0 \/ code = 3)); [by right |].
  do 7 (cbn beta zeta; command_step). apply (ensures_bind _ _ _ _ _ _ _ (ensures_get _ _ _)). intros e He. cbn beta zeta. rewrite He.
  command. apply ensures_ret. by left.
Qed.

Lemma honest_entries l : Forall honest (map entry_line l).
Proof. apply Forall_map, Forall_true. done. Qed.

Lemma report_ends : ends (cmd_report clock nonce1 nonce2) (fun code => code = 0 \/ code = 3).
Proof.
  apply ends_scoped, (ensures_opened _ (fun code => code = 0 \/ code = 3)); [by right |].
  do 2 (cbn beta zeta; command_step). destruct (engine_lineage 64 a) as [[[o entries] seen] dropped].
  apply ensures_then; [apply lawful_print; constructor; [done | apply honest_entries] | intros _].
  command. apply ensures_ret. by left.
Qed.

Context (Hmax : in_u32 (max_frame_bytes (ec_policy c))).

Lemma lawful_serve port traffic : lawful (serve_until_closed clock port traffic).
Proof.
  intros w [H1 H2]. split; [| done]. split; [| exact H2]. cbn [serve_until_closed fst snd].
  eapply yi_engine, sys_reachable_inv; [exact Hmax |].
  induction (traffic ++ [SysStop]) as [| op ops IH] using rev_ind; [by constructor |].
  unfold sys_run in *. rewrite foldl_app. by constructor.
Qed.
Hint Resolve lawful_serve : command.

Lemma serve_ends start traffic a :
  ends (cmd_serve clock nonce1 nonce2 start traffic a)
    (fun code => code = 0 \/ code = 3 \/ code = 4 /\ is_affirmative (start (port_of a)).1 = false).
Proof.
  apply ends_scoped, (ensures_opened _ (fun code => code = 0 \/ code = 3 \/ code = 4 /\ is_affirmative (start (port_of a)).1 = false));
    [tauto |].
  cbn zeta. destruct (start (port_of a)) as [o bound]. cbn [fst]. destruct (is_affirmative o); cbn [negb];
    command; apply ensures_ret; tauto.
Qed.
End Lawful.

(** ** The guarantees of the command line *)

Lemma cli_bound label : in_u32 (max_frame_bytes (ec_policy (cli_config label))).
Proof. vm_compute. split; [discriminate | reflexivity]. Qed.

Lemma launch_ends clock label root disk m (Q : Z -> Prop) code out left :
  ends honest clock (cli_config label) m Q -> launch root label disk m = (code, out, left) ->
  Q code /\ Forall honest out /\ exists w, left = Some (root, w) /\
    eg_opened w.1 = false /\ records_ (eg_fences w.1) = [] /\ scopes_ (eg_ledger w.1) = [].
Proof.
  intros Hm. unfold launch.
  destruct (Hm ((new_Engine (cli_config label), disk), [])) as (H2 & H3 & H4); [split; constructor |].
  destruct (m _) as [code' [w out']]. intros [= <- <- <-]. split; [exact H3 |]. split; [exact H2 |]. by exists w.
Qed.

(** Every command ends, whatever the directory holds, whatever fails and whatever the clients
    of [serve] do: a refused command line opens nothing, a refused store is exit code 3, a
    port that cannot be listened on is exit code 4 of [serve]; [demo] never exits with its
    own code 4, for the accounting it prints is closed; and the engine a command leaves
    behind is closed, with no fence and no evidence in it. *)
Theorem commands_end_cleanly clock nonce1 nonce2 disks start traffic argv code out left :
  main clock nonce1 nonce2 disks start traffic argv = (code, out, left) ->
  (code = 0 \/ (code = 2 /\ left = None) \/ code = 3 \/
   (code = 4 /\ is_affirmative (start (port_of (parse argv))).1 = false)) /\
  Forall honest out /\
  forall root w, left = Some (root, w) ->
    eg_opened w.1 = false /\ records_ (eg_fences w.1) = [] /\ scopes_ (eg_ledger w.1) = [].
Proof.
  unfold main.
  assert (forall r, usage = r \/ (0, [LVersion "Blackhole Guard" "1.0.1" 1 kProtocolVersion], None) = r -> r = (code, out, left) ->
    (code = 0 \/ (code = 2 /\ left = None)) /\ Forall honest out /\ left = None) as Hn.
  { intros r [<- | <-] [= <- <- <-]; split; auto; (split; [repeat constructor | done]). }
  destruct argv as [| prog [| mode argv]]; [| | cbn zeta; repeat case_match]; intros E;
    try (apply Hn in E; [| by auto]; destruct E as (K1 & K2 & ->); split_and!; [tauto | exact K2 | intros; discriminate]).
  all: eapply launch_ends in E;
    [| first [apply demo_ends | apply report_ends | apply serve_ends, cli_bound]].
  all: destruct E as (K1 & K2 & w & -> & K3); split_and!; [tauto | exact K2 | by intros ? ? [= _ <-]].
Qed.

(** ** Fixtures *)

(** A clock that ticks a millisecond per reading; an empty directory. *)
Definition fx_cli_clock (n : nat) : WallNs := MkWall (1700000000000000000 + 1000000 * Z.of_nat n).
Definition fx_empty (_ : string) : Disk := MkDisk None None None [].
Definition fx_listen (port : Z) : Outcome * Z := (Ok, port).
Definition fx_demo (args : list string) : Run :=
  main fx_cli_clock 11 12 fx_empty fx_listen [] ("bhg-cli" :: "demo" :: args).

Definition fx_argv : list string := ["bhg-cli"; "demo"].

Example commands_end_cleanly_witness :
  exists code out left, main fx_cli_clock 11 12 fx_empty fx_listen [] fx_argv = (code, out, left) /\ Forall honest out.
Proof.
  destruct (main fx_cli_clock 11 12 fx_empty fx_listen [] fx_argv) as [[code out] left] eqn:E. exists code, out, left.
  split; [reflexivity |]. exact (proj1 (proj2 (commands_end_cleanly _ _ _ _ _ _ _ _ _ _ E))).
Defined.

(** What the demo shows on an empty directory: no evidence, one source that does not
    corroborate, two that do and earn an intent, its localization, and a refused restoration. *)
Example demo_run :
  let '(code, out, _) := fx_demo [] in
  (code, omap (fun l => match l with LDecision p _ _ cl st co it => Some (p, cl, st, co, it) | _ => None end) out) = (0,
  [("[no-evidence]", "NO_EVIDENCE", "NONE", false, false);
   ("[one-source]", "BLACKHOLE", "ELIGIBILITY", false, false);
   ("[corroborated]", "BLACKHOLE", "INTENT", true, true);
   ("[localized]", "BLACKHOLE", "INTENT", true, true);
   ("[restore-refused]", "BLACKHOLE", "OBSERVATION", false, false)]).
Proof. vm_compute. reflexivity. Qed.

Definition fx_left (r : Run) : EngineWorld :=
  match r with (_, _, Some (_, w)) => w | _ => (new_Engine (cli_config Provenance.Synthetic), fx_empty "") end.
Definition fx_report (d : Disk) : Run := main (fun n => fx_cli_clock (n + 1000)) 13 14 (fun _ => d) fx_listen [] ["bhg-cli"; "report"].

(** A report behind the demo: the restart is seen, the prior fence is fenced, and the epoch
    has advanced. *)
Example report_run :
  let '(code, out, _) := fx_report (fx_left (fx_demo [])).2 in
  (code, take 4 out) = (0,
  [LOutcome "Ok" "store open"; LIdentity "boot:000000000000000d" "inc:000000000000000e" 2 2 2;
   LRestart true true false 0 true 1; LLineage 11 0 11 true]).
Proof. vm_compute. reflexivity. Qed.

(** ** What the command line gets wrong *)

(** The closure that [report] prints is that of what it shows: of a healthy lineage it says
    closed only as long as no more than 64 entries are retained. *)
Theorem report_closed_iff e :
  lineage_accounting_closed (state_ (eg_store e)) = true ->
  zlen (ds_lineage (state_ (eg_store e))) < 2 ^ 64 -> in_u64 (ds_lineage_dropped (state_ (eg_store e))) ->
  let '(_, entries, seen, dropped) := engine_lineage 64 e in
  lineage_line entries seen dropped =
  LLineage seen dropped (Z.min 64 (zlen (ds_lineage (state_ (eg_store e)))))
    (zlen (ds_lineage (state_ (eg_store e))) <=? 64).
Proof.
  intros Hc Hn Hd. unfold engine_lineage. set (s := state_ (eg_store e)) in *. unfold lineage_line.
  set (n := zlen (ds_lineage s)) in *. assert (0 <= n) as H0 by apply Zle_0_nat.
  assert (zlen (drop (Z.to_nat (n - Z.min 64 n)) (ds_lineage s)) = Z.min 64 n) as ->.
  { unfold zlen in *. rewrite length_drop. fold n. unfold n, zlen. lia. }
  f_equal. apply Z.eqb_eq in Hc. fold n in Hc. rewrite Hc. apply eq_true_iff_eq. rewrite Z.eqb_eq, Z.leb_le.
  unfold u64_add, wrap, in_u in *. change (2 ^ 64) with 18446744073709551616 in *.
  split; [| intros; f_equal; lia]. Z.div_mod_to_equations; lia.
Qed.

(** [demo --label real] fabricates its observations, which are labelled synthetic, and issues
    decisions and a durable fencing intent labelled real from them. *)
Definition fx_real : EngineWorld := (fx_left (fx_demo ["--label"; "real"])).

Theorem synthetic_evidence_presented_as_real :
  provenance (failure_from 1 (path_scope_of 1) (gens_of 1 1 1 1) 1 (fx_cli_clock 1) 32) = Provenance.Synthetic /\
  map (fun f => fi_provenance (fp_intent f)) (ds_fences (state_ (eg_store fx_real.1))) = [Provenance.Real].
Proof. vm_compute. split; reflexivity. Qed.

(** The decision a fence names is a hash of the fence's own identifier: no decision is
    recorded under it, so the lineage of a fence leads to no decision. *)
Theorem fence_names_no_decision :
  let lineage := ds_lineage (state_ (eg_store (fx_left (fx_demo [])).1)) in
  let named := map ln_decision (filter (fun x => ln_type x = RecordType.FenceIntentCommit) lineage) in
  let recorded := map ln_decision (filter (fun x => ln_type x = RecordType.DecisionCommit) lineage) in
  length named = 1%nat /\ length recorded = 6%nat /\ list_intersection named recorded = [].
Proof. vm_compute. split_and!; reflexivity. Qed.
