(* ===== verification/Examples.v ===== *)
(** * The embedding examples

    Models [examples/observe_and_fence.cpp], a program over [Engine] as [Console] has them,
    and [examples/query_lineage.cpp], which opens the [Store] a run of the first has left. *)
From Stdlib Require Import Strings.String.
From S2P Require Import Prelude OrderedMap Core Checked Codec Hash Ids Domain Policy Fixtures Ledger Classifier.
From S2P Require Import Localizer Fence Authority Record Journal Snapshot Durable Store Engine EngineSpec Console.
Local Open Scope string_scope.
Local Open Scope list_scope.
Local Open Scope Z_scope.

(** ** Observe and fence *)

(** examples/observe_and_fence.cpp:18-23 path_scope_of *)
Definition path_scope_of (path : Z) : Scope := MkScope ScopeKind.Path (MkId path) (MkId 0) (MkId 0) 0 0.

(** examples/observe_and_fence.cpp:25-32 gens_of *)
Definition gens_of (epoch : Z) : GenerationVector := MkGens (MkGen 1) (MkGen 1) (MkGen 1) (MkGen epoch).

(** examples/observe_and_fence.cpp:34-55 evidence_of *)
Definition evidence_of (source : Z) (scope : Scope) (g : GenerationVector) (seq : Z) (at_ : WallNs) (failure : bool)
  : DeliveryEvidence :=
  let e id :=
    MkEvidence id (MkSource (MkId source) (MkId source) (MkId source) (MkGen 1)) scope g (MkSeq seq) (MkId seq)
      (if failure then EvidenceKind.DeliveryFailure else EvidenceKind.DeliverySuccess) EvidenceQuality.Exact
      Provenance.Synthetic 64 (if failure then 64 else 0) (if failure then kLossTotalPpm else 0) 0 at_
      (MkWindow at_ (MkWall (wall_ns at_ + 300 * 1000000000))) (MkId 0) in
  e (derive_evidence_id (e (MkId 0))).

(** What the program prints: a format string of it with its arguments. *)
Inductive Shown :=
| SOpenFailed (outcome : string)
| SClassified (classification stage : string) (corroborated : bool)
| SIntent (fence : string) (epoch : Z)
| SLocalized (status : string) (size : Z) (proven : bool) (elements : list Z)
| SAccounting (closed : bool) (evaluations committed : Z).

Section Example.
Context (clock : nat -> WallNs) (nonce1 nonce2 : Z).

(** What follows an intent: the owner of the route takes it over.
    examples/observe_and_fence.cpp:89-96 main (intent) *)
Definition offer_intent (d : Decision) : ProgM Shown unit :=
  if dc_has_intent d then
    let i := dc_intent d in
    print [SIntent (to_text_FenceId (fi_id i)) (gen_value (gv_epoch (fi_gens i)))] ;;
    engine (acknowledge_fence clock (fi_id i) (MkId 7)) ;;
    engine (engine_report_effect clock (fi_id i) (MkId 7) true) ;;
    mret tt
  else mret tt.

(** examples/observe_and_fence.cpp:98-108 main (localization) *)
Definition show_localization (scope : Scope) (gens : GenerationVector) : ProgM Shown unit :=
  '(_, d) ← engine (engine_localize clock scope gens 8 [MkProbe 0 3 true; MkProbe 3 8 false; MkProbe 5 8 false]);
  let l := dc_localization d in
  if dc_has_localization d then
    print [SLocalized (LocalizationStatus.to_string (status l)) (optimal_size l) (optimality_proven l) (elements l)]
  else mret tt.

(** examples/observe_and_fence.cpp:59-117 main *)
Definition observe_and_fence : ProgM Shown Z :=
  scoped (opening clock nonce1 nonce2 (fun o => SOpenFailed (outcome_to_string o)) 1 (
    let scope := path_scope_of 1 in
    let gens := gens_of 1 in
    at_ ← engine (read_now clock);
    engine (submit clock (evidence_of 1 scope gens 1 at_ true)) ;;
    engine (submit clock (evidence_of 2 scope gens 1 at_ true)) ;;
    '(_, d) ← engine (evaluate clock scope gens);
    print [SClassified (Classification.to_string (dc_classification d)) (AuthorityStage.to_string (av_stage (dc_authority d)))
             (dc_corroborated d)] ;;
    offer_intent d ;;
    show_localization scope gens ;;
    e ← engine get_engine;
    let s := eg_stats e in
    print [SAccounting (es_accounting_closed s) (es_evaluations s) (es_decisions_committed s)] ;;
    engine engine_close ;;
    mret (if es_accounting_closed s then 0 else 2))).

(** ** Query the lineage *)

Inductive Reported :=
| ROpenFailed (outcome : string)
| RBoots (boot_count open_count epoch fenced_prior_fences : Z)
| RRestart (snapshot restart torn : bool) (reclaimed : Z)
| RLineage (retained seen dropped : Z) (closed : bool).

(** The store is closed again when it goes out of scope. examples/query_lineage.cpp:16-46 main *)
Definition query_lineage : StoreM (Z * list Reported) :=
  o ← store_open nonce1 nonce2 (clock 0) Provenance.Synthetic;
  t ← get_store;
  let r := report_ t in
  let s := state_ t in
  let run :=
    if negb (is_affirmative o) then mret (1, [ROpenFailed (outcome_to_string o)])
    else
      store_close ;;
      mret (0,
        [RBoots (or_boot_count r) (or_open_count r) (gen_value (or_epoch r)) (or_fenced_prior_fences r);
         RRestart (or_snapshot_present r) (or_restart_detected r) (or_torn_tail_recovered r) (or_reclaimed_tail_bytes r);
         RLineage (zlen (ds_lineage s)) (ds_lineage_seen s) (ds_lineage_dropped s) (lineage_accounting_closed s)]) in
  result ← run; store_close ;; mret result.

End Example.

(** ** The guarantees of the examples *)

Definition shown_closed (l : Shown) : Prop := match l with SAccounting closed _ _ => closed = true | _ => True end.

(** [observe_and_fence] ends with exit code 0, or with 1 when its directory does not open;
    the accounting it prints is closed, and it leaves no fence and no evidence in memory. *)
Theorem observe_and_fence_ends clock nonce1 nonce2 c :
  ends shown_closed clock c (observe_and_fence clock nonce1 nonce2) (fun code => code = 0 \/ code = 1).
Proof.
  apply ends_scoped, (ensures_opening _ _ _ _ _ _ _ _ (fun code => code = 0 \/ code = 1)); [intros o; exact I | by right |].
  assert (forall d, lawful shown_closed clock c (offer_intent clock d)) as Ho by (intros d; unfold offer_intent; command).
  assert (forall s g, lawful shown_closed clock c (show_localization clock s g)) as Hl
    by (intros s g; unfold show_localization; command).
  do 6 (cbn beta zeta; command_step).
  apply ensures_then; [apply Ho | intros _]. apply ensures_then; [apply Hl | intros _].
  apply (ensures_bind _ _ _ _ _ _ _ (ensures_get _ _ _)). intros e He. cbn beta zeta. rewrite He.
  command. apply ensures_ret. by left.
Qed.

(** ** The two examples, one after the other *)

Definition fx_example_clock (n : nat) : WallNs := MkWall (1700000000000000000 + 1000000 * Z.of_nat n).
Definition fx_observed : Z * ProgWorld Shown :=
  observe_and_fence fx_example_clock 11 12
    ((new_Engine (MkEngineConfig default_config default_policy Provenance.Synthetic), MkDisk None None None []), []).
(** The second example on what the first has left. *)
Definition fx_queried (d : Disk) : Z * list Reported :=
  (query_lineage (fun n => fx_example_clock (n + 1000)) 13 14 (new_Store default_config default_policy, d)).1.

(** Two sources fence the path and localize the loss to its hop 5; the next process finds
    the lineage of the first, one fence of it fenced, and the epoch advanced. *)
Example observed_then_queried :
  let '(code, (w, shown)) := fx_observed in
  (code, shown, fx_queried w.2) =
  (0,
   [SClassified "BLACKHOLE" "INTENT" true; SIntent "fence:18e632384a91a5fe" 1;
    SLocalized "Ambiguous" 1 true [5]; SAccounting true 2 3],
   (0, [RBoots 2 2 2 1; RRestart false true false 0; RLineage 8 8 0 true])).
Proof. vm_compute. reflexivity. Qed.
